(** * Statistical test engine for 32-bit word streams (stats.cpp)

    A shallow embedding of the functions of [stats.cpp]: the summary
    statistics ([mean], [stdev], [coeff_var]), the chi-squared uniformity
    statistic and the five NIST-style bit tests.

    - Machine integers are [Z] with the wrap-around of their C++ type
      written out (LP64: [int] is 32 bits, [size_t], [unsigned long] and
      [uint64_t] are 64 bits).
    - [double] is IEEE-754 binary64, taken from the standard library's
      executable specification [SpecFloat] (precision 53, emax 1024), so
      every function below can be evaluated on concrete buffers.
    - [erfc] comes from the C math library, not from this repository; the
      tests take it as a parameter. *)

From Stdlib Require Import ZArith QArith_base List Bool Lia Znumtheory.
From Stdlib Require Import Permutation.
From Stdlib Require Import SpecFloat.
Import ListNotations.
Local Open Scope Z_scope.

(** ** Machine integers *)

Module MachineInt.

Definition INT_MAX : Z := 2 ^ 31 - 1.
Definition INT_MIN : Z := - 2 ^ 31.

Definition wrap_u32 (x : Z) : Z := x mod 2 ^ 32.
Definition wrap_u64 (x : Z) : Z := x mod 2 ^ 64.

(** Two's complement reading of the low [32] (resp. [64]) bits. *)
Definition wrap_s32 (x : Z) : Z := (x + 2 ^ 31) mod 2 ^ 32 - 2 ^ 31.
Definition wrap_s64 (x : Z) : Z := (x + 2 ^ 63) mod 2 ^ 64 - 2 ^ 63.

Definition b2z (b : bool) : Z := if b then 1 else 0.

End MachineInt.
Import MachineInt.

(** ** Counted loops

    [for_range i k body s] runs [body i], [body (i+1)], ... [k] times,
    threading the loop state [s]; [for_upto n] is
    [for (i = 0; i < n; ++i)]. *)

Fixpoint for_range {S : Type} (i : Z) (k : nat) (body : Z -> S -> S) (s : S) : S :=
  match k with
  | O => s
  | Datatypes.S k' => for_range (i + 1) k' body (body i s)
  end.

Definition for_upto {S : Type} (n : Z) (body : Z -> S -> S) (s : S) : S :=
  for_range 0 (Z.to_nat n) body s.

(** ** Buffers and arrays *)

(** [w[i]]: a read outside the buffer yields 0 in the model. *)
Definition word_at (w : list Z) (i : Z) : Z := nth (Z.to_nat i) w 0.

(** [(w[i / 32] >> (i % 32)) & 1]: linear bit addressing, least
    significant bit of each word first. *)
Definition bit_at (w : list Z) (i : Z) : Z :=
  Z.land (Z.shiftr (word_at w (i / 32)) (i mod 32)) 1.

(** [++a[idx]] on an array of 64-bit unsigned counters; an index outside
    the array leaves the model unchanged, where the code writes out of
    bounds: the properties below are stated where the index is in
    range. *)
Fixpoint incr_nat (a : list Z) (k : nat) : list Z :=
  match a, k with
  | [], _ => []
  | x :: r, O => wrap_u64 (x + 1) :: r
  | x :: r, Datatypes.S k' => x :: incr_nat r k'
  end.

Definition array_incr (a : list Z) (idx : Z) : list Z :=
  if idx <? 0 then a else incr_nat a (Z.to_nat idx).

Definition array_get (a : list Z) (idx : Z) : Z :=
  if idx <? 0 then 0 else nth (Z.to_nat idx) a 0.

Definition word_ok (x : Z) : Prop := 0 <= x < 2 ^ 32.

(** A well-formed buffer: [len] words, each in [0, 2^32), whose [32 * len]
    bits can be indexed by a [size_t]. *)
Record buffer_ok (w : list Z) (len : Z) : Prop := {
  buf_len : len = Z.of_nat (length w);
  buf_words : Forall word_ok w;
  buf_bits : len * 32 < 2 ^ 64
}.

(** ** IEEE-754 binary64 *)

Module Double.

Definition prec : Z := 53.
Definition emax : Z := 1024.

Definition double : Type := spec_float.

Definition add : double -> double -> double := SFadd prec emax.
Definition sub : double -> double -> double := SFsub prec emax.
Definition mul : double -> double -> double := SFmul prec emax.
Definition div : double -> double -> double := SFdiv prec emax.
Definition sqrt : double -> double := SFsqrt prec emax.
Definition neg : double -> double := SFopp.
Definition fabs : double -> double := SFabs.

(** Integer to double conversion (round to nearest, ties to even). *)
Definition of_Z (z : Z) : double := binary_normalize prec emax z 0 false.

Definition eqb : double -> double -> bool := SFeqb.
Definition ltb : double -> double -> bool := SFltb.
Definition leb : double -> double -> bool := SFleb.
(** [x >= y] and [x > y]; both are false when an operand is NaN. *)
Definition geb (x y : double) : bool := SFleb y x.
Definition gtb (x y : double) : bool := SFltb y x.

(** The integer part of a double, rounding toward zero. *)
Definition trunc (x : double) : Z :=
  match x with
  | S754_finite s m e => cond_Zopp s (Z.shiftl (Zpos m) e)
  | _ => 0
  end.

(** The largest integer below or equal to a double. *)
Definition floor (x : double) : Z :=
  match x with
  | S754_finite false m e => Z.shiftl (Zpos m) e
  | S754_finite true m (Zneg k) =>
      - Z.shiftr (Zpos m + Z.ones (Zpos k)) (Zpos k)
  | S754_finite true m e => - Z.shiftl (Zpos m) e
  | _ => 0
  end.

(** [(int)x]: truncation toward zero.  Outside the range of [int], and
    for NaN and the infinities, the conversion is undefined in C++; the
    model takes what x86-64 produces there, [INT_MIN]. *)
Definition to_int (x : double) : Z :=
  match x with
  | S754_zero _ => 0
  | S754_finite _ _ _ =>
      let t := trunc x in
      if (INT_MIN <=? t) && (t <=? INT_MAX) then t else INT_MIN
  | _ => INT_MIN
  end.

Definition zero : double := S754_zero false.
Definition half : double := S754_finite false 4503599627370496 (-53).
Definition one : double := S754_finite false 4503599627370496 (-52).
Definition two : double := S754_finite false 4503599627370496 (-51).
Definition four : double := S754_finite false 4503599627370496 (-50).
(** The double nearest to 0.01, the significance level. *)
Definition alpha : double := S754_finite false 5764607523034235 (-59).

End Double.

Declare Scope double_scope.
Delimit Scope double_scope with D.
Infix "+" := Double.add : double_scope.
Infix "-" := Double.sub : double_scope.
Infix "*" := Double.mul : double_scope.
Infix "/" := Double.div : double_scope.
Notation "- x" := (Double.neg x) : double_scope.
Infix ">=?" := Double.geb (at level 70) : double_scope.
Infix ">?" := Double.gtb (at level 70) : double_scope.
Infix "=?" := Double.eqb (at level 70) : double_scope.

(** ** Summary statistics *)

(** The 64-bit accumulator of [mean] after the loop. *)
Definition mean_sum (data : list Z) (n : Z) : Z :=
  for_upto n (fun i sum => wrap_u64 (sum + word_at data i)) 0.

Definition mean (data : list Z) (n : Z) : Double.double :=
  (Double.of_Z (mean_sum data n) / Double.of_Z n)%D.

(** The accumulator of [stdev] after the loop. *)
Definition stdev_acc (data : list Z) (n : Z) (m : Double.double) : Double.double :=
  for_upto n
    (fun i acc =>
       (acc + (Double.of_Z (word_at data i) - m) * (Double.of_Z (word_at data i) - m))%D)
    Double.zero.

Definition stdev (data : list Z) (n : Z) (m : Double.double) : Double.double :=
  Double.sqrt (stdev_acc data n m / Double.of_Z n)%D.

Definition coeff_var (m sd : Double.double) : Double.double :=
  if (m =? Double.zero)%D then Double.zero else (sd / m)%D.

(** ** Chi-squared statistic *)

(** The bin of one sample: [((uint64_t)x * bins) / max_val] converted to
    [int], then clamped to [bins - 1].  The division is that of the code
    for [max_val >= 1] (the code traps on [max_val = 0], where the
    division of [Z] yields 0), and the conversion for a quotient within
    [int]; the properties below are stated on that domain. *)
Definition chi_bin (x bins max_val : Z) : Z :=
  let idx := wrap_s32 (wrap_u64 (x * wrap_u64 bins) / max_val) in
  if idx >=? bins then bins - 1 else idx.

(** The histogram [freq] after the first loop. *)
Definition chi_freq (data : list Z) (n bins max_val : Z) : list Z :=
  for_upto n
    (fun i freq => array_incr freq (chi_bin (word_at data i) bins max_val))
    (repeat 0 (Z.to_nat bins)).

(** The second loop, over a histogram. *)
Definition chi_sum (freq : list Z) (bins : Z) (expected : Double.double) : Double.double :=
  for_upto bins
    (fun i chi2 =>
       let diff := (Double.of_Z (array_get freq i) - expected)%D in
       (chi2 + diff * diff / expected)%D)
    Double.zero.

Definition chi_squared (data : list Z) (n bins max_val : Z) : Double.double :=
  let freq := chi_freq data n bins max_val in
  let expected := (Double.of_Z n / Double.of_Z bins)%D in
  chi_sum freq bins expected.

(** ** Bit counting *)

(** [while (x) { count += x & 1u; x >>= 1; }]; a 32-bit [x] is zero after
    at most 32 shifts, which bounds the loop. *)
Fixpoint popcount_loop (fuel : nat) (x count : Z) : Z :=
  match fuel with
  | O => count
  | Datatypes.S fuel' =>
      if x =? 0 then count
      else popcount_loop fuel' (Z.shiftr x 1) (wrap_s32 (count + Z.land x 1))
  end.

Definition popcount32 (x : Z) : Z := popcount_loop 32 x 0.

(** ** The NIST-style bit tests *)

Section NistTests.

(** The complementary error function of the C math library. *)
Variable erfc : Double.double -> Double.double.

(** A verdict: 1 (pass) iff the p-value is at least 0.01. *)
Definition verdict (p : Double.double) : Z := b2z (p >=? Double.alpha)%D.

(** *** Monobit *)

Definition monobit_ones (w : list Z) (len : Z) : Z :=
  for_upto len (fun i ones => wrap_s64 (ones + popcount32 (word_at w i))) 0.

Definition monobit_s (w : list Z) (len : Z) : Double.double :=
  let ones := monobit_ones w len in
  let n := wrap_s32 (wrap_s32 len * 32) in
  (Double.fabs (Double.two * Double.of_Z ones - Double.of_Z n)
     / Double.sqrt (Double.of_Z n))%D.

Definition nist_monobit (w : list Z) (len : Z) : Z :=
  verdict (erfc (monobit_s w len / Double.sqrt Double.two)%D).

(** *** Block frequency *)

(** The inner loop over the [M] bits of one block; the state is
    [(ones, bit)]. *)
Definition block_ones (w : list Z) (M : Z) (bit : Z) : Z * Z :=
  for_upto M
    (fun _ '(ones, bit) =>
       (wrap_s32 (ones + bit_at w bit), wrap_u64 (bit + 1)))
    (0, bit).

(** The outer loop over the blocks; the state is [(chi, bit)]. *)
Definition block_chi (w : list Z) (M nBlocks : Z) : Double.double * Z :=
  for_upto nBlocks
    (fun _ '(chi, bit) =>
       let '(ones, bit') := block_ones w M bit in
       let pi := (Double.of_Z ones / Double.of_Z M)%D in
       ((chi + (pi - Double.half) * (pi - Double.half))%D, bit'))
    (Double.zero, 0).

Definition nist_block_frequency (w : list Z) (len M : Z) : Z :=
  let nBits := wrap_u64 (len * 32) in
  let nBlocks := nBits / M in
  if nBlocks <? 20 then 0
  else
    let chi := fst (block_chi w M nBlocks) in
    let chi := (chi * (Double.four * Double.of_Z M))%D in
    let p :=
      erfc (Double.sqrt (chi / Double.two)
            / Double.sqrt (Double.of_Z nBlocks / Double.two))%D in
    verdict p.

(** *** Runs *)

(** The loop state of [nist_runs]. *)
Record runs_state : Type := {
  rs_ones : Z;
  rs_prev : Z;
  rs_runsCnt : Z
}.

Definition runs_step (w : list Z) (i : Z) (st : runs_state) : runs_state :=
  let bit := bit_at w i in
  let ones := wrap_s64 (rs_ones st + bit) in
  if negb (bit =? rs_prev st)
  then {| rs_ones := ones; rs_prev := bit;
          rs_runsCnt := wrap_s32 (rs_runsCnt st + 1) |}
  else {| rs_ones := ones; rs_prev := rs_prev st;
          rs_runsCnt := rs_runsCnt st |}.

Definition runs_loop (w : list Z) (len : Z) : runs_state :=
  let n := wrap_u64 (len * 32) in
  let prev := Z.land (word_at w 0) 1 in
  for_range 1 (Z.to_nat (n - 1)) (runs_step w)
    {| rs_ones := prev; rs_prev := prev; rs_runsCnt := 1 |}.

Definition runs_pi (w : list Z) (len : Z) : Double.double :=
  (Double.of_Z (rs_ones (runs_loop w len))
     / Double.of_Z (wrap_u64 (len * 32)))%D.

(** The statistic [z] of the second stage. *)
Definition runs_z (runsCnt n : Z) (pi : Double.double) : Double.double :=
  let dn := Double.of_Z n in
  let expRuns := (Double.two * dn * pi * (Double.one - pi))%D in
  (Double.fabs (Double.of_Z runsCnt - expRuns)
     / (Double.two * Double.sqrt (Double.two * dn) * pi * (Double.one - pi)))%D.

Definition nist_runs (w : list Z) (len : Z) : Z :=
  let n := wrap_u64 (len * 32) in
  let st := runs_loop w len in
  let pi := runs_pi w len in
  if (Double.fabs (pi - Double.half) >? Double.two / Double.sqrt (Double.of_Z n))%D
  then 0
  else verdict (erfc (runs_z (rs_runsCnt st) n pi)).

(** *** Cumulative sums *)

(** One step of the walk; the state is [(s, zmax)]. *)
Definition cusum_step (w : list Z) (i : Z) (st : Z * Z) : Z * Z :=
  let '(s, zmax) := st in
  let s := wrap_s64 (s + (if bit_at w i =? 0 then -1 else 1)) in
  if s >? zmax then (s, s)
  else if wrap_s64 (- s) >? zmax then (s, wrap_s64 (- s))
  else (s, zmax).

Definition cusum_walk (w : list Z) (len : Z) : Z * Z :=
  for_upto (wrap_u64 (len * 32)) (cusum_step w) (0, 0).

Definition cusum_zmax (w : list Z) (len : Z) : Z := snd (cusum_walk w len).

(** The doubles converted to the loop bounds [start] and [end]. *)
Definition cusum_start_d (n zmax : Z) : Double.double :=
  ((- (Double.of_Z n / Double.of_Z zmax) + Double.one) / Double.four)%D.

Definition cusum_end_d (n zmax : Z) : Double.double :=
  ((Double.of_Z n / Double.of_Z zmax - Double.one) / Double.four)%D.

Definition cusum_start (n zmax : Z) : Z := Double.to_int (cusum_start_d n zmax).
Definition cusum_end (n zmax : Z) : Z := Double.to_int (cusum_end_d n zmax).

(** The term subtracted from [p] at index [k]. *)
Definition cusum_term (n zmax k : Z) : Double.double :=
  let dz := Double.of_Z zmax in
  let r := Double.sqrt (Double.two * Double.of_Z n)%D in
  let a := ((Double.four * Double.of_Z k + Double.one) * dz / r)%D in
  let b := ((Double.four * Double.of_Z k - Double.one) * dz / r)%D in
  (erfc a - erfc b)%D.

(** [for (int k = start; k <= end; ++k) p -= ...], from [p = 1.0].  The
    counter of the model is unbounded; it is the [int k] of the code as
    long as [end < INT_MAX], the bound under which the value of the loop
    is used below. *)
Definition cusum_p (n zmax start end_ : Z) : Double.double :=
  for_range start (Z.to_nat (end_ - start + 1))
    (fun k p => (p - cusum_term n zmax k)%D)
    Double.one.

Definition nist_cumulative_sums (w : list Z) (len : Z) : Z :=
  let n := wrap_u64 (len * 32) in
  let zmax := cusum_zmax w len in
  if zmax =? 0 then 0
  else verdict (cusum_p n zmax (cusum_start n zmax) (cusum_end n zmax)).

(** *** Second-order serial *)

(** The loop state of [nist_serial2]: the counters and [prev]. *)
Record serial_state : Type := {
  ss_c1 : list Z;
  ss_c2 : list Z;
  ss_prev : Z
}.

Definition serial_step (w : list Z) (i : Z) (st : serial_state) : serial_state :=
  let b := bit_at w i in
  {| ss_c1 := array_incr (ss_c1 st) b;
     ss_c2 := if negb (ss_prev st =? -1)
              then array_incr (ss_c2 st) (Z.lor (Z.shiftl (ss_prev st) 1) b)
              else ss_c2 st;
     ss_prev := b |}.

(** The counters after the loop and the closing increment. *)
Definition serial_counts (w : list Z) (len : Z) : serial_state :=
  let first := Z.land (word_at w 0) 1 in
  let st := for_upto (wrap_u64 (len * 32)) (serial_step w)
              {| ss_c1 := [0; 0]; ss_c2 := [0; 0; 0; 0]; ss_prev := -1 |} in
  {| ss_c1 := ss_c1 st;
     ss_c2 := array_incr (ss_c2 st) (Z.lor (Z.shiftl (ss_prev st) 1) first);
     ss_prev := ss_prev st |}.

Definition serial_psi2_sum (c2 : list Z) : Double.double :=
  for_upto 4
    (fun i psi2 =>
       (psi2 + Double.of_Z (wrap_u64 (array_get c2 i * array_get c2 i)))%D)
    Double.zero.

Definition nist_serial2 (w : list Z) (len : Z) : Z :=
  let st := serial_counts w len in
  let c10 := array_get (ss_c1 st) 0 in
  let c11 := array_get (ss_c1 st) 1 in
  let dn := Double.of_Z (wrap_u64 (c10 + c11)) in
  let psi1 :=
    (Double.of_Z (wrap_u64 (wrap_u64 (c10 * c10) + wrap_u64 (c11 * c11)))
       * Double.two / dn - dn)%D in
  let psi2 := (serial_psi2_sum (ss_c2 st) * Double.four / dn - dn)%D in
  let diff := Double.fabs (psi2 - psi1)%D in
  verdict (erfc (diff / (Double.two * Double.sqrt (Double.two * dn)))%D).

End NistTests.

(** ** Reference notions used in the statements *)

(** The indices [0, 1, ..., n-1]. *)
Definition zrange (n : nat) : list Z := map Z.of_nat (seq 0 n).

(** The first [k] bits of the stream: bit [i] is bit [i mod 32] of word
    [i / 32]. *)
Definition bits_prefix (w : list Z) (k : nat) : list Z := map (bit_at w) (zrange k).

(** The bitstream of a buffer of [len] words. *)
Definition bits (w : list Z) (len : Z) : list Z :=
  bits_prefix w (Z.to_nat (len * 32)).

Definition list_sum (l : list Z) : Z := fold_right Z.add 0 l.

(** Number of one-bits of a bit list. *)
Definition count_ones (l : list Z) : Z := list_sum l.

(** Number of maximal runs of identical consecutive bits. *)
Fixpoint count_runs (l : list Z) : Z :=
  match l with
  | [] => 0
  | b :: r =>
      match r with
      | [] => 1
      | c :: _ => (if b =? c then 0 else 1) + count_runs r
      end
  end.

(** Number of occurrences of [v] in [l]. *)
Definition tally (v : Z) (l : list Z) : Z := Z.of_nat (count_occ Z.eq_dec l v).

(** The overlapping pairs of positions of a cyclic stream of [n] bits:
    [(i, i+1)] for every position [i], the last one wrapping to 0. *)
Definition cyclic_pairs (n : Z) : list (Z * Z) :=
  map (fun i => (i, (i + 1) mod n)) (zrange (Z.to_nat n)).

(** The counter a pair of positions falls into: [2 * first + second]. *)
Definition pair_pattern (w : list Z) (p : Z * Z) : Z :=
  2 * bit_at w (fst p) + bit_at w (snd p).

(** In how many pairs position [j] takes part, as first or second bit. *)
Definition participations (j : Z) (ps : list (Z * Z)) : Z :=
  tally j (map fst ps) + tally j (map snd ps).

(** The patterns [2 * bit i + bit (i+1)] of the linear pairs [(i, i+1)],
    [i < k]. *)
Definition linear_patterns (w : list Z) (k : nat) : list Z :=
  map (fun i => 2 * bit_at w i + bit_at w (i + 1)) (zrange k).

(** The four counters of a list of patterns. *)
Definition tallies (L : list Z) : list Z := map (fun v => tally v L) [0; 1; 2; 3].

(** The 32 bits of a word, least significant first. *)
Definition word_bits (x : Z) : list Z :=
  map (fun j => Z.land (Z.shiftr x j) 1) (zrange 32).

(** The bin of a sample as the specification words it:
    [floor (x * B / R)], clamped to [B - 1]. *)
Definition bin_of (B R x : Z) : Z := Z.min (x * B / R) (B - 1).

(** The observed count of bin [i]: how many samples fall into it. *)
Definition observed (B R : Z) (data : list Z) (i : Z) : Z :=
  tally i (map (bin_of B R) data).

(** ** Notions for reasoning about binary64 rounding *)

(** The exponent of the format at magnitude [e]: [fexp 53 1024]. *)
Definition fexp64 (e : Z) : Z := Z.max (e - 53) (-1074).

(** A shift record that carries no rounding information. *)
Definition rec_exact (mrs : shr_record) : Prop :=
  shr_r mrs = false /\ shr_s mrs = false.

Fixpoint iter_nat {A : Type} (f : A -> A) (n : nat) (x : A) : A :=
  match n with
  | O => x
  | Datatypes.S n' => iter_nat f n' (f x)
  end.

(** The float made of the rounded mantissa [m] (at most [2^53]) at
    exponent [e]: the last step of [binary_round_aux]. *)
Definition pack (s : bool) (m e : Z) : spec_float :=
  match m with
  | Z0 => S754_zero s
  | Zpos p =>
      if m =? 2 ^ 53
      then (if e + 1 <=? 971 then S754_finite s 4503599627370496 (e + 1)
            else S754_infinity s)
      else (if e <=? 971 then S754_finite s p e else S754_infinity s)
  | Zneg _ => S754_nan
  end.

(** The value of the mantissa [m] at exponent [e], in units of [2^-1074]
    (the smallest positive double); an integer when [-1074 <= e]. *)
Definition Vfin (m e : Z) : Z := m * 2 ^ (e + 1074).

(** The magnitude of a double in units of [2^-1074]; 0 for the zeros, and
    by convention for NaN and the infinities. *)
Definition Vabs (x : spec_float) : Z :=
  match x with
  | S754_finite _ m e => Vfin (Zpos m) e
  | _ => 0
  end.

(** A normal double: 53 significant bits, exponent in range. *)
Definition normal (x : spec_float) : Prop :=
  match x with
  | S754_finite _ m e => 2 ^ 52 <= Zpos m < 2 ^ 53 /\ -1074 <= e <= 971
  | _ => False
  end.

(** A positive normal double. *)
Definition normal_pos (x : spec_float) : Prop :=
  match x with
  | S754_finite false m e => 2 ^ 52 <= Zpos m < 2 ^ 53 /\ -1074 <= e <= 971
  | _ => False
  end.

(** All the elements of a list are equal. *)
Definition all_equal (l : list Z) : Prop :=
  forall x y, In x l -> In y l -> x = y.

(** A double that is [+0], [+infinity], or positive normal and at least
    [lo] (in units of [2^-1074]). *)
Definition nonneg_class (lo : Z) (x : spec_float) : Prop :=
  x = S754_zero false \/ x = S754_infinity false
  \/ (normal_pos x /\ lo <= Vabs x).

(** The lower loop bound of the cumulative-sums test as a floor: the
    largest integer below or equal to the double [(-n/zmax + 1) / 4]. *)
Definition cusum_start_floor (n zmax : Z) : Z := Double.floor (cusum_start_d n zmax).

(** The integers [lo, lo + 1, ..., hi]. *)
Definition zinterval (lo hi : Z) : list Z :=
  map (fun d => lo + d) (zrange (Z.to_nat (hi - lo + 1))).

(** ** The generators (generators.h)

    Each generator is a struct of 32-bit words; [next] returns the value
    produced together with the updated generator. *)

Module LCG.

Definition a : Z := 1664525.
Definition c : Z := 1013904223.

Record t : Type := mk { state : Z }.

(** [LCG(uint32_t s = 1u)]. *)
Definition make (s : Z) : t := mk s.
Definition default : t := make 1.

(** [a * state + c] in [uint32_t] arithmetic. *)
Definition step (s : Z) : Z := wrap_u32 (wrap_u32 (a * s) + c).

(** [return state = a * state + c;] *)
Definition next (g : t) : Z * t :=
  let s := step (state g) in (s, mk s).

End LCG.

Module XORShift32.

Record t : Type := mk { state : Z }.

(** [XORShift32(uint32_t s = 2463534242u)]. *)
Definition make (s : Z) : t := mk s.
Definition default : t := make 2463534242.

(** [x ^= x << 13; x ^= x >> 17; x ^= x << 5;] on a [uint32_t]. *)
Definition step (x : Z) : Z :=
  let x := Z.lxor x (wrap_u32 (Z.shiftl x 13)) in
  let x := Z.lxor x (Z.shiftr x 17) in
  let x := Z.lxor x (wrap_u32 (Z.shiftl x 5)) in
  x.

Definition next (g : t) : Z * t :=
  let x := step (state g) in (x, mk x).

End XORShift32.

Module MWC.

Definition a : Z := 4294957665.

Record t : Type := mk { state : Z; carry : Z }.

(** [MWC(uint64_t s = 88172645463325252ull)]: the low word is the state,
    the high word the carry. *)
Definition make (s : Z) : t := mk (wrap_u32 s) (wrap_u32 (Z.shiftr s 32)).
Definition default : t := make 88172645463325252.

(** [uint64_t p = uint64_t(a) * state + carry;] *)
Definition product (g : t) : Z := wrap_u64 (wrap_u64 (a * state g) + carry g).

Definition next (g : t) : Z * t :=
  let p := product g in
  let g' := mk (wrap_u32 p) (wrap_u32 (Z.shiftr p 32)) in
  (state g', g').

End MWC.

(** The generator after [n] calls of [next]. *)
Definition after {G : Type} (next : G -> Z * G) (n : nat) (g : G) : G :=
  iter_nat (fun g => snd (next g)) n g.

(** The inverse of the LCG step: [a^-1 * (s - c)] modulo [2^32]. *)
Definition lcg_unstep (s : Z) : Z := wrap_u32 (4276115653 * (s - LCG.c)).

(** [1 + a + ... + a^(n-1)] for the LCG multiplier. *)
Fixpoint lcg_geom (n : nat) : Z :=
  match n with
  | O => 0
  | Datatypes.S n' => 1 + LCG.a * lcg_geom n'
  end.

(** The three stages of the xorshift step: [x ^ (x << k)] and
    [x ^ (x >> k)] on 32-bit words. *)
Definition xsl (k x : Z) : Z := Z.lxor x (wrap_u32 (Z.shiftl x k)).
Definition xsr (k x : Z) : Z := Z.lxor x (Z.shiftr x k).

(** The inverse of the xorshift step: each stage is undone by repeating
    it (three more times for [<< 13], once for [>> 17], seven more times
    for [<< 5]). *)
Definition xorshift_unstep (y : Z) : Z :=
  iter_nat (xsl 13) 3 (xsr 17 (iter_nat (xsl 5) 7 y)).

(** A linear map over GF(2) on 32-bit words, given by the images of the
    unit words [2^0, ..., 2^31]: [mapply M x] is the xor of the images of
    the bits set in [x]. *)
Fixpoint mapply_from (M : list Z) (i : Z) (x : Z) : Z :=
  match M with
  | [] => 0
  | c :: M' => Z.lxor (if Z.testbit x i then c else 0) (mapply_from M' (i + 1) x)
  end.

Definition mapply (M : list Z) (x : Z) : Z := mapply_from M 0 x.

Definition unit_words : list Z := map (fun i => 2 ^ i) (zrange 32).

(** Composition, sum and powers of such maps. *)
Definition mmul (A B : list Z) : list Z := map (mapply A) B.

Definition madd (A B : list Z) : list Z :=
  map (fun p => Z.lxor (fst p) (snd p)) (combine A B).

Fixpoint mpow (A : list Z) (p : positive) : list Z :=
  match p with
  | xH => A
  | xO q => let B := mpow A q in mmul B B
  | xI q => let B := mpow A q in mmul A (mmul B B)
  end.

(** The xorshift step as such a map. *)
Definition xorshift_matrix : list Z := map XORShift32.step unit_words.

(** Trial division: none of [d, d + 1, ..., d + fuel - 1] divides [p]. *)
Fixpoint trial_division (fuel : nat) (d p : Z) : bool :=
  match fuel with
  | O => true
  | Datatypes.S fuel' => negb (p mod d =? 0) && trial_division fuel' (d + 1) p
  end.

(** [p] has no divisor strictly between 1 and [p]. *)
Definition no_proper_divisor (p : Z) : bool :=
  trial_division (Z.to_nat (p - 2)) 2 p.

(** The period of the xorshift generator and its prime factors. *)
Definition xorshift_period : Z := 2 ^ 32 - 1.
Definition xorshift_period_factors : list Z := [3; 5; 17; 257; 65537].

(** The 64-bit value [carry * 2^32 + state] of a multiply-with-carry
    generator, and the modulus [a * 2^32 - 1] of its arithmetic. *)
Definition mwc_value (g : MWC.t) : Z := MWC.state g + 2 ^ 32 * MWC.carry g.
Definition mwc_modulus : Z := MWC.a * 2 ^ 32 - 1.

(** Both fields are 32-bit words. *)
Definition mwc_ok (g : MWC.t) : Prop := word_ok (MWC.state g) /\ word_ok (MWC.carry g).

(** A state that is neither of the two fixed points of the step
    (value 0 and value [a * 2^32 - 1]) and whose carry is below [a]. *)
Definition mwc_regular (g : MWC.t) : Prop :=
  mwc_ok g /\ 0 < mwc_value g < mwc_modulus.

(** The generator whose value is [v]. *)
Definition mwc_of_value (v : Z) : MWC.t := MWC.mk (v mod 2 ^ 32) (v / 2 ^ 32).

(** The inverse of the MWC step: multiplication by [2^32] modulo
    [a * 2^32 - 1]. *)
Definition mwc_unstep (g : MWC.t) : MWC.t :=
  mwc_of_value ((2 ^ 32 * mwc_value g) mod mwc_modulus).

(** A double that is NaN or has its sign bit clear: [+0], a positive
    finite number or [+infinity]. *)
Definition sign_clear (x : spec_float) : Prop :=
  match x with
  | S754_nan => True
  | S754_zero s | S754_infinity s | S754_finite s _ _ => s = false
  end.

(** The random walk of the cumulative-sums test: bit [i] contributes
    [+1] when set and [-1] when clear; [walk_sum w k] is the sum of the
    first [k] contributions and [max_excursion w k] the largest absolute
    value among the first [k] partial sums. *)
Definition walk_step (w : list Z) (i : Z) : Z := if bit_at w i =? 0 then -1 else 1.

Definition walk_sum (w : list Z) (k : nat) : Z :=
  list_sum (map (walk_step w) (zrange k)).

Fixpoint max_excursion (w : list Z) (k : nat) : Z :=
  match k with
  | O => 0
  | Datatypes.S k' => Z.max (max_excursion w k') (Z.abs (walk_sum w k))
  end.

(** The bitwise complement of a buffer of 32-bit words. *)
Definition complement (w : list Z) : list Z := map (fun x => 2 ^ 32 - 1 - x) w.

(** The number of one-bits among the [k] bits starting at bit [start]. *)
Definition ones_from (w : list Z) (start : Z) (k : nat) : Z :=
  list_sum (map (fun j => bit_at w (start + j)) (zrange k)).

(** The statistic summed by the block-frequency test over the first
    [nBlocks] blocks of [M] bits: the squared deviations of the blocks'
    proportions of ones from one half, added in block order. *)
Definition block_deviation (w : list Z) (M : Z) (nBlocks : nat) : Double.double :=
  fold_left
    (fun chi b =>
       let pi := (Double.of_Z (ones_from w (b * M) (Z.to_nat M)) / Double.of_Z M)%D in
       (chi + (pi - Double.half) * (pi - Double.half))%D)
    (zrange nBlocks) Double.zero.

(** ** The driver (main.cpp)

    The deterministic part of [main]: filling a buffer from a generator,
    the statistics of one sample, their accumulation over the samples of
    one row and the averages the row prints.  The clock readings and the
    formatting of the output are not modelled. *)

(** [a[idx] = x]; a store outside the array leaves the model unchanged. *)
Fixpoint store_nat (a : list Z) (k : nat) (x : Z) : list Z :=
  match a, k with
  | [], _ => []
  | _ :: r, O => x :: r
  | y :: r, Datatypes.S k' => y :: store_nat r k' x
  end.

Definition array_store (a : list Z) (idx x : Z) : list Z :=
  if idx <? 0 then a else store_nat a (Z.to_nat idx) x.

Module Driver.

Definition sample_sizes : list Z :=
  [1000; 2000; 5000; 10000; 15000; 20000; 25000; 30000; 35000; 40000;
   45000; 50000; 55000; 60000; 70000; 75000; 80000; 85000; 90000; 100000].

Definition num_samples : Z := 10.

(** [(1ul << 32)], an [unsigned long]. *)
Definition range : Z := wrap_u64 (Z.shiftl 1 32).

Definition bins : Z := 1000.

(** [for (int j = 0; j < sample_size; ++j) buffer[j] = gen.next();] on
    the array [buffer], whose initial content is indeterminate. *)
Definition fill {G : Type} (next : G -> Z * G) (sample_size : Z)
    (buffer : list Z) (g : G) : list Z * G :=
  for_upto sample_size
    (fun j '(buffer, g) =>
       let '(x, g') := next g in (array_store buffer j x, g'))
    (buffer, g).

(** The nine accumulators [m, s, cv, chi2, monobit, ...]. *)
Record sums : Type := {
  m : Double.double;
  s : Double.double;
  cv : Double.double;
  chi2 : Double.double;
  monobit : Double.double;
  block_frequency : Double.double;
  runs : Double.double;
  cumulative_sums : Double.double;
  serial2 : Double.double
}.

Definition zero_sums : sums :=
  {| m := Double.zero; s := Double.zero; cv := Double.zero;
     chi2 := Double.zero; monobit := Double.zero;
     block_frequency := Double.zero; runs := Double.zero;
     cumulative_sums := Double.zero; serial2 := Double.zero |}.

Section Samples.

Variable erfc : Double.double -> Double.double.
Context {G : Type}.
Variable next : G -> Z * G.

(** The body of the inner loop: one sample of [sample_size] words is
    drawn and its statistics are added to the accumulators. *)
Definition sample (sample_size : Z) (buffer : list Z) (acc : sums) (g : G)
  : sums * G :=
  let '(buffer, g) := fill next sample_size buffer g in
  let m_i := mean buffer sample_size in
  let s_i := stdev buffer sample_size m_i in
  let cv_i := coeff_var m_i s_i in
  ({| m := (m acc + m_i)%D;
      s := (s acc + s_i)%D;
      cv := (cv acc + cv_i)%D;
      chi2 := (chi2 acc + chi_squared buffer sample_size bins range)%D;
      monobit :=
        (monobit acc + Double.of_Z (nist_monobit erfc buffer sample_size))%D;
      block_frequency :=
        (block_frequency acc
         + Double.of_Z (nist_block_frequency erfc buffer sample_size 128))%D;
      runs := (runs acc + Double.of_Z (nist_runs erfc buffer sample_size))%D;
      cumulative_sums :=
        (cumulative_sums acc
         + Double.of_Z (nist_cumulative_sums erfc buffer sample_size))%D;
      serial2 :=
        (serial2 acc + Double.of_Z (nist_serial2 erfc buffer sample_size))%D |},
   g).

(** One row of the table: [num_samples] samples of one size, then the
    averages that are printed.  [junk i] is the indeterminate initial
    content of the buffer of sample [i]. *)
Definition row_sums (sample_size : Z) (junk : Z -> list Z) (g : G) : sums * G :=
  for_upto num_samples
    (fun i '(acc, g) => sample sample_size (junk i) acc g)
    (zero_sums, g).

Definition averages (acc : sums) : sums :=
  let k := Double.of_Z num_samples in
  {| m := (m acc / k)%D; s := (s acc / k)%D; cv := (cv acc / k)%D;
     chi2 := (chi2 acc / k)%D; monobit := (monobit acc / k)%D;
     block_frequency := (block_frequency acc / k)%D; runs := (runs acc / k)%D;
     cumulative_sums := (cumulative_sums acc / k)%D;
     serial2 := (serial2 acc / k)%D |}.

Definition row (sample_size : Z) (junk : Z -> list Z) (g : G) : sums * G :=
  let '(acc, g) := row_sums sample_size junk g in (averages acc, g).

End Samples.

End Driver.

(** The values produced by the first [n] calls of [next]. *)
Definition outputs {G : Type} (next : G -> Z * G) (n : nat) (g : G) : list Z :=
  map (fun k => fst (next (after next k g))) (seq 0 n).

(** A double that is [+0] or a positive finite number in canonical form
    (normal or subnormal): what [erfc] returns on a number. *)
Definition nonneg_finite (x : spec_float) : bool :=
  match x with
  | S754_zero false => true
  | S754_finite false m e => bounded Double.prec Double.emax m e
  | _ => false
  end.

(** The outcome of rounding a positive quantity: [+0], [+infinity] or a
    positive finite double. *)
Definition nonneg_shape (x : spec_float) : Prop :=
  match x with
  | S754_zero false | S754_infinity false => True
  | S754_finite false _ e => -1074 <= e
  | _ => False
  end.

(** A zero, a negative finite double or [-infinity]. *)
Definition nonpos_shape (x : spec_float) : Prop :=
  match x with
  | S754_zero _ | S754_infinity true => True
  | S754_finite true _ e => -1074 <= e
  | _ => False
  end.

(** [+infinity], or a positive normal double that is at least 1. *)
Definition at_least_one (p : spec_float) : Prop :=
  p = S754_infinity false \/ (normal_pos p /\ 2 ^ 1074 <= Vabs p).

(** The double [r] is the non-negative rational [num / den] after one
    rounding: [+0] when the rational is 0; otherwise a positive normal
    double that is not below any normal double at or below the rational
    nor above any normal double at or above it.  So [r] is one of the two
    doubles that enclose the rational, and the rational itself when that
    is a double. *)
Definition rounds_to (num den : Z) (r : spec_float) : Prop :=
  (num = 0 /\ r = S754_zero false)
  \/ (0 < num /\ normal_pos r
      /\ forall mb eb, 2 ^ 52 <= mb < 2 ^ 53 -> -1074 <= eb <= 971 ->
           (Vfin mb eb * den <= num * 2 ^ 1074 -> Vfin mb eb <= Vabs r)
           /\ (num * 2 ^ 1074 <= Vfin mb eb * den -> Vabs r <= Vfin mb eb)).

(** * Properties *)

(** ** Machine integers and loops *)

Lemma wrap_u64_small x : 0 <= x < 2 ^ 64 -> wrap_u64 x = x.
Proof. intros H. unfold wrap_u64. now apply Z.mod_small. Qed.

Lemma wrap_u64_le x : 0 <= x -> 0 <= wrap_u64 x <= x.
Proof.
  intros H. unfold wrap_u64. split.
  - apply Z.mod_pos_bound. lia.
  - apply Z.mod_le; lia.
Qed.

Lemma wrap_s64_small x : - 2 ^ 63 <= x < 2 ^ 63 -> wrap_s64 x = x.
Proof. intros H. unfold wrap_s64. rewrite Z.mod_small; lia. Qed.

Lemma wrap_s32_small x : - 2 ^ 31 <= x < 2 ^ 31 -> wrap_s32 x = x.
Proof. intros H. unfold wrap_s32. rewrite Z.mod_small; lia. Qed.

Lemma for_range_snoc {S : Type} (body : Z -> S -> S) k i s :
  for_range i (Datatypes.S k) body s
  = body (i + Z.of_nat k) (for_range i k body s).
Proof.
  revert i s. induction k as [|k IH]; intros i s.
  - simpl. now rewrite Z.add_0_r.
  - change (for_range i (Datatypes.S (Datatypes.S k)) body s)
      with (for_range (i + 1) (Datatypes.S k) body (body i s)).
    rewrite IH. simpl for_range. f_equal. lia.
Qed.

(** Loop invariants: [P j s] holds of the state before iteration [j]. *)
Lemma for_range_inv {S : Type} (P : Z -> S -> Prop) (body : Z -> S -> S) k i s :
  P i s ->
  (forall j t, i <= j < i + Z.of_nat k -> P j t -> P (j + 1) (body j t)) ->
  P (i + Z.of_nat k) (for_range i k body s).
Proof.
  intros H0 Hstep. induction k as [|k IH].
  - simpl. now rewrite Z.add_0_r.
  - rewrite for_range_snoc.
    replace (i + Z.of_nat (Datatypes.S k)) with (i + Z.of_nat k + 1) by lia.
    apply Hstep; [lia|]. apply IH. intros j t Hj. apply Hstep. lia.
Qed.

Lemma land_1_mod x : Z.land x 1 = x mod 2.
Proof. exact (Z.land_ones x 1 ltac:(lia)). Qed.

Lemma bit_at_01 w i : bit_at w i = 0 \/ bit_at w i = 1.
Proof.
  unfold bit_at. rewrite land_1_mod.
  pose proof (Z.mod_pos_bound (Z.shiftr (word_at w (i / 32)) (i mod 32)) 2
                ltac:(lia)).
  lia.
Qed.

(** ** Block frequency: fewer than 20 blocks *)

(** C2. With at least one word and a block size [M >= 1], fewer than 20
    complete [M]-bit blocks in the [32 * len] bits make
    [nist_block_frequency] return 0 (fail), whatever the words hold. *)
Theorem block_frequency_few_blocks_fail :
  forall (erfc : Double.double -> Double.double) (w : list Z) (len M : Z),
    1 <= len -> 1 <= M -> (32 * len) / M < 20 ->
    nist_block_frequency erfc w len M = 0.
Proof.
  intros erfc w len M Hlen HM Hfew. unfold nist_block_frequency.
  assert (Hle : wrap_u64 (len * 32) / M <= (32 * len) / M).
  { apply Z.div_le_mono; [lia|].
    replace (32 * len) with (len * 32) by lia. apply wrap_u64_le. lia. }
  destruct (wrap_u64 (len * 32) / M <? 20) eqn:E; [reflexivity|].
  apply Z.ltb_ge in E. lia.
Qed.

Lemma block_frequency_few_blocks_fail_witness :
  nist_block_frequency (fun _ => Double.one) [4294967295; 0; 305419896] 3 8 = 0.
Proof.
  apply block_frequency_few_blocks_fail; [lia | lia | reflexivity].
Defined.

(** ** Cumulative sums: the excursion of a non-empty stream *)

Lemma cusum_step_mono w i st : snd st <= snd (cusum_step w i st).
Proof.
  destruct st as [s zmax]. unfold cusum_step.
  set (s' := wrap_s64 (s + (if bit_at w i =? 0 then -1 else 1))).
  destruct (s' >? zmax) eqn:E1; simpl.
  - apply Z.gtb_lt in E1. lia.
  - destruct (wrap_s64 (- s') >? zmax) eqn:E2; simpl.
    + apply Z.gtb_lt in E2. lia.
    + lia.
Qed.

Lemma cusum_first_step w : snd (cusum_step w 0 (0, 0)) = 1.
Proof.
  unfold cusum_step. destruct (bit_at w 0 =? 0); reflexivity.
Qed.

Lemma cusum_walk_from_mono w k i st :
  snd st <= snd (for_range i k (cusum_step w) st).
Proof.
  revert i st. induction k as [|k IH]; intros i st; simpl.
  - lia.
  - etransitivity; [apply (cusum_step_mono w i)|apply IH].
Qed.

Lemma bit_count_in_range len :
  1 <= len -> len * 32 < 2 ^ 64 -> wrap_u64 (len * 32) = len * 32.
Proof. intros. apply wrap_u64_small. lia. Qed.

Lemma cusum_zmax_pos w len :
  1 <= len -> len * 32 < 2 ^ 64 -> 1 <= cusum_zmax w len.
Proof.
  intros Hlen Hbits. unfold cusum_zmax, cusum_walk, for_upto.
  rewrite bit_count_in_range by assumption.
  destruct (Z.to_nat (len * 32)) as [|k] eqn:E; [lia|].
  simpl for_range.
  pose proof (cusum_walk_from_mono w k (0 + 1) (cusum_step w 0 (0, 0))) as H.
  rewrite cusum_first_step in H. exact H.
Qed.

(** ** Index ranges and tallies *)

Lemma zrange_S k : zrange (Datatypes.S k) = zrange k ++ [Z.of_nat k].
Proof. unfold zrange. rewrite seq_S, map_app. reflexivity. Qed.

Lemma zrange_length k : length (zrange k) = k.
Proof. unfold zrange. now rewrite length_map, length_seq. Qed.

Lemma tally_nil v : tally v [] = 0.
Proof. reflexivity. Qed.

Lemma tally_app v l1 l2 : tally v (l1 ++ l2) = tally v l1 + tally v l2.
Proof. unfold tally. rewrite count_occ_app. lia. Qed.

Lemma tally_one v c : tally v [c] = if v =? c then 1 else 0.
Proof.
  unfold tally. simpl. destruct (Z.eq_dec c v) as [->|Hne].
  - now rewrite Z.eqb_refl.
  - destruct (Z.eqb_spec v c); [congruence|reflexivity].
Qed.

Lemma tally_bounds v l : 0 <= tally v l <= Z.of_nat (length l).
Proof.
  unfold tally. pose proof (count_occ_bound Z.eq_dec v l). lia.
Qed.

Lemma tally_zrange j k :
  tally j (zrange k) = if (0 <=? j) && (j <? Z.of_nat k) then 1 else 0.
Proof.
  induction k as [|k IH].
  - simpl. rewrite tally_nil. destruct (0 <=? j) eqn:E; simpl; [|reflexivity].
    destruct (Z.ltb_spec j 0); [lia|reflexivity].
  - rewrite zrange_S, tally_app, IH, tally_one.
    destruct (Z.leb_spec 0 j), (Z.ltb_spec j (Z.of_nat k)),
      (Z.ltb_spec j (Z.of_nat (Datatypes.S k))), (Z.eqb_spec j (Z.of_nat k));
      simpl; lia.
Qed.

Lemma tally_map_succ j l : tally j (map (fun i => i + 1) l) = tally (j - 1) l.
Proof.
  induction l as [|x l IH]; [reflexivity|].
  change (x :: l) with ([x] ++ l). rewrite map_app, !tally_app, IH.
  simpl map. rewrite !tally_one.
  destruct (Z.eqb_spec j (x + 1)), (Z.eqb_spec (j - 1) x); lia.
Qed.

(** ** Second-order serial: the pair counters *)

(** The patterns of the linear pairs [(i, i+1)], [i < k]. *)
Lemma array_incr_tallies (L : list Z) (c : Z) :
  0 <= c < 4 -> Z.of_nat (length L) < 2 ^ 64 - 1 ->
  array_incr (map (fun v => tally v L) [0; 1; 2; 3]) c
  = map (fun v => tally v (L ++ [c])) [0; 1; 2; 3].
Proof.
  intros Hc Hlen.
  assert (Hw : forall v, wrap_u64 (tally v L + 1) = tally v L + 1).
  { intros v. apply wrap_u64_small. pose proof (tally_bounds v L). lia. }
  assert (Hcases : c = 0 \/ c = 1 \/ c = 2 \/ c = 3) by lia.
  simpl map. rewrite !tally_app, !tally_one.
  destruct Hcases as [-> | [-> | [-> | ->]]]; unfold array_incr; simpl;
    rewrite Hw, ?Z.add_0_r; reflexivity.
Qed.

Lemma pair_index_lor a b :
  (a = 0 \/ a = 1) -> (b = 0 \/ b = 1) -> Z.lor (Z.shiftl a 1) b = 2 * a + b.
Proof. intros [-> | ->] [-> | ->]; reflexivity. Qed.

Lemma bit_at_0 w : bit_at w 0 = Z.land (word_at w 0) 1.
Proof. reflexivity. Qed.

Lemma linear_patterns_S w k :
  linear_patterns w (Datatypes.S k)
  = linear_patterns w k
      ++ [2 * bit_at w (Z.of_nat k) + bit_at w (Z.of_nat k + 1)].
Proof. unfold linear_patterns. rewrite zrange_S, map_app. reflexivity. Qed.

Lemma linear_patterns_length w k : length (linear_patterns w k) = k.
Proof. unfold linear_patterns. now rewrite length_map, zrange_length. Qed.

Lemma pattern_range w i j : 0 <= 2 * bit_at w i + bit_at w j < 4.
Proof. destruct (bit_at_01 w i), (bit_at_01 w j); lia. Qed.

(** The state of the loop of [nist_serial2] before iteration [j]. *)
Lemma serial_loop_inv w (n : nat) :
  Z.of_nat n < 2 ^ 64 ->
  let st := for_range 0 n (serial_step w)
              {| ss_c1 := [0; 0]; ss_c2 := [0; 0; 0; 0]; ss_prev := -1 |} in
  ss_prev st = (if Z.of_nat n =? 0 then -1 else bit_at w (Z.of_nat n - 1))
  /\ ss_c2 st = tallies (linear_patterns w (Nat.pred n)).
Proof.
  intros Hn. induction n as [|n IH].
  - simpl. split; reflexivity.
  - cbv zeta in *. rewrite for_range_snoc.
    destruct IH as [IHp IHc]; [lia|].
    set (st := for_range 0 n (serial_step w) _) in *.
    unfold serial_step. cbn [ss_prev ss_c2]. split.
    + destruct (Z.eqb_spec (Z.of_nat (Datatypes.S n)) 0); [lia|].
      f_equal. lia.
    + rewrite IHp, IHc. simpl Nat.pred.
      destruct n as [|n].
      * reflexivity.
      * destruct (Z.eqb_spec (Z.of_nat (Datatypes.S n)) 0); [lia|].
        replace (0 + Z.of_nat (Datatypes.S n)) with (Z.of_nat n + 1) by lia.
        replace (Z.of_nat (Datatypes.S n) - 1) with (Z.of_nat n) by lia.
        assert (Hb : negb (bit_at w (Z.of_nat n) =? -1) = true).
        { destruct (bit_at_01 w (Z.of_nat n)) as [E|E]; rewrite E; reflexivity. }
        rewrite Hb, pair_index_lor by (auto using bit_at_01).
        unfold tallies. rewrite array_incr_tallies.
        -- simpl Nat.pred. rewrite linear_patterns_S. reflexivity.
        -- apply pattern_range.
        -- rewrite linear_patterns_length. simpl Nat.pred. lia.
Qed.

Lemma in_zrange i k : In i (zrange k) <-> 0 <= i < Z.of_nat k.
Proof.
  unfold zrange. rewrite in_map_iff. split.
  - intros [x [<- Hx]]. apply in_seq in Hx. lia.
  - intros H. exists (Z.to_nat i). split; [lia|]. apply in_seq. lia.
Qed.

Lemma cyclic_patterns w (k : nat) :
  map (pair_pattern w) (cyclic_pairs (Z.of_nat (Datatypes.S k)))
  = linear_patterns w k ++ [2 * bit_at w (Z.of_nat k) + bit_at w 0].
Proof.
  unfold cyclic_pairs. rewrite Nat2Z.id, zrange_S, !map_app. f_equal.
  - unfold linear_patterns. rewrite map_map. apply map_ext_in.
    intros i Hi. apply in_zrange in Hi. unfold pair_pattern. cbn [fst snd].
    rewrite Z.mod_small by lia. reflexivity.
  - simpl map. unfold pair_pattern. cbn [fst snd].
    replace (Z.of_nat k + 1) with (Z.of_nat (Datatypes.S k)) by lia.
    rewrite Z.mod_same by lia. reflexivity.
Qed.

Lemma tallies_total (L : list Z) :
  Forall (fun x => 0 <= x < 4) L ->
  tally 0 L + tally 1 L + tally 2 L + tally 3 L = Z.of_nat (length L).
Proof.
  induction 1 as [|x L Hx _ IH]; [reflexivity|].
  change (x :: L) with ([x] ++ L). rewrite !tally_app, !tally_one, length_app.
  simpl length.
  destruct (Z.eqb_spec 0 x), (Z.eqb_spec 1 x), (Z.eqb_spec 2 x),
    (Z.eqb_spec 3 x); lia.
Qed.

Lemma cyclic_pairs_participations n j :
  0 <= j < n -> participations j (cyclic_pairs n) = 2.
Proof.
  intros Hj. unfold participations, cyclic_pairs. rewrite !map_map. cbn [fst snd].
  rewrite map_id, tally_zrange.
  destruct (Z.to_nat n) as [|k] eqn:E; [lia|].
  assert (Hn : n = Z.of_nat (Datatypes.S k)) by lia.
  rewrite zrange_S, map_app, tally_app. simpl map.
  rewrite (map_ext_in _ (fun i => i + 1)).
  2:{ intros i Hi. apply in_zrange in Hi. apply Z.mod_small. lia. }
  rewrite tally_map_succ, tally_zrange, tally_one.
  replace (Z.of_nat k + 1) with n by lia. rewrite Z.mod_same by lia.
  destruct (Z.leb_spec 0 j), (Z.ltb_spec j (Z.of_nat (Datatypes.S k))),
    (Z.leb_spec 0 (j - 1)), (Z.ltb_spec (j - 1) (Z.of_nat k)),
    (Z.eqb_spec j 0); simpl; lia.
Qed.

(** C4. [nist_serial2] reads the bitstream as cyclic: its pair counters
    tally the pattern of every pair of positions [(i, (i+1) mod n)],
    [n = 32 * len], including the pair from the last bit back to the
    first.  The four counters sum to [32 * len] (32 for one word) and every
    position takes part in exactly two pairs. *)
Theorem serial2_counts_cyclic_pairs :
  forall (w : list Z) (len : Z),
    buffer_ok w len -> 1 <= len ->
    let n := 32 * len in
    let c2 := ss_c2 (serial_counts w len) in
    c2 = tallies (map (pair_pattern w) (cyclic_pairs n))
    /\ array_get c2 0 + array_get c2 1 + array_get c2 2 + array_get c2 3 = n
    /\ (len = 1 ->
        array_get c2 0 + array_get c2 1 + array_get c2 2 + array_get c2 3 = 32)
    /\ (forall j, 0 <= j < n -> participations j (cyclic_pairs n) = 2).
Proof.
  intros w len Hok Hlen n c2.
  pose proof (buf_bits _ _ Hok) as Hbits.
  assert (Hc2 : c2 = tallies (map (pair_pattern w) (cyclic_pairs n))).
  { subst c2. unfold serial_counts, for_upto. cbn [ss_c2].
    rewrite bit_count_in_range by assumption.
    destruct (Z.to_nat (len * 32)) as [|k] eqn:E; [lia|].
    assert (Hn : n = Z.of_nat (Datatypes.S k)) by (subst n; lia).
    destruct (serial_loop_inv w (Datatypes.S k)) as [Hp Hc]; [lia|].
    rewrite Hp, Hc. simpl Nat.pred.
    destruct (Z.eqb_spec (Z.of_nat (Datatypes.S k)) 0); [lia|].
    replace (Z.of_nat (Datatypes.S k) - 1) with (Z.of_nat k) by lia.
    rewrite <- bit_at_0, pair_index_lor by (auto using bit_at_01).
    unfold tallies at 1. rewrite array_incr_tallies.
    - rewrite Hn, cyclic_patterns. reflexivity.
    - apply pattern_range.
    - rewrite linear_patterns_length. lia. }
  assert (Hsum : array_get c2 0 + array_get c2 1 + array_get c2 2
                 + array_get c2 3 = n).
  { rewrite Hc2. unfold tallies. cbn [map array_get Z.ltb Z.compare Z.to_nat nth Pos.to_nat Pos.iter_op Nat.add].
    rewrite tallies_total.
    - unfold cyclic_pairs. rewrite !length_map, zrange_length. subst n. lia.
    - apply Forall_forall. intros x Hx. apply in_map_iff in Hx.
      destruct Hx as [p [<- _]]. apply pattern_range. }
  repeat split; try assumption.
  - intros ->. exact Hsum.
  - intros j Hj. now apply cyclic_pairs_participations.
Qed.

Lemma serial2_counts_cyclic_pairs_witness :
  ss_c2 (serial_counts [305419896] 1)
  = tallies (map (pair_pattern [305419896]) (cyclic_pairs 32)).
Proof.
  assert (Hok : buffer_ok [305419896] 1).
  { split; [reflexivity | | reflexivity].
    repeat constructor; unfold word_ok; lia. }
  exact (proj1 (serial2_counts_cyclic_pairs [305419896] 1 Hok ltac:(lia))).
Defined.

(** ** Coefficient of variation *)

(** C5. [coeff_var m sd] is exactly [0] when [m == 0] (either zero), and
    [sd / m] otherwise; the division is only ever evaluated with a divisor
    that is not a zero. *)
Theorem coeff_var_zero_mean_policy :
  forall m sd : Double.double,
    ((m =? Double.zero)%D = true
     /\ (exists s, m = S754_zero s)
     /\ coeff_var m sd = Double.zero)
    \/ ((m =? Double.zero)%D = false
        /\ (forall s, m <> S754_zero s)
        /\ coeff_var m sd = (sd / m)%D).
Proof.
  intros m sd. unfold coeff_var.
  destruct m as [s | s | | s mm e].
  - left. repeat split; [exists s; reflexivity].
  - right. destruct s; repeat split; intros s'; discriminate.
  - right. repeat split; intros s'; discriminate.
  - right. destruct s; repeat split; intros s'; discriminate.
Qed.

(** ** Mean: the 64-bit accumulator *)

Lemma buffer_as_map (w : list Z) : map (word_at w) (zrange (length w)) = w.
Proof.
  apply (nth_ext _ _ 0 0).
  - now rewrite length_map, zrange_length.
  - intros k Hk. rewrite length_map, zrange_length in Hk.
    rewrite (nth_indep _ 0 (word_at w 0)) by (now rewrite length_map, zrange_length).
    rewrite map_nth. unfold zrange.
    rewrite (nth_indep _ 0 (Z.of_nat 0)) by (now rewrite length_map, length_seq).
    rewrite map_nth, seq_nth by assumption.
    unfold word_at. now rewrite Nat2Z.id.
Qed.

Lemma list_sum_app l1 l2 : list_sum (l1 ++ l2) = list_sum l1 + list_sum l2.
Proof.
  induction l1 as [|x l1 IH]; simpl; [reflexivity|].
  unfold list_sum in *. simpl. rewrite IH. lia.
Qed.

Lemma list_sum_bounds (l : list Z) (b : Z) :
  Forall (fun x => 0 <= x <= b) l ->
  0 <= list_sum l <= Z.of_nat (length l) * b.
Proof.
  induction 1 as [|x l Hx _ IH]; [simpl; lia|].
  unfold list_sum in *. simpl fold_right. simpl length. nia.
Qed.

Lemma word_at_ok w i : Forall word_ok w -> word_ok (word_at w i).
Proof.
  intros Hw. unfold word_at.
  destruct (Nat.lt_ge_cases (Z.to_nat i) (length w)) as [Hlt|Hge].
  - rewrite Forall_forall in Hw. apply Hw. now apply nth_In.
  - rewrite nth_overflow by assumption. unfold word_ok. lia.
Qed.

Lemma prefix_sum_bounds w k :
  Forall word_ok w ->
  0 <= list_sum (map (word_at w) (zrange k)) <= Z.of_nat k * (2 ^ 32 - 1).
Proof.
  intros Hw.
  pose proof (list_sum_bounds (map (word_at w) (zrange k)) (2 ^ 32 - 1)) as H.
  rewrite length_map, zrange_length in H. apply H.
  apply Forall_forall. intros x Hx. apply in_map_iff in Hx.
  destruct Hx as [i [<- _]]. pose proof (word_at_ok w i Hw) as Hi.
  unfold word_ok in Hi. lia.
Qed.

(** After [k] iterations the accumulator holds the exact sum of the first
    [k] samples: no addition wraps. *)
Lemma mean_sum_prefix data (k : nat) :
  Forall word_ok data -> Z.of_nat k <= INT_MAX ->
  for_range 0 k (fun i sum => wrap_u64 (sum + word_at data i)) 0
  = list_sum (map (word_at data) (zrange k)).
Proof.
  intros Hw Hk. induction k as [|k IH]; [reflexivity|].
  rewrite for_range_snoc, IH by lia.
  rewrite zrange_S, map_app, list_sum_app. simpl map.
  unfold list_sum at 3. simpl fold_right. rewrite Z.add_0_r, Z.add_0_l.
  apply wrap_u64_small.
  pose proof (prefix_sum_bounds data k Hw).
  pose proof (word_at_ok data (Z.of_nat k) Hw) as Hi. unfold word_ok in Hi.
  unfold INT_MAX in Hk. lia.
Qed.

(** ** Runs: the loop counts ones and maximal runs *)

Lemma bits_prefix_S w k :
  bits_prefix w (Datatypes.S k) = bits_prefix w k ++ [bit_at w (Z.of_nat k)].
Proof. unfold bits_prefix. rewrite zrange_S, map_app. reflexivity. Qed.

Lemma bits_prefix_length w k : length (bits_prefix w k) = k.
Proof. unfold bits_prefix. now rewrite length_map, zrange_length. Qed.

Lemma count_runs_snoc l a b :
  count_runs ((l ++ [a]) ++ [b])
  = count_runs (l ++ [a]) + (if a =? b then 0 else 1).
Proof.
  induction l as [|x l IH].
  - simpl. destruct (a =? b); reflexivity.
  - change (((x :: l) ++ [a]) ++ [b]) with (x :: ((l ++ [a]) ++ [b])).
    change ((x :: l) ++ [a]) with (x :: (l ++ [a])).
    destruct l as [|y l].
    + simpl in *. destruct (x =? a), (a =? b); reflexivity.
    + change (count_runs (x :: ((y :: l) ++ [a]) ++ [b]))
        with ((if x =? y then 0 else 1) + count_runs (((y :: l) ++ [a]) ++ [b])).
      change (count_runs (x :: (y :: l) ++ [a]))
        with ((if x =? y then 0 else 1) + count_runs ((y :: l) ++ [a])).
      rewrite IH. lia.
Qed.

Lemma count_runs_bounds l : 0 <= count_runs l <= Z.of_nat (length l).
Proof.
  induction l as [|x l IH]; [simpl; lia|].
  destruct l as [|y l]; [simpl; lia|].
  change (count_runs (x :: y :: l))
    with ((if x =? y then 0 else 1) + count_runs (y :: l)).
  change (length (x :: y :: l)) with (Datatypes.S (length (y :: l))).
  destruct (x =? y); lia.
Qed.

Lemma count_ones_prefix_bounds w k :
  0 <= count_ones (bits_prefix w k) <= Z.of_nat k.
Proof.
  pose proof (list_sum_bounds (bits_prefix w k) 1) as H.
  rewrite bits_prefix_length in H. unfold count_ones.
  assert (Hall : Forall (fun x => 0 <= x <= 1) (bits_prefix w k)).
  { apply Forall_forall. intros x Hx. apply in_map_iff in Hx.
    destruct Hx as [i [<- _]]. destruct (bit_at_01 w i); lia. }
  specialize (H Hall). lia.
Qed.

(** After the iterations [1 .. k] the loop state describes the first
    [k + 1] bits. *)
Lemma runs_loop_inv w (k : nat) :
  Z.of_nat k + 1 < 2 ^ 63 ->
  count_runs (bits_prefix w (Datatypes.S k)) <= INT_MAX ->
  for_range 1 k (runs_step w)
    {| rs_ones := bit_at w 0; rs_prev := bit_at w 0; rs_runsCnt := 1 |}
  = {| rs_ones := count_ones (bits_prefix w (Datatypes.S k));
       rs_prev := bit_at w (Z.of_nat k);
       rs_runsCnt := count_runs (bits_prefix w (Datatypes.S k)) |}.
Proof.
  induction k as [|k IH]; intros Hk Hr.
  - simpl. unfold count_ones, list_sum. simpl. now rewrite Z.add_0_r.
  - set (b := bit_at w (Z.of_nat (Datatypes.S k))).
    assert (Hruns : count_runs (bits_prefix w (Datatypes.S (Datatypes.S k)))
                    = count_runs (bits_prefix w (Datatypes.S k))
                      + (if bit_at w (Z.of_nat k) =? b then 0 else 1)).
    { rewrite (bits_prefix_S w (Datatypes.S k)), (bits_prefix_S w k).
      apply count_runs_snoc. }
    assert (Hprev : count_runs (bits_prefix w (Datatypes.S k)) <= INT_MAX).
    { rewrite Hruns in Hr. destruct (bit_at w (Z.of_nat k) =? b); lia. }
    rewrite for_range_snoc, IH by (try assumption; lia).
    replace (1 + Z.of_nat k) with (Z.of_nat (Datatypes.S k)) by lia.
    unfold runs_step. cbn [rs_ones rs_prev rs_runsCnt]. fold b.
    assert (Hones : wrap_s64 (count_ones (bits_prefix w (Datatypes.S k)) + b)
                    = count_ones (bits_prefix w (Datatypes.S (Datatypes.S k)))).
    { rewrite (bits_prefix_S w (Datatypes.S k)). unfold count_ones.
      rewrite list_sum_app. fold b. unfold list_sum at 3. simpl fold_right.
      rewrite Z.add_0_r. apply wrap_s64_small.
      pose proof (count_ones_prefix_bounds w (Datatypes.S k)) as Hb.
      unfold count_ones in Hb.
      destruct (bit_at_01 w (Z.of_nat (Datatypes.S k))); subst b; lia. }
    rewrite Hones, (Z.eqb_sym b).
    rewrite Hruns in Hr. rewrite Hruns.
    destruct (Z.eqb_spec (bit_at w (Z.of_nat k)) b) as [Heq|Hne];
      simpl negb; cbv iota.
    + rewrite Z.add_0_r, Heq. reflexivity.
    + f_equal. apply wrap_s32_small.
      pose proof (count_runs_bounds (bits_prefix w (Datatypes.S k))) as Hb.
      unfold INT_MAX in Hr. lia.
Qed.

(** While the [int] counter [runsCnt] does not overflow, the loop of
    [nist_runs] leaves the number of ones and the number of maximal runs
    of the bitstream. *)
Lemma runs_loop_counts w len :
  1 <= len -> len * 32 < 2 ^ 63 -> count_runs (bits w len) <= INT_MAX ->
  rs_ones (runs_loop w len) = count_ones (bits w len)
  /\ rs_runsCnt (runs_loop w len) = count_runs (bits w len).
Proof.
  intros Hlen Hbits Hruns. unfold runs_loop. unfold bits in *.
  rewrite bit_count_in_range by lia.
  rewrite <- bit_at_0.
  destruct (Z.to_nat (len * 32)) as [|k] eqn:E; [lia|].
  replace (Z.to_nat (len * 32 - 1)) with k by lia.
  rewrite runs_loop_inv by (try assumption; lia).
  split; reflexivity.
Qed.

(** ** Monobit: the population count *)

Lemma zrange_cons k : zrange (Datatypes.S k) = 0 :: map (fun i => i + 1) (zrange k).
Proof.
  unfold zrange. simpl seq. simpl map. f_equal.
  rewrite <- seq_shift, !map_map. apply map_ext. intros i. lia.
Qed.

Lemma zrange_app a b :
  zrange (a + b) = zrange a ++ map (fun j => Z.of_nat a + j) (zrange b).
Proof.
  induction b as [|b IH].
  - rewrite Nat.add_0_r. simpl. now rewrite app_nil_r.
  - rewrite Nat.add_succ_r, !zrange_S, IH, map_app, app_assoc. simpl map.
    do 2 f_equal. lia.
Qed.

Lemma list_sum_zero {A : Type} (f : A -> Z) (l : list A) :
  (forall x, f x = 0) -> list_sum (map f l) = 0.
Proof.
  intros Hf. induction l as [|x l IH]; [reflexivity|].
  simpl. unfold list_sum in *. simpl. rewrite Hf, IH. reflexivity.
Qed.

Lemma popcount_loop_spec fuel :
  forall x c,
    0 <= x < 2 ^ Z.of_nat fuel ->
    0 <= c -> c + Z.of_nat fuel < 2 ^ 31 ->
    popcount_loop fuel x c
    = c + list_sum (map (fun j => Z.land (Z.shiftr x j) 1) (zrange fuel)).
Proof.
  induction fuel as [|fuel IH]; intros x c Hx Hc Hcf.
  - simpl. lia.
  - cbn [popcount_loop]. destruct (Z.eqb_spec x 0) as [->|Hne].
    + rewrite list_sum_zero; [lia|]. intros j.
      now rewrite Z.shiftr_0_l, Z.land_0_l.
    + assert (Hbit : Z.land x 1 = 0 \/ Z.land x 1 = 1).
      { rewrite land_1_mod. pose proof (Z.mod_pos_bound x 2 ltac:(lia)). lia. }
      rewrite wrap_s32_small by lia.
      rewrite IH.
      * rewrite zrange_cons. simpl map. rewrite map_map.
        unfold list_sum at 2. simpl fold_right. fold (list_sum
          (map (fun i => Z.land (Z.shiftr x (i + 1)) 1) (zrange fuel))).
        rewrite Z.shiftr_0_r.
        assert (Hext : map (fun j => Z.land (Z.shiftr (Z.shiftr x 1) j) 1)
                         (zrange fuel)
                       = map (fun i => Z.land (Z.shiftr x (i + 1)) 1)
                           (zrange fuel)).
        { apply map_ext_in. intros j Hj. apply in_zrange in Hj.
          rewrite Z.shiftr_shiftr by lia. do 2 f_equal. lia. }
        rewrite Hext. lia.
      * rewrite Z.shiftr_div_pow2 by lia. change (2 ^ 1) with 2.
        rewrite Nat2Z.inj_succ, Z.pow_succ_r in Hx by lia.
        split; [apply Z.div_pos; lia|].
        apply Z.div_lt_upper_bound; lia.
      * lia.
      * lia.
Qed.

Lemma popcount32_word_bits x : word_ok x -> popcount32 x = list_sum (word_bits x).
Proof.
  intros Hx. unfold popcount32, word_bits.
  rewrite popcount_loop_spec; [lia | exact Hx | lia | simpl; lia].
Qed.

Lemma word_bits_bounds x : 0 <= list_sum (word_bits x) <= 32.
Proof.
  pose proof (list_sum_bounds (word_bits x) 1) as H.
  unfold word_bits in *. rewrite length_map, zrange_length in H.
  apply H. apply Forall_forall. intros b Hb. apply in_map_iff in Hb.
  destruct Hb as [j [<- _]]. rewrite land_1_mod.
  pose proof (Z.mod_pos_bound (Z.shiftr x j) 2 ltac:(lia)). lia.
Qed.

Lemma bits_prefix_word w (k : nat) :
  bits_prefix w (32 * Datatypes.S k)
  = bits_prefix w (32 * k) ++ word_bits (word_at w (Z.of_nat k)).
Proof.
  replace (32 * Datatypes.S k)%nat with (32 * k + 32)%nat by lia.
  unfold bits_prefix, word_bits. rewrite zrange_app, map_app, map_map.
  f_equal. apply map_ext_in. intros j Hj. apply in_zrange in Hj.
  unfold bit_at.
  replace (Z.of_nat (32 * k) + j) with (j + Z.of_nat k * 32) by lia.
  rewrite Z.div_add, Z.mod_add by lia.
  rewrite Z.div_small, Z.mod_small by lia. reflexivity.
Qed.

(** The loop of [nist_monobit] leaves the number of one-bits of the
    stream. *)
Lemma monobit_ones_prefix w (k : nat) :
  Forall word_ok w -> Z.of_nat k * 32 < 2 ^ 62 ->
  for_range 0 k (fun i ones => wrap_s64 (ones + popcount32 (word_at w i))) 0
  = count_ones (bits_prefix w (32 * k)).
Proof.
  intros Hw Hk. induction k as [|k IH]; [reflexivity|].
  rewrite for_range_snoc, IH by lia. rewrite Z.add_0_l.
  rewrite bits_prefix_word. unfold count_ones. rewrite list_sum_app.
  rewrite popcount32_word_bits by (apply word_at_ok; assumption).
  apply wrap_s64_small.
  pose proof (count_ones_prefix_bounds w (32 * k)) as H1. unfold count_ones in H1.
  pose proof (word_bits_bounds (word_at w (Z.of_nat k))) as H2. lia.
Qed.

Lemma monobit_ones_count w len :
  buffer_ok w len -> 0 <= len -> len * 32 < 2 ^ 62 ->
  monobit_ones w len = count_ones (bits w len).
Proof.
  intros Hok Hlen Hb. unfold monobit_ones, for_upto, bits.
  rewrite monobit_ones_prefix; [| apply (buf_words _ _ Hok) | lia].
  do 2 f_equal. lia.
Qed.

(** ** Chi-squared: the histogram *)

Lemma for_range_fold {S : Type} (body : Z -> S -> S) k s :
  for_range 0 k body s = fold_left (fun t i => body i t) (zrange k) s.
Proof.
  induction k as [|k IH]; [reflexivity|].
  rewrite for_range_snoc, zrange_S, fold_left_app, IH. reflexivity.
Qed.

Lemma chi_bin_spec x B :
  word_ok x -> 1 <= B <= INT_MAX ->
  chi_bin x B (2 ^ 32) = bin_of B (2 ^ 32) x /\ 0 <= chi_bin x B (2 ^ 32) < B.
Proof.
  intros Hx HB. unfold word_ok in Hx. unfold INT_MAX in HB.
  unfold chi_bin, bin_of.
  rewrite (wrap_u64_small B) by lia.
  rewrite (wrap_u64_small (x * B)) by nia.
  assert (Hq : 0 <= x * B / 2 ^ 32 < B).
  { split; [apply Z.div_pos; nia|]. apply Z.div_lt_upper_bound; nia. }
  rewrite wrap_s32_small by lia.
  destruct (Z.geb_spec (x * B / 2 ^ 32) B); lia.
Qed.

Lemma incr_nat_map (f : Z -> Z) (n : nat) :
  forall (s k : nat),
    incr_nat (map f (map Z.of_nat (seq s n))) k
    = map (fun i => if i =? Z.of_nat (s + k) then wrap_u64 (f i + 1) else f i)
        (map Z.of_nat (seq s n)).
Proof.
  induction n as [|n IH]; intros s k; [reflexivity|].
  simpl seq. simpl map. destruct k as [|k]; cbn [incr_nat].
  - rewrite Nat.add_0_r, Z.eqb_refl. f_equal.
    apply map_ext_in. intros i Hi. apply in_map_iff in Hi.
    destruct Hi as [j [<- Hj]]. apply in_seq in Hj.
    destruct (Z.eqb_spec (Z.of_nat j) (Z.of_nat s)); [lia|reflexivity].
  - destruct (Z.eqb_spec (Z.of_nat s) (Z.of_nat (s + Datatypes.S k))); [lia|].
    f_equal. rewrite IH. apply map_ext. intros i.
    replace (Datatypes.S s + k)%nat with (s + Datatypes.S k)%nat by lia.
    reflexivity.
Qed.

Lemma array_incr_observed (L : list Z) (NB : nat) (c : Z) :
  0 <= c -> Z.of_nat (length L) < 2 ^ 64 - 1 ->
  array_incr (map (fun i => tally i L) (zrange NB)) c
  = map (fun i => tally i (L ++ [c])) (zrange NB).
Proof.
  intros Hc Hlen. unfold array_incr.
  destruct (Z.ltb_spec c 0); [lia|].
  unfold zrange. rewrite incr_nat_map. apply map_ext. intros i.
  rewrite tally_app, tally_one. simpl Nat.add. rewrite Z2Nat.id by lia.
  destruct (Z.eqb_spec i c).
  - apply wrap_u64_small. pose proof (tally_bounds i L). lia.
  - lia.
Qed.

(** After the first loop, bin [i] of [freq] holds the number of samples
    mapped to [i]. *)
Lemma chi_freq_observed data n B :
  buffer_ok data n -> 1 <= B <= INT_MAX ->
  chi_freq data n B (2 ^ 32)
  = map (observed B (2 ^ 32) data) (zrange (Z.to_nat B)).
Proof.
  intros Hok HB. unfold chi_freq, for_upto.
  pose proof (buf_len _ _ Hok) as Hlen. pose proof (buf_words _ _ Hok) as Hw.
  pose proof (buf_bits _ _ Hok) as Hbits.
  assert (Hinv : forall k : nat,
             (k <= length data)%nat ->
             for_range 0 k
               (fun i freq => array_incr freq (chi_bin (word_at data i) B (2 ^ 32)))
               (repeat 0 (Z.to_nat B))
             = map (fun i => tally i (map (bin_of B (2 ^ 32))
                                        (map (word_at data) (zrange k))))
                 (zrange (Z.to_nat B))).
  { induction k as [|k IH]; intros Hk.
    - simpl. induction (Z.to_nat B) as [|m IHm]; [reflexivity|].
      rewrite zrange_S, map_app, <- IHm. simpl map.
      now rewrite <- repeat_cons.
    - rewrite for_range_snoc, IH by lia. rewrite Z.add_0_l.
      destruct (chi_bin_spec (word_at data (Z.of_nat k)) B) as [Hb Hr];
        [apply word_at_ok; assumption | assumption |].
      rewrite array_incr_observed; [| lia |].
      + rewrite zrange_S, !map_app, Hb. reflexivity.
      + rewrite !length_map, zrange_length. lia. }
  rewrite Hlen, Nat2Z.id, Hinv by lia.
  unfold observed. now rewrite buffer_as_map.
Qed.

Lemma array_get_map (f : Z -> Z) (NB : nat) (i : Z) :
  0 <= i < Z.of_nat NB -> array_get (map f (zrange NB)) i = f i.
Proof.
  intros Hi. unfold array_get. destruct (Z.ltb_spec i 0); [lia|].
  rewrite (nth_indep _ 0 (f 0)) by (rewrite length_map, zrange_length; lia).
  rewrite map_nth. f_equal. unfold zrange.
  rewrite (nth_indep _ 0 (Z.of_nat 0)) by (rewrite length_map, length_seq; lia).
  rewrite map_nth, seq_nth by lia. lia.
Qed.

(** ** Binary64 rounding *)

Lemma fexp64_eq e : fexp Double.prec Double.emax e = fexp64 e.
Proof. reflexivity. Qed.

Lemma pow2_pos e : 0 <= e -> 0 < 2 ^ e.
Proof. intros. apply Z.pow_pos_nonneg; lia. Qed.

Lemma pow2_le a b : a <= b -> 2 ^ a <= 2 ^ b.
Proof. intros. apply Z.pow_le_mono_r; lia. Qed.

Lemma pow2_lt a b : 0 <= b -> a < b -> 2 ^ a < 2 ^ b.
Proof. intros. apply Z.pow_lt_mono_r; lia. Qed.

Lemma pow2_split a b : 0 <= a -> 0 <= b -> 2 ^ (a + b) = 2 ^ a * 2 ^ b.
Proof. intros. now apply Z.pow_add_r. Qed.

Lemma digits2_bounds p :
  2 ^ (Zpos (digits2_pos p) - 1) <= Zpos p < 2 ^ Zpos (digits2_pos p).
Proof.
  induction p as [p IH | p IH |]; simpl digits2_pos.
  - rewrite Pos2Z.inj_succ.
    replace (Z.succ (Zpos (digits2_pos p)) - 1)
      with (Z.succ (Zpos (digits2_pos p) - 1)) by lia.
    rewrite !Z.pow_succ_r by lia. lia.
  - rewrite Pos2Z.inj_succ.
    replace (Z.succ (Zpos (digits2_pos p)) - 1)
      with (Z.succ (Zpos (digits2_pos p) - 1)) by lia.
    rewrite !Z.pow_succ_r by lia. lia.
  - simpl. lia.
Qed.

Lemma digits2_unique p d :
  2 ^ (d - 1) <= Zpos p < 2 ^ d -> Zpos (digits2_pos p) = d.
Proof.
  intros [Hlo Hhi]. pose proof (digits2_bounds p) as [Blo Bhi].
  set (D := Zpos (digits2_pos p)) in *.
  destruct (Z.lt_trichotomy D d) as [Hlt | [Heq | Hgt]]; [| assumption |].
  - pose proof (pow2_le D (d - 1) ltac:(lia)). lia.
  - assert (0 <= d).
    { destruct (Z.leb_spec 0 d); [assumption|].
      rewrite (Z.pow_neg_r 2 d) in Hhi by lia. lia. }
    pose proof (pow2_le d (D - 1) ltac:(lia)). lia.
Qed.

Lemma Zdigits2_bounds m :
  0 < m -> 2 ^ (Zdigits2 m - 1) <= m < 2 ^ Zdigits2 m /\ 0 < Zdigits2 m.
Proof.
  destruct m as [|p|p]; try lia. intros _. simpl.
  split; [apply digits2_bounds | lia].
Qed.

Lemma Zdigits2_unique m d :
  2 ^ (d - 1) <= m < 2 ^ d -> 0 < m -> Zdigits2 m = d.
Proof.
  destruct m as [|p|p]; try lia. intros H _. now apply digits2_unique.
Qed.

Lemma shift_pos_pow m d : Zpos (Pos.iter xO m d) = Zpos m * 2 ^ Zpos d.
Proof.
  change (Pos.iter xO m d) with (Zpower.shift_pos d m).
  rewrite Zpower.shift_pos_correct, Z.pow_pos_fold. lia.
Qed.

(** *** Right shifts *)

Lemma iter_nat_add {A : Type} (f : A -> A) n m x :
  iter_nat f (n + m) x = iter_nat f m (iter_nat f n x).
Proof. revert x. induction n as [|n IH]; intros x; simpl; [reflexivity|apply IH]. Qed.

Lemma iter_pos_nat {A : Type} (f : A -> A) p x :
  iter_pos f p x = iter_nat f (Pos.to_nat p) x.
Proof.
  revert x. induction p as [p IH | p IH |]; intros x; simpl iter_pos.
  - rewrite !IH, Pos2Nat.inj_xI.
    replace (Datatypes.S (2 * Pos.to_nat p)) with (1 + Pos.to_nat p + Pos.to_nat p)%nat by lia.
    rewrite !iter_nat_add. reflexivity.
  - rewrite !IH, Pos2Nat.inj_xO.
    replace (2 * Pos.to_nat p)%nat with (Pos.to_nat p + Pos.to_nat p)%nat by lia.
    rewrite iter_nat_add. reflexivity.
  - reflexivity.
Qed.

Lemma shr_1_m mrs : 0 <= shr_m mrs -> shr_m (shr_1 mrs) = shr_m mrs / 2.
Proof.
  destruct mrs as [m r s]. simpl. intros Hm.
  destruct m as [|[p|p|]|p]; try lia; simpl.
  - reflexivity.
  - rewrite Pos2Z.inj_xI. apply Z.div_unique with (r := 1); lia.
  - rewrite Pos2Z.inj_xO. apply Z.div_unique with (r := 0); lia.
  - reflexivity.
Qed.

Lemma shr_1_exact mrs :
  0 <= shr_m mrs -> rec_exact mrs -> shr_m mrs mod 2 = 0 -> rec_exact (shr_1 mrs).
Proof.
  destruct mrs as [m r s]. unfold rec_exact. simpl. intros Hm [-> ->] Hmod.
  destruct m as [|[p|p|]|p]; try lia; simpl; try (split; reflexivity).
  - rewrite Pos2Z.inj_xI in Hmod.
    rewrite Z.add_comm, Z.mul_comm, Z.mod_add in Hmod by lia. discriminate.
  - discriminate.
Qed.

Lemma iter_shr_m n : forall mrs,
  0 <= shr_m mrs ->
  shr_m (iter_nat shr_1 n mrs) = shr_m mrs / 2 ^ Z.of_nat n.
Proof.
  induction n as [|n IH]; intros mrs Hm.
  - simpl. now rewrite Z.div_1_r.
  - simpl iter_nat. rewrite IH.
    + rewrite shr_1_m by assumption.
      rewrite Nat2Z.inj_succ, Z.pow_succ_r by lia.
      rewrite Z.div_div by (try apply pow2_pos; lia). reflexivity.
    + rewrite shr_1_m by assumption. apply Z.div_pos; lia.
Qed.

Lemma iter_shr_exact n : forall mrs,
  0 <= shr_m mrs -> rec_exact mrs -> shr_m mrs mod 2 ^ Z.of_nat n = 0 ->
  rec_exact (iter_nat shr_1 n mrs).
Proof.
  induction n as [|n IH]; intros mrs Hm Hex Hmod; [exact Hex|].
  simpl iter_nat.
  rewrite Nat2Z.inj_succ, Z.pow_succ_r in Hmod by lia.
  pose proof (pow2_pos (Z.of_nat n) ltac:(lia)) as Hp.
  rewrite Z.rem_mul_r in Hmod by lia.
  pose proof (Z.mod_pos_bound (shr_m mrs) 2 ltac:(lia)).
  pose proof (Z.mod_pos_bound (shr_m mrs / 2) (2 ^ Z.of_nat n) Hp).
  apply IH.
  - rewrite shr_1_m by assumption. apply Z.div_pos; lia.
  - apply shr_1_exact; [assumption | assumption | lia].
  - rewrite shr_1_m by assumption. nia.
Qed.

Lemma shr_spec mrs e n :
  0 <= shr_m mrs -> 0 <= n ->
  snd (shr mrs e n) = e + n
  /\ shr_m (fst (shr mrs e n)) = shr_m mrs / 2 ^ n
  /\ (rec_exact mrs -> shr_m mrs mod 2 ^ n = 0 -> rec_exact (fst (shr mrs e n))).
Proof.
  intros Hm Hn. unfold shr. destruct n as [|p|p]; try lia.
  - simpl. rewrite Z.div_1_r, Z.add_0_r. auto.
  - cbn [fst snd]. rewrite iter_pos_nat.
    rewrite iter_shr_m by assumption. rewrite positive_nat_Z.
    split; [reflexivity | split; [reflexivity |]].
    intros Hex Hmod. apply iter_shr_exact; try assumption.
    now rewrite positive_nat_Z.
Qed.

Lemma round_nearest_even_range mrs :
  let m := shr_m mrs in
  let m' := round_nearest_even m (loc_of_shr_record mrs) in
  m <= m' <= m + 1 /\ (rec_exact mrs -> m' = m).
Proof.
  destruct mrs as [m [|] [|]]; unfold rec_exact; simpl;
    try destruct (Z.even m); split; try lia; intros [? ?]; try discriminate; reflexivity.
Qed.

(** *** The rounding step *)

Lemma fexp64_mono a b : a <= b -> fexp64 a <= fexp64 b.
Proof. unfold fexp64. lia. Qed.

Lemma shr_record_of_loc_m m l : shr_m (shr_record_of_loc m l) = m.
Proof. destruct l as [|[]]; reflexivity. Qed.

(** The mantissa kept by the first shift of [binary_round_aux]. *)
Lemma shifted_mantissa_bounds mx ex :
  0 < mx -> ex <= fexp64 (Zdigits2 mx + ex) ->
  let e1 := fexp64 (Zdigits2 mx + ex) in
  let m1 := mx / 2 ^ (e1 - ex) in
  0 <= m1 < 2 ^ 53 /\ -1074 <= e1 /\ (-1074 < e1 -> 2 ^ 52 <= m1)
  /\ (e1 = -1074 -> Zdigits2 mx + ex < -1021 -> m1 < 2 ^ 52).
Proof.
  intros Hmx Hex e1 m1.
  destruct (Zdigits2_bounds mx Hmx) as [[Hlo Hhi] Hd].
  set (d := Zdigits2 mx) in *.
  assert (Hn : 0 <= e1 - ex) by lia.
  pose proof (pow2_pos (e1 - ex) Hn) as Hp.
  assert (He1 : -1074 <= e1) by (subst e1; unfold fexp64; lia).
  assert (Hge : d - 53 <= e1 - ex) by (subst e1; unfold fexp64; lia).
  split; [split|split; [assumption|split]].
  - apply Z.div_pos; lia.
  - apply Z.div_lt_upper_bound; [assumption|].
    destruct (Z.leb_spec d 53).
    + pose proof (pow2_le d 53 ltac:(lia)). nia.
    + rewrite <- pow2_split by lia.
      pose proof (pow2_le d (e1 - ex + 53) ltac:(lia)). lia.
  - intros Hnorm.
    assert (Heq : e1 - ex = d - 53) by (subst e1; unfold fexp64 in *; lia).
    subst m1. rewrite Heq. apply Z.div_le_lower_bound; [apply pow2_pos; lia|].
    rewrite <- pow2_split by lia.
    replace (d - 53 + 52) with (d - 1) by lia. assumption.
  - intros Hsub Hmag. apply Z.div_lt_upper_bound; [assumption|].
    rewrite <- pow2_split by lia.
    pose proof (pow2_le d (e1 - ex + 52) ltac:(lia)). lia.
Qed.

Lemma bra_spec s mx ex lx :
  0 < mx -> ex <= fexp64 (Zdigits2 mx + ex) ->
  let e1 := fexp64 (Zdigits2 mx + ex) in
  let m1 := mx / 2 ^ (e1 - ex) in
  exists m2,
    m1 <= m2 <= m1 + 1
    /\ (lx = loc_Exact -> mx mod 2 ^ (e1 - ex) = 0 -> m2 = m1)
    /\ binary_round_aux Double.prec Double.emax s mx ex lx = pack s m2 e1.
Proof.
  intros Hmx Hex e1 m1.
  destruct (shifted_mantissa_bounds mx ex Hmx Hex) as [Hm1 [He1 _]].
  fold e1 m1 in Hm1, He1.
  unfold binary_round_aux, shr_fexp. rewrite !fexp64_eq. fold e1.
  destruct (shr_spec (shr_record_of_loc mx lx) ex (e1 - ex)) as [Hse [Hsm Hsx]];
    [rewrite shr_record_of_loc_m; lia | lia |].
  rewrite shr_record_of_loc_m in Hsm, Hsx.
  destruct (shr (shr_record_of_loc mx lx) ex (e1 - ex)) as [mrs' e'].
  cbn [fst snd] in Hse, Hsm, Hsx.
  replace e' with e1 by lia. fold m1 in Hsm.
  destruct (round_nearest_even_range mrs') as [Hr Hrx].
  set (m2 := round_nearest_even (shr_m mrs') (loc_of_shr_record mrs')) in *.
  rewrite Hsm in Hr, Hrx.
  exists m2. split; [exact Hr|]. split.
  { intros -> Hmod. apply Hrx. apply Hsx; [|assumption].
    split; reflexivity. }
  destruct m2 as [|p|p] eqn:Em2; [| |lia]; rewrite ?fexp64_eq.
  - assert (Hns : fexp64 (Zdigits2 0 + e1) - e1 <= 0)
      by (simpl Zdigits2; unfold fexp64; lia).
    unfold shr.
    destruct (fexp64 (Zdigits2 0 + e1) - e1) as [|q|q]; try lia; reflexivity.
  - destruct (Z.eqb_spec (Zpos p) (2 ^ 53)) as [E53|N53].
    + assert (Hp : p = 9007199254740992%positive) by (injection E53; auto).
      subst p. unfold pack. rewrite Z.eqb_refl.
      replace (Zdigits2 (Zpos 9007199254740992)) with 54 by reflexivity.
      replace (fexp64 (54 + e1) - e1) with 1 by (unfold fexp64; lia).
      reflexivity.
    + assert (Hlt : Zpos p < 2 ^ 53) by lia.
      assert (Hdig : Zdigits2 (Zpos p) <= 53).
      { destruct (Zdigits2_bounds (Zpos p) ltac:(lia)) as [[Hlo _] Hd].
        destruct (Z.leb_spec (Zdigits2 (Zpos p)) 53); [assumption|].
        pose proof (pow2_le 53 (Zdigits2 (Zpos p) - 1) ltac:(lia)). lia. }
      assert (Hns : fexp64 (Zdigits2 (Zpos p) + e1) - e1 <= 0)
        by (unfold fexp64; lia).
      unfold pack. destruct (Z.eqb_spec (Zpos p) (2 ^ 53)); [contradiction|].
      unfold shr.
      destruct (fexp64 (Zdigits2 (Zpos p) + e1) - e1) as [|q|q]; try lia;
        reflexivity.
Qed.

(** *** Values of normal doubles *)

Lemma Vfin_pos m e : 0 < m -> -1074 <= e -> 0 < Vfin m e.
Proof.
  intros Hm He. unfold Vfin. pose proof (pow2_pos (e + 1074) ltac:(lia)). nia.
Qed.

Lemma Vfin_shift m e k :
  -1074 <= e -> 0 <= k -> Vfin (m * 2 ^ k) e = Vfin m (e + k).
Proof.
  intros He Hk. unfold Vfin.
  replace (e + k + 1074) with (k + (e + 1074)) by lia.
  rewrite (pow2_split k (e + 1074)) by lia. ring.
Qed.

(** Within the normal range the exponent orders the values. *)
Lemma normal_exp_lt m1 e1 m2 e2 :
  m1 < 2 ^ 53 -> 2 ^ 52 <= m2 -> -1074 <= e1 -> e1 < e2 ->
  Vfin m1 e1 < Vfin m2 e2.
Proof.
  intros H1 H2 He1 He. unfold Vfin.
  replace (e2 + 1074) with ((e2 - e1 - 1) + (1 + (e1 + 1074))) by lia.
  rewrite (pow2_split (e2 - e1 - 1)), (pow2_split 1) by lia.
  pose proof (pow2_pos (e1 + 1074) ltac:(lia)).
  pose proof (pow2_pos (e2 - e1 - 1) ltac:(lia)).
  change (2 ^ 1) with 2. change (2 ^ 53) with (2 * 2 ^ 52) in H1.
  assert (m1 * 2 ^ (e1 + 1074) < 2 * 2 ^ 52 * 2 ^ (e1 + 1074)) by nia.
  assert (2 ^ 52 * (2 * 2 ^ (e1 + 1074)) <= m2 * (2 * 2 ^ (e1 + 1074))) by nia.
  assert (m2 * (2 * 2 ^ (e1 + 1074))
          <= m2 * (2 ^ (e2 - e1 - 1) * (2 * 2 ^ (e1 + 1074)))) by nia.
  lia.
Qed.

Lemma normal_value_inj m1 e1 m2 e2 :
  2 ^ 52 <= m1 < 2 ^ 53 -> 2 ^ 52 <= m2 < 2 ^ 53 ->
  -1074 <= e1 -> -1074 <= e2 ->
  Vfin m1 e1 = Vfin m2 e2 -> e1 = e2 /\ m1 = m2.
Proof.
  intros H1 H2 He1 He2 HV.
  destruct (Z.lt_trichotomy e1 e2) as [Hlt | [Heq | Hgt]].
  - pose proof (normal_exp_lt m1 e1 m2 e2 ltac:(lia) ltac:(lia) He1 Hlt). lia.
  - subst e2. split; [reflexivity|]. unfold Vfin in HV.
    pose proof (pow2_pos (e1 + 1074) ltac:(lia)). nia.
  - pose proof (normal_exp_lt m2 e2 m1 e1 ltac:(lia) ltac:(lia) He2 Hgt). lia.
Qed.

Lemma normal_pos_bounded m e :
  normal_pos (S754_finite false m e) -> bounded Double.prec Double.emax m e = true.
Proof.
  intros [Hm He]. unfold bounded, canonical_mantissa.
  rewrite (digits2_unique m 53) by (change (53 - 1) with 52; lia).
  rewrite fexp64_eq. unfold fexp64, Double.prec, Double.emax.
  apply andb_true_intro. split; [apply Z.eqb_eq | apply Z.leb_le]; lia.
Qed.

(** [SFcompare] on positive normal doubles compares the values. *)
Lemma compare_normal_pos m1 e1 m2 e2 :
  normal_pos (S754_finite false m1 e1) -> normal_pos (S754_finite false m2 e2) ->
  SFcompare (S754_finite false m1 e1) (S754_finite false m2 e2)
  = Some (Vfin (Zpos m1) e1 ?= Vfin (Zpos m2) e2).
Proof.
  intros [H1 He1] [H2 He2]. simpl SFcompare. f_equal.
  destruct (Z.compare_spec e1 e2) as [Heq | Hlt | Hgt].
  - subst e2.
    change (Pos.compare_cont Eq m1 m2) with (Zpos m1 ?= Zpos m2).
    unfold Vfin. pose proof (pow2_pos (e1 + 1074) ltac:(lia)).
    destruct (Z.compare_spec (Zpos m1) (Zpos m2)); symmetry;
      [apply Z.compare_eq_iff | apply Z.compare_lt_iff | apply Z.compare_gt_iff];
      nia.
  - symmetry. apply Z.compare_lt_iff. apply normal_exp_lt; lia.
  - symmetry. apply Z.compare_gt_iff. apply normal_exp_lt; lia.
Qed.

Lemma leb_normal_pos x y :
  normal_pos x -> normal_pos y -> Double.leb x y = true <-> Vabs x <= Vabs y.
Proof.
  destruct x as [| | |[|] m1 e1]; try contradiction.
  destruct y as [| | |[|] m2 e2]; try contradiction.
  intros Hx Hy. unfold Double.leb, SFleb.
  rewrite compare_normal_pos by assumption. unfold Vabs.
  destruct (Z.compare_spec (Vfin (Zpos m1) e1) (Vfin (Zpos m2) e2)); split;
    intros; try lia; try discriminate; reflexivity.
Qed.

Lemma ltb_normal_pos x y :
  normal_pos x -> normal_pos y -> Double.ltb x y = true <-> Vabs x < Vabs y.
Proof.
  destruct x as [| | |[|] m1 e1]; try contradiction.
  destruct y as [| | |[|] m2 e2]; try contradiction.
  intros Hx Hy. unfold Double.ltb, SFltb.
  rewrite compare_normal_pos by assumption. unfold Vabs.
  destruct (Z.compare_spec (Vfin (Zpos m1) e1) (Vfin (Zpos m2) e2)); split;
    intros; try lia; try discriminate; reflexivity.
Qed.

Lemma normal_pos_eq x y : normal_pos x -> normal_pos y -> Vabs x = Vabs y -> x = y.
Proof.
  destruct x as [| | |[|] m1 e1]; try contradiction.
  destruct y as [| | |[|] m2 e2]; try contradiction.
  intros [H1 He1] [H2 He2] HV. unfold Vabs in HV.
  destruct (normal_value_inj (Zpos m1) e1 (Zpos m2) e2) as [-> Hm]; try lia.
  now injection Hm as ->.
Qed.

(** *** Rounding in the normal range *)

(** The cell of the format around [mx * 2^ex]: its lower end keeps the 53
    leading bits of [mx]. *)
Lemma cell_mantissa mx :
  0 < mx -> 53 <= Zdigits2 mx ->
  let n := Zdigits2 mx - 53 in
  let m1 := mx / 2 ^ n in
  2 ^ 52 <= m1 < 2 ^ 53 /\ m1 * 2 ^ n <= mx < (m1 + 1) * 2 ^ n.
Proof.
  intros Hmx Hd n m1.
  destruct (Zdigits2_bounds mx Hmx) as [[Hlo Hhi] _].
  pose proof (pow2_pos n ltac:(lia)) as Hp.
  assert (Hlo' : 2 ^ n * 2 ^ 52 <= mx).
  { rewrite <- pow2_split by lia.
    replace (n + 52) with (Zdigits2 mx - 1) by lia. assumption. }
  assert (Hhi' : mx < 2 ^ n * 2 ^ 53).
  { rewrite <- pow2_split by lia.
    replace (n + 53) with (Zdigits2 mx) by lia. assumption. }
  pose proof (Z.div_mod mx (2 ^ n) ltac:(lia)) as Hdm.
  pose proof (Z.mod_pos_bound mx (2 ^ n) Hp) as Hmod.
  fold m1 in Hdm.
  repeat split.
  - apply Z.div_le_lower_bound; assumption.
  - apply Z.div_lt_upper_bound; assumption.
  - lia.
  - lia.
Qed.

Lemma Vfin_overflow m e : 2 ^ 52 <= m -> 971 < e -> Vfin (2 ^ 53) 971 <= Vfin m e.
Proof.
  intros Hm He. change (2 ^ 53) with (2 ^ 52 * 2 ^ 1). rewrite Vfin_shift by lia.
  destruct (Z.eq_dec e (971 + 1)) as [->|Hne].
  - unfold Vfin. pose proof (pow2_pos (971 + 1 + 1074) ltac:(lia)). nia.
  - pose proof (normal_exp_lt (2 ^ 52) (971 + 1) m e
                  ltac:(lia) Hm ltac:(lia) ltac:(lia)). lia.
Qed.

Lemma bra_normal s mx ex lx :
  0 < mx -> 53 <= Zdigits2 mx -> -1074 <= ex ->
  let n := Zdigits2 mx - 53 in
  let e1 := ex + n in
  let m1 := mx / 2 ^ n in
  let r := binary_round_aux Double.prec Double.emax s mx ex lx in
  (r = S754_infinity s
   /\ Vfin (2 ^ 53) 971 <= Vfin (m1 + 1) e1
   /\ (lx = loc_Exact -> mx mod 2 ^ n = 0 -> Vfin (2 ^ 53) 971 <= Vfin mx ex))
  \/ (exists m e,
        r = S754_finite s m e
        /\ 2 ^ 52 <= Zpos m < 2 ^ 53 /\ -1074 <= e <= 971 /\ e1 <= e
        /\ Vfin m1 e1 <= Vfin (Zpos m) e <= Vfin (m1 + 1) e1
        /\ (lx = loc_Exact -> mx mod 2 ^ n = 0 -> Vfin (Zpos m) e = Vfin mx ex)).
Proof.
  intros Hmx Hd Hex n e1 m1 r.
  destruct (cell_mantissa mx Hmx Hd) as [Hm1 Hcell]. fold n m1 in Hm1, Hcell.
  assert (Hf : fexp64 (Zdigits2 mx + ex) = e1) by (unfold fexp64; lia).
  destruct (bra_spec s mx ex lx Hmx ltac:(lia)) as [m2 [Hr [Hx Hbra]]].
  rewrite Hf in Hr, Hx, Hbra. replace (e1 - ex) with n in Hr, Hx by lia.
  fold m1 in Hr, Hx. fold r in Hbra.
  pose proof (pow2_pos (e1 + 1074) ltac:(lia)) as Hp.
  assert (Hm1x : mx mod 2 ^ n = 0 -> Vfin m1 e1 = Vfin mx ex).
  { intros Hmod. unfold e1. rewrite <- Vfin_shift by lia. f_equal.
    pose proof (Z.div_mod mx (2 ^ n) ltac:(pose proof (pow2_pos n); lia)) as Hdm.
    fold m1 in Hdm. lia. }
  assert (Hexact : lx = loc_Exact -> mx mod 2 ^ n = 0 -> Vfin m2 e1 = Vfin mx ex).
  { intros Hl Hmod. rewrite (Hx Hl Hmod). now apply Hm1x. }
  assert (Hmono : Vfin m1 e1 <= Vfin m2 e1 <= Vfin (m1 + 1) e1)
    by (unfold Vfin; nia).
  unfold pack in Hbra. destruct m2 as [|p|p]; try lia.
  destruct (Z.eqb_spec (Zpos p) (2 ^ 53)) as [E53|N53].
  - destruct (Z.leb_spec (e1 + 1) 971).
    + right. exists 4503599627370496%positive, (e1 + 1).
      assert (HV : Vfin (Zpos 4503599627370496) (e1 + 1) = Vfin (Zpos p) e1).
      { rewrite E53. change (2 ^ 53) with (2 ^ 52 * 2 ^ 1).
        rewrite Vfin_shift by lia. reflexivity. }
      rewrite HV. repeat split; try lia; try assumption.
    + left. split; [assumption | split].
      * destruct (Z.eq_dec e1 971) as [E|E].
        -- rewrite E in *. rewrite <- E53. lia.
        -- pose proof (Vfin_overflow (m1 + 1) e1 ltac:(lia) ltac:(lia)). lia.
      * intros Hl Hmod. specialize (Hx Hl Hmod). lia.
  - destruct (Z.leb_spec e1 971).
    + right. exists p, e1. repeat split; try lia; try assumption.
    + left. split; [assumption | split].
      * pose proof (Vfin_overflow (m1 + 1) e1 ltac:(lia) ltac:(lia)). lia.
      * intros Hl Hmod. rewrite <- (Hm1x Hmod).
        apply Vfin_overflow; lia.
Qed.

Lemma cell_lower mx ex mb eb :
  0 < mx -> 53 <= Zdigits2 mx -> -1074 <= ex ->
  2 ^ 52 <= mb < 2 ^ 53 -> -1074 <= eb ->
  Vfin mb eb < Vfin (mx + 1) ex ->
  Vfin mb eb <= Vfin (mx / 2 ^ (Zdigits2 mx - 53)) (ex + (Zdigits2 mx - 53)).
Proof.
  intros Hmx Hd Hex Hmb Heb Hlt.
  destruct (cell_mantissa mx Hmx Hd) as [Hm1 Hcell].
  destruct (Zdigits2_bounds mx Hmx) as [[Hlo Hhi] _].
  set (n := Zdigits2 mx - 53) in *. set (m1 := mx / 2 ^ n) in *.
  pose proof (pow2_pos n ltac:(lia)) as Hpn.
  pose proof (pow2_pos (ex + 1074) ltac:(lia)) as Hpe.
  destruct (Z.lt_trichotomy eb (ex + n)) as [Hl | [He | Hg]].
  - pose proof (normal_exp_lt mb eb m1 (ex + n) ltac:(lia) ltac:(lia) Heb Hl).
    lia.
  - subst eb. unfold Vfin in *.
    replace (ex + n + 1074) with (n + (ex + 1074)) in * by lia.
    rewrite pow2_split in * by lia.
    assert (mb * 2 ^ n < mx + 1) by nia.
    assert (mb <= m1) by (apply Z.div_le_lower_bound; lia).
    nia.
  - exfalso.
    assert (H1 : Vfin (mx + 1) ex <= Vfin (2 ^ 53) (ex + n)).
    { rewrite <- Vfin_shift by lia. unfold Vfin.
      rewrite <- pow2_split by lia. replace (53 + n) with (Zdigits2 mx) by lia.
      nia. }
    assert (H2 : Vfin (2 ^ 53) (ex + n) <= Vfin mb eb).
    { change (2 ^ 53) with (2 ^ 52 * 2 ^ 1). rewrite Vfin_shift by lia.
      destruct (Z.eq_dec eb (ex + n + 1)) as [->|Hne].
      - unfold Vfin. pose proof (pow2_pos (ex + n + 1 + 1074) ltac:(lia)). nia.
      - pose proof (normal_exp_lt (2 ^ 52) (ex + n + 1) mb eb
                      ltac:(lia) ltac:(lia) ltac:(lia) ltac:(lia)). lia. }
    lia.
Qed.

Lemma cell_upper mx ex mb eb :
  0 < mx -> 53 <= Zdigits2 mx -> -1074 <= ex ->
  2 ^ 52 <= mb < 2 ^ 53 -> -1074 <= eb ->
  Vfin mx ex < Vfin mb eb ->
  Vfin (mx / 2 ^ (Zdigits2 mx - 53) + 1) (ex + (Zdigits2 mx - 53)) <= Vfin mb eb.
Proof.
  intros Hmx Hd Hex Hmb Heb Hlt.
  destruct (cell_mantissa mx Hmx Hd) as [Hm1 Hcell].
  set (n := Zdigits2 mx - 53) in *. set (m1 := mx / 2 ^ n) in *.
  pose proof (pow2_pos n ltac:(lia)) as Hpn.
  pose proof (pow2_pos (ex + 1074) ltac:(lia)) as Hpe.
  assert (Hlow : Vfin m1 (ex + n) <= Vfin mx ex).
  { rewrite <- Vfin_shift by lia. unfold Vfin. nia. }
  destruct (Z.lt_ge_cases eb (ex + n)) as [Hl | Hg].
  - pose proof (normal_exp_lt mb eb m1 (ex + n) ltac:(lia) ltac:(lia) Heb Hl).
    lia.
  - set (k := eb - (ex + n)).
    assert (Hs : Vfin mb eb = Vfin (mb * 2 ^ k) (ex + n)).
    { rewrite Vfin_shift by lia. f_equal. lia. }
    rewrite Hs in *.
    pose proof (pow2_pos (ex + n + 1074) ltac:(lia)) as Hp.
    assert (Hc : Vfin m1 (ex + n) < Vfin (mb * 2 ^ k) (ex + n)) by lia.
    clear - Hc Hp. unfold Vfin in *.
    assert (m1 < mb * 2 ^ k) by nia. nia.
Qed.

(** *** Bounds on a rounded value

    The outcome of [binary_round_aux] in the normal range, measured against
    any normal double [b]: rounding never crosses a representable value. *)

Lemma bra_bounds s mx ex lx :
  0 < mx -> 53 <= Zdigits2 mx -> -1074 <= ex ->
  let r := binary_round_aux Double.prec Double.emax s mx ex lx in
  (r = S754_infinity s
   \/ exists m e, r = S754_finite s m e /\ normal r
                  /\ ex + (Zdigits2 mx - 53) <= e)
  /\ (forall mb eb,
        2 ^ 52 <= mb < 2 ^ 53 -> -1074 <= eb <= 971 ->
        Vfin mb eb < Vfin (mx + 1) ex ->
        r = S754_infinity s \/ Vfin mb eb <= Vabs r)
  /\ (forall mb eb,
        2 ^ 52 <= mb < 2 ^ 53 -> -1074 <= eb <= 971 ->
        Vfin mx ex < Vfin mb eb \/ (lx = loc_Exact /\ Vfin mx ex <= Vfin mb eb) ->
        r <> S754_infinity s /\ Vabs r <= Vfin mb eb).
Proof.
  intros Hmx Hd Hex r.
  assert (Htop : forall mb eb, 2 ^ 52 <= mb < 2 ^ 53 -> -1074 <= eb <= 971 ->
                   Vfin mb eb < Vfin (2 ^ 53) 971).
  { intros mb eb Hmb Heb. destruct (Z.eq_dec eb 971) as [->|Hne].
    - unfold Vfin. pose proof (pow2_pos (971 + 1074) ltac:(lia)). nia.
    - pose proof (normal_exp_lt mb eb (2 ^ 52) 971
                    ltac:(lia) ltac:(lia) ltac:(lia) ltac:(lia)).
      assert (Vfin (2 ^ 52) 971 <= Vfin (2 ^ 53) 971)
        by (unfold Vfin; pose proof (pow2_pos (971 + 1074) ltac:(lia)); nia).
      lia. }
  assert (Hrep : forall mb eb, 2 ^ 52 <= mb < 2 ^ 53 -> -1074 <= eb <= 971 ->
                   Vfin mx ex = Vfin mb eb -> mx mod 2 ^ (Zdigits2 mx - 53) = 0).
  { intros mb eb Hmb Heb HV.
    destruct (cell_mantissa mx Hmx Hd) as [Hm1 Hcell].
    pose proof (cell_lower mx ex mb eb Hmx Hd Hex Hmb ltac:(lia)) as Hl.
    set (n := Zdigits2 mx - 53) in *. set (m1 := mx / 2 ^ n) in *.
    pose proof (pow2_pos n ltac:(lia)) as Hpn.
    pose proof (pow2_pos (ex + 1074) ltac:(lia)) as Hpe.
    assert (Hlt : Vfin mb eb < Vfin (mx + 1) ex) by (rewrite <- HV; unfold Vfin; nia).
    specialize (Hl Hlt). rewrite <- HV, <- Vfin_shift in Hl by lia.
    assert (mx <= m1 * 2 ^ n) by (unfold Vfin in Hl; nia).
    pose proof (Z.div_mod mx (2 ^ n) ltac:(lia)) as Hdm. fold m1 in Hdm.
    pose proof (Z.mod_pos_bound mx (2 ^ n) Hpn). lia. }
  pose proof (bra_normal s mx ex lx Hmx Hd Hex) as Hbra. cbv zeta in Hbra.
  fold r in Hbra.
  split; [|split].
  - destruct Hbra as [[Hr _] | [m [e [Hr [Hm [He [Hle _]]]]]]].
    + left. exact Hr.
    + right. exists m, e. rewrite Hr. cbn [normal]. repeat split; try lia.
  - intros mb eb Hmb Heb Hlt.
    pose proof (cell_lower mx ex mb eb Hmx Hd Hex Hmb ltac:(lia) Hlt) as Hl.
    destruct Hbra as [[Hr _] | [m [e [Hr [Hm [He [Hle [Hv _]]]]]]]].
    + left. exact Hr.
    + right. rewrite Hr. cbn [Vabs]. lia.
  - intros mb eb Hmb Heb Hcase.
    assert (Hcases : Vfin mx ex < Vfin mb eb
                     \/ (lx = loc_Exact /\ mx mod 2 ^ (Zdigits2 mx - 53) = 0
                         /\ Vfin mx ex = Vfin mb eb)).
    { destruct Hcase as [Hlt | [Hl Hle]]; [left; exact Hlt|].
      destruct (Z.eq_dec (Vfin mx ex) (Vfin mb eb)) as [E|E]; [|left; lia].
      right. repeat split; try assumption. eapply Hrep; eassumption. }
    pose proof (Htop mb eb Hmb Heb) as Ht.
    destruct Hcases as [Hlt | [Hl [Hmod HV]]].
    + pose proof (cell_upper mx ex mb eb Hmx Hd Hex Hmb ltac:(lia) Hlt) as Hu.
      destruct Hbra as [[Hr [Hov _]] | [m [e [Hr [Hm [He [Hle [Hv _]]]]]]]].
      * lia.
      * rewrite Hr. split; [discriminate|]. cbn [Vabs]. lia.
    + destruct Hbra as [[Hr [_ Hov]] | [m [e [Hr [Hm [He [Hle [_ Hx]]]]]]]].
      * specialize (Hov Hl Hmod). lia.
      * rewrite Hr. split; [discriminate|]. cbn [Vabs].
        rewrite (Hx Hl Hmod). lia.
Qed.

Lemma Zdigits2_shift p k :
  0 <= k -> Zdigits2 (Zpos p * 2 ^ k) = Zdigits2 (Zpos p) + k.
Proof.
  intros Hk. destruct (Zdigits2_bounds (Zpos p) ltac:(lia)) as [[Hlo Hhi] Hd].
  pose proof (pow2_pos k Hk).
  apply Zdigits2_unique; [|nia].
  replace (Zdigits2 (Zpos p) + k - 1) with ((Zdigits2 (Zpos p) - 1) + k) by lia.
  rewrite !pow2_split by lia. nia.
Qed.

(** [binary_round] first aligns a short mantissa to 53 bits. *)
Lemma binary_round_bounds s p ex :
  -1074 <= ex -> -1074 <= ex + (Zdigits2 (Zpos p) - 53) ->
  let r := binary_round Double.prec Double.emax s p ex in
  (r = S754_infinity s
   \/ exists m e, r = S754_finite s m e /\ normal r
                  /\ ex + (Zdigits2 (Zpos p) - 53) <= e)
  /\ (forall mb eb,
        2 ^ 52 <= mb < 2 ^ 53 -> -1074 <= eb <= 971 ->
        Vfin mb eb <= Vfin (Zpos p) ex ->
        r = S754_infinity s \/ Vfin mb eb <= Vabs r)
  /\ (forall mb eb,
        2 ^ 52 <= mb < 2 ^ 53 -> -1074 <= eb <= 971 ->
        Vfin (Zpos p) ex <= Vfin mb eb ->
        r <> S754_infinity s /\ Vabs r <= Vfin mb eb).
Proof.
  intros Hex Hnorm. cbv zeta.
  remember (Zdigits2 (Zpos p) - 53) as N eqn:HN.
  unfold binary_round, shl_align. rewrite fexp64_eq.
  assert (Hf : fexp64 (Zpos (digits2_pos p) + ex) = ex + N)
    by (simpl Zdigits2 in HN; unfold fexp64; lia).
  rewrite Hf. replace (ex + N - ex) with N by lia.
  pose proof (pow2_pos (ex + 1074) ltac:(lia)) as Hpe.
  assert (Hnext : Vfin (Zpos p) ex < Vfin (Zpos p + 1) ex) by (unfold Vfin; nia).
  destruct N as [|q|q].
  - destruct (bra_bounds s (Zpos p) ex loc_Exact ltac:(lia) ltac:(lia) Hex)
      as [Hc [Hl Hu]]. rewrite <- HN in Hc.
    split; [exact Hc | split].
    + intros mb eb Hmb Heb Hle. apply Hl; try assumption. lia.
    + intros mb eb Hmb Heb Hle. apply Hu; try assumption. right. auto.
  - destruct (bra_bounds s (Zpos p) ex loc_Exact ltac:(lia) ltac:(lia) Hex)
      as [Hc [Hl Hu]]. rewrite <- HN in Hc.
    split; [exact Hc | split].
    + intros mb eb Hmb Heb Hle. apply Hl; try assumption. lia.
    + intros mb eb Hmb Heb Hle. apply Hu; try assumption. right. auto.
  - assert (Hdig : Zdigits2 (Zpos (Pos.iter xO p q)) = 53).
    { rewrite shift_pos_pow, Zdigits2_shift by lia. lia. }
    assert (HV : forall k, Vfin (Zpos (Pos.iter xO p q) + k * 2 ^ Zpos q) (ex + Zneg q)
                           = Vfin (Zpos p + k) ex).
    { intros k. rewrite shift_pos_pow, <- Z.mul_add_distr_r, Vfin_shift by lia.
      f_equal. lia. }
    pose proof (HV 0) as HV0. rewrite Z.mul_0_l, !Z.add_0_r in HV0.
    destruct (bra_bounds s (Zpos (Pos.iter xO p q)) (ex + Zneg q) loc_Exact
                ltac:(lia) ltac:(lia) ltac:(lia)) as [Hc [Hl Hu]].
    rewrite Hdig in Hc. replace (ex + Z.neg q + (53 - 53)) with (ex + Zneg q) in Hc by lia.
    rewrite HV0 in Hu.
    split; [exact Hc | split].
    + intros mb eb Hmb Heb Hle. apply Hl; try assumption.
      pose proof (pow2_pos (ex + Zneg q + 1074) ltac:(lia)).
      assert (Vfin (Zpos (Pos.iter xO p q)) (ex + Zneg q)
              < Vfin (Zpos (Pos.iter xO p q) + 1) (ex + Zneg q))
        by (unfold Vfin; nia).
      lia.
    + intros mb eb Hmb Heb Hle. apply Hu; try assumption. right. auto.
Qed.

(** *** Conversion from integers *)

Lemma normal_pos_inv x :
  normal_pos x ->
  exists m e, x = S754_finite false m e
              /\ 2 ^ 52 <= Zpos m < 2 ^ 53 /\ -1074 <= e <= 971.
Proof.
  destruct x as [| | |[|] m e]; try contradiction.
  intros [Hm He]. exists m, e. auto.
Qed.

Lemma pos_outcome (r : spec_float) :
  (r = S754_infinity false
   \/ exists m e, r = S754_finite false m e /\ normal r /\ True) ->
  r = S754_infinity false \/ normal_pos r.
Proof.
  intros [H | [m [e [H [Hn _]]]]]; [left; exact H|].
  right. rewrite H in *. exact Hn.
Qed.

(** Integers below [2^53] are representable: they have a normal form. *)
Lemma int_normal_form z :
  0 < z < 2 ^ 53 ->
  exists mb eb, 2 ^ 52 <= mb < 2 ^ 53 /\ -52 <= eb <= 0 /\ Vfin mb eb = Vfin z 0.
Proof.
  intros Hz. destruct (Zdigits2_bounds z ltac:(lia)) as [[Hlo Hhi] Hd].
  set (d := Zdigits2 z) in *.
  assert (Hd53 : d <= 53).
  { destruct (Z.leb_spec d 53); [assumption|].
    pose proof (pow2_le 53 (d - 1) ltac:(lia)). lia. }
  exists (z * 2 ^ (53 - d)), (d - 53).
  pose proof (pow2_pos (53 - d) ltac:(lia)).
  repeat split; try lia.
  - replace 52 with ((d - 1) + (53 - d)) at 1 by lia.
    rewrite pow2_split by lia. nia.
  - replace 53 with (d + (53 - d)) at 2 by lia.
    rewrite pow2_split by lia. nia.
  - rewrite Vfin_shift by lia. f_equal. lia.
Qed.

Lemma of_Z_bounds z :
  0 < z < 2 ^ 1024 ->
  let r := Double.of_Z z in
  (r = S754_infinity false \/ normal_pos r)
  /\ (forall mb eb, 2 ^ 52 <= mb < 2 ^ 53 -> -1074 <= eb <= 971 ->
        Vfin mb eb <= Vfin z 0 -> r = S754_infinity false \/ Vfin mb eb <= Vabs r)
  /\ (forall mb eb, 2 ^ 52 <= mb < 2 ^ 53 -> -1074 <= eb <= 971 ->
        Vfin z 0 <= Vfin mb eb -> normal_pos r /\ Vabs r <= Vfin mb eb).
Proof.
  intros Hz r. destruct z as [|p|p]; try lia.
  destruct (Zdigits2_bounds (Zpos p) ltac:(lia)) as [_ Hd].
  destruct (binary_round_bounds false p 0 ltac:(lia) ltac:(lia)) as [Hc [Hl Hu]].
  change (binary_round Double.prec Double.emax false p 0) with r in *.
  assert (Hc' : r = S754_infinity false \/ normal_pos r).
  { destruct Hc as [Hc | [m [e [Hr [Hn _]]]]]; [left; exact Hc|].
    right. rewrite Hr in *. exact Hn. }
  split; [exact Hc' | split].
  - exact Hl.
  - intros mb eb Hmb Heb Hle. destruct (Hu mb eb Hmb Heb Hle) as [Hni Hv].
    split; [|exact Hv]. destruct Hc' as [Hi | Hn]; [contradiction | exact Hn].
Qed.

Lemma of_Z_exact z :
  0 < z < 2 ^ 53 ->
  normal_pos (Double.of_Z z) /\ Vabs (Double.of_Z z) = Vfin z 0.
Proof.
  intros Hz. destruct (int_normal_form z Hz) as [mb [eb [Hmb [Heb HV]]]].
  destruct (of_Z_bounds z) as [Hc [Hl Hu]].
  { pose proof (pow2_le 53 1024 ltac:(lia)). lia. }
  destruct (Hu mb eb Hmb ltac:(lia) ltac:(lia)) as [Hn Hle].
  split; [exact Hn|].
  destruct (Hl mb eb Hmb ltac:(lia) ltac:(lia)) as [Hi | Hge].
  - rewrite Hi in Hn. contradiction.
  - lia.
Qed.

Lemma of_Z_exp z :
  0 < z < 2 ^ 53 ->
  exists m e, Double.of_Z z = S754_finite false m e
              /\ 2 ^ 52 <= Zpos m < 2 ^ 53 /\ -52 <= e <= 0
              /\ Vfin (Zpos m) e = Vfin z 0.
Proof.
  intros Hz. destruct (of_Z_exact z Hz) as [Hn HV].
  destruct (int_normal_form z Hz) as [mb [eb [Hmb [Heb HVb]]]].
  destruct (normal_pos_inv _ Hn) as [m [e [Hr [Hm He]]]].
  rewrite Hr in HV. cbn [Vabs] in HV.
  destruct (normal_value_inj (Zpos m) e mb eb) as [E1 E2]; try lia.
  exists m, e. repeat split; try lia. exact Hr.
Qed.

(** *** Division *)

Lemma new_location_exact nb k :
  new_location nb k = loc_Exact <-> k = 0.
Proof.
  unfold new_location, new_location_even, new_location_odd.
  destruct (Z.even nb), (Z.eqb_spec k 0); split; intros H;
    try reflexivity; try assumption; try discriminate; try contradiction.
Qed.

Lemma normal_digits m : 2 ^ 52 <= Zpos m < 2 ^ 53 -> Zdigits2 (Zpos m) = 53.
Proof. intros H. apply Zdigits2_unique; [exact H | lia]. Qed.

Lemma div_core_normal mx ex my ey :
  2 ^ 52 <= Zpos mx < 2 ^ 53 -> 2 ^ 52 <= Zpos my < 2 ^ 53 ->
  -1021 <= ex - ey ->
  SFdiv_core_binary Double.prec Double.emax (Zpos mx) ex (Zpos my) ey
  = (Zpos mx * 2 ^ 53 / Zpos my, ex - ey - 53,
     new_location (Zpos my) ((Zpos mx * 2 ^ 53) mod Zpos my)).
Proof.
  intros Hmx Hmy He. unfold SFdiv_core_binary.
  rewrite !normal_digits by assumption. rewrite fexp64_eq.
  replace (Z.min (fexp64 (53 + ex - (53 + ey))) (ex - ey)) with (ex - ey - 53)
    by (unfold fexp64; lia).
  replace (ex - ey - (ex - ey - 53)) with 53 by lia.
  rewrite Z.shiftl_mul_pow2 by lia.
  unfold Z.div, Z.modulo.
  destruct (Z.div_eucl (Zpos mx * 2 ^ 53) (Zpos my)) as [q r]. reflexivity.
Qed.

Lemma normal_exp_gap mx ex my ey :
  2 ^ 52 <= mx < 2 ^ 53 -> 2 ^ 52 <= my < 2 ^ 53 ->
  -1074 <= ex -> -1074 <= ey -> 0 <= ex + 1074 + (ey - ex) ->
  forall k, 0 <= k -> Vfin my ey <= Vfin mx ex * 2 ^ k -> ey - ex <= k.
Proof.
  intros Hmx Hmy Hex Hey _ k Hk Hle.
  destruct (Z.leb_spec (ey - ex) k) as [|Hgt]; [assumption|exfalso].
  assert (H1 : Vfin mx ex * 2 ^ k = Vfin (mx * 2 ^ k) ex) by (unfold Vfin; ring).
  rewrite H1, Vfin_shift in Hle by lia.
  pose proof (normal_exp_lt mx (ex + k) my ey ltac:(lia) ltac:(lia) ltac:(lia)
                ltac:(lia)). lia.
Qed.

Lemma div_bounds x y :
  normal_pos x -> normal_pos y -> Vabs y <= Vabs x * 2 ^ 960 ->
  let r := (x / y)%D in
  (r = S754_infinity false \/ normal_pos r)
  /\ (forall mb eb, 2 ^ 52 <= mb < 2 ^ 53 -> -1074 <= eb <= 971 ->
        Vfin mb eb * Vabs y <= Vabs x * 2 ^ 1074 ->
        r = S754_infinity false \/ Vfin mb eb <= Vabs r)
  /\ (forall mb eb, 2 ^ 52 <= mb < 2 ^ 53 -> -1074 <= eb <= 971 ->
        Vabs x * 2 ^ 1074 <= Vfin mb eb * Vabs y ->
        normal_pos r /\ Vabs r <= Vfin mb eb).
Proof.
  intros Hx Hy Hgap.
  destruct (normal_pos_inv x Hx) as [mx [ex [-> [Hmx Hex]]]].
  destruct (normal_pos_inv y Hy) as [my [ey [-> [Hmy Hey]]]].
  cbn [Vabs] in *.
  assert (Hd : -1021 <= ex - ey).
  { pose proof (normal_exp_gap (Zpos mx) ex (Zpos my) ey Hmx Hmy
                  ltac:(lia) ltac:(lia) ltac:(lia) 960 ltac:(lia) Hgap). lia. }
  cbv zeta. unfold Double.div, SFdiv.
  rewrite div_core_normal by assumption. cbn [xorb].
  set (q := Zpos mx * 2 ^ 53 / Zpos my).
  set (rm := (Zpos mx * 2 ^ 53) mod Zpos my).
  set (e' := ex - ey - 53).
  pose proof (Z.div_mod (Zpos mx * 2 ^ 53) (Zpos my) ltac:(lia)) as Hdm.
  pose proof (Z.mod_pos_bound (Zpos mx * 2 ^ 53) (Zpos my) ltac:(lia)) as Hmod.
  fold q rm in Hdm, Hmod.
  assert (Hq : 2 ^ 52 <= q).
  { apply Z.div_le_lower_bound; [lia|]. nia. }
  assert (Hdq : 53 <= Zdigits2 q).
  { destruct (Zdigits2_bounds q ltac:(lia)) as [[_ Hhi] _].
    destruct (Z.leb_spec 53 (Zdigits2 q)); [assumption|].
    pose proof (pow2_le (Zdigits2 q) 52 ltac:(lia)). lia. }
  destruct (bra_bounds false q e' (new_location (Zpos my) rm)
              ltac:(lia) Hdq ltac:(lia)) as [Hc [Hl Hu]].
  set (r := binary_round_aux Double.prec Double.emax false q e'
              (new_location (Z.pos my) rm)) in *.
  (* the exact quotient lies in the cell [q, q+1) at exponent e' *)
  set (P := 2 ^ (ex - 53 + 1074 + 1074)).
  assert (HP : 0 < P) by (apply pow2_pos; lia).
  assert (Hxy : Vfin (Zpos mx) ex * 2 ^ 1074 = Zpos mx * 2 ^ 53 * P).
  { unfold Vfin, P. rewrite <- !Z.mul_assoc. f_equal.
    rewrite <- !pow2_split by lia. f_equal. lia. }
  assert (Hqy : forall k, Vfin k e' * Vfin (Zpos my) ey = Zpos my * k * P).
  { intros k. unfold Vfin, P.
    replace (ex - 53 + 1074 + 1074) with ((e' + 1074) + (ey + 1074)) by lia.
    rewrite (pow2_split (e' + 1074) (ey + 1074)) by lia. ring. }
  assert (Hvy : 0 < Vfin (Zpos my) ey) by (apply Vfin_pos; lia).
  assert (Hc' : r = S754_infinity false \/ normal_pos r).
  { destruct Hc as [Hc | [m [e [Hr [Hn _]]]]]; [left; exact Hc|].
    right. rewrite Hr in *. exact Hn. }
  split; [exact Hc' | split].
  - intros mb eb Hmb Heb Hle. apply Hl; try assumption.
    assert (Vfin mb eb * Vfin (Zpos my) ey < Vfin (q + 1) e' * Vfin (Zpos my) ey).
    { rewrite Hqy. nia. }
    nia.
  - intros mb eb Hmb Heb Hle.
    assert (Hcase : Vfin q e' < Vfin mb eb
                    \/ (new_location (Zpos my) rm = loc_Exact
                        /\ Vfin q e' <= Vfin mb eb)).
    { destruct (Z.eq_dec rm 0) as [E0|N0].
      - right. split; [now apply new_location_exact|].
        assert (Vfin q e' * Vfin (Zpos my) ey <= Vfin mb eb * Vfin (Zpos my) ey).
        { rewrite Hqy. nia. }
        nia.
      - left.
        assert (Vfin q e' * Vfin (Zpos my) ey < Vfin mb eb * Vfin (Zpos my) ey).
        { rewrite Hqy. nia. }
        nia. }
    destruct (Hu mb eb Hmb Heb Hcase) as [Hni Hv].
    split; [|exact Hv]. destruct Hc' as [Hi | Hn]; [contradiction | exact Hn].
Qed.

Lemma div_exact x y b :
  normal_pos x -> normal_pos y -> normal_pos b ->
  Vabs y <= Vabs x * 2 ^ 960 ->
  Vabs x * 2 ^ 1074 = Vabs b * Vabs y -> (x / y)%D = b.
Proof.
  intros Hx Hy Hb Hgap HV.
  destruct (normal_pos_inv b Hb) as [mb [eb [Eb [Hmb Heb]]]].
  assert (Hvb : Vabs b = Vfin (Zpos mb) eb) by (rewrite Eb; reflexivity).
  destruct (div_bounds x y Hx Hy Hgap) as [Hc [Hl Hu]].
  destruct (Hu (Zpos mb) eb Hmb Heb ltac:(lia)) as [Hn Hle].
  destruct (Hl (Zpos mb) eb Hmb Heb ltac:(lia)) as [Hi | Hge].
  - rewrite Hi in Hn. contradiction.
  - apply normal_pos_eq; try assumption. lia.
Qed.

(** *** Square root *)

Lemma sqrt_core_normal mx ex :
  2 ^ 52 <= Zpos mx < 2 ^ 53 -> -1074 <= ex <= 971 ->
  let e' := ex / 2 - 26 in
  let m' := Zpos mx * 2 ^ (ex - 2 * e') in
  SFsqrt_core_binary Double.prec Double.emax (Zpos mx) ex
  = (Z.sqrt m', e',
     if snd (Z.sqrtrem m') =? 0 then loc_Exact
     else loc_Inexact (if snd (Z.sqrtrem m') <=? Z.sqrt m' then Lt else Gt)).
Proof.
  intros Hmx Hex e' m'. unfold SFsqrt_core_binary.
  rewrite normal_digits by assumption. rewrite fexp64_eq, !Z.div2_div.
  assert (Hh : (53 + ex + 1) / 2 = ex / 2 + 27).
  { replace (53 + ex + 1) with (ex + 27 * 2) by lia.
    rewrite Z.div_add by lia. reflexivity. }
  rewrite Hh.
  pose proof (Z.div_mod ex 2 ltac:(lia)) as Hdm.
  pose proof (Z.mod_pos_bound ex 2 ltac:(lia)) as Hmod.
  replace (Z.min (fexp64 (ex / 2 + 27)) (ex / 2)) with e'
    by (subst e'; unfold fexp64; lia).
  assert (Hs : 0 < ex - 2 * e') by (subst e'; lia).
  destruct (ex - 2 * e') as [|s|s] eqn:Es; try lia.
  rewrite Z.shiftl_mul_pow2 by lia. fold m'.
  rewrite <- Z.sqrtrem_sqrt.
  destruct (Z.sqrtrem m') as [q r]. reflexivity.
Qed.

Lemma sqrt_bounds x :
  normal_pos x ->
  let r := Double.sqrt x in
  normal_pos r
  /\ (forall mb eb, 2 ^ 52 <= mb < 2 ^ 53 -> -1074 <= eb <= 971 ->
        Vfin mb eb * Vfin mb eb <= Vabs x * 2 ^ 1074 -> Vfin mb eb <= Vabs r)
  /\ (forall mb eb, 2 ^ 52 <= mb < 2 ^ 53 -> -1074 <= eb <= 971 ->
        Vabs x * 2 ^ 1074 <= Vfin mb eb * Vfin mb eb -> Vabs r <= Vfin mb eb).
Proof.
  intros Hx.
  destruct (normal_pos_inv x Hx) as [mx [ex [-> [Hmx Hex]]]].
  cbv zeta. cbn [Vabs]. unfold Double.sqrt, SFsqrt.
  rewrite sqrt_core_normal by assumption.
  pose proof (Z.div_mod ex 2 ltac:(lia)) as Hdm.
  pose proof (Z.mod_pos_bound ex 2 ltac:(lia)) as Hmod.
  set (e' := ex / 2 - 26) in *.
  set (s := ex - 2 * e').
  assert (Hs : 52 <= s <= 53) by (subst s e'; lia).
  set (m' := Zpos mx * 2 ^ s).
  assert (Hm' : 2 ^ 104 <= m' < 2 ^ 106).
  { subst m'. destruct (Z.eq_dec s 52) as [->|Hne].
    - change (2 ^ 104) with (2 ^ 52 * 2 ^ 52).
      change (2 ^ 106) with (2 ^ 54 * 2 ^ 52). lia.
    - replace s with 53 by lia.
      change (2 ^ 104) with (2 ^ 51 * 2 ^ 53).
      change (2 ^ 106) with (2 ^ 53 * 2 ^ 53). lia. }
  pose proof (Z.sqrtrem_spec m' ltac:(lia)) as Hsq.
  rewrite <- (Z.sqrtrem_sqrt m').
  destruct (Z.sqrtrem m') as [q rm]. cbn [fst snd]. destruct Hsq as [Hsq Hrm].
  assert (Hq : 2 ^ 52 <= q < 2 ^ 53).
  { change (2 ^ 104) with (2 ^ 52 * 2 ^ 52) in Hm'.
    change (2 ^ 106) with (2 ^ 53 * 2 ^ 53) in Hm'. nia. }
  assert (Hdq : Zdigits2 q = 53) by (apply Zdigits2_unique; lia).
  set (lz := if rm =? 0 then loc_Exact
             else loc_Inexact (if rm <=? q then Lt else Gt)).
  destruct (bra_bounds false q e' lz ltac:(lia) ltac:(lia) ltac:(subst e'; lia))
    as [Hc [Hl Hu]].
  set (r := binary_round_aux Double.prec Double.emax false q e' lz) in *.
  set (u := 2 ^ (e' + 1074)).
  assert (Hu0 : 0 < u) by (apply pow2_pos; subst e'; lia).
  assert (Hxv : Vfin (Zpos mx) ex * 2 ^ 1074 = m' * (u * u)).
  { unfold Vfin, m', u. rewrite <- !Z.mul_assoc. f_equal.
    rewrite <- !pow2_split by (subst s e'; lia). f_equal. subst s. lia. }
  assert (Hqv : forall k, Vfin k e' * Vfin k e' = k * k * (u * u))
    by (intros k; unfold Vfin, u; ring).
  assert (Hcase0 : forall mb eb,
             Vfin (Zpos mx) ex * 2 ^ 1074 <= Vfin mb eb * Vfin mb eb ->
             0 < Vfin mb eb ->
             Vfin q e' < Vfin mb eb
             \/ (lz = loc_Exact /\ Vfin q e' <= Vfin mb eb)).
  { intros mb eb Hle Hpos.
    assert (Hq0 : 0 < Vfin q e') by (apply Vfin_pos; subst e'; lia).
    destruct (Z.eq_dec rm 0) as [E0|N0].
    - right. split; [subst lz; rewrite E0; reflexivity|].
      assert (Vfin q e' * Vfin q e' <= Vfin mb eb * Vfin mb eb)
        by (rewrite Hqv; nia).
      nia.
    - left.
      assert (Vfin q e' * Vfin q e' < Vfin mb eb * Vfin mb eb)
        by (rewrite Hqv; nia).
      nia. }
  assert (Hn : normal_pos r).
  { destruct (Hu (2 ^ 52) 460 ltac:(lia) ltac:(lia)) as [Hni _].
    - apply Hcase0; [|apply Vfin_pos; lia].
      assert (Hb : Vfin (2 ^ 52) 460 = 2 ^ 1074 * 2 ^ 512) by reflexivity.
      rewrite Hb.
      assert (Vfin (Zpos mx) ex < 2 ^ 1074 * 2 ^ 1024).
      { change (2 ^ 1074 * 2 ^ 1024) with (Vfin (2 ^ 53) 971).
        destruct (Z.eq_dec ex 971) as [->|Hne].
        - unfold Vfin. pose proof (pow2_pos (971 + 1074) ltac:(lia)). nia.
        - pose proof (normal_exp_lt (Zpos mx) ex (2 ^ 52) 971
                        ltac:(lia) ltac:(lia) ltac:(lia) ltac:(lia)).
          assert (Vfin (2 ^ 52) 971 <= Vfin (2 ^ 53) 971)
            by (unfold Vfin; pose proof (pow2_pos (971 + 1074) ltac:(lia)); nia).
          lia. }
      change ((2:Z) ^ 1024) with (2 ^ 512 * 2 ^ 512) in H.
      assert (0 < (2:Z) ^ 1074) by (apply pow2_pos; lia).
      assert (0 < (2:Z) ^ 512) by (apply pow2_pos; lia).
      nia.
    - destruct Hc as [Hc | [m [e [Hr [Hnr _]]]]]; [contradiction|].
      rewrite Hr in *. exact Hnr. }
  split; [exact Hn | split].
  - intros mb eb Hmb Heb Hle.
    destruct (Hl mb eb Hmb Heb) as [Hi | Hge]; [| rewrite Hi in Hn; contradiction | exact Hge].
    assert (Hb0 : 0 < Vfin mb eb) by (apply Vfin_pos; lia).
    assert (Hq1 : 0 < Vfin (q + 1) e') by (apply Vfin_pos; subst e'; lia).
    assert (Vfin mb eb * Vfin mb eb < Vfin (q + 1) e' * Vfin (q + 1) e')
      by (rewrite (Hqv (q + 1)); nia).
    nia.
  - intros mb eb Hmb Heb Hle.
    destruct (Hu mb eb Hmb Heb) as [_ Hv]; [|exact Hv].
    apply Hcase0; [exact Hle | apply Vfin_pos; lia].
Qed.

(** *** Multiplication *)

Lemma digits_lower m k : 0 <= k -> 2 ^ k <= m -> k + 1 <= Zdigits2 m.
Proof.
  intros Hk Hm. pose proof (pow2_pos k Hk).
  destruct (Zdigits2_bounds m ltac:(lia)) as [[_ Hhi] _].
  destruct (Z.leb_spec (k + 1) (Zdigits2 m)); [assumption|].
  pose proof (pow2_le (Zdigits2 m) k ltac:(lia)). lia.
Qed.

Lemma mul_bounds sx mx ex sy my ey :
  2 ^ 52 <= Zpos mx < 2 ^ 53 -> 2 ^ 52 <= Zpos my < 2 ^ 53 ->
  -1074 <= ex -> -1074 <= ey -> -1074 <= ex + ey ->
  let s := xorb sx sy in
  let r := (S754_finite sx mx ex * S754_finite sy my ey)%D in
  (r = S754_infinity s
   \/ exists m e, r = S754_finite s m e /\ normal r /\ ex + ey + 52 <= e)
  /\ (forall mb eb, 2 ^ 52 <= mb < 2 ^ 53 -> -1074 <= eb <= 971 ->
        Vfin mb eb * 2 ^ 1074 <= Vfin (Zpos mx) ex * Vfin (Zpos my) ey ->
        r = S754_infinity s \/ Vfin mb eb <= Vabs r)
  /\ (forall mb eb, 2 ^ 52 <= mb < 2 ^ 53 -> -1074 <= eb <= 971 ->
        Vfin (Zpos mx) ex * Vfin (Zpos my) ey <= Vfin mb eb * 2 ^ 1074 ->
        r <> S754_infinity s /\ Vabs r <= Vfin mb eb).
Proof.
  intros Hmx Hmy Hex Hey He s r. subst r. unfold Double.mul, SFmul. fold s.
  set (P := Zpos (mx * my)).
  assert (HP : P = Zpos mx * Zpos my) by reflexivity.
  assert (HP104 : 2 ^ 104 <= P).
  { change (2 ^ 104) with (2 ^ 52 * 2 ^ 52). nia. }
  pose proof (digits_lower P 104 ltac:(lia) HP104) as Hd.
  destruct (bra_bounds s P (ex + ey) loc_Exact ltac:(lia) ltac:(lia) He)
    as [Hc [Hl Hu]].
  set (r := binary_round_aux Double.prec Double.emax s P (ex + ey) loc_Exact) in *.
  assert (HV : Vfin (Zpos mx) ex * Vfin (Zpos my) ey = Vfin P (ex + ey) * 2 ^ 1074).
  { unfold Vfin. rewrite HP.
    replace (ex + ey + 1074) with ((ex + 1074) + ey) by lia.
    assert (E : 2 ^ (ex + 1074 + ey) * 2 ^ 1074 = 2 ^ (ex + 1074) * 2 ^ (ey + 1074)).
    { rewrite <- (pow2_split (ex + 1074 + ey) 1074) by lia.
      rewrite <- (pow2_split (ex + 1074) (ey + 1074)) by lia. f_equal. lia. }
    assert (E2 : Zpos mx * Zpos my * 2 ^ (ex + 1074 + ey) * 2 ^ 1074
                 = Zpos mx * Zpos my * (2 ^ (ex + 1074 + ey) * 2 ^ 1074)) by ring.
    rewrite E2, E. ring. }
  assert (H74 : 0 < (2:Z) ^ 1074) by (apply pow2_pos; lia).
  pose proof (pow2_pos (ex + ey + 1074) ltac:(lia)) as Hpe.
  split; [|split].
  - destruct Hc as [Hc | [m [e [Hr [Hn Hle]]]]]; [left; exact Hc|].
    right. exists m, e. repeat split; try assumption. lia.
  - intros mb eb Hmb Heb Hle. apply Hl; try assumption.
    rewrite HV in Hle.
    assert (Vfin P (ex + ey) < Vfin (P + 1) (ex + ey)) by (unfold Vfin; nia).
    nia.
  - intros mb eb Hmb Heb Hle. apply Hu; try assumption. right.
    split; [reflexivity|]. rewrite HV in Hle. nia.
Qed.

(** *** Addition and subtraction *)

Lemma shl_align_fst mx ex ez :
  ez <= ex -> Zpos (fst (shl_align mx ex ez)) = Zpos mx * 2 ^ (ex - ez).
Proof.
  intros Hle. unfold shl_align.
  destruct (ez - ex) as [|d|d] eqn:E; cbn [fst].
  - replace (ex - ez) with 0 by lia. lia.
  - lia.
  - rewrite shift_pos_pow. do 2 f_equal. lia.
Qed.

Lemma sub_self x :
  (exists s m e, x = S754_finite s m e) -> (x - x)%D = S754_zero false.
Proof.
  intros [s [m [e ->]]]. unfold Double.sub, SFsub.
  rewrite Z.min_id, Z.sub_diag. reflexivity.
Qed.

(** The exact difference of two finite doubles, as a mantissa at the
    smaller exponent. *)
Lemma sub_finite sx mx ex sy my ey :
  let ez := Z.min ex ey in
  (S754_finite sx mx ex - S754_finite sy my ey)%D
  = binary_normalize Double.prec Double.emax
      (cond_Zopp sx (Zpos mx * 2 ^ (ex - ez)) - cond_Zopp sy (Zpos my * 2 ^ (ey - ez)))
      ez false.
Proof.
  intros ez. unfold Double.sub, SFsub. fold ez.
  rewrite !shl_align_fst by lia. reflexivity.
Qed.

Lemma add_finite sx mx ex sy my ey :
  let ez := Z.min ex ey in
  (S754_finite sx mx ex + S754_finite sy my ey)%D
  = binary_normalize Double.prec Double.emax
      (cond_Zopp sx (Zpos mx * 2 ^ (ex - ez)) + cond_Zopp sy (Zpos my * 2 ^ (ey - ez)))
      ez false.
Proof.
  intros ez. unfold Double.add, SFadd. fold ez.
  rewrite !shl_align_fst by lia. reflexivity.
Qed.

Lemma aligned_value m e ez :
  -1074 <= ez -> ez <= e -> Vfin (m * 2 ^ (e - ez)) ez = Vfin m e.
Proof.
  intros H1 H2. rewrite Vfin_shift by lia. f_equal. lia.
Qed.

(** Normalising a non-zero integer mantissa [D] at exponent [ez] whose
    value is in the normal range. *)
Lemma normalize_bounds D ez :
  D <> 0 -> -1074 <= ez -> 2 ^ 52 <= Vfin (Z.abs D) ez ->
  let s := D <? 0 in
  let r := binary_normalize Double.prec Double.emax D ez false in
  (r = S754_infinity s
   \/ exists m e, r = S754_finite s m e /\ normal r
                  /\ ez + (Zdigits2 D - 53) <= e)
  /\ (forall mb eb, 2 ^ 52 <= mb < 2 ^ 53 -> -1074 <= eb <= 971 ->
        Vfin mb eb <= Vfin (Z.abs D) ez ->
        r = S754_infinity s \/ Vfin mb eb <= Vabs r)
  /\ (forall mb eb, 2 ^ 52 <= mb < 2 ^ 53 -> -1074 <= eb <= 971 ->
        Vfin (Z.abs D) ez <= Vfin mb eb ->
        r <> S754_infinity s /\ Vabs r <= Vfin mb eb).
Proof.
  intros HD Hez Hval.
  assert (Hdig : forall p, 2 ^ 52 <= Vfin (Zpos p) ez ->
                   -1074 <= ez + (Zdigits2 (Zpos p) - 53)).
  { intros p Hv. destruct (Zdigits2_bounds (Zpos p) ltac:(lia)) as [[_ Hhi] Hd].
    set (d := Zdigits2 (Zpos p)) in *.
    destruct (Z.leb_spec (-1074) (ez + (d - 53))); [assumption|exfalso].
    assert (Vfin (Zpos p) ez < 2 ^ d * 2 ^ (ez + 1074)).
    { unfold Vfin. pose proof (pow2_pos (ez + 1074) ltac:(lia)). nia. }
    rewrite <- pow2_split in H0 by lia.
    pose proof (pow2_le (d + (ez + 1074)) 52 ltac:(lia)). lia. }
  destruct D as [|p|p]; [contradiction | |]; cbn [Z.abs] in Hval; cbv zeta;
    unfold binary_normalize.
  - change (Zpos p <? 0) with false.
    apply binary_round_bounds; [assumption | now apply Hdig].
  - change (Zneg p <? 0) with true. change (Z.abs (Zneg p)) with (Zpos p).
    change (Zdigits2 (Zneg p)) with (Zdigits2 (Zpos p)).
    apply binary_round_bounds; [assumption | now apply Hdig].
Qed.

(** ** Chi-squared: the statistic *)

Lemma tally_cons v x l : tally v (x :: l) = (if v =? x then 1 else 0) + tally v l.
Proof.
  change (x :: l) with ([x] ++ l). now rewrite tally_app, tally_one.
Qed.

Lemma list_sum_cons x l : list_sum (x :: l) = x + list_sum l.
Proof. reflexivity. Qed.

Lemma list_sum_indicator x l :
  list_sum (map (fun i => if i =? x then 1 else 0) l) = tally x l.
Proof.
  induction l as [|y l IH]; [reflexivity|].
  simpl map. rewrite list_sum_cons, tally_cons, IH, (Z.eqb_sym y x). reflexivity.
Qed.

Lemma list_sum_map_add {A : Type} (f g : A -> Z) l :
  list_sum (map (fun i => f i + g i) l) = list_sum (map f l) + list_sum (map g l).
Proof.
  induction l as [|y l IH]; [reflexivity|].
  simpl map. rewrite !list_sum_cons, IH. lia.
Qed.

(** Every sample falls into exactly one bin. *)
Lemma observed_total (L : list Z) (NB : nat) :
  Forall (fun x => 0 <= x < Z.of_nat NB) L ->
  list_sum (map (fun i => tally i L) (zrange NB)) = Z.of_nat (length L).
Proof.
  induction 1 as [|x L Hx _ IH].
  - rewrite list_sum_zero; [reflexivity | intros; apply tally_nil].
  - rewrite (map_ext _ (fun i => (if i =? x then 1 else 0) + tally i L))
      by (intros; apply tally_cons).
    rewrite list_sum_map_add, IH, list_sum_indicator, tally_zrange.
    destruct (Z.leb_spec 0 x), (Z.ltb_spec x (Z.of_nat NB)); cbn [andb length]; lia.
Qed.

Lemma list_sum_const {A : Type} (f : A -> Z) (c : Z) l :
  (forall i, In i l -> f i = c) -> list_sum (map f l) = Z.of_nat (length l) * c.
Proof.
  induction l as [|y l IH]; intros H; [reflexivity|].
  simpl map. rewrite list_sum_cons, IH by (intros; apply H; simpl; auto).
  rewrite (H y) by (simpl; auto).
  simpl length. lia.
Qed.

Lemma bin_of_range B x :
  word_ok x -> 1 <= B -> 0 <= bin_of B (2 ^ 32) x < B.
Proof.
  intros Hx HB. unfold word_ok in Hx. unfold bin_of.
  assert (0 <= x * B / 2 ^ 32 < B).
  { split; [apply Z.div_pos; nia|]. apply Z.div_lt_upper_bound; nia. }
  lia.
Qed.

(** A perfectly uniform histogram forces [n = B * (n / B)]. *)
Lemma uniform_divides data n B :
  buffer_ok data n -> 1 <= B ->
  (forall i, 0 <= i < B -> observed B (2 ^ 32) data i = n / B) ->
  n = B * (n / B).
Proof.
  intros Hok HB Hun.
  assert (Hall : Forall (fun x => 0 <= x < Z.of_nat (Z.to_nat B))
                   (map (bin_of B (2 ^ 32)) data)).
  { apply Forall_forall. intros y Hy. apply in_map_iff in Hy.
    destruct Hy as [x [<- Hx]]. rewrite Z2Nat.id by lia.
    apply bin_of_range; [|assumption].
    pose proof (buf_words _ _ Hok) as Hw. rewrite Forall_forall in Hw. auto. }
  pose proof (observed_total _ _ Hall) as Ht.
  rewrite length_map, <- (buf_len _ _ Hok) in Ht.
  rewrite (list_sum_const _ (n / B)) in Ht.
  - rewrite zrange_length, Z2Nat.id in Ht by lia. lia.
  - intros i Hi. apply in_zrange in Hi. apply Hun. lia.
Qed.

(** The sum of [chi_squared] over a histogram whose bins all hold the
    expected count is exactly zero. *)
Lemma chi_sum_uniform (freq : list Z) (NB : nat) (k : Z) :
  0 < k < 2 ^ 53 ->
  (forall i, 0 <= i < Z.of_nat NB -> array_get freq i = k) ->
  for_range 0 NB
    (fun i chi2 =>
       let diff := (Double.of_Z (array_get freq i) - Double.of_Z k)%D in
       (chi2 + diff * diff / Double.of_Z k)%D)
    Double.zero
  = Double.zero.
Proof.
  intros Hk Hf. destruct (of_Z_exp k Hk) as [m [e [Ek _]]].
  induction NB as [|NB IH]; [reflexivity|].
  rewrite for_range_snoc, IH by (intros; apply Hf; lia).
  cbv zeta. rewrite Hf by lia. rewrite sub_self by (rewrite Ek; eauto).
  rewrite Ek. reflexivity.
Qed.

Lemma fold_left_ext_in {A B : Type} (f g : A -> B -> A) (l : list B) (a : A) :
  (forall x y, In y l -> f x y = g x y) -> fold_left f l a = fold_left g l a.
Proof.
  revert a. induction l as [|y l IH]; intros a H; [reflexivity|].
  simpl. rewrite (H a y) by (simpl; auto). apply IH.
  intros x z Hz. apply H. simpl; auto.
Qed.

Lemma small_int_normal z :
  0 < z < 2 ^ 53 ->
  normal_pos (Double.of_Z z) /\ Vabs (Double.of_Z z) = z * 2 ^ 1074.
Proof.
  intros Hz.
  destruct (of_Z_exact z Hz) as [Hn Hv]. split; [exact Hn|].
  rewrite Hv. reflexivity.
Qed.

(** C6. With [R = 2^32], [1 <= B <= n]: every sample [x] is counted in bin
    [floor (x * B / R)] clamped to [B - 1]; the result is the sum over the
    bins, in order, of [(observed_i - n/B)^2 / (n/B)] in double arithmetic;
    and on a perfectly uniform histogram (every bin holds [n / B] samples)
    the result is 0. *)
Theorem chi_squared_statistic :
  forall (data : list Z) (n B : Z),
    buffer_ok data n -> 1 <= B -> B <= n -> n <= INT_MAX ->
    let R := 2 ^ 32 in
    let expected := (Double.of_Z n / Double.of_Z B)%D in
    (forall i, 0 <= i < B ->
       array_get (chi_freq data n B R) i
       = tally i (map (fun x => Z.min (x * B / R) (B - 1)) data))
    /\ chi_squared data n B R
       = fold_left
           (fun chi2 i =>
              let diff := (Double.of_Z (observed B R data i) - expected)%D in
              (chi2 + diff * diff / expected)%D)
           (zrange (Z.to_nat B)) Double.zero
    /\ ((forall i, 0 <= i < B -> observed B R data i = n / B) ->
        chi_squared data n B R = Double.zero).
Proof.
  intros data n B Hok HB HBn Hn R expected.
  assert (HBi : 1 <= B <= INT_MAX) by lia.
  pose proof (chi_freq_observed data n B Hok HBi) as Hfreq. fold R in Hfreq.
  assert (Hget : forall i, 0 <= i < B ->
                   array_get (chi_freq data n B R) i = observed B R data i).
  { intros i Hi. rewrite Hfreq. apply array_get_map. lia. }
  split; [|split].
  - intros i Hi. rewrite Hget by assumption. reflexivity.
  - unfold chi_squared, chi_sum, for_upto. fold expected.
    rewrite for_range_fold. apply fold_left_ext_in.
    intros chi2 i Hi. apply in_zrange in Hi. rewrite Hget by lia. reflexivity.
  - intros Hun.
    pose proof (uniform_divides data n B Hok HB Hun) as Hdiv.
    set (k := n / B) in *.
    assert (Hk : 0 < k) by nia.
    assert (Hk53 : 0 < k < 2 ^ 53) by (unfold INT_MAX in *; nia).
    destruct (small_int_normal n ltac:(unfold INT_MAX in *; lia)) as [Nn Vn].
    destruct (small_int_normal B ltac:(unfold INT_MAX in *; lia)) as [NB VB].
    destruct (small_int_normal k Hk53) as [Nk Vk].
    assert (He : expected = Double.of_Z k).
    { subst expected. apply div_exact; try assumption.
      - rewrite Vn, VB. pose proof (pow2_pos 1074 ltac:(lia)).
        pose proof (pow2_pos 960 ltac:(lia)). nia.
      - rewrite Vn, VB, Vk, Hdiv. ring. }
    unfold chi_squared, chi_sum, for_upto. fold expected. rewrite He.
    apply chi_sum_uniform; [exact Hk53|].
    intros i Hi. rewrite Hget by lia. apply Hun. lia.
Qed.

Lemma chi_squared_statistic_witness :
  chi_squared [0; 2147483648; 1; 4294967295] 4 2 (2 ^ 32) = Double.zero.
Proof.
  assert (Hok : buffer_ok [0; 2147483648; 1; 4294967295] 4).
  { split; [reflexivity | | reflexivity].
    repeat constructor; unfold word_ok; lia. }
  apply (chi_squared_statistic _ 4 2 Hok); try (unfold INT_MAX; lia).
  intros i Hi. assert (Hi' : i = 0 \/ i = 1) by lia.
  destruct Hi' as [-> | ->]; reflexivity.
Defined.

(** ** Exact operations on positive doubles *)

Lemma add_pos_bounds x y :
  normal_pos x -> normal_pos y ->
  let r := (x + y)%D in
  (r = S754_infinity false \/ normal_pos r)
  /\ (forall mb eb, 2 ^ 52 <= mb < 2 ^ 53 -> -1074 <= eb <= 971 ->
        Vfin mb eb <= Vabs x + Vabs y ->
        r = S754_infinity false \/ Vfin mb eb <= Vabs r)
  /\ (forall mb eb, 2 ^ 52 <= mb < 2 ^ 53 -> -1074 <= eb <= 971 ->
        Vabs x + Vabs y <= Vfin mb eb ->
        normal_pos r /\ Vabs r <= Vfin mb eb).
Proof.
  intros Hx Hy.
  destruct (normal_pos_inv x Hx) as [mx [ex [-> [Hmx Hex]]]].
  destruct (normal_pos_inv y Hy) as [my [ey [-> [Hmy Hey]]]].
  cbv zeta. cbn [Vabs]. rewrite add_finite. cbn [cond_Zopp].
  set (ez := Z.min ex ey).
  set (D := Zpos mx * 2 ^ (ex - ez) + Zpos my * 2 ^ (ey - ez)).
  pose proof (pow2_pos (ex - ez) ltac:(lia)).
  pose proof (pow2_pos (ey - ez) ltac:(lia)).
  assert (HD : 0 < D) by (subst D; nia).
  assert (HV : Vfin (Z.abs D) ez = Vfin (Zpos mx) ex + Vfin (Zpos my) ey).
  { rewrite Z.abs_eq by lia. subst D.
    rewrite <- (aligned_value (Zpos mx) ex ez), <- (aligned_value (Zpos my) ey ez)
      by lia.
    unfold Vfin. ring. }
  assert (Hbig : 2 ^ 52 <= Vfin (Z.abs D) ez).
  { rewrite HV. pose proof (Vfin_pos (Zpos my) ey ltac:(lia) ltac:(lia)).
    unfold Vfin in *. pose proof (pow2_le 0 (ex + 1074) ltac:(lia)).
    change (2 ^ 0) with 1 in *. nia. }
  destruct (normalize_bounds D ez ltac:(lia) ltac:(lia) Hbig) as [Hc [Hl Hu]].
  replace (D <? 0) with false in * by (symmetry; apply Z.ltb_ge; lia).
  rewrite HV in Hl, Hu.
  set (r := binary_normalize Double.prec Double.emax D ez false) in *.
  assert (Hc' : r = S754_infinity false \/ normal_pos r).
  { destruct Hc as [Hc | [m [e [Hr [Hn _]]]]]; [left; exact Hc|].
    right. rewrite Hr in *. exact Hn. }
  split; [exact Hc' | split].
  - exact Hl.
  - intros mb eb Hmb Heb Hle. destruct (Hu mb eb Hmb Heb Hle) as [Hni Hv].
    split; [|exact Hv]. destruct Hc' as [Hi | Hn]; [contradiction | exact Hn].
Qed.

Lemma sub_pos_bounds x y :
  normal_pos x -> normal_pos y -> 2 ^ 52 <= Vabs x - Vabs y ->
  let r := (x - y)%D in
  (r = S754_infinity false \/ normal_pos r)
  /\ (forall mb eb, 2 ^ 52 <= mb < 2 ^ 53 -> -1074 <= eb <= 971 ->
        Vfin mb eb <= Vabs x - Vabs y ->
        r = S754_infinity false \/ Vfin mb eb <= Vabs r)
  /\ (forall mb eb, 2 ^ 52 <= mb < 2 ^ 53 -> -1074 <= eb <= 971 ->
        Vabs x - Vabs y <= Vfin mb eb ->
        normal_pos r /\ Vabs r <= Vfin mb eb).
Proof.
  intros Hx Hy.
  destruct (normal_pos_inv x Hx) as [mx [ex [-> [Hmx Hex]]]].
  destruct (normal_pos_inv y Hy) as [my [ey [-> [Hmy Hey]]]].
  cbv zeta. cbn [Vabs]. intros Hdiff. rewrite sub_finite. cbn [cond_Zopp].
  set (ez := Z.min ex ey).
  set (D := Zpos mx * 2 ^ (ex - ez) - Zpos my * 2 ^ (ey - ez)).
  assert (HVD : Vfin D ez = Vfin (Zpos mx) ex - Vfin (Zpos my) ey).
  { subst D.
    rewrite <- (aligned_value (Zpos mx) ex ez), <- (aligned_value (Zpos my) ey ez)
      by lia.
    unfold Vfin. ring. }
  assert (HD : 0 < D).
  { pose proof (pow2_pos (ez + 1074) ltac:(lia)). unfold Vfin in HVD at 1. nia. }
  assert (HV : Vfin (Z.abs D) ez = Vfin (Zpos mx) ex - Vfin (Zpos my) ey)
    by (rewrite Z.abs_eq by lia; exact HVD).
  destruct (normalize_bounds D ez ltac:(lia) ltac:(lia) ltac:(lia)) as [Hc [Hl Hu]].
  replace (D <? 0) with false in * by (symmetry; apply Z.ltb_ge; lia).
  rewrite HV in Hl, Hu.
  set (r := binary_normalize Double.prec Double.emax D ez false) in *.
  assert (Hc' : r = S754_infinity false \/ normal_pos r).
  { destruct Hc as [Hc | [m [e [Hr [Hn _]]]]]; [left; exact Hc|].
    right. rewrite Hr in *. exact Hn. }
  split; [exact Hc' | split].
  - exact Hl.
  - intros mb eb Hmb Heb Hle. destruct (Hu mb eb Hmb Heb Hle) as [Hni Hv].
    split; [|exact Hv]. destruct Hc' as [Hi | Hn]; [contradiction | exact Hn].
Qed.

Lemma sub_exact_pos x y b :
  normal_pos x -> normal_pos y -> normal_pos b ->
  Vabs b = Vabs x - Vabs y -> (x - y)%D = b.
Proof.
  intros Hx Hy Hb HV.
  destruct (normal_pos_inv b Hb) as [mb [eb [Eb [Hmb Heb]]]].
  assert (Hvb : Vabs b = Vfin (Zpos mb) eb) by (rewrite Eb; reflexivity).
  assert (Hbig : 2 ^ 52 <= Vabs x - Vabs y).
  { rewrite <- HV, Hvb. unfold Vfin. pose proof (pow2_le 0 (eb + 1074) ltac:(lia)).
    change (2 ^ 0) with 1 in *. nia. }
  destruct (sub_pos_bounds x y Hx Hy Hbig) as [Hc [Hl Hu]].
  destruct (Hu (Zpos mb) eb Hmb Heb ltac:(lia)) as [Hn Hle].
  destruct (Hl (Zpos mb) eb Hmb Heb ltac:(lia)) as [Hi | Hge].
  - rewrite Hi in Hn. contradiction.
  - apply normal_pos_eq; try assumption. lia.
Qed.

Lemma mul_exact_pos x y b :
  normal_pos x -> normal_pos y -> normal_pos b ->
  2 ^ 1074 <= Vabs x -> 2 ^ 1074 <= Vabs y ->
  Vabs x * Vabs y = Vabs b * 2 ^ 1074 -> (x * y)%D = b.
Proof.
  intros Hx Hy Hb Hx1 Hy1 HV.
  destruct (normal_pos_inv x Hx) as [mx [ex [Ex [Hmx Hex]]]].
  destruct (normal_pos_inv y Hy) as [my [ey [Ey [Hmy Hey]]]].
  destruct (normal_pos_inv b Hb) as [mb [eb [Eb [Hmb Heb]]]].
  subst x y. cbn [Vabs] in *.
  assert (Hvb : Vabs b = Vfin (Zpos mb) eb) by (rewrite Eb; reflexivity).
  assert (He : forall m e, 2 ^ 52 <= m < 2 ^ 53 -> -1074 <= e ->
                 2 ^ 1074 <= Vfin m e -> -53 <= e).
  { intros m e Hm He Hv. destruct (Z.leb_spec (-53) e); [assumption|exfalso].
    pose proof (normal_exp_lt m e (2 ^ 52) (-52) ltac:(lia) ltac:(lia) He ltac:(lia)).
    change (Vfin (2 ^ 52) (-52)) with (2 ^ 1074) in H0. lia. }
  pose proof (He (Zpos mx) ex Hmx ltac:(lia) Hx1).
  pose proof (He (Zpos my) ey Hmy ltac:(lia) Hy1).
  destruct (mul_bounds false mx ex false my ey Hmx Hmy ltac:(lia) ltac:(lia)
              ltac:(lia)) as [Hc [Hl Hu]].
  cbn [xorb] in *.
  set (r := (S754_finite false mx ex * S754_finite false my ey)%D) in *.
  destruct (Hu (Zpos mb) eb Hmb Heb ltac:(lia)) as [Hni Hle].
  destruct (Hl (Zpos mb) eb Hmb Heb ltac:(lia)) as [Hi | Hge]; [contradiction|].
  destruct Hc as [Hc | [m [e [Hr [Hn _]]]]]; [contradiction|].
  apply normal_pos_eq; try assumption.
  - rewrite Hr in *. exact Hn.
  - lia.
Qed.

(** ** Monobit: extreme and balanced streams *)

Lemma count_ones_uniform_words w (c : Z) :
  Forall (fun x => list_sum (word_bits x) = c) w ->
  forall k : nat, (k <= length w)%nat ->
    count_ones (bits_prefix w (32 * k)) = c * Z.of_nat k.
Proof.
  intros Hw. induction k as [|k IH]; intros Hk.
  - simpl. unfold count_ones, list_sum. simpl. lia.
  - rewrite bits_prefix_word. unfold count_ones in *.
    rewrite list_sum_app, IH by lia.
    rewrite Forall_forall in Hw. rewrite (Hw (word_at w (Z.of_nat k))).
    + lia.
    + unfold word_at. rewrite Nat2Z.id. apply nth_In. lia.
Qed.

Lemma count_ones_uniform_buffer w len (c : Z) :
  buffer_ok w len -> 0 <= len ->
  Forall (fun x => list_sum (word_bits x) = c) w ->
  count_ones (bits w len) = c * len.
Proof.
  intros Hok Hlen Hw. unfold bits.
  pose proof (buf_len _ _ Hok) as Hl.
  replace (Z.to_nat (len * 32)) with (32 * length w)%nat by lia.
  rewrite (count_ones_uniform_words w c Hw) by lia. lia.
Qed.

Lemma two_normal : normal_pos Double.two /\ Vabs Double.two = 2 * 2 ^ 1074.
Proof. split; [unfold Double.two; simpl; lia | reflexivity]. Qed.

Lemma four_normal : normal_pos Double.four /\ Vabs Double.four = 4 * 2 ^ 1074.
Proof. split; [unfold Double.four; simpl; lia | reflexivity]. Qed.


Lemma leb_two_inf : Double.leb Double.two (S754_infinity false) = true.
Proof. reflexivity. Qed.

(** Doubling a small positive integer is exact. *)
Lemma double_int_exact a :
  0 < a -> 2 * a < 2 ^ 53 ->
  (Double.two * Double.of_Z a)%D = Double.of_Z (2 * a).
Proof.
  intros Ha H2a.
  destruct (small_int_normal a ltac:(lia)) as [Na Va].
  destruct (small_int_normal (2 * a) ltac:(lia)) as [N2 V2].
  destruct two_normal as [Nt Vt].
  pose proof (pow2_pos 1074 ltac:(lia)).
  apply mul_exact_pos; try assumption.
  - rewrite Vt. lia.
  - rewrite Va. nia.
  - rewrite Vt, Va, V2. ring.
Qed.


Section MonobitVerdicts.

(** What the verdicts below use of the C library's [erfc]: [erfc 0 = 1]
    is at least 0.01, and [erfc x] is below 0.01 from [x = 2] on
    ([erfc 2] is about 0.0047). *)
Variable erfc : Double.double -> Double.double.
Hypothesis erfc_zero : (erfc Double.zero >=? Double.alpha)%D = true.
Hypothesis erfc_tail :
  forall x, Double.leb Double.two x = true -> (erfc x >=? Double.alpha)%D = false.




End MonobitVerdicts.


(** ** Cumulative sums: the divisor is never zero *)

Lemma wrap_s64_range x : - 2 ^ 63 <= wrap_s64 x < 2 ^ 63.
Proof.
  unfold wrap_s64. pose proof (Z.mod_pos_bound (x + 2 ^ 63) (2 ^ 64) ltac:(lia)).
  lia.
Qed.

Lemma cusum_step_range w i st : snd st < 2 ^ 63 -> snd (cusum_step w i st) < 2 ^ 63.
Proof.
  destruct st as [s zmax]. unfold cusum_step. cbn [snd]. intros Hz.
  set (s' := wrap_s64 (s + (if bit_at w i =? 0 then -1 else 1))).
  pose proof (wrap_s64_range (s + (if bit_at w i =? 0 then -1 else 1))).
  pose proof (wrap_s64_range (- s')).
  destruct (s' >? zmax); cbn [snd]; [subst s'; lia|].
  destruct (wrap_s64 (- s') >? zmax); cbn [snd]; lia.
Qed.

Lemma cusum_zmax_range w len : cusum_zmax w len < 2 ^ 63.
Proof.
  unfold cusum_zmax, cusum_walk, for_upto.
  generalize (Z.to_nat (wrap_u64 (len * 32))). intros k.
  assert (H : forall i st, snd st < 2 ^ 63 ->
                snd (for_range i k (cusum_step w) st) < 2 ^ 63).
  { induction k as [|k IH]; intros i st Hst; simpl; [exact Hst|].
    apply IH. now apply cusum_step_range. }
  apply H. simpl. lia.
Qed.

Lemma of_Z_normal z : 0 < z < 2 ^ 64 -> normal_pos (Double.of_Z z).
Proof.
  intros Hz. destruct (of_Z_bounds z) as [_ [_ Hu]].
  { pose proof (pow2_le 64 1024 ltac:(lia)). lia. }
  destruct (Hu (2 ^ 52) 12 ltac:(lia) ltac:(lia)) as [Hn _]; [|exact Hn].
  change (Vfin (2 ^ 52) 12) with (Vfin (2 ^ 64) 0). unfold Vfin.
  pose proof (pow2_pos (0 + 1074) ltac:(lia)). nia.
Qed.

(** C10. For a non-empty buffer the first bit already moves the running
    sum to +1 or -1, so [zmax >= 1]: [nist_cumulative_sums] never takes
    the [zmax == 0] branch, and the divisor [(double)zmax] is a positive
    normal double, never a zero. *)
Theorem cusum_zmax_at_least_one :
  forall (erfc : Double.double -> Double.double) (w : list Z) (len : Z),
    buffer_ok w len -> 1 <= len ->
    let n := 32 * len in
    let zmax := cusum_zmax w len in
    1 <= zmax
    /\ nist_cumulative_sums erfc w len
       = verdict (cusum_p erfc n zmax (cusum_start n zmax) (cusum_end n zmax))
    /\ normal_pos (Double.of_Z zmax)
    /\ (forall s, Double.of_Z zmax <> S754_zero s).
Proof.
  intros erfc w len Hok Hlen n zmax.
  pose proof (buf_bits _ _ Hok) as Hbits.
  pose proof (cusum_zmax_pos w len Hlen Hbits) as Hpos. fold zmax in Hpos.
  pose proof (cusum_zmax_range w len) as Hrange. fold zmax in Hrange.
  assert (Hn : normal_pos (Double.of_Z zmax)) by (apply of_Z_normal; lia).
  split; [exact Hpos | split; [|split; [exact Hn|]]].
  - unfold nist_cumulative_sums. fold zmax.
    destruct (Z.eqb_spec zmax 0); [lia|].
    rewrite bit_count_in_range by assumption.
    replace (len * 32) with n by (subst n; lia). reflexivity.
  - intros s Hs. rewrite Hs in Hn. exact Hn.
Qed.

Lemma cusum_zmax_at_least_one_witness :
  buffer_ok [2863311530; 7] 2 /\ 1 <= 2 /\ 1 <= cusum_zmax [2863311530; 7] 2.
Proof.
  assert (Hok : buffer_ok [2863311530; 7] 2).
  { split; [reflexivity | | reflexivity].
    repeat constructor; unfold word_ok; lia. }
  split; [exact Hok | split; [lia|]].
  exact (proj1 (cusum_zmax_at_least_one (fun _ => Double.one) _ 2 Hok ltac:(lia))).
Defined.

(** ** Standard deviation *)

Lemma normal_exp_lower m e lo :
  2 ^ 52 <= m < 2 ^ 53 -> -1074 <= e -> 0 <= lo + 1074 ->
  2 ^ (lo + 1074) <= Vfin m e -> lo - 52 <= e.
Proof.
  intros Hm He Hlo Hv. destruct (Z.leb_spec (lo - 52) e); [assumption|exfalso].
  assert (Vfin m e < 2 ^ 53 * 2 ^ (e + 1074)).
  { unfold Vfin. pose proof (pow2_pos (e + 1074) ltac:(lia)). nia. }
  rewrite <- pow2_split in H0 by lia.
  pose proof (pow2_le (53 + (e + 1074)) (lo + 1074) ltac:(lia)). lia.
Qed.

Lemma normal_exp_upper m e hi :
  2 ^ 52 <= m < 2 ^ 53 -> -1074 <= e ->
  Vfin m e <= 2 ^ (hi + 1074) -> e <= hi - 52.
Proof.
  intros Hm He Hv. destruct (Z.leb_spec e (hi - 52)); [assumption|exfalso].
  assert (2 ^ 52 * 2 ^ (e + 1074) <= Vfin m e).
  { unfold Vfin. pose proof (pow2_pos (e + 1074) ltac:(lia)). nia. }
  rewrite <- pow2_split in H0 by lia.
  pose proof (pow2_lt (hi + 1074) (52 + (e + 1074)) ltac:(lia) ltac:(lia)). lia.
Qed.

Lemma fold_left_map_arg {A B C : Type} (g : A -> C -> A) (h : B -> C) l a :
  fold_left (fun acc i => g acc (h i)) l a = fold_left g (map h l) a.
Proof.
  revert a. induction l as [|y l IH]; intros a; [reflexivity|]. simpl. apply IH.
Qed.

(** The loop of [stdev] as a fold over the samples. *)
Lemma stdev_acc_fold data n m :
  buffer_ok data n ->
  stdev_acc data n m
  = fold_left
      (fun acc x => (acc + (Double.of_Z x - m) * (Double.of_Z x - m))%D)
      data Double.zero.
Proof.
  intros Hok. unfold stdev_acc, for_upto. rewrite for_range_fold.
  rewrite (fold_left_map_arg
             (fun acc x => (acc + (Double.of_Z x - m) * (Double.of_Z x - m))%D)
             (word_at data)).
  rewrite (buf_len _ _ Hok), Nat2Z.id, buffer_as_map. reflexivity.
Qed.

Lemma list_sum_data_bounds data n :
  buffer_ok data n -> 0 <= list_sum data <= n * (2 ^ 32 - 1).
Proof.
  intros Hok. pose proof (list_sum_bounds data (2 ^ 32 - 1)) as H.
  rewrite <- (buf_len _ _ Hok) in H. apply H.
  eapply Forall_impl; [|exact (buf_words _ _ Hok)].
  intros x Hx. unfold word_ok in Hx. lia.
Qed.

Lemma mean_exact_sum data n :
  buffer_ok data n -> 1 <= n <= INT_MAX ->
  mean_sum data n = list_sum data
  /\ mean data n = (Double.of_Z (list_sum data) / Double.of_Z n)%D.
Proof.
  intros Hok Hn.
  assert (Hs : mean_sum data n = list_sum data).
  { unfold mean_sum, for_upto.
    rewrite mean_sum_prefix; [| exact (buf_words _ _ Hok) | lia].
    rewrite (buf_len _ _ Hok), Nat2Z.id, buffer_as_map. reflexivity. }
  split; [exact Hs|]. unfold mean. rewrite Hs. reflexivity.
Qed.

(** A positive integer mantissa below [2^53] at a moderate exponent has a
    normal form. *)
Lemma normal_form m e :
  0 < m < 2 ^ 53 -> -1000 <= e <= 900 ->
  exists mb eb, 2 ^ 52 <= mb < 2 ^ 53 /\ -1074 <= eb <= 971
                /\ Vfin mb eb = Vfin m e.
Proof.
  intros Hm He. destruct (int_normal_form m Hm) as [mb [eb [Hmb [Heb HV]]]].
  exists mb, (eb + e). repeat split; try lia.
  unfold Vfin in *. replace (eb + e + 1074) with (e + (eb + 1074)) by lia.
  replace (e + 1074) with (e + (0 + 1074)) by lia.
  destruct (Z.leb_spec 0 e).
  - rewrite !(pow2_split e) by lia. nia.
  - replace (eb + 1074) with ((- e) + (e + (eb + 1074))) in HV by lia.
    replace (0 + 1074) with ((- e) + (e + (0 + 1074))) in HV by lia.
    rewrite !(pow2_split (- e)) in HV by lia.
    pose proof (pow2_pos (- e) ltac:(lia)). nia.
Qed.

(** The mean of a buffer with a positive sum is a positive normal double
    between [2^-31] and [2^32]. *)
Lemma mean_class data n :
  buffer_ok data n -> 1 <= n <= INT_MAX -> 0 < list_sum data ->
  normal_pos (mean data n)
  /\ 2 ^ (1074 - 31) <= Vabs (mean data n) <= 2 ^ (1074 + 32).
Proof.
  intros Hok Hn Hpos. unfold INT_MAX in Hn.
  destruct (mean_exact_sum data n Hok ltac:(unfold INT_MAX; lia)) as [_ ->].
  pose proof (list_sum_data_bounds data n Hok) as Hb.
  set (S := list_sum data) in *.
  set (k := 2 ^ 1074). assert (Hk : 0 < k) by (apply pow2_pos; lia).
  destruct (small_int_normal n ltac:(lia)) as [Nn Vn]. fold k in Vn.
  destruct (of_Z_bounds S) as [_ [HSl HSu]].
  { pose proof (pow2_le 63 1024 ltac:(lia)). lia. }
  destruct (normal_form n 32 ltac:(lia) ltac:(lia)) as [mb [eb [Hmb [Heb HVb]]]].
  assert (HVb' : Vfin mb eb = n * 2 ^ 32 * k).
  { rewrite HVb. unfold Vfin, k. change (32 + 1074) with (32 + 1074).
    rewrite (pow2_split 32 1074) by lia. ring. }
  destruct (HSu mb eb Hmb Heb) as [NS VSu].
  { rewrite HVb'. unfold Vfin. change (2 ^ (0 + 1074)) with k. nia. }
  destruct (HSl (2 ^ 52) (-52) ltac:(lia) ltac:(lia)) as [Hi | VSl].
  { change (Vfin (2 ^ 52) (-52)) with k. unfold Vfin.
    change (2 ^ (0 + 1074)) with k. nia. }
  { rewrite Hi in NS. contradiction. }
  change (Vfin (2 ^ 52) (-52)) with k in VSl.
  destruct (div_bounds (Double.of_Z S) (Double.of_Z n) NS Nn) as [_ [Hl Hu]].
  { rewrite Vn. pose proof (pow2_pos 960 ltac:(lia)).
    assert (n * k <= k * 2 ^ 960) by (change (2 ^ 960) with (2 ^ 31 * 2 ^ 929); nia).
    nia. }
  destruct (Hu (2 ^ 52) (-20) ltac:(lia) ltac:(lia)) as [Nm Vmu].
  { change (Vfin (2 ^ 52) (-20)) with (2 ^ 32 * k). rewrite Vn. fold k. nia. }
  destruct (Hl (2 ^ 52) (-83) ltac:(lia) ltac:(lia)) as [Hi | Vml].
  { rewrite Vn. fold k.
    assert (E : Vfin (2 ^ 52) (-83) * 2 ^ 31 = k) by reflexivity.
    nia. }
  { rewrite Hi in Nm. contradiction. }
  split; [exact Nm|]. split.
  - change (2 ^ (1074 - 31)) with (Vfin (2 ^ 52) (-83)). exact Vml.
  - change (2 ^ (1074 + 32)) with (Vfin (2 ^ 52) (-20)). exact Vmu.
Qed.

Lemma Vfin_abs D e : Vfin (Z.abs D) e = Z.abs (Vfin D e).
Proof.
  unfold Vfin. rewrite Z.abs_mul. f_equal. symmetry. apply Z.abs_eq.
  apply Z.pow_nonneg. lia.
Qed.

(** The difference between a sample and the mean: either both are the same
    double and the difference is [+0], or it is a normal double of
    moderate exponent. *)
Lemma diff_class x m :
  word_ok x -> normal_pos m ->
  2 ^ (1074 - 31) <= Vabs m <= 2 ^ (1074 + 32) ->
  let d := (Double.of_Z x - m)%D in
  (d = S754_zero false /\ Double.of_Z x = m)
  \/ (Double.of_Z x <> m
      /\ exists s md ed, d = S754_finite s md ed
                         /\ 2 ^ 52 <= Zpos md < 2 ^ 53 /\ -135 <= ed <= 971).
Proof.
  intros Hx Hm HVm. unfold word_ok in Hx.
  destruct (normal_pos_inv m Hm) as [mm [em [-> [Hmm Hem]]]].
  cbn [Vabs] in HVm. cbv zeta.
  pose proof (normal_exp_lower (Zpos mm) em (-31) Hmm ltac:(lia) ltac:(lia)
                ltac:(apply HVm)) as Hel.
  pose proof (normal_exp_upper (Zpos mm) em 32 Hmm ltac:(lia) ltac:(apply HVm))
    as Heu.
  destruct (Z.eq_dec x 0) as [-> | Hx0].
  - right. split; [discriminate|]. exists true, mm, em.
    repeat split; try lia.
  - destruct (of_Z_exp x ltac:(lia)) as [mx [ex [Ex [Hmx [Hex HVx]]]]].
    rewrite Ex.
    destruct (Z.eq_dec (Vfin (Zpos mx) ex) (Vfin (Zpos mm) em)) as [E | NE].
    + left.
      destruct (normal_value_inj (Zpos mx) ex (Zpos mm) em) as [-> Hmeq];
        try lia.
      injection Hmeq as ->. split; [|reflexivity].
      apply sub_self. eauto.
    + right. split; [intros Heq; injection Heq as -> ->; contradiction|].
      rewrite sub_finite. cbn [cond_Zopp].
      set (ez := Z.min ex em).
      set (D := Zpos mx * 2 ^ (ex - ez) - Zpos mm * 2 ^ (em - ez)).
      assert (HVD : Vfin D ez = Vfin (Zpos mx) ex - Vfin (Zpos mm) em).
      { subst D.
        rewrite <- (aligned_value (Zpos mx) ex ez),
          <- (aligned_value (Zpos mm) em ez) by lia.
        unfold Vfin. ring. }
      assert (HD : D <> 0).
      { intros E0. rewrite E0 in HVD. unfold Vfin in HVD at 1. lia. }
      pose proof (pow2_pos (ez + 1074) ltac:(lia)) as Hpz.
      assert (Hbig : 2 ^ 52 <= Vfin (Z.abs D) ez).
      { unfold Vfin. pose proof (pow2_le 52 (ez + 1074) ltac:(lia)).
        assert (1 <= Z.abs D) by lia. nia. }
      destruct (normalize_bounds D ez HD ltac:(lia) Hbig) as [Hc [_ Hu]].
      set (r := binary_normalize Double.prec Double.emax D ez false) in *.
      destruct (Hu (2 ^ 52) 48 ltac:(lia) ltac:(lia)) as [Hni _].
      { rewrite Vfin_abs, HVD.
        assert (Hx1 : 0 < Vfin (Zpos mx) ex) by (apply Vfin_pos; lia).
        assert (Hm1 : 0 < Vfin (Zpos mm) em) by (apply Vfin_pos; lia).
        assert (Hx2 : Vfin (Zpos mx) ex <= 2 ^ (1074 + 32)).
        { rewrite HVx. unfold Vfin. change (2 ^ (0 + 1074)) with (2 ^ 1074).
          rewrite (pow2_split 1074 32) by lia.
          pose proof (pow2_pos 1074 ltac:(lia)). nia. }
        assert (2 ^ (1074 + 32) <= Vfin (2 ^ 52) 48).
        { unfold Vfin. rewrite <- pow2_split by lia. apply pow2_le. lia. }
        lia. }
      destruct Hc as [Hi | [mr [er [Hr [Hn Her]]]]]; [contradiction|].
      exists (D <? 0), mr, er. rewrite Hr in Hn. cbn [normal] in Hn.
      assert (1 <= Zdigits2 D).
      { destruct D as [|p|p]; try lia; simpl; lia. }
      repeat split; try lia. exact Hr.
Qed.

Lemma square_class s md ed :
  2 ^ 52 <= Zpos md < 2 ^ 53 -> -135 <= ed <= 971 ->
  let t := (S754_finite s md ed * S754_finite s md ed)%D in
  t = S754_infinity false \/ (normal_pos t /\ 2 ^ (1074 - 166) <= Vabs t).
Proof.
  intros Hmd Hed.
  destruct (mul_bounds s md ed s md ed Hmd Hmd ltac:(lia) ltac:(lia) ltac:(lia))
    as [Hc [Hl _]].
  replace (xorb s s) with false in * by (destruct s; reflexivity).
  cbv zeta.
  set (t := (S754_finite s md ed * S754_finite s md ed)%D) in *.
  assert (Hd : Vfin (2 ^ 52) (-135) <= Vfin (Zpos md) ed).
  { destruct (Z.eq_dec ed (-135)) as [-> | Hne].
    - unfold Vfin. pose proof (pow2_pos (-135 + 1074) ltac:(lia)). nia.
    - pose proof (normal_exp_lt (2 ^ 52) (-135) (Zpos md) ed
                    ltac:(lia) ltac:(lia) ltac:(lia) ltac:(lia)). lia. }
  assert (E : Vfin (2 ^ 52) (-218) * 2 ^ 1074
              = Vfin (2 ^ 52) (-135) * Vfin (2 ^ 52) (-135)) by reflexivity.
  assert (H0 : 0 < Vfin (2 ^ 52) (-135)) by reflexivity.
  destruct (Hl (2 ^ 52) (-218) ltac:(lia) ltac:(lia)) as [Hi | Hge].
  - rewrite E. nia.
  - left. exact Hi.
  - destruct Hc as [Hi | [m [e [Hr [Hn _]]]]]; [left; exact Hi | right].
    split; [rewrite Hr in *; exact Hn|].
    change (2 ^ (1074 - 166)) with (Vfin (2 ^ 52) (-218)). exact Hge.
Qed.

Lemma add_class lo a t :
  nonneg_class lo a -> nonneg_class lo t ->
  nonneg_class lo (a + t)%D
  /\ ((a + t)%D = S754_zero false <-> a = S754_zero false /\ t = S754_zero false).
Proof.
  intros Ha Ht.
  destruct Ha as [-> | [-> | [Na La]]]; destruct Ht as [-> | [-> | [Nt Lt]]].
  - split; [left; reflexivity|]. split; auto.
  - split; [right; left; reflexivity|]. split; [discriminate | intros [_ H]; discriminate].
  - destruct (normal_pos_inv t Nt) as [mt [et [Et _]]]. subst t.
    split; [right; right; split; assumption|].
    split; [discriminate | intros [_ H]; discriminate].
  - split; [right; left; reflexivity|]. split; [discriminate | intros [H _]; discriminate].
  - split; [right; left; reflexivity|]. split; [discriminate | intros [H _]; discriminate].
  - destruct (normal_pos_inv t Nt) as [mt [et [Et _]]]. subst t.
    split; [right; left; reflexivity|].
    split; [discriminate | intros [H _]; discriminate].
  - destruct (normal_pos_inv a Na) as [ma [ea [Ea _]]]. subst a.
    split; [right; right; split; assumption|].
    split; [discriminate | intros [H _]; discriminate].
  - destruct (normal_pos_inv a Na) as [ma [ea [Ea _]]]. subst a.
    split; [right; left; reflexivity|].
    split; [discriminate | intros [H _]; discriminate].
  - destruct (add_pos_bounds a t Na Nt) as [Hc [Hl _]].
    destruct (normal_pos_inv a Na) as [ma [ea [Ea [Hma Hea]]]].
    assert (Hva : Vabs a = Vfin (Zpos ma) ea) by (rewrite Ea; reflexivity).
    assert (Ht0 : 0 <= Vabs t).
    { destruct (normal_pos_inv t Nt) as [mt [et [Et [Hmt Het]]]]. rewrite Et.
      cbn [Vabs]. pose proof (Vfin_pos (Zpos mt) et ltac:(lia) ltac:(lia)). lia. }
    destruct (Hl (Zpos ma) ea Hma Hea ltac:(lia)) as [Hi | Hge].
    + rewrite Hi. split; [right; left; reflexivity|].
      split; [discriminate|]. intros [H _]. rewrite H in Na. contradiction.
    + destruct Hc as [Hi | Nr].
      * rewrite Hi. split; [right; left; reflexivity|].
        split; [discriminate|]. intros [H _]. rewrite H in Na. contradiction.
      * split; [right; right; split; [exact Nr | lia]|].
        split.
        -- intros H. rewrite H in Nr. contradiction.
        -- intros [H _]. rewrite H in Na. contradiction.
Qed.

Lemma fold_add_class lo (term : Z -> Double.double) (l : list Z) :
  forall acc,
    nonneg_class lo acc ->
    (forall x, In x l -> nonneg_class lo (term x)) ->
    let r := fold_left (fun a x => (a + term x)%D) l acc in
    nonneg_class lo r
    /\ (r = S754_zero false <->
        acc = S754_zero false /\ forall x, In x l -> term x = S754_zero false).
Proof.
  induction l as [|y l IH]; intros acc Hacc Hterms; cbv zeta.
  - simpl. split; [exact Hacc|]. split; [intros H; split; [exact H | intros x []]|].
    intros [H _]. exact H.
  - simpl fold_left.
    destruct (add_class lo acc (term y) Hacc (Hterms y (or_introl eq_refl)))
      as [Hc Hz].
    destruct (IH (acc + term y)%D Hc (fun x Hx => Hterms x (or_intror Hx)))
      as [Hc' Hz'].
    split; [exact Hc'|]. rewrite Hz', Hz. split.
    + intros [[Ha Hy] Hl]. split; [exact Ha|].
      intros x [<- | Hx]; [exact Hy | now apply Hl].
    + intros [Ha Hl]. split; [split; [exact Ha | apply Hl; left; reflexivity]|].
      intros x Hx. apply Hl. right. exact Hx.
Qed.

Lemma term_class x m :
  word_ok x -> normal_pos m ->
  2 ^ (1074 - 31) <= Vabs m <= 2 ^ (1074 + 32) ->
  let t := ((Double.of_Z x - m) * (Double.of_Z x - m))%D in
  nonneg_class (2 ^ (1074 - 166)) t
  /\ (t = S754_zero false <-> Double.of_Z x = m).
Proof.
  intros Hx Hm HVm. cbv zeta.
  destruct (diff_class x m Hx Hm HVm) as [[Hd He] | [Hne [s [md [ed [Hd [Hmd Hed]]]]]]];
    rewrite Hd.
  - split; [left; reflexivity|]. split; [intros _; exact He | reflexivity].
  - destruct (square_class s md ed Hmd Hed) as [Hi | [Nt Lt]].
    + rewrite Hi. split; [right; left; reflexivity|].
      split; [discriminate | intros H; contradiction].
    + split; [right; right; split; assumption|]. split.
      * intros H. rewrite H in Nt. contradiction.
      * intros H. contradiction.
Qed.

(** [sqrt (acc / n)] keeps the class of the accumulator. *)
Lemma root_mean_class acc n :
  nonneg_class (2 ^ (1074 - 166)) acc -> 1 <= n <= INT_MAX ->
  let sd := Double.sqrt (acc / Double.of_Z n)%D in
  (sd = S754_zero false \/ sd = S754_infinity false \/ normal_pos sd)
  /\ (sd = S754_zero false <-> acc = S754_zero false).
Proof.
  intros Hacc Hn. unfold INT_MAX in Hn. cbv zeta.
  destruct (small_int_normal n ltac:(lia)) as [Nn Vn].
  destruct (normal_pos_inv _ Nn) as [mn [en [En _]]].
  destruct Hacc as [-> | [-> | [Na La]]].
  - rewrite En. split; [left; reflexivity|]. split; reflexivity.
  - rewrite En. split; [right; left; reflexivity|]. split; discriminate.
  - destruct (div_bounds acc (Double.of_Z n) Na Nn) as [Hc _].
    { rewrite Vn. set (k := 2 ^ 1074).
      assert (0 < k) by (apply pow2_pos; lia).
      assert (E : k <= 2 ^ (1074 - 166) * 2 ^ 166) by (unfold k; rewrite <- pow2_split by lia; apply pow2_le; lia).
      assert (E2 : (2:Z) ^ 960 = 2 ^ 166 * 2 ^ 31 * 2 ^ 763) by reflexivity.
      assert (0 < (2:Z) ^ 763) by (apply pow2_pos; lia).
      assert (0 < (2:Z) ^ 166) by (apply pow2_pos; lia).
      rewrite E2. nia. }
    assert (Hnz : acc <> S754_zero false) by (intros H; rewrite H in Na; contradiction).
    destruct Hc as [Hi | Nq].
    + rewrite Hi. split; [right; left; reflexivity|].
      split; [discriminate | intros H; contradiction].
    + destruct (sqrt_bounds _ Nq) as [Ns _].
      split; [right; right; exact Ns|]. split.
      * intros H. rewrite H in Ns. contradiction.
      * intros H. contradiction.
Qed.

Lemma stdev_of_mean_class data n :
  buffer_ok data n -> 1 <= n <= INT_MAX -> 0 < list_sum data ->
  let m := mean data n in
  let sd := stdev data n m in
  (sd = S754_zero false \/ sd = S754_infinity false \/ normal_pos sd)
  /\ (sd = S754_zero false <-> forall y, In y data -> Double.of_Z y = m).
Proof.
  intros Hok Hn Hpos m sd.
  destruct (mean_class data n Hok Hn Hpos) as [Nm Vm]. fold m in Nm, Vm.
  pose proof (buf_words _ _ Hok) as Hw. rewrite Forall_forall in Hw.
  destruct (fold_add_class (2 ^ (1074 - 166))
              (fun x => ((Double.of_Z x - m) * (Double.of_Z x - m))%D)
              data Double.zero) as [Hc Hz].
  { left. reflexivity. }
  { intros x Hx. apply term_class; auto. }
  cbv zeta in Hc, Hz.
  destruct (root_mean_class _ n Hc Hn) as [Hsc Hsz].
  subst sd. unfold stdev. rewrite stdev_acc_fold by assumption.
  split; [exact Hsc|]. rewrite Hsz, Hz. split.
  - intros [_ H] y Hy. apply (term_class y m); auto.
  - intros H. split; [reflexivity|]. intros x Hx.
    apply (term_class x m); auto.
Qed.

Lemma list_sum_zero_all (l : list Z) :
  Forall (fun x => 0 <= x) l -> list_sum l = 0 -> Forall (fun x => x = 0) l.
Proof.
  induction 1 as [|x l Hx Hl IH]; intros Hs; [constructor|].
  rewrite list_sum_cons in Hs.
  assert (0 <= list_sum l).
  { clear - Hl. induction Hl as [|y l Hy _ IH]; [simpl; lia|].
    rewrite list_sum_cons. lia. }
  constructor; [lia | apply IH; lia].
Qed.

Lemma stdev_all_zero data n :
  buffer_ok data n -> 1 <= n <= INT_MAX -> Forall (fun x => x = 0) data ->
  stdev data n (mean data n) = Double.zero.
Proof.
  intros Hok Hn Hall. unfold INT_MAX in Hn.
  destruct (mean_exact_sum data n Hok ltac:(unfold INT_MAX; lia)) as [_ Hm].
  assert (Hs : list_sum data = 0).
  { clear - Hall. induction Hall as [|x l -> _ IH]; [reflexivity|].
    rewrite list_sum_cons. lia. }
  destruct (of_Z_exp n ltac:(lia)) as [mn [en [En _]]].
  rewrite Hm, Hs, En. unfold stdev. rewrite stdev_acc_fold by assumption.
  assert (Hf : fold_left
                 (fun acc x =>
                    (acc + (Double.of_Z x - Double.of_Z 0 / S754_finite false mn en)
                           * (Double.of_Z x - Double.of_Z 0 / S754_finite false mn en))%D)
                 data Double.zero = Double.zero).
  { clear - Hall. induction Hall as [|x l -> _ IH]; [reflexivity|].
    simpl fold_left. exact IH. }
  rewrite Hf, En. reflexivity.
Qed.

Lemma of_Z_inj_word x y :
  word_ok x -> word_ok y -> 0 < x -> Double.of_Z x = Double.of_Z y -> x = y.
Proof.
  intros Hx Hy Hx0 E. unfold word_ok in *.
  destruct (small_int_normal x ltac:(lia)) as [Nx Vx].
  destruct (Z.eq_dec y 0) as [-> | Hy0].
  - rewrite E in Nx. contradiction.
  - destruct (small_int_normal y ltac:(lia)) as [Ny Vy].
    rewrite E, Vy in Vx. pose proof (pow2_pos 1074 ltac:(lia)). nia.
Qed.

Lemma list_sum_all_equal (l : list Z) (x : Z) :
  (forall y, In y l -> y = x) -> list_sum l = Z.of_nat (length l) * x.
Proof.
  induction l as [|y l IH]; intros H; [reflexivity|].
  rewrite list_sum_cons, IH by (intros z Hz; apply H; right; exact Hz).
  rewrite (H y) by (left; reflexivity). simpl length. lia.
Qed.

(** C9 (as amended). [stdev data n m] is [sqrt (sum (x_i - m)^2 / n)] in
    double arithmetic; with the mean of the same buffer it is never
    negative (nor NaN), it is zero only if all elements are equal, and it
    is zero whenever all elements are equal and their sum is below [2^53]
    (so that the mean is computed exactly). *)
Theorem stdev_of_mean_zero_iff_equal :
  forall (data : list Z) (n : Z),
    buffer_ok data n -> 1 <= n <= INT_MAX ->
    (forall m,
        stdev data n m
        = Double.sqrt
            (fold_left
               (fun acc x => (acc + (Double.of_Z x - m) * (Double.of_Z x - m))%D)
               data Double.zero
             / Double.of_Z n)%D)
    /\ let sd := stdev data n (mean data n) in
       (sd >=? Double.zero)%D = true
       /\ ((sd =? Double.zero)%D = true -> all_equal data)
       /\ (all_equal data -> list_sum data < 2 ^ 53 -> sd = Double.zero).
Proof.
  intros data n Hok Hn.
  split.
  { intros m. unfold stdev. now rewrite stdev_acc_fold. }
  cbv zeta.
  pose proof (list_sum_data_bounds data n Hok) as Hb.
  pose proof (buf_words _ _ Hok) as Hw.
  destruct (Z.eq_dec (list_sum data) 0) as [Hs0 | Hs0].
  - assert (Hall : Forall (fun x => x = 0) data).
    { apply list_sum_zero_all; [|exact Hs0].
      eapply Forall_impl; [|exact Hw]. unfold word_ok. intros; lia. }
    rewrite (stdev_all_zero data n Hok Hn Hall).
    split; [reflexivity | split].
    + intros _ x y Hx Hy. rewrite Forall_forall in Hall.
      rewrite (Hall x Hx), (Hall y Hy). reflexivity.
    + reflexivity.
  - destruct (stdev_of_mean_class data n Hok Hn ltac:(lia)) as [Hc Hz].
    set (m := mean data n) in *. set (sd := stdev data n m) in *.
    rewrite Forall_forall in Hw.
    assert (Nm : normal_pos m) by (apply mean_class; try assumption; lia).
    split; [|split].
    + destruct Hc as [-> | [-> | Ns]]; try reflexivity.
      destruct (normal_pos_inv _ Ns) as [ms [es [-> _]]]. reflexivity.
    + intros Heq.
      assert (Hsd : sd = S754_zero false).
      { destruct Hc as [-> | [E | Ns]]; [reflexivity | |].
        - rewrite E in Heq. discriminate.
        - destruct (normal_pos_inv _ Ns) as [ms [es [E _]]].
          rewrite E in Heq. discriminate. }
      intros x y Hx Hy.
      pose proof (proj1 Hz Hsd) as Hall.
      apply of_Z_inj_word; auto.
      * destruct (Z.eq_dec x 0) as [-> | Hx0].
        -- specialize (Hall 0 Hx). rewrite <- Hall in Nm. contradiction.
        -- specialize (Hw x Hx). unfold word_ok in Hw. lia.
      * rewrite (Hall x Hx), (Hall y Hy). reflexivity.
    + intros Heq Hlt. apply Hz. intros y Hy.
      pose proof (list_sum_all_equal data y (fun z Hz' => Heq z y Hz' Hy)) as Hsum.
      rewrite <- (buf_len _ _ Hok) in Hsum.
      assert (Hy0 : 0 < y) by nia.
      pose proof (Hw y Hy) as Hyw. unfold word_ok in Hyw. unfold INT_MAX in Hn.
      destruct (small_int_normal y ltac:(lia)) as [Ny Vy].
      destruct (small_int_normal n ltac:(lia)) as [Nn Vn].
      destruct (small_int_normal (n * y) ltac:(lia)) as [Ns Vs].
      subst m.
      destruct (mean_exact_sum data n Hok ltac:(unfold INT_MAX; lia)) as [_ ->].
      rewrite Hsum. symmetry. apply div_exact; try assumption.
      * rewrite Vn, Vs. pose proof (pow2_pos 1074 ltac:(lia)).
        pose proof (pow2_pos 960 ltac:(lia)). nia.
      * rewrite Vn, Vs, Vy. ring.
Qed.

Lemma stdev_of_mean_zero_iff_equal_witness :
  buffer_ok [7; 7; 7] 3 /\ 1 <= 3 <= INT_MAX
  /\ stdev [7; 7; 7] 3 (mean [7; 7; 7] 3) = Double.zero.
Proof.
  assert (Hok : buffer_ok [7; 7; 7] 3).
  { split; [reflexivity | | reflexivity].
    repeat constructor; unfold word_ok; lia. }
  assert (Hn : 1 <= 3 <= INT_MAX) by (unfold INT_MAX; lia).
  split; [exact Hok | split; [exact Hn|]].
  destruct (stdev_of_mean_zero_iff_equal [7; 7; 7] 3 Hok Hn) as [_ [_ [_ Hz]]].
  apply Hz.
  - intros x y Hx Hy. simpl in Hx, Hy. lia.
  - reflexivity.
Defined.

Lemma list_sum_repeat x (N : nat) : list_sum (repeat x N) = Z.of_nat N * x.
Proof.
  induction N as [|N IH]; [reflexivity|].
  simpl repeat. rewrite list_sum_cons, IH. lia.
Qed.

(** The claim as first stated fails on a long constant buffer: with
    2097153 samples all equal to [2^32 - 1] the sum exceeds [2^53], the
    mean is rounded to [4294967295.0000005], and the deviation is not
    zero although all elements are equal. *)
Lemma stdev_constant_buffer_not_zero :
  let data := repeat 4294967295 (Z.to_nat 2097153) in
  buffer_ok data 2097153
  /\ all_equal data
  /\ (stdev data 2097153 (mean data 2097153) =? Double.zero)%D = false.
Proof.
  cbv zeta. remember (Z.to_nat 2097153) as N eqn:HN.
  assert (HNz : Z.of_nat N = 2097153) by (rewrite HN; apply Z2Nat.id; lia).
  set (data := repeat 4294967295 N).
  assert (Hok : buffer_ok data 2097153).
  { split.
    - unfold data. rewrite repeat_length. lia.
    - apply Forall_forall. intros y Hy. apply repeat_spec in Hy. subst y.
      unfold word_ok. lia.
    - lia. }
  assert (Heq : all_equal data).
  { intros x y Hx Hy. apply repeat_spec in Hx, Hy. congruence. }
  split; [exact Hok | split; [exact Heq|]].
  assert (Hn : 1 <= 2097153 <= INT_MAX) by (unfold INT_MAX; lia).
  assert (Hsum : list_sum data = 2097153 * 4294967295).
  { unfold data. rewrite list_sum_repeat, HNz. reflexivity. }
  destruct (stdev_of_mean_class data 2097153 Hok Hn ltac:(lia)) as [Hc Hz].
  assert (Hnz : stdev data 2097153 (mean data 2097153) <> S754_zero false).
  { intros H0. pose proof (proj1 Hz H0 4294967295) as Hm.
    destruct (mean_exact_sum data 2097153 Hok Hn) as [_ Hmean].
    rewrite Hmean, Hsum in Hm.
    assert (Hin : In 4294967295 data).
    { unfold data. destruct N as [|N']; [lia|]. left. reflexivity. }
    specialize (Hm Hin). vm_compute in Hm. discriminate Hm. }
  destruct Hc as [E | [E | Ns]]; [contradiction | rewrite E; reflexivity |].
  destruct (normal_pos_inv _ Ns) as [ms [es [E _]]]. rewrite E. reflexivity.
Qed.

(** ** Mean: range and exactness *)

Lemma firstn_as_map (w : list Z) :
  forall k : nat, (k <= length w)%nat -> map (word_at w) (zrange k) = firstn k w.
Proof.
  intros k Hk.
  rewrite <- (buffer_as_map w) at 2.
  replace (length w) with (k + (length w - k))%nat by lia.
  rewrite zrange_app, map_app, firstn_app.
  rewrite length_map, zrange_length, Nat.sub_diag. simpl firstn.
  rewrite app_nil_r. symmetry. apply firstn_all2.
  rewrite length_map, zrange_length. lia.
Qed.

Lemma two32_normal :
  normal_pos (Double.of_Z (2 ^ 32)) /\ Vabs (Double.of_Z (2 ^ 32)) = 2 ^ 32 * 2 ^ 1074.
Proof. apply small_int_normal. lia. Qed.

(** The double returned by [mean] is below [2^32]. *)
Lemma mean_below_two32 data n :
  buffer_ok data n -> 1 <= n <= INT_MAX -> 0 < list_sum data ->
  Double.ltb (mean data n) (Double.of_Z (2 ^ 32)) = true.
Proof.
  intros Hok Hn Hpos.
  destruct (mean_class data n Hok Hn Hpos) as [Nm _].
  destruct (mean_exact_sum data n Hok Hn) as [_ Hmean].
  pose proof (list_sum_data_bounds data n Hok) as Hb.
  unfold INT_MAX in Hn.
  set (S := list_sum data) in *.
  set (k := 2 ^ 1074). assert (Hk : 0 < k) by (apply pow2_pos; lia).
  destruct (small_int_normal n ltac:(lia)) as [Nn Vn]. fold k in Vn.
  destruct (int_normal_form n ltac:(lia)) as [mb [eb [Hmb [Heb HVb]]]].
  (* n * c = mb with c = 2^-eb *)
  set (c := 2 ^ (- eb)).
  assert (Hc : 0 < c) by (apply pow2_pos; lia).
  assert (Hnc : n * c = mb).
  { unfold Vfin in HVb. change (2 ^ (0 + 1074)) with k in HVb.
    assert (E : k = c * 2 ^ (eb + 1074)).
    { unfold k, c. rewrite <- pow2_split by lia. f_equal. lia. }
    rewrite E in HVb. pose proof (pow2_pos (eb + 1074) ltac:(lia)). nia. }
  (* an upper bound of the sum that is representable *)
  destruct (normal_form (mb - 1) (32 + eb) ltac:(lia) ltac:(lia))
    as [mu [eu [Hmu [Heu HVu]]]].
  assert (HVuc : Vfin mu eu * c = (mb - 1) * 2 ^ 32 * k).
  { rewrite HVu. unfold Vfin, c, k.
    replace (32 + eb + 1074) with (32 + (eb + 1074)) by lia.
    rewrite (pow2_split 32 (eb + 1074)) by lia.
    assert (E : 2 ^ (eb + 1074) * 2 ^ (- eb) = 2 ^ 1074).
    { rewrite <- pow2_split by lia. f_equal. lia. }
    rewrite <- E. ring. }
  destruct (of_Z_bounds S) as [_ [_ HSu]].
  { pose proof (pow2_le 63 1024 ltac:(lia)). lia. }
  destruct (HSu mu eu Hmu Heu) as [NS VS].
  { unfold Vfin at 1. change (2 ^ (0 + 1074)) with k.
    assert (S * k * c <= Vfin mu eu * c).
    { rewrite HVuc. assert (S * c <= (mb - 1) * 2 ^ 32) by nia. nia. }
    nia. }
  rewrite Hmean.
  destruct (div_bounds (Double.of_Z S) (Double.of_Z n) NS Nn) as [_ [_ Hu]].
  { rewrite Vn.
    destruct (of_Z_bounds S) as [_ [HSl _]].
    { pose proof (pow2_le 63 1024 ltac:(lia)). lia. }
    destruct (HSl (2 ^ 52) (-52) ltac:(lia) ltac:(lia)) as [Hi | VSl].
    { change (Vfin (2 ^ 52) (-52)) with k. unfold Vfin.
      change (2 ^ (0 + 1074)) with k. nia. }
    { rewrite Hi in NS. contradiction. }
    change (Vfin (2 ^ 52) (-52)) with k in VSl.
    assert (n * k <= k * 2 ^ 960)
      by (change (2 ^ 960) with (2 ^ 31 * 2 ^ 929); nia).
    pose proof (pow2_pos 960 ltac:(lia)). nia. }
  (* the largest double below 2^32 *)
  destruct (Hu (2 ^ 53 - 1) (-21) ltac:(lia) ltac:(lia)) as [Nq Vq].
  { rewrite Vn. fold k.
    assert (E : Vfin (2 ^ 53 - 1) (-21) * 2 ^ 21 = (2 ^ 53 - 1) * k) by reflexivity.
    assert (H1 : Vabs (Double.of_Z S) * c <= (mb - 1) * 2 ^ 32 * k) by nia.
    assert (H2 : (mb - 1) * 2 ^ 53 <= (2 ^ 53 - 1) * mb) by nia.
    (* compare after scaling both sides by c * 2^21 *)
    assert (H3 : Vabs (Double.of_Z S) * k * (c * 2 ^ 21)
                 <= Vfin (2 ^ 53 - 1) (-21) * (n * k) * (c * 2 ^ 21)).
    { replace (Vfin (2 ^ 53 - 1) (-21) * (n * k) * (c * 2 ^ 21))
        with ((Vfin (2 ^ 53 - 1) (-21) * 2 ^ 21) * (n * c) * k) by ring.
      rewrite E, Hnc.
      replace (Vabs (Double.of_Z S) * k * (c * 2 ^ 21))
        with ((Vabs (Double.of_Z S) * c) * 2 ^ 21 * k) by ring.
      assert ((Vabs (Double.of_Z S) * c) * 2 ^ 21
              <= (mb - 1) * 2 ^ 32 * k * 2 ^ 21) by nia.
      change ((2:Z) ^ 53) with (2 ^ 32 * 2 ^ 21) in H2.
      nia. }
    assert (0 < c * 2 ^ 21) by nia.
    nia. }
  destruct two32_normal as [N32 V32].
  apply ltb_normal_pos; try assumption.
  rewrite V32. fold k.
  assert (Vfin (2 ^ 53 - 1) (-21) < 2 ^ 32 * k) by reflexivity.
  lia.
Qed.

(** ** Cumulative sums: the range of the series *)

(** The sign passes through rounding unchanged. *)
Lemma bra_opp mx ex lx :
  binary_round_aux Double.prec Double.emax true mx ex lx
  = SFopp (binary_round_aux Double.prec Double.emax false mx ex lx).
Proof.
  unfold binary_round_aux.
  destruct (shr_fexp Double.prec Double.emax mx ex lx) as [mrs' e'].
  destruct (shr_fexp Double.prec Double.emax _ e' loc_Exact) as [mrs'' e''].
  destruct (shr_m mrs''); try reflexivity.
  destruct (e'' <=? Double.emax - Double.prec); reflexivity.
Qed.

Lemma normalize_opp D e :
  D <> 0 ->
  binary_normalize Double.prec Double.emax (- D) e false
  = SFopp (binary_normalize Double.prec Double.emax D e false).
Proof.
  intros HD. destruct D as [|p|p]; [contradiction| |]; cbn [Z.opp binary_normalize];
    unfold binary_round;
    destruct (shl_align p e _) as [mz ez]; rewrite bra_opp;
    [reflexivity|].
  destruct (binary_round_aux _ _ false _ _ _) as [[|]|[|]| |[|] m' e'']; reflexivity.
Qed.

Lemma neg_add_sub mx ex my ey :
  Zpos mx * 2 ^ (ex - Z.min ex ey) <> Zpos my * 2 ^ (ey - Z.min ex ey) ->
  (- S754_finite false mx ex + S754_finite false my ey)%D
  = (- (S754_finite false mx ex - S754_finite false my ey))%D.
Proof.
  intros HD. unfold Double.neg. cbn [SFopp negb].
  pose proof (add_finite true mx ex false my ey) as Ha.
  pose proof (sub_finite false mx ex false my ey) as Hs.
  cbv zeta in Ha, Hs. rewrite Ha, Hs. cbn [cond_Zopp].
  rewrite <- normalize_opp by lia. f_equal. lia.
Qed.

Lemma neg_div mx ex my ey :
  (- S754_finite false mx ex / S754_finite false my ey)%D
  = (- (S754_finite false mx ex / S754_finite false my ey))%D.
Proof.
  unfold Double.neg, Double.div, SFdiv. cbn [SFopp negb xorb].
  destruct (SFdiv_core_binary _ _ _ _ _ _) as [[mz ez] lz].
  apply bra_opp.
Qed.

Lemma trunc_pos m e :
  -1074 <= e -> Double.trunc (S754_finite false m e) = Vfin (Zpos m) e / 2 ^ 1074.
Proof.
  intros He. unfold Double.trunc, Vfin. cbn [cond_Zopp].
  destruct (Z.leb_spec 0 e).
  - rewrite Z.shiftl_mul_pow2 by lia.
    rewrite (pow2_split e 1074) by lia.
    rewrite Z.mul_assoc, Z.div_mul; [reflexivity|].
    pose proof (pow2_pos 1074 ltac:(lia)). lia.
  - rewrite Z.shiftl_div_pow2 by lia.
    replace 1074 with ((e + 1074) + (- e)) at 2 by lia.
    rewrite (pow2_split (e + 1074) (- e)) by lia.
    pose proof (pow2_pos (e + 1074) ltac:(lia)).
    pose proof (pow2_pos (- e) ltac:(lia)).
    rewrite (Z.mul_comm (2 ^ (e + 1074))).
    rewrite Z.div_mul_cancel_r by lia. reflexivity.
Qed.

Lemma for_range_fold_from {S : Type} (body : Z -> S -> S) k : forall i s,
  for_range i k body s
  = fold_left (fun t x => body x t) (map (fun d => i + d) (zrange k)) s.
Proof.
  induction k as [|k IH]; intros i s; [reflexivity|].
  rewrite zrange_cons. cbn [for_range map fold_left].
  rewrite IH, map_map, Z.add_0_r.
  f_equal. apply map_ext. intros d. lia.
Qed.

(** The excursion after [k] steps is at most [k]. *)
Lemma cusum_step_bound w i st B :
  0 <= B -> B + 1 < 2 ^ 63 ->
  - B <= fst st <= B -> 0 <= snd st <= B ->
  - (B + 1) <= fst (cusum_step w i st) <= B + 1
  /\ 0 <= snd (cusum_step w i st) <= B + 1.
Proof.
  destruct st as [s zmax]. cbn [fst snd]. intros HB Hr Hs Hz.
  unfold cusum_step.
  assert (Hb : -1 <= (if bit_at w i =? 0 then -1 else 1) <= 1)
    by (destruct (bit_at w i =? 0); lia).
  rewrite (wrap_s64_small (s + _)) by lia.
  set (s' := s + _) in *.
  rewrite (wrap_s64_small (- s')) by lia.
  destruct (Z.gtb_spec s' zmax); cbn [fst snd]; [lia|].
  destruct (Z.gtb_spec (- s') zmax); cbn [fst snd]; lia.
Qed.

Lemma cusum_walk_bound w (k : nat) : forall i st B,
  0 <= B -> B + Z.of_nat k < 2 ^ 63 ->
  - B <= fst st <= B -> 0 <= snd st <= B ->
  0 <= snd (for_range i k (cusum_step w) st) <= B + Z.of_nat k.
Proof.
  induction k as [|k IH]; intros i st B HB Hr Hs Hz; cbn [for_range]; [lia|].
  destruct (cusum_step_bound w i st B HB ltac:(lia) Hs Hz) as [Hs' Hz'].
  pose proof (IH (i + 1) (cusum_step w i st) (B + 1) ltac:(lia) ltac:(lia) Hs' Hz').
  lia.
Qed.

Lemma cusum_zmax_le_bits w len :
  1 <= len -> len * 32 < 2 ^ 63 -> cusum_zmax w len <= len * 32.
Proof.
  intros Hlen Hb. unfold cusum_zmax, cusum_walk, for_upto.
  rewrite wrap_u64_small by lia.
  pose proof (cusum_walk_bound w (Z.to_nat (len * 32)) 0 (0, 0) 0
                ltac:(lia) ltac:(lia) ltac:(cbn; lia) ltac:(cbn; lia)) as H.
  lia.
Qed.

Lemma Vabs_one : Vabs Double.one = 2 ^ 1074.
Proof. reflexivity. Qed.

Lemma one_normal : normal_pos Double.one.
Proof. cbn. lia. Qed.

(** Both loop bounds, as doubles: for [z < N] they are [-b] and [b] for
    one positive double [b] whose integer part is [(N - z) / (4 z)]. *)
Lemma cusum_bound_doubles N z :
  1 <= z < N -> N < 2 ^ 49 ->
  let j := (N - z) / (4 * z) in
  exists mb eb,
    (2 ^ 52 <= Zpos mb < 2 ^ 53 /\ -1074 <= eb <= 971)
    /\ cusum_end_d N z = S754_finite false mb eb
    /\ cusum_start_d N z = S754_finite true mb eb
    /\ j * 2 ^ 1074 <= Vfin (Zpos mb) eb < (j + 1) * 2 ^ 1074.
Proof.
  intros Hz HN j.
  set (U := 2 ^ 1074). assert (HU : 0 < U) by (apply pow2_pos; lia).
  destruct (small_int_normal N ltac:(lia)) as [Nx Vx].
  destruct (small_int_normal z ltac:(lia)) as [Ny Vy].
  fold U in Vx, Vy.
  assert (Hj0 : 0 <= j) by (apply Z.div_pos; lia).
  assert (Hj : (4 * j + 1) * z <= N < (4 * j + 5) * z).
  { pose proof (Z.mul_div_le (N - z) (4 * z) ltac:(lia)).
    pose proof (Z.mul_succ_div_gt (N - z) (4 * z) ltac:(lia)).
    fold j in H, H0. lia. }
  assert (Hjz : (4 * j + 5) * z < 5 * 2 ^ 49) by nia.
  assert (Hj49 : 4 * j + 1 < 2 ^ 49) by nia.
  destruct (div_bounds (Double.of_Z N) (Double.of_Z z) Nx Ny) as [_ [Hlo Hup]].
  { rewrite Vx, Vy. pose proof (pow2_pos 960 ltac:(lia)). nia. }
  rewrite Vx, Vy in Hlo, Hup.
  set (r := (Double.of_Z N / Double.of_Z z)%D) in *.
  (* the largest double below 4j+5 bounds the quotient *)
  destruct (int_normal_form (4 * j + 5) ltac:(lia)) as [mb' [eb' [Hmb' [Heb' HVb']]]].
  set (c := 2 ^ (- eb')).
  assert (Hc : 0 < c) by (apply pow2_pos; lia).
  set (P := 2 ^ (eb' + 1074)). assert (HP : 0 < P) by (apply pow2_pos; lia).
  assert (EU : U = P * c).
  { unfold U, P, c. rewrite <- pow2_split by lia. f_equal. lia. }
  assert (Hmc : mb' = (4 * j + 5) * c).
  { unfold Vfin in HVb'. change (2 ^ (0 + 1074)) with U in HVb'. fold P in HVb'.
    rewrite EU in HVb'. nia. }
  assert (Hcz : z < c) by nia.
  destruct (normal_form (mb' - 1) eb' ltac:(lia) ltac:(lia))
    as [mu [eu [Hmu [Heu HVu]]]].
  assert (HVu' : Vfin mu eu = (mb' - 1) * P) by (rewrite HVu; reflexivity).
  destruct (Hup mu eu Hmu Heu) as [Nr Hru].
  { change (2 ^ 1074) with U. rewrite HVu'.
    assert (H1 : N * c <= (mb' - 1) * z) by nia.
    assert (H2 : N * U <= (mb' - 1) * P * z).
    { rewrite EU. replace (N * (P * c)) with (P * (N * c)) by ring.
      replace ((mb' - 1) * P * z) with (P * ((mb' - 1) * z)) by ring.
      apply Z.mul_le_mono_nonneg_l; lia. }
    replace (N * U * U) with (U * (N * U)) by ring.
    replace ((mb' - 1) * P * (z * U)) with (U * ((mb' - 1) * P * z)) by ring.
    apply Z.mul_le_mono_nonneg_l; lia. }
  assert (Hr5 : Vabs r < (4 * j + 5) * U).
  { rewrite HVu' in Hru. rewrite EU.
    replace ((4 * j + 5) * (P * c)) with ((4 * j + 5) * c * P) by ring.
    rewrite <- Hmc. nia. }
  (* lower bounds *)
  assert (Hfin : r <> S754_infinity false)
    by (intros E; rewrite E in Nr; exact Nr).
  destruct (normal_form (4 * j + 1) 0 ltac:(lia) ltac:(lia))
    as [ml [el [Hml [Hel HVl]]]].
  assert (Hr1 : (4 * j + 1) * U <= Vabs r).
  { destruct (Hlo ml el Hml Hel) as [E | H]; [|contradiction|].
    - rewrite HVl. unfold Vfin. change (2 ^ (0 + 1074)) with U.
      change (2 ^ 1074) with U.
      replace ((4 * j + 1) * U * (z * U)) with (U * U * ((4 * j + 1) * z)) by ring.
      replace (N * U * U) with (U * U * N) by ring.
      apply Z.mul_le_mono_nonneg_l; [nia | lia].
    - rewrite HVl in H. exact H. }
  set (Q := 2 ^ 1025). assert (HQ : 0 < Q) by (apply pow2_pos; lia).
  assert (EQ : U = 2 ^ 49 * Q) by reflexivity.
  destruct (normal_form (2 ^ 49 + 1) (-49) ltac:(lia) ltac:(lia))
    as [m1 [e1 [Hm1 [He1 HV1]]]].
  assert (HV1' : Vfin m1 e1 = (2 ^ 49 + 1) * Q) by (rewrite HV1; reflexivity).
  assert (Hr2 : U + Q <= Vabs r).
  { destruct (Hlo m1 e1 Hm1 He1) as [E | H]; [|contradiction|].
    - rewrite HV1'. change (2 ^ 1074) with U.
      assert (H1 : (2 ^ 49 + 1) * Q * z <= N * U).
      { rewrite EQ.
        replace ((2 ^ 49 + 1) * Q * z) with (Q * ((2 ^ 49 + 1) * z)) by ring.
        replace (N * (2 ^ 49 * Q)) with (Q * (N * 2 ^ 49)) by ring.
        apply Z.mul_le_mono_nonneg_l; lia. }
      replace ((2 ^ 49 + 1) * Q * (z * U)) with (U * ((2 ^ 49 + 1) * Q * z)) by ring.
      replace (N * U * U) with (U * (N * U)) by ring.
      apply Z.mul_le_mono_nonneg_l; lia.
    - rewrite HV1' in H. rewrite EQ. lia. }
  destruct (normal_pos_inv r Nr) as [m [e [Er [Hm He]]]].
  rewrite Er in Hr1, Hr2, Hr5. cbn [Vabs] in Hr1, Hr2, Hr5.
  assert (He1' : -52 <= e).
  { assert (2 ^ (0 + 1074) <= Vfin (Zpos m) e)
      by (change (2 ^ (0 + 1074)) with U; lia).
    apply (normal_exp_lower (Zpos m) e 0); lia. }
  assert (He2 : e <= 0).
  { assert (Vfin (Zpos m) e <= 2 ^ (52 + 1074))
      by (change (2 ^ (52 + 1074)) with (2 ^ 52 * U); nia).
    apply (normal_exp_upper (Zpos m) e 52); lia. }
  (* the subtraction of 1 is exact *)
  set (g := 2 ^ (- e)). assert (Hg : 0 < g) by (apply pow2_pos; lia).
  set (R := 2 ^ (e + 1074)). assert (HR : 0 < R) by (apply pow2_pos; lia).
  assert (EUR : U = R * g).
  { unfold U, R, g. rewrite <- pow2_split by lia. f_equal. lia. }
  assert (EV : Vfin (Zpos m) e = Zpos m * R) by reflexivity.
  rewrite EV in Hr1, Hr2, Hr5.
  assert (Hmg : g < Zpos m) by (rewrite EUR in Hr2; nia).
  destruct (normal_form (Zpos m - g) e ltac:(lia) ltac:(lia))
    as [md [ed [Hmd [Hed HVd]]]].
  assert (HVd' : Vfin md ed = Zpos m * R - U).
  { rewrite HVd, EUR. unfold Vfin. fold R. ring. }
  set (d := S754_finite false (Z.to_pos md) ed).
  assert (Hpd : Zpos (Z.to_pos md) = md) by (apply Z2Pos.id; lia).
  assert (Nd : normal_pos d) by (cbn [d normal_pos]; rewrite Hpd; lia).
  assert (Vd : Vabs d = Zpos m * R - U) by (cbn [d Vabs]; rewrite Hpd; exact HVd').
  assert (Ed : (r - Double.one)%D = d).
  { apply sub_exact_pos; [exact Nr | exact one_normal | exact Nd |].
    rewrite Vd, Vabs_one, Er. cbn [Vabs]. rewrite EV. reflexivity. }
  (* the division by 4 is exact *)
  assert (Hed' : -101 <= ed).
  { assert (2 ^ (-49 + 1074) <= Vfin md ed)
      by (change (2 ^ (-49 + 1074)) with Q; lia).
    apply (normal_exp_lower md ed (-49)); lia. }
  set (b := S754_finite false (Z.to_pos md) (ed - 2)).
  assert (Nb : normal_pos b) by (cbn [b normal_pos]; rewrite Hpd; lia).
  assert (E4 : Vfin md ed = 4 * Vfin md (ed - 2)).
  { unfold Vfin. replace (ed + 1074) with (ed - 2 + 1074 + 2) by lia.
    rewrite (pow2_split (ed - 2 + 1074) 2) by lia. ring. }
  assert (Vb : 4 * Vabs b = Zpos m * R - U)
    by (cbn [b Vabs]; rewrite Hpd, <- E4; exact HVd').
  destruct four_normal as [N4 V4].
  assert (Eb : (d / Double.four)%D = b).
  { apply div_exact; [exact Nd | exact N4 | exact Nb | |].
    - rewrite V4, Vd.
      assert (4 * 2 ^ 1074 <= Q * 2 ^ 960)
        by (apply Z.leb_le; vm_compute; reflexivity).
      pose proof (pow2_pos 960 ltac:(lia)). nia.
    - rewrite V4, Vd, <- Vb. ring. }
  exists (Z.to_pos md), (ed - 2).
  split; [rewrite Hpd; lia|]. split; [|split].
  - unfold cusum_end_d. fold r. rewrite Ed, Eb. reflexivity.
  - unfold cusum_start_d. fold r. rewrite Er.
    change Double.one with (S754_finite false 4503599627370496 (-52)).
    rewrite neg_add_sub.
    + change (S754_finite false 4503599627370496 (-52)) with Double.one.
      rewrite <- Er, Ed. unfold d.
      change Double.four with (S754_finite false 4503599627370496 (-50)).
      rewrite neg_div.
      change (S754_finite false 4503599627370496 (-50)) with Double.four.
      fold d. rewrite Eb. reflexivity.
    + rewrite Z.min_r by lia.
      change (-52 - -52) with 0. rewrite Z.pow_0_r, Z.mul_1_r.
      replace (e - -52) with (e + 52) by lia.
      assert (ER : R = 2 ^ (e + 52) * 2 ^ 1022).
      { unfold R. rewrite <- pow2_split by lia. f_equal. lia. }
      assert (EU2 : U = 2 ^ 52 * 2 ^ 1022) by reflexivity.
      pose proof (pow2_pos 1022 ltac:(lia)).
      pose proof (pow2_pos (e + 52) ltac:(lia)).
      intros E. rewrite ER, EU2 in Hr2.
      replace (Zpos m * (2 ^ (e + 52) * 2 ^ 1022))
        with (Zpos m * 2 ^ (e + 52) * 2 ^ 1022) in Hr2 by ring.
      rewrite E in Hr2. change (Z.pos 4503599627370496) with (2 ^ 52) in Hr2. lia.
  - rewrite Hpd. cbn [b Vabs] in Vb. rewrite Hpd in Vb. fold U. lia.
Qed.

Lemma trunc_neg m e :
  Double.trunc (S754_finite true m e) = - Double.trunc (S754_finite false m e).
Proof. reflexivity. Qed.

(** The loop bounds as integers, when they fit an [int]: [end] is the
    floor of the non-negative [(N/z - 1)/4], and [start] is its opposite. *)
Lemma cusum_bounds_value N z :
  1 <= z <= N -> N < 2 ^ 49 -> (N - z) / (4 * z) <= INT_MAX ->
  cusum_end N z = (N - z) / (4 * z)
  /\ cusum_start N z = - ((N - z) / (4 * z)).
Proof.
  intros Hz HN Hfit. destruct (Z.eq_dec z N) as [-> | Hne].
  - rewrite Z.sub_diag, Z.div_0_l by lia.
    destruct (small_int_normal N ltac:(lia)) as [Nx Vx].
    assert (E : (Double.of_Z N / Double.of_Z N)%D = Double.one).
    { apply div_exact; [exact Nx | exact Nx | exact one_normal | |].
      - pose proof (pow2_pos 960 ltac:(lia)).
        assert (0 < Vabs (Double.of_Z N))
          by (rewrite Vx; pose proof (pow2_pos 1074 ltac:(lia)); nia).
        nia.
      - rewrite Vabs_one. ring. }
    unfold cusum_end, cusum_start, cusum_end_d, cusum_start_d.
    rewrite E. split; reflexivity.
  - set (j := (N - z) / (4 * z)) in *.
    destruct (cusum_bound_doubles N z ltac:(lia) HN)
      as [mb [eb [[Hmb Heb] [Ee [Es Hv]]]]].
    fold j in Hv.
    assert (Hj0 : 0 <= j) by (apply Z.div_pos; lia).
    assert (Ht : Double.trunc (S754_finite false mb eb) = j).
    { rewrite trunc_pos by lia.
      pose proof (pow2_pos 1074 ltac:(lia)).
      symmetry. apply (Z.div_unique _ _ j (Vfin (Zpos mb) eb - j * 2 ^ 1074)); lia. }
    unfold cusum_end, cusum_start. rewrite Ee, Es.
    unfold Double.to_int. cbv zeta. rewrite trunc_neg, Ht.
    unfold INT_MIN, INT_MAX in *.
    destruct (Z.leb_spec (- 2 ^ 31) j); [|lia].
    destruct (Z.leb_spec j (2 ^ 31 - 1)); [|lia].
    destruct (Z.leb_spec (- 2 ^ 31) (- j)); [|lia].
    destruct (Z.leb_spec (- j) (2 ^ 31 - 1)); [|lia].
    split; reflexivity.
Qed.

(** C1 (as the code has it). For a buffer of [1 <= len < 2^44] words,
    with [n = 32 * len], [zmax] the largest excursion of the walk and
    [j = floor((n/zmax - 1)/4)] below [INT_MAX] (so that the loop counter
    stays an [int]): [zmax] is between 1 and [n]; the upper loop bound
    [end] is [j]; the lower loop bound [start] is the double
    [(-n/zmax + 1)/4] truncated toward zero, that is [-j], which is the
    floor of that quotient exactly when [4 * zmax] divides [n - zmax];
    and the verdict is [p >= 0.01] for [p] obtained from 1.0 by
    subtracting [erfc a_k - erfc b_k] for [k = -j, ..., j] in turn. *)
Theorem cusum_series_range :
  forall (erfc : Double.double -> Double.double) (w : list Z) (len : Z),
    buffer_ok w len -> 1 <= len < 2 ^ 44 ->
    (32 * len - cusum_zmax w len) / (4 * cusum_zmax w len) < INT_MAX ->
    let n := 32 * len in
    let zmax := cusum_zmax w len in
    let j := (n - zmax) / (4 * zmax) in
    1 <= zmax <= n
    /\ cusum_end n zmax = j
    /\ cusum_start n zmax = - j
    /\ cusum_start n zmax = Z.quot (zmax - n) (4 * zmax)
    /\ (cusum_start n zmax = (zmax - n) / (4 * zmax)
        <-> (n - zmax) mod (4 * zmax) = 0)
    /\ nist_cumulative_sums erfc w len
       = verdict (fold_left (fun p k => (p - cusum_term erfc n zmax k)%D)
                    (zinterval (- j) j) Double.one).
Proof.
  intros erfc w len Hok Hlen Hfit n zmax j.
  pose proof (buf_bits _ _ Hok) as Hbits.
  pose proof (cusum_zmax_pos w len ltac:(lia) Hbits) as Hpos. fold zmax in Hpos.
  pose proof (cusum_zmax_le_bits w len ltac:(lia) ltac:(lia)) as Hle.
  fold zmax in Hle.
  assert (Hn : n < 2 ^ 49) by (subst n; lia).
  assert (Hzn : 1 <= zmax <= n) by (subst n; lia).
  fold n zmax j in Hfit.
  destruct (cusum_bounds_value n zmax Hzn Hn) as [He Hs];
    [fold j; lia|]. fold j in He, Hs.
  assert (Hj0 : 0 <= j) by (apply Z.div_pos; lia).
  split; [exact Hzn | split; [exact He | split; [exact Hs | split; [|split]]]].
  - rewrite Hs. replace (zmax - n) with (- (n - zmax)) by lia.
    rewrite Z.quot_opp_l by lia.
    rewrite Z.quot_div_nonneg by lia. reflexivity.
  - rewrite Hs. replace (zmax - n) with (- (n - zmax)) by lia.
    destruct (Z.eq_dec ((n - zmax) mod (4 * zmax)) 0) as [E | E].
    + rewrite Z.div_opp_l_z by lia. fold j. tauto.
    + rewrite Z.div_opp_l_nz by lia. fold j. split; intros; lia.
  - unfold nist_cumulative_sums. fold zmax.
    destruct (Z.eqb_spec zmax 0); [lia|].
    rewrite bit_count_in_range by lia.
    replace (len * 32) with n by (subst n; lia).
    rewrite He, Hs. unfold cusum_p, zinterval.
    rewrite for_range_fold_from. reflexivity.
Qed.

Lemma cusum_series_range_witness :
  buffer_ok [2863311530] 1 /\ 1 <= 1 < 2 ^ 44
  /\ (32 * 1 - cusum_zmax [2863311530] 1) / (4 * cusum_zmax [2863311530] 1)
     < INT_MAX
  /\ cusum_end 32 1 = 7 /\ cusum_start 32 1 = -7.
Proof.
  assert (Hok : buffer_ok [2863311530] 1).
  { split; [reflexivity | | reflexivity].
    repeat constructor; unfold word_ok; lia. }
  assert (Hlen : 1 <= 1 < 2 ^ 44) by lia.
  assert (Hfit : (32 * 1 - cusum_zmax [2863311530] 1)
                 / (4 * cusum_zmax [2863311530] 1) < INT_MAX)
    by (vm_compute; reflexivity).
  split; [exact Hok | split; [exact Hlen | split; [exact Hfit|]]].
  destruct (cusum_series_range (fun _ => Double.one) _ 1 Hok Hlen Hfit)
    as [_ [He [Hs _]]].
  split; [exact He | exact Hs].
Defined.

(** C1, as stated, fails on the one-word buffer [0xAAAAAAAA] (bits
    0,1,0,1,...): there [zmax = 1] and [n = 32], the double
    [(-n/zmax + 1)/4] is -7.75, the loop starts at its truncation -7, and
    the floor is -8. *)
Lemma cusum_start_not_floor :
  cusum_zmax [2863311530] 1 = 1
  /\ cusum_start 32 1 = -7
  /\ cusum_start_floor 32 1 = -8
  /\ (1 - 32) / (4 * 1) = -8
  /\ cusum_start (32 * 1) (cusum_zmax [2863311530] 1)
     <> cusum_start_floor (32 * 1) (cusum_zmax [2863311530] 1).
Proof.
  repeat split; try (vm_compute; reflexivity).
  vm_compute. discriminate.
Qed.

(** ** The linear congruential generator *)

Lemma wrap_u32_range x : 0 <= wrap_u32 x < 2 ^ 32.
Proof. unfold wrap_u32. apply Z.mod_pos_bound. lia. Qed.

Lemma wrap_u32_small x : 0 <= x < 2 ^ 32 -> wrap_u32 x = x.
Proof. intros H. unfold wrap_u32. now apply Z.mod_small. Qed.

Lemma lcg_step_mod s : LCG.step s = (LCG.a * s + LCG.c) mod 2 ^ 32.
Proof. unfold LCG.step, wrap_u32. now rewrite Zplus_mod_idemp_l. Qed.

Lemma iter_nat_succ_r {A : Type} (f : A -> A) n x :
  iter_nat f (Datatypes.S n) x = f (iter_nat f n x).
Proof.
  revert x. induction n as [|n IH]; intros x; [reflexivity|].
  change (iter_nat f (Datatypes.S (Datatypes.S n)) x)
    with (iter_nat f (Datatypes.S n) (f x)).
  rewrite IH. reflexivity.
Qed.

Lemma after_S {G : Type} (next : G -> Z * G) n g :
  after next (Datatypes.S n) g = snd (next (after next n g)).
Proof. unfold after. exact (iter_nat_succ_r (fun g => snd (next g)) n g). Qed.

Lemma outputs_S {G : Type} (next : G -> Z * G) n g :
  outputs next (Datatypes.S n) g = outputs next n g ++ [fst (next (after next n g))].
Proof. unfold outputs. rewrite seq_S, map_app. reflexivity. Qed.

Lemma outputs_length {G : Type} (next : G -> Z * G) n g :
  length (outputs next n g) = n.
Proof. unfold outputs. now rewrite length_map, length_seq. Qed.

(** A generator whose output is its new state, stepped by an injective
    map, does not repeat an output before its state returns to the
    seed. *)
Lemma outputs_distinct {G : Type} (next : G -> Z * G) (st : G -> Z)
    (step : Z -> Z) (ok : Z -> Prop) (N : Z) :
  (forall g, fst (next g) = step (st g) /\ st (snd (next g)) = step (st g)) ->
  (forall s, ok s -> ok (step s)) ->
  (forall s s', ok s -> ok s' -> step s = step s' -> s = s') ->
  forall g, ok (st g) ->
  (forall d : nat, (0 < d)%nat -> Z.of_nat d < N ->
     iter_nat step d (st g) <> st g) ->
  forall n : nat, Z.of_nat n <= N -> NoDup (outputs next n g).
Proof.
  intros Hnext Hok Hinj g Hg Hret.
  assert (Hst : forall k, st (after next k g) = iter_nat step k (st g)).
  { induction k as [|k IH]; [reflexivity|].
    rewrite after_S, iter_nat_succ_r, <- IH. apply Hnext. }
  assert (Hout : forall k, fst (next (after next k g))
                           = iter_nat step (Datatypes.S k) (st g)).
  { intros k. rewrite iter_nat_succ_r, <- Hst. apply Hnext. }
  assert (Hoki : forall k s, ok s -> ok (iter_nat step k s)).
  { induction k as [|k IH]; intros s Hs; [exact Hs|].
    cbn [iter_nat]. apply IH, Hok, Hs. }
  assert (Hinji : forall k s s', ok s -> ok s' ->
             iter_nat step k s = iter_nat step k s' -> s = s').
  { induction k as [|k IH]; intros s s' Hs Hs' E; [exact E|].
    cbn [iter_nat] in E. apply IH in E; [| now apply Hok | now apply Hok].
    now apply Hinj. }
  induction n as [|n IH]; intros Hn; [constructor|].
  rewrite outputs_S.
  apply NoDup_app; [apply IH; lia | constructor; [intros [] | constructor] |].
  intros x Hin [Hx | []]. subst x.
  unfold outputs in Hin. apply in_map_iff in Hin.
  destruct Hin as [k [Ek Hk]]. apply in_seq in Hk.
  rewrite !Hout in Ek.
  replace (Datatypes.S n) with (Datatypes.S k + (n - k))%nat in Ek by lia.
  rewrite iter_nat_add in Ek.
  set (m := Datatypes.S k) in *.
  assert (Hperm : forall a b s, iter_nat step a (iter_nat step b s)
                                = iter_nat step b (iter_nat step a s)).
  { intros a b s. rewrite <- !iter_nat_add. f_equal. lia. }
  rewrite Hperm in Ek.
  apply Hinji in Ek; [| exact Hg | now apply Hoki].
  apply (Hret (n - k)%nat); [lia | lia | symmetry; exact Ek].
Qed.

Lemma lcg_unstep_step x : word_ok x -> lcg_unstep (LCG.step x) = x.
Proof.
  intros Hx. unfold lcg_unstep. rewrite lcg_step_mod. unfold wrap_u32.
  rewrite <- Zmult_mod_idemp_r, <- Zminus_mod_idemp_l, Z.mod_mod by lia.
  rewrite Zminus_mod_idemp_l, Zmult_mod_idemp_r.
  replace (4276115653 * (LCG.a * x + LCG.c - LCG.c))
    with (x + 2 ^ 32 * (1657219 * x))
    by (unfold LCG.a, LCG.c; ring).
  rewrite Z.mul_comm, Z_mod_plus_full. apply Z.mod_small. exact Hx.
Qed.

(** X1. The LCG step is a permutation of the 32-bit words: it always
    yields a word, and [lcg_unstep] undoes it in both directions; in
    particular two different states never produce the same output. *)
Theorem lcg_step_permutation :
  forall s : Z,
    word_ok (LCG.step s)
    /\ word_ok (lcg_unstep s)
    /\ (word_ok s -> lcg_unstep (LCG.step s) = s)
    /\ (word_ok s -> LCG.step (lcg_unstep s) = s)
    /\ (forall s', word_ok s -> word_ok s' -> LCG.step s = LCG.step s' -> s = s')
    /\ fst (LCG.next (LCG.mk s)) = LCG.step s
    /\ LCG.state (snd (LCG.next (LCG.mk s))) = LCG.step s.
Proof.
  intros s.
  split; [apply wrap_u32_range|]. split; [apply wrap_u32_range|].
  split; [apply lcg_unstep_step|]. split; [|split; [|split; reflexivity]].
  - intros Hs. rewrite lcg_step_mod. unfold lcg_unstep, wrap_u32.
    rewrite <- Zplus_mod_idemp_l, Zmult_mod_idemp_r, Zplus_mod_idemp_l.
    replace (LCG.a * (4276115653 * (s - LCG.c)) + LCG.c)
      with (s + (1657219 * (s - LCG.c)) * 2 ^ 32)
      by (unfold LCG.a, LCG.c; ring).
    rewrite Z_mod_plus_full. apply Z.mod_small. exact Hs.
  - intros s' Hs Hs' E.
    rewrite <- (lcg_unstep_step s Hs), <- (lcg_unstep_step s' Hs'), E.
    reflexivity.
Qed.

Lemma lcg_geom_closed n : (LCG.a - 1) * lcg_geom n = LCG.a ^ Z.of_nat n - 1.
Proof.
  induction n as [|n IH]; [reflexivity|].
  rewrite Nat2Z.inj_succ, Z.pow_succ_r by lia. cbn [lcg_geom].
  replace ((LCG.a - 1) * (1 + LCG.a * lcg_geom n))
    with (LCG.a - 1 + LCG.a * ((LCG.a - 1) * lcg_geom n)) by ring.
  rewrite IH. ring.
Qed.

Lemma lcg_geom_parity n : lcg_geom n mod 2 = Z.of_nat n mod 2.
Proof.
  induction n as [|n IH]; [reflexivity|].
  rewrite Nat2Z.inj_succ. cbn [lcg_geom].
  rewrite <- Z.add_1_l.
  rewrite Z.add_mod, Z.mul_mod, IH by lia.
  change (LCG.a mod 2) with 1. rewrite Z.mul_1_l, Z.mod_mod by lia.
  rewrite <- Z.add_mod by lia. reflexivity.
Qed.

Lemma lcg_pow_mod4 n : LCG.a ^ Z.of_nat n mod 4 = 1.
Proof.
  induction n as [|n IH]; [reflexivity|].
  rewrite Nat2Z.inj_succ, Z.pow_succ_r by lia.
  rewrite Z.mul_mod, IH by lia. reflexivity.
Qed.

Lemma lcg_geom_double m :
  exists q, q mod 2 = 1 /\ lcg_geom (2 * m) = 2 * q * lcg_geom m.
Proof.
  pose proof (lcg_pow_mod4 m) as H4.
  pose proof (Z.div_mod (LCG.a ^ Z.of_nat m) 4 ltac:(lia)) as Hd.
  rewrite H4 in Hd.
  set (t := LCG.a ^ Z.of_nat m / 4) in *.
  exists (2 * t + 1). split.
  { rewrite Z.add_comm, Z.mul_comm, Z_mod_plus_full. reflexivity. }
  pose proof (lcg_geom_closed (2 * m)) as H2.
  pose proof (lcg_geom_closed m) as H1.
  replace (Z.of_nat (2 * m)) with (Z.of_nat m + Z.of_nat m) in H2 by lia.
  rewrite Z.pow_add_r in H2 by lia.
  assert (E : (LCG.a - 1) * lcg_geom (2 * m)
              = (LCG.a - 1) * (2 * (2 * t + 1) * lcg_geom m)).
  { rewrite H2.
    replace ((LCG.a - 1) * (2 * (2 * t + 1) * lcg_geom m))
      with ((2 * (2 * t + 1)) * ((LCG.a - 1) * lcg_geom m)) by ring.
    rewrite H1, Hd. ring. }
  apply Z.mul_reg_l in E; [exact E | unfold LCG.a; lia].
Qed.

Lemma odd_divide_pow2_nat (k : nat) : forall x q,
  q mod 2 = 1 -> (2 ^ Z.of_nat k | x * q) -> (2 ^ Z.of_nat k | x).
Proof.
  induction k as [|k IH]; intros x q Hq Hd.
  - apply Z.divide_1_l.
  - rewrite Nat2Z.inj_succ, Z.pow_succ_r in * by lia.
    assert (Hx : x mod 2 = 0).
    { assert (H2 : (x * q) mod 2 = 0).
      { apply Z.mod_divide; [lia|]. destruct Hd as [z Hz].
        exists (z * 2 ^ Z.of_nat k). lia. }
      rewrite Z.mul_mod, Hq, Z.mul_1_r, Z.mod_mod in H2 by lia. exact H2. }
    apply Z.mod_divide in Hx; [|lia]. destruct Hx as [x' Hx']. subst x.
    assert (Hd' : (2 ^ Z.of_nat k | x' * q)).
    { destruct Hd as [z Hz]. exists z. lia. }
    apply IH in Hd'; [|exact Hq]. destruct Hd' as [z Hz]. exists z. lia.
Qed.

Lemma odd_divide_pow2 k x q :
  0 <= k -> q mod 2 = 1 -> (2 ^ k | x * q) -> (2 ^ k | x).
Proof.
  intros Hk Hq Hd. rewrite <- (Z2Nat.id k Hk) in *.
  now apply odd_divide_pow2_nat with (q := q).
Qed.

Lemma lcg_geom_pow2 (k : nat) : forall n : nat,
  (2 ^ Z.of_nat k | lcg_geom n) <-> (2 ^ Z.of_nat k | Z.of_nat n).
Proof.
  induction k as [|k IH]; intros n.
  - change (2 ^ Z.of_nat 0) with 1. split; intros _; apply Z.divide_1_l.
  - rewrite Nat2Z.inj_succ, Z.pow_succ_r by lia.
    assert (Hpar : (2 | lcg_geom n) <-> (2 | Z.of_nat n)).
    { rewrite <- !Z.mod_divide by lia. rewrite lcg_geom_parity. tauto. }
    assert (Hhalf : forall x y, (2 * 2 ^ Z.of_nat k | 2 * x * y) <->
                                (2 ^ Z.of_nat k | x * y)).
    { intros x y. rewrite <- Z.mul_assoc.
      split; intros [z Hz]; exists z; lia. }
    split; intros Hd.
    + assert (H2 : (2 | Z.of_nat n)).
      { apply Hpar. destruct Hd as [z Hz]. exists (z * 2 ^ Z.of_nat k). lia. }
      destruct H2 as [m' Hm'].
      assert (Hn : n = (2 * Z.to_nat m')%nat) by lia. subst n.
      destruct (lcg_geom_double (Z.to_nat m')) as [q [Hq Eq]].
      rewrite Eq in Hd. rewrite <- Z.mul_assoc in Hd.
      assert (Hd' : (2 ^ Z.of_nat k | lcg_geom (Z.to_nat m') * q)).
      { destruct Hd as [z Hz]. exists z. lia. }
      apply odd_divide_pow2 in Hd'; [|lia|exact Hq].
      apply IH in Hd'. destruct Hd' as [z Hz]. exists z. lia.
    + assert (H2 : (2 | Z.of_nat n)).
      { destruct Hd as [z Hz]. exists (z * 2 ^ Z.of_nat k). lia. }
      destruct H2 as [m' Hm'].
      assert (Hn : n = (2 * Z.to_nat m')%nat) by lia. subst n.
      destruct (lcg_geom_double (Z.to_nat m')) as [q [Hq Eq]].
      rewrite Eq.
      assert (Hm : (2 ^ Z.of_nat k | Z.of_nat (Z.to_nat m'))).
      { destruct Hd as [z Hz]. exists z. lia. }
      apply IH in Hm. destruct Hm as [z Hz]. exists (q * z). rewrite Hz. ring.
Qed.

(** The state after [n] steps, in closed form. *)
Lemma lcg_iter_closed n s :
  word_ok s ->
  iter_nat LCG.step n s
  = (LCG.a ^ Z.of_nat n * s + LCG.c * lcg_geom n) mod 2 ^ 32.
Proof.
  intros Hs. induction n as [|n IH].
  - cbn [iter_nat lcg_geom]. rewrite Z.mul_0_r, Z.add_0_r.
    change (LCG.a ^ Z.of_nat 0) with 1. rewrite Z.mul_1_l.
    symmetry. apply Z.mod_small. exact Hs.
  - rewrite iter_nat_succ_r, IH, lcg_step_mod.
    rewrite <- Zplus_mod_idemp_l, Zmult_mod_idemp_r, Zplus_mod_idemp_l.
    f_equal. rewrite Nat2Z.inj_succ, Z.pow_succ_r by lia.
    cbn [lcg_geom]. ring.
Qed.

Lemma lcg_iter_word n s : word_ok s -> word_ok (iter_nat LCG.step n s).
Proof.
  intros Hs. rewrite lcg_iter_closed by exact Hs.
  apply Z.mod_pos_bound. lia.
Qed.

(** X2. The LCG has full period: from any seed the state returns to the
    seed after [n] steps exactly when [2^32] divides [n]; more precisely
    the low [k] bits of the state have period exactly [2^k], for every
    [k <= 32] (the lowest bit alternates).  Hence no output repeats
    within a period: any [n <= 2^32] consecutive outputs are pairwise
    distinct. *)
Theorem lcg_full_period :
  forall (s : Z) (n : nat),
    word_ok s ->
    (forall k : nat, (k <= 32)%nat ->
       ((iter_nat LCG.step n s) mod 2 ^ Z.of_nat k = s mod 2 ^ Z.of_nat k
        <-> (2 ^ Z.of_nat k | Z.of_nat n)))
    /\ (iter_nat LCG.step n s = s <-> (2 ^ 32 | Z.of_nat n))
    /\ (LCG.state (after LCG.next n (LCG.mk s)) = s <-> (2 ^ 32 | Z.of_nat n))
    /\ LCG.step s mod 2 = 1 - s mod 2
    /\ (Z.of_nat n <= 2 ^ 32 -> NoDup (outputs LCG.next n (LCG.mk s))).
Proof.
  intros s n0 Hs.
  assert (Hk : forall (n k : nat), (k <= 32)%nat ->
       ((iter_nat LCG.step n s) mod 2 ^ Z.of_nat k = s mod 2 ^ Z.of_nat k
        <-> (2 ^ Z.of_nat k | Z.of_nat n))).
  { intros n k Hk.
    set (K := 2 ^ Z.of_nat k). assert (HK : 0 < K) by (apply pow2_pos; lia).
    assert (HK32 : 2 ^ 32 = K * 2 ^ (32 - Z.of_nat k)).
    { unfold K. rewrite <- pow2_split by lia. f_equal. lia. }
    set (u := (LCG.a - 1) * s + LCG.c).
    assert (Hu : u mod 2 = 1).
    { unfold u. replace ((LCG.a - 1) * s + LCG.c)
        with (1 + (832262 * s + 506952111) * 2) by (unfold LCG.a, LCG.c; ring).
      rewrite Z_mod_plus_full. reflexivity. }
    assert (Ediff : LCG.a ^ Z.of_nat n * s + LCG.c * lcg_geom n - s
                    = lcg_geom n * u).
    { unfold u. pose proof (lcg_geom_closed n) as Hc.
      replace (LCG.a ^ Z.of_nat n * s + LCG.c * lcg_geom n - s)
        with ((LCG.a ^ Z.of_nat n - 1) * s + LCG.c * lcg_geom n) by ring.
      rewrite <- Hc. ring. }
    rewrite lcg_iter_closed by exact Hs.
    set (v := LCG.a ^ Z.of_nat n * s + LCG.c * lcg_geom n) in *.
    assert (Hmm : (v mod 2 ^ 32) mod K = v mod K).
    { apply Z.mod_mod_divide. exists (2 ^ (32 - Z.of_nat k)). lia. }
    rewrite Hmm.
    pose proof (lcg_geom_pow2 k n) as Hg. fold K in Hg.
    split.
    - intros E. apply Hg.
      apply (odd_divide_pow2 (Z.of_nat k) _ u); [lia | exact Hu|].
      rewrite <- Ediff. fold K.
      apply Z.mod_divide; [lia|].
      rewrite Zminus_mod, E, Z.sub_diag. reflexivity.
    - intros Hd. apply Hg in Hd.
      assert (Hv : v = s + lcg_geom n * u) by lia.
      rewrite Hv. destruct Hd as [z Hz]. rewrite Hz.
      replace (s + z * K * u) with (s + (z * u) * K) by ring.
      apply Z_mod_plus_full. }
  assert (Hfull : forall n : nat,
             iter_nat LCG.step n s = s <-> (2 ^ 32 | Z.of_nat n)).
  { intros n. rewrite <- (Hk n 32%nat) by lia.
    change (2 ^ Z.of_nat 32) with (2 ^ 32).
    pose proof (lcg_iter_word n s Hs) as Hw.
    rewrite !Z.mod_small by assumption. tauto. }
  split; [exact (Hk n0) | split; [exact (Hfull n0) | split; [|split]]].
  - assert (E : forall m g, LCG.state (after LCG.next m g)
                            = iter_nat LCG.step m (LCG.state g)).
    { unfold after. induction m as [|m IH]; intros g; [reflexivity|].
      cbn [iter_nat]. rewrite IH. reflexivity. }
    rewrite E. exact (Hfull n0).
  - rewrite lcg_step_mod.
    rewrite Z.mod_mod_divide by (exists (2 ^ 31); reflexivity).
    replace (LCG.a * s + LCG.c) with (s + 1 + (832262 * s + 506952111) * 2)
      by (unfold LCG.a, LCG.c; ring).
    rewrite Z_mod_plus_full.
    pose proof (Z.mod_pos_bound s 2 ltac:(lia)).
    rewrite Z.add_mod by lia.
    destruct (Z.eq_dec (s mod 2) 0) as [E | E]; [rewrite E | ].
    + reflexivity.
    + replace (s mod 2) with 1 by lia. reflexivity.
  - apply (outputs_distinct LCG.next LCG.state LCG.step word_ok (2 ^ 32)).
    + intros g. split; reflexivity.
    + intros t _. rewrite lcg_step_mod. apply Z.mod_pos_bound. lia.
    + intros t t' Ht Ht' E.
      rewrite <- (lcg_unstep_step t Ht), <- (lcg_unstep_step t' Ht'), E.
      reflexivity.
    + exact Hs.
    + intros d Hd HdN Hret. apply Hfull in Hret.
      apply Z.divide_pos_le in Hret; lia.
Qed.

Lemma lcg_full_period_witness :
  word_ok 1
  /\ (iter_nat LCG.step 2 1 = 1 <-> (2 ^ 32 | Z.of_nat 2)).
Proof.
  assert (Hw : word_ok 1) by (unfold word_ok; lia).
  split; [exact Hw|].
  exact (proj1 (proj2 (lcg_full_period 1 2 Hw))).
Defined.

(** ** The xorshift generator *)

Lemma word_high_bits x i : word_ok x -> 32 <= i -> Z.testbit x i = false.
Proof.
  intros Hx Hi. rewrite <- (Z.mod_small x (2 ^ 32)) by exact Hx.
  apply Z.mod_pow2_bits_high. lia.
Qed.

Lemma word_of_bits x :
  0 <= x -> (forall i, 32 <= i -> Z.testbit x i = false) -> word_ok x.
Proof.
  intros H0 Hb.
  assert (E : x mod 2 ^ 32 = x).
  { apply Z.bits_inj'. intros i Hi. rewrite Z.testbit_mod_pow2 by lia.
    destruct (Z.ltb_spec i 32); [reflexivity|].
    rewrite Hb by lia. reflexivity. }
  unfold word_ok. rewrite <- E. apply Z.mod_pos_bound. lia.
Qed.

Lemma lxor_word x y : word_ok x -> word_ok y -> word_ok (Z.lxor x y).
Proof.
  intros Hx Hy. apply word_of_bits.
  - apply Z.lxor_nonneg. unfold word_ok in *. lia.
  - intros i Hi. rewrite Z.lxor_spec, !word_high_bits by assumption. reflexivity.
Qed.

Lemma shiftr_word x k : word_ok x -> 0 <= k -> word_ok (Z.shiftr x k).
Proof.
  intros Hx Hk. apply word_of_bits.
  - apply Z.shiftr_nonneg. unfold word_ok in Hx. lia.
  - intros i Hi. rewrite Z.shiftr_spec by lia. apply word_high_bits; [exact Hx | lia].
Qed.

Lemma xsl_bits k x i :
  0 <= i ->
  Z.testbit (xsl k x) i
  = xorb (Z.testbit x i) ((i <? 32) && Z.testbit x (i - k)).
Proof.
  intros Hi. unfold xsl, wrap_u32.
  rewrite Z.lxor_spec, Z.testbit_mod_pow2, Z.shiftl_spec by lia. reflexivity.
Qed.

Lemma xsr_bits k x i :
  0 <= i -> Z.testbit (xsr k x) i = xorb (Z.testbit x i) (Z.testbit x (i + k)).
Proof.
  intros Hi. unfold xsr. rewrite Z.lxor_spec, Z.shiftr_spec by lia. reflexivity.
Qed.

Lemma xsl_word k x : word_ok x -> word_ok (xsl k x).
Proof. intros Hx. apply lxor_word; [exact Hx | apply wrap_u32_range]. Qed.

Lemma xsr_word k x : word_ok x -> 0 <= k -> word_ok (xsr k x).
Proof. intros Hx Hk. apply lxor_word; [exact Hx | now apply shiftr_word]. Qed.

(** Repeating a stage doubles its shift. *)
Lemma xsl_twice k x : 0 <= k -> xsl k (xsl k x) = xsl (2 * k) x.
Proof.
  intros Hk. apply Z.bits_inj'. intros i Hi.
  rewrite (xsl_bits k (xsl k x) i), (xsl_bits k x i), (xsl_bits (2 * k) x i)
    by lia.
  destruct (Z.ltb_spec i 32) as [Hlt | Hge]; cbn [andb];
    [|rewrite !xorb_false_r; reflexivity].
  destruct (Z.ltb_spec (i - k) 0) as [Hneg | Hpos].
  - rewrite (Z.testbit_neg_r x (i - k)), (Z.testbit_neg_r (xsl k x) (i - k)),
      (Z.testbit_neg_r x (i - 2 * k)) by lia.
    rewrite !xorb_false_r. reflexivity.
  - rewrite xsl_bits by lia.
    destruct (Z.ltb_spec (i - k) 32); [|lia]. cbn [andb].
    replace (i - k - k) with (i - 2 * k) by lia.
    destruct (Z.testbit x i), (Z.testbit x (i - k)), (Z.testbit x (i - 2 * k));
      reflexivity.
Qed.

Lemma xsl_far k x : 32 <= k -> xsl k x = x.
Proof.
  intros Hk. apply Z.bits_inj'. intros i Hi. rewrite xsl_bits by lia.
  destruct (Z.ltb_spec i 32); cbn [andb]; [|apply xorb_false_r].
  rewrite (Z.testbit_neg_r x (i - k)) by lia. apply xorb_false_r.
Qed.

Lemma xsr_twice k x : 0 <= k -> xsr k (xsr k x) = xsr (2 * k) x.
Proof.
  intros Hk. apply Z.bits_inj'. intros i Hi.
  rewrite !xsr_bits by lia.
  replace (i + k + k) with (i + 2 * k) by lia.
  destruct (Z.testbit x i), (Z.testbit x (i + k)), (Z.testbit x (i + 2 * k));
    reflexivity.
Qed.

Lemma xsr_far k x : word_ok x -> 32 <= k -> xsr k x = x.
Proof.
  intros Hx Hk. apply Z.bits_inj'. intros i Hi. rewrite xsr_bits by lia.
  rewrite (word_high_bits x (i + k)) by (try assumption; lia).
  apply xorb_false_r.
Qed.

Lemma xsl13_order x : xsl 13 (xsl 13 (xsl 13 (xsl 13 x))) = x.
Proof. do 3 (rewrite xsl_twice by lia). apply xsl_far. lia. Qed.

Lemma xsl5_order x :
  xsl 5 (xsl 5 (xsl 5 (xsl 5 (xsl 5 (xsl 5 (xsl 5 (xsl 5 x))))))) = x.
Proof. do 7 (rewrite xsl_twice by lia). apply xsl_far. lia. Qed.

Lemma xsr17_order x : word_ok x -> xsr 17 (xsr 17 x) = x.
Proof. intros Hx. rewrite xsr_twice by lia. apply xsr_far; [exact Hx | lia]. Qed.

Lemma xorshift_step_stages x : XORShift32.step x = xsl 5 (xsr 17 (xsl 13 x)).
Proof. reflexivity. Qed.

Lemma xorshift_step_word x : word_ok x -> word_ok (XORShift32.step x).
Proof.
  intros Hx. rewrite xorshift_step_stages.
  apply xsl_word, xsr_word; [|lia]. now apply xsl_word.
Qed.

Lemma iter_xsl_word k n x : word_ok x -> word_ok (iter_nat (xsl k) n x).
Proof.
  revert x. induction n as [|n IH]; intros x Hx; [exact Hx|].
  cbn [iter_nat]. apply IH. now apply xsl_word.
Qed.

Lemma xorshift_unstep_step z :
  word_ok z -> xorshift_unstep (XORShift32.step z) = z.
Proof.
  intros Hz. unfold xorshift_unstep. rewrite xorshift_step_stages.
  cbn [iter_nat]. rewrite xsl5_order.
  rewrite xsr17_order by now apply xsl_word.
  apply xsl13_order.
Qed.

(** X3. The xorshift step is a permutation of the 32-bit words with the
    explicit inverse [xorshift_unstep]; zero is its fixed point, so a
    generator seeded with zero only ever produces zero, and a non-zero
    state never becomes zero. *)
Theorem xorshift_step_permutation :
  forall x : Z,
    word_ok x ->
    word_ok (XORShift32.step x)
    /\ word_ok (xorshift_unstep x)
    /\ xorshift_unstep (XORShift32.step x) = x
    /\ XORShift32.step (xorshift_unstep x) = x
    /\ (XORShift32.step x = 0 <-> x = 0)
    /\ (forall y, word_ok y -> XORShift32.step x = XORShift32.step y -> x = y)
    /\ fst (XORShift32.next (XORShift32.mk x)) = XORShift32.step x
    /\ XORShift32.state (snd (XORShift32.next (XORShift32.mk x)))
       = XORShift32.step x.
Proof.
  intros x Hx.
  pose proof xorshift_unstep_step as Hinv.
  split; [now apply xorshift_step_word|].
  split.
  { unfold xorshift_unstep. apply iter_xsl_word, xsr_word; [|lia].
    now apply iter_xsl_word. }
  split; [now apply Hinv|].
  split.
  { unfold xorshift_unstep. rewrite xorshift_step_stages. cbn [iter_nat].
    rewrite xsl13_order.
    rewrite xsr17_order
      by (apply (iter_xsl_word 5 7); exact Hx).
    apply xsl5_order. }
  split.
  { split; intros E.
    - rewrite <- (Hinv x Hx), E. reflexivity.
    - subst x. reflexivity. }
  split; [|split; reflexivity].
  intros y Hy E. rewrite <- (Hinv x Hx), <- (Hinv y Hy), E. reflexivity.
Qed.

Lemma xorshift_step_permutation_witness :
  word_ok 2463534242
  /\ xorshift_unstep (XORShift32.step 2463534242) = 2463534242.
Proof.
  assert (Hw : word_ok 2463534242) by (unfold word_ok; lia).
  split; [exact Hw|].
  destruct (xorshift_step_permutation 2463534242 Hw) as [_ [_ [H _]]]. exact H.
Defined.

(** *** The step is linear over GF(2) *)

Lemma xsl_lxor k x y : xsl k (Z.lxor x y) = Z.lxor (xsl k x) (xsl k y).
Proof.
  apply Z.bits_inj'. intros i Hi.
  rewrite Z.lxor_spec, !xsl_bits, !Z.lxor_spec by lia.
  destruct (i <? 32), (Z.testbit x i), (Z.testbit y i),
    (Z.testbit x (i - k)), (Z.testbit y (i - k)); reflexivity.
Qed.

Lemma xsr_lxor k x y : xsr k (Z.lxor x y) = Z.lxor (xsr k x) (xsr k y).
Proof.
  apply Z.bits_inj'. intros i Hi.
  rewrite Z.lxor_spec, !xsr_bits, !Z.lxor_spec by lia.
  destruct (Z.testbit x i), (Z.testbit y i),
    (Z.testbit x (i + k)), (Z.testbit y (i + k)); reflexivity.
Qed.

Lemma xorshift_step_lxor x y :
  XORShift32.step (Z.lxor x y)
  = Z.lxor (XORShift32.step x) (XORShift32.step y).
Proof.
  rewrite !xorshift_step_stages, xsl_lxor, xsr_lxor, xsl_lxor. reflexivity.
Qed.

Lemma mapply_from_0 M i : mapply_from M i 0 = 0.
Proof.
  revert i. induction M as [|c M IH]; intros i; [reflexivity|].
  cbn [mapply_from]. rewrite Z.testbit_0_l, IH. reflexivity.
Qed.

Lemma lxor_swap a b c d :
  Z.lxor (Z.lxor a b) (Z.lxor c d) = Z.lxor (Z.lxor a c) (Z.lxor b d).
Proof.
  rewrite !Z.lxor_assoc. f_equal.
  rewrite <- !Z.lxor_assoc. f_equal. apply Z.lxor_comm.
Qed.

Lemma mapply_from_lxor M : forall i x y,
  mapply_from M i (Z.lxor x y)
  = Z.lxor (mapply_from M i x) (mapply_from M i y).
Proof.
  induction M as [|c M IH]; intros i x y; [reflexivity|].
  cbn [mapply_from]. rewrite IH, Z.lxor_spec, lxor_swap. f_equal.
  destruct (Z.testbit x i), (Z.testbit y i); cbn [xorb];
    rewrite ?Z.lxor_nilpotent, ?Z.lxor_0_l, ?Z.lxor_0_r; reflexivity.
Qed.

(** A linear map passes through [mapply]. *)
Lemma linear_mapply_from (f : Z -> Z) M :
  f 0 = 0 -> (forall x y, f (Z.lxor x y) = Z.lxor (f x) (f y)) ->
  forall i x, f (mapply_from M i x) = mapply_from (map f M) i x.
Proof.
  intros H0 Hl. induction M as [|c M IH]; intros i x; [exact H0|].
  cbn [mapply_from map]. rewrite Hl, IH.
  destruct (Z.testbit x i); [reflexivity | now rewrite H0].
Qed.

Lemma unit_words_bits x (len : nat) : forall (a : nat) j,
  0 <= j ->
  Z.testbit
    (mapply_from (map (fun i => 2 ^ i) (map Z.of_nat (seq a len))) (Z.of_nat a) x) j
  = (Z.of_nat a <=? j) && (j <? Z.of_nat (a + len)) && Z.testbit x j.
Proof.
  induction len as [|len IH]; intros a j Hj.
  - cbn [seq map mapply_from]. rewrite Z.testbit_0_l.
    destruct (Z.leb_spec (Z.of_nat a) j), (Z.ltb_spec j (Z.of_nat (a + 0)));
      try reflexivity; lia.
  - cbn [seq map mapply_from]. rewrite Z.lxor_spec.
    replace (Z.of_nat a + 1) with (Z.of_nat (Datatypes.S a)) by lia.
    rewrite IH by lia.
    assert (Hb : Z.testbit (if Z.testbit x (Z.of_nat a) then 2 ^ Z.of_nat a else 0) j
                 = (Z.of_nat a =? j) && Z.testbit x j).
    { destruct (Z.eqb_spec (Z.of_nat a) j) as [E | E].
      - subst j. destruct (Z.testbit x (Z.of_nat a)).
        + rewrite Z.pow2_bits_eqb, Z.eqb_refl by lia. reflexivity.
        + apply Z.testbit_0_l.
      - destruct (Z.testbit x (Z.of_nat a)).
        + rewrite Z.pow2_bits_eqb by lia.
          destruct (Z.eqb_spec (Z.of_nat a) j); [contradiction | reflexivity].
        + apply Z.testbit_0_l. }
    rewrite Hb.
    destruct (Z.eqb_spec (Z.of_nat a) j), (Z.leb_spec (Z.of_nat a) j),
      (Z.leb_spec (Z.of_nat (Datatypes.S a)) j),
      (Z.ltb_spec j (Z.of_nat (Datatypes.S a + len))),
      (Z.ltb_spec j (Z.of_nat (a + Datatypes.S len)));
      try lia; cbn [andb xorb]; rewrite ?xorb_false_r, ?xorb_false_l; reflexivity.
Qed.

(** A word is the xor of its bits. *)
Lemma mapply_unit_words x : word_ok x -> mapply unit_words x = x.
Proof.
  intros Hx. apply Z.bits_inj'. intros j Hj.
  unfold mapply, unit_words, zrange.
  pose proof (unit_words_bits x 32 0 j Hj) as Hb.
  change (Z.of_nat 0) with 0 in Hb. change (Z.of_nat (0 + 32)) with 32 in Hb.
  rewrite Hb.
  destruct (Z.leb_spec 0 j); [|lia]. cbn [andb].
  destruct (Z.ltb_spec j 32); [reflexivity|].
  cbn [andb]. symmetry. apply word_high_bits; [exact Hx | lia].
Qed.

Lemma mapply_mmul A B x : mapply (mmul A B) x = mapply A (mapply B x).
Proof.
  unfold mapply, mmul. symmetry.
  apply (linear_mapply_from (mapply_from A 0)).
  - apply mapply_from_0.
  - apply mapply_from_lxor.
Qed.

Lemma mapply_madd A : forall B i x,
  length A = length B ->
  mapply_from (madd A B) i x = Z.lxor (mapply_from A i x) (mapply_from B i x).
Proof.
  induction A as [|a A IH]; intros [|b B] i x Hlen; try discriminate Hlen;
    [reflexivity|].
  unfold madd in *. cbn [combine map mapply_from fst snd].
  rewrite IH by (cbn [length] in Hlen; lia).
  rewrite lxor_swap. f_equal.
  destruct (Z.testbit x i); [reflexivity | now rewrite Z.lxor_0_l].
Qed.

Lemma mapply_mpow A p x :
  mapply (mpow A p) x = iter_nat (mapply A) (Pos.to_nat p) x.
Proof.
  revert x. induction p as [q IH | q IH |]; intros x; cbn [mpow].
  - rewrite !mapply_mmul, !IH.
    rewrite Pos2Nat.inj_xI.
    replace (Datatypes.S (2 * Pos.to_nat q))%nat
      with (Pos.to_nat q + Pos.to_nat q + 1)%nat by lia.
    rewrite !iter_nat_add. reflexivity.
  - rewrite mapply_mmul, !IH. rewrite Pos2Nat.inj_xO.
    replace (2 * Pos.to_nat q)%nat with (Pos.to_nat q + Pos.to_nat q)%nat by lia.
    rewrite iter_nat_add. reflexivity.
  - reflexivity.
Qed.

Lemma xorshift_as_matrix x :
  word_ok x -> XORShift32.step x = mapply xorshift_matrix x.
Proof.
  intros Hx. rewrite <- (mapply_unit_words x Hx) at 1.
  unfold mapply, xorshift_matrix.
  apply linear_mapply_from; [reflexivity | apply xorshift_step_lxor].
Qed.

Lemma iter_xorshift_word n : forall x,
  word_ok x -> word_ok (iter_nat XORShift32.step n x).
Proof.
  induction n as [|n IH]; intros x Hx; [exact Hx|].
  cbn [iter_nat]. apply IH. now apply xorshift_step_word.
Qed.

Lemma iter_xorshift_matrix n : forall x,
  word_ok x ->
  iter_nat XORShift32.step n x = iter_nat (mapply xorshift_matrix) n x.
Proof.
  induction n as [|n IH]; intros x Hx; [reflexivity|].
  cbn [iter_nat]. rewrite <- xorshift_as_matrix by exact Hx.
  apply IH. now apply xorshift_step_word.
Qed.

(** *** The order of the step *)

Lemma xorshift_matrix_order :
  mpow xorshift_matrix (Z.to_pos xorshift_period) = unit_words.
Proof. vm_compute. reflexivity. Qed.

(** For each prime factor [p] of the period, [T^(period/p) + 1] is
    regular: some power of it is the identity. *)
Lemma xorshift_cofactor_regular p :
  In p xorshift_period_factors ->
  mpow (madd (mpow xorshift_matrix (Z.to_pos (xorshift_period / p))) unit_words)
    (Z.to_pos xorshift_period)
  = unit_words.
Proof.
  intros Hp. cbn [In xorshift_period_factors] in Hp.
  destruct Hp as [<- | [<- | [<- | [<- | [<- | []]]]]]; vm_compute; reflexivity.
Qed.

Lemma trial_division_spec fuel : forall d p e,
  trial_division fuel d p = true -> d <= e < d + Z.of_nat fuel -> p mod e <> 0.
Proof.
  induction fuel as [|fuel IH]; intros d p e Ht He; [lia|].
  cbn [trial_division] in Ht. apply andb_prop in Ht. destruct Ht as [Hd Hr].
  destruct (Z.eq_dec e d) as [-> | Hne].
  - destruct (Z.eqb_spec (p mod d) 0); [discriminate Hd | assumption].
  - apply (IH (d + 1) p e Hr). lia.
Qed.

Lemma factors_prime p q :
  In p xorshift_period_factors -> ~ (p | q) -> Z.gcd q p = 1.
Proof.
  intros Hp Hndiv.
  assert (Hnp : no_proper_divisor p = true /\ 2 <= p).
  { cbn [In xorshift_period_factors] in Hp.
    destruct Hp as [<- | [<- | [<- | [<- | [<- | []]]]]];
      (split; [vm_compute; reflexivity | lia]). }
  destruct Hnp as [Hnp Hp2].
  pose proof (Z.gcd_nonneg q p) as Hg0.
  pose proof (Z.gcd_divide_r q p) as Hgp.
  pose proof (Z.gcd_divide_l q p) as Hgq.
  set (g := Z.gcd q p) in *.
  assert (Hgle : g <= p) by (apply Z.divide_pos_le; [lia | exact Hgp]).
  assert (Hg1 : g <> 0).
  { intros E. rewrite E in Hgp. destruct Hgp as [z Hz]. lia. }
  destruct (Z.eq_dec g p) as [E | E]; [rewrite E in Hgq; contradiction|].
  destruct (Z.eq_dec g 1) as [E1 | E1]; [exact E1 | exfalso].
  apply (trial_division_spec _ 2 p g Hnp); [lia|].
  apply Z.mod_divide; [lia | exact Hgp].
Qed.

Lemma xorshift_period_product : xorshift_period = 3 * (5 * (17 * (257 * (65537 * 1)))).
Proof. reflexivity. Qed.

(** A proper divisor of the period divides [period / p] for one of its
    prime factors [p]. *)
Lemma proper_divisor_cofactor g :
  0 < g -> (g | xorshift_period) -> g <> xorshift_period ->
  exists p, In p xorshift_period_factors /\ (g | xorshift_period / p).
Proof.
  intros Hg [q Hq] Hne.
  assert (Hq1 : q <> 1) by (intros ->; lia).
  assert (Hq0 : 0 < q) by (unfold xorshift_period in Hq; nia).
  assert (Hex : exists p, In p xorshift_period_factors /\ (p | q)).
  { destruct (Z.eq_dec (q mod 3) 0) as [E3 | E3];
      [exists 3; split; [cbn; tauto | apply Z.mod_divide; [lia | exact E3]]|].
    destruct (Z.eq_dec (q mod 5) 0) as [E5 | E5];
      [exists 5; split; [cbn; tauto | apply Z.mod_divide; [lia | exact E5]]|].
    destruct (Z.eq_dec (q mod 17) 0) as [E17 | E17];
      [exists 17; split; [cbn; tauto | apply Z.mod_divide; [lia | exact E17]]|].
    destruct (Z.eq_dec (q mod 257) 0) as [E257 | E257];
      [exists 257; split; [cbn; tauto | apply Z.mod_divide; [lia | exact E257]]|].
    destruct (Z.eq_dec (q mod 65537) 0) as [E65537 | E65537];
      [exists 65537; split; [cbn; tauto | apply Z.mod_divide; [lia | exact E65537]]|].
    exfalso.
    assert (Hd : (q | xorshift_period)) by (exists g; lia).
    rewrite xorshift_period_product in Hd.
    apply Z.gauss in Hd;
      [|apply factors_prime; [cbn; tauto | rewrite <- Z.mod_divide by lia; exact E3]].
    apply Z.gauss in Hd;
      [|apply factors_prime; [cbn; tauto | rewrite <- Z.mod_divide by lia; exact E5]].
    apply Z.gauss in Hd;
      [|apply factors_prime; [cbn; tauto | rewrite <- Z.mod_divide by lia; exact E17]].
    apply Z.gauss in Hd;
      [|apply factors_prime; [cbn; tauto | rewrite <- Z.mod_divide by lia; exact E257]].
    apply Z.gauss in Hd;
      [|apply factors_prime; [cbn; tauto | rewrite <- Z.mod_divide by lia; exact E65537]].
    apply Z.divide_1_r_nonneg in Hd; lia. }
  destruct Hex as [p [Hp [q' Hq']]].
  exists p. split; [exact Hp|].
  assert (Hp0 : 0 < p).
  { cbn [In xorshift_period_factors] in Hp.
    destruct Hp as [<- | [<- | [<- | [<- | [<- | []]]]]]; lia. }
  exists q'. rewrite Hq, Hq'.
  replace (q' * p * g) with (q' * g * p) by ring.
  apply Z.div_mul. lia.
Qed.

Lemma mpow_length A p : length (mpow A p) = length A.
Proof.
  induction p as [q IH | q IH |]; cbn [mpow]; unfold mmul;
    rewrite ?length_map; auto.
Qed.

Lemma iter_mapply_0 A n : iter_nat (mapply A) n 0 = 0.
Proof.
  induction n as [|n IH]; [reflexivity|].
  cbn [iter_nat]. unfold mapply at 2. rewrite mapply_from_0. exact IH.
Qed.

Lemma factor_cofactor_pos p :
  In p xorshift_period_factors -> 0 < xorshift_period / p.
Proof.
  intros Hp. cbn [In xorshift_period_factors] in Hp.
  destruct Hp as [<- | [<- | [<- | [<- | [<- | []]]]]]; reflexivity.
Qed.

(** No non-zero word returns after [period / p] steps. *)
Lemma xorshift_no_short_period x p :
  In p xorshift_period_factors -> word_ok x ->
  iter_nat XORShift32.step (Pos.to_nat (Z.to_pos (xorshift_period / p))) x = x ->
  x = 0.
Proof.
  intros Hp Hx Hret.
  set (q := Z.to_pos (xorshift_period / p)) in *.
  set (A := madd (mpow xorshift_matrix q) unit_words).
  assert (HA : mapply A x = 0).
  { unfold mapply, A. rewrite mapply_madd by (rewrite mpow_length; reflexivity).
    fold (mapply (mpow xorshift_matrix q) x). fold (mapply unit_words x).
    rewrite mapply_mpow, <- iter_xorshift_matrix, Hret by exact Hx.
    rewrite mapply_unit_words by exact Hx. apply Z.lxor_nilpotent. }
  pose proof (xorshift_cofactor_regular p Hp) as Hreg. fold q in Hreg. fold A in Hreg.
  rewrite <- (mapply_unit_words x Hx), <- Hreg, mapply_mpow.
  destruct (Pos2Nat.is_succ (Z.to_pos xorshift_period)) as [k Hk].
  rewrite Hk. cbn [iter_nat]. rewrite HA. apply iter_mapply_0.
Qed.

Lemma iter_xorshift_inj m : forall x y,
  word_ok x -> word_ok y ->
  iter_nat XORShift32.step m x = iter_nat XORShift32.step m y -> x = y.
Proof.
  induction m as [|m IH]; intros x y Hx Hy E; [exact E|].
  cbn [iter_nat] in E. apply IH in E; try now apply xorshift_step_word.
  rewrite <- (xorshift_unstep_step x Hx), <- (xorshift_unstep_step y Hy), E.
  reflexivity.
Qed.

Lemma iter_return_mul {A : Type} (f : A -> A) (x : A) (a k : nat) :
  iter_nat f a x = x -> iter_nat f (k * a) x = x.
Proof.
  intros Ha. induction k as [|k IH]; [reflexivity|].
  cbn [Nat.mul]. rewrite iter_nat_add, Ha. exact IH.
Qed.

(** X4. The xorshift generator has period [2^32 - 1] on the non-zero
    words: from a non-zero seed the state returns to the seed after [n]
    steps exactly when [2^32 - 1] divides [n].  Hence no output repeats
    within a period: any [n <= 2^32 - 1] consecutive outputs are pairwise
    distinct. *)
Theorem xorshift_full_period :
  forall (x : Z) (n : nat),
    word_ok x -> x <> 0 ->
    (iter_nat XORShift32.step n x = x <-> (2 ^ 32 - 1 | Z.of_nat n))
    /\ (XORShift32.state (after XORShift32.next n (XORShift32.mk x)) = x
        <-> (2 ^ 32 - 1 | Z.of_nat n))
    /\ (Z.of_nat n <= 2 ^ 32 - 1 ->
        NoDup (outputs XORShift32.next n (XORShift32.mk x))).
Proof.
  intros x n0 Hx Hnz.
  assert (Hall : forall n : nat,
    (iter_nat XORShift32.step n x = x <-> (2 ^ 32 - 1 | Z.of_nat n))
    /\ (XORShift32.state (after XORShift32.next n (XORShift32.mk x)) = x
        <-> (2 ^ 32 - 1 | Z.of_nat n))).
  2:{ split; [apply Hall | split; [apply Hall|]].
      apply (outputs_distinct XORShift32.next XORShift32.state
               XORShift32.step word_ok (2 ^ 32 - 1)).
      - intros g. split; reflexivity.
      - intros t Ht. now apply xorshift_step_word.
      - intros t t' Ht Ht' E.
        rewrite <- (xorshift_unstep_step t Ht), <- (xorshift_unstep_step t' Ht'), E.
        reflexivity.
      - exact Hx.
      - intros d Hd HdN Hret. apply Hall in Hret.
        apply Z.divide_pos_le in Hret; lia. }
  intros n.
  assert (Hafter : forall m g,
             XORShift32.state (after XORShift32.next m g)
             = iter_nat XORShift32.step m (XORShift32.state g)).
  { unfold after. induction m as [|m IH]; intros g; [reflexivity|].
    cbn [iter_nat]. rewrite IH. reflexivity. }
  rewrite Hafter. cbn [XORShift32.state].
  assert (Hmain : iter_nat XORShift32.step n x = x <-> (2 ^ 32 - 1 | Z.of_nat n));
    [|split; exact Hmain].
  change (2 ^ 32 - 1) with xorshift_period.
  remember (Pos.to_nat (Z.to_pos xorshift_period)) as N eqn:HN.
  assert (HNZ : Z.of_nat N = xorshift_period).
  { rewrite HN, positive_nat_Z. reflexivity. }
  assert (Hper : 0 < xorshift_period) by reflexivity.
  assert (HPN : iter_nat XORShift32.step N x = x).
  { rewrite iter_xorshift_matrix by exact Hx.
    rewrite HN, <- mapply_mpow, xorshift_matrix_order.
    now apply mapply_unit_words. }
  clear HN.
  split.
  - intros Hret.
    destruct (Nat.eq_dec n 0) as [-> | Hn0]; [apply Z.divide_0_r|].
    destruct (Nat.gcd_bezout_pos n N ltac:(lia)) as [a [b Hab]].
    set (g := Nat.gcd n N) in *.
    assert (Hg : iter_nat XORShift32.step g x = x).
    { apply (iter_xorshift_inj (b * N));
        [now apply iter_xorshift_word | exact Hx |].
      rewrite <- iter_nat_add, <- Hab.
      rewrite (iter_return_mul _ x n a Hret).
      symmetry. now apply iter_return_mul. }
    pose proof (Nat.gcd_divide_l n N) as [c Hc].
    pose proof (Nat.gcd_divide_r n N) as [d Hd]. fold g in Hc, Hd.
    assert (Hg0 : (0 < g)%nat) by (destruct g; [lia | lia]).
    destruct (Z.eq_dec (Z.of_nat g) xorshift_period) as [E | E].
    + exists (Z.of_nat c). rewrite <- E, <- Nat2Z.inj_mul. f_equal. exact Hc.
    + exfalso.
      destruct (proper_divisor_cofactor (Z.of_nat g)) as [p [Hp [z Hz]]];
        [lia | | exact E |].
      { exists (Z.of_nat d). rewrite <- HNZ, <- Nat2Z.inj_mul. f_equal. exact Hd. }
      pose proof (factor_cofactor_pos p Hp) as Hpos.
      apply Hnz. apply (xorshift_no_short_period x p Hp Hx).
      assert (Hz0 : 0 <= z) by nia.
      assert (Em : Pos.to_nat (Z.to_pos (xorshift_period / p))
                   = (Z.to_nat z * g)%nat).
      { apply Nat2Z.inj. rewrite positive_nat_Z, Z2Pos.id by exact Hpos.
        rewrite Nat2Z.inj_mul, Z2Nat.id by exact Hz0. exact Hz. }
      rewrite Em. now apply iter_return_mul.
  - intros [z Hz].
    assert (Hz0 : 0 <= z) by nia.
    assert (En : n = (Z.to_nat z * N)%nat).
    { apply Nat2Z.inj. rewrite Nat2Z.inj_mul, Z2Nat.id, HNZ by exact Hz0. exact Hz. }
    rewrite En. now apply iter_return_mul.
Qed.

Lemma xorshift_full_period_witness :
  word_ok 2463534242 /\ 2463534242 <> 0
  /\ (iter_nat XORShift32.step 3 2463534242 = 2463534242
      <-> (2 ^ 32 - 1 | Z.of_nat 3)).
Proof.
  assert (Hw : word_ok 2463534242) by (unfold word_ok; lia).
  assert (Hn : 2463534242 <> 0) by lia.
  split; [exact Hw | split; [exact Hn|]].
  exact (proj1 (xorshift_full_period 2463534242 3 Hw Hn)).
Defined.

(** ** The multiply-with-carry generator *)

Lemma mwc_product_exact g :
  mwc_ok g -> MWC.product g = MWC.a * MWC.state g + MWC.carry g.
Proof.
  intros [Hs Hc]. unfold MWC.product, word_ok, MWC.a in *.
  rewrite (wrap_u64_small (4294957665 * MWC.state g)) by lia.
  apply wrap_u64_small. lia.
Qed.

Lemma mwc_next_fields g :
  snd (MWC.next g)
  = MWC.mk (MWC.product g mod 2 ^ 32) ((MWC.product g / 2 ^ 32) mod 2 ^ 32).
Proof.
  unfold MWC.next. cbn [snd]. unfold wrap_u32.
  rewrite Z.shiftr_div_pow2 by lia. reflexivity.
Qed.

Lemma mwc_next_value g :
  mwc_ok g ->
  mwc_ok (snd (MWC.next g))
  /\ mwc_value (snd (MWC.next g)) = MWC.a * MWC.state g + MWC.carry g
  /\ MWC.carry (snd (MWC.next g)) <= MWC.a
  /\ (MWC.carry g < MWC.a -> MWC.carry (snd (MWC.next g)) < MWC.a).
Proof.
  intros Hok. pose proof (mwc_product_exact g Hok) as Hp.
  destruct Hok as [Hs Hc]. rewrite mwc_next_fields.
  unfold mwc_ok, mwc_value. cbn [MWC.state MWC.carry].
  set (p := MWC.product g) in *.
  assert (Hp0 : 0 <= p < (MWC.a + 1) * 2 ^ 32)
    by (unfold word_ok, MWC.a in *; lia).
  assert (Hq : 0 <= p / 2 ^ 32 <= MWC.a).
  { split; [apply Z.div_pos; lia|].
    assert (p / 2 ^ 32 < MWC.a + 1)
      by (apply Z.div_lt_upper_bound; lia).
    lia. }
  rewrite (Z.mod_small (p / 2 ^ 32)) by (unfold MWC.a in *; lia).
  pose proof (Z.mod_pos_bound p (2 ^ 32) ltac:(lia)) as Hm.
  pose proof (Z.div_mod p (2 ^ 32) ltac:(lia)) as Hdm.
  split; [split; unfold word_ok, MWC.a in *; lia|].
  split; [lia|]. split; [lia|].
  intros Hca.
  assert (p < MWC.a * 2 ^ 32) by (unfold word_ok, MWC.a in *; lia).
  apply Z.div_lt_upper_bound; lia.
Qed.

(** X5. One MWC step never overflows its 64-bit product: the new carry
    and state are exactly the high and low words of [a * state + carry];
    the new carry is at most [a], and stays below [a] once it is; the
    value returned is the new state; and the constructor splits any 64-bit
    seed into carry and state without loss. *)
Theorem mwc_step_exact :
  forall g : MWC.t,
    mwc_ok g ->
    let g' := snd (MWC.next g) in
    MWC.product g = MWC.a * MWC.state g + MWC.carry g
    /\ mwc_ok g'
    /\ MWC.state g' + 2 ^ 32 * MWC.carry g' = MWC.a * MWC.state g + MWC.carry g
    /\ MWC.carry g' <= MWC.a
    /\ (MWC.carry g < MWC.a -> MWC.carry g' < MWC.a)
    /\ fst (MWC.next g) = MWC.state g'
    /\ (forall s, 0 <= s < 2 ^ 64 ->
          mwc_ok (MWC.make s) /\ mwc_value (MWC.make s) = s).
Proof.
  intros g Hok g'.
  destruct (mwc_next_value g Hok) as [Hok' [Hv [Hc1 Hc2]]].
  split; [now apply mwc_product_exact|].
  split; [exact Hok'|]. split; [exact Hv|]. split; [exact Hc1|].
  split; [exact Hc2|]. split; [reflexivity|].
  intros s Hs. unfold MWC.make, mwc_ok, mwc_value. cbn [MWC.state MWC.carry].
  rewrite Z.shiftr_div_pow2 by lia. unfold wrap_u32.
  assert (Hq : 0 <= s / 2 ^ 32 < 2 ^ 32).
  { split; [apply Z.div_pos; lia|]. apply Z.div_lt_upper_bound; lia. }
  rewrite (Z.mod_small (s / 2 ^ 32)) by exact Hq.
  pose proof (Z.mod_pos_bound s (2 ^ 32) ltac:(lia)).
  pose proof (Z.div_mod s (2 ^ 32) ltac:(lia)).
  unfold word_ok. lia.
Qed.

Lemma mwc_step_exact_witness :
  mwc_ok MWC.default
  /\ MWC.product MWC.default = MWC.a * MWC.state MWC.default + MWC.carry MWC.default.
Proof.
  assert (Hok : mwc_ok MWC.default) by (split; apply wrap_u32_range).
  split; [exact Hok|].
  exact (proj1 (mwc_step_exact MWC.default Hok)).
Defined.

Lemma mwc_modular_law g :
  mwc_ok g ->
  (2 ^ 32 * mwc_value (snd (MWC.next g))) mod mwc_modulus
  = mwc_value g mod mwc_modulus.
Proof.
  intros Hok. destruct (mwc_next_value g Hok) as [_ [Hv _]]. rewrite Hv.
  replace (2 ^ 32 * (MWC.a * MWC.state g + MWC.carry g))
    with (mwc_value g + MWC.state g * mwc_modulus)
    by (unfold mwc_value, mwc_modulus, MWC.a; ring).
  apply Z_mod_plus_full.
Qed.

(** [2^32] is invertible modulo the modulus. *)
Lemma mwc_cancel x :
  (2 ^ 32 * x) mod mwc_modulus = 0 -> - mwc_modulus < x < mwc_modulus -> x = 0.
Proof.
  intros Hm Hx. apply Z.mod_divide in Hm; [|unfold mwc_modulus, MWC.a; lia].
  destruct Hm as [k Hk].
  assert (E : x = (MWC.a * k - x) * mwc_modulus).
  { assert (MWC.a * (2 ^ 32 * x) = MWC.a * (k * mwc_modulus)) by (rewrite Hk; reflexivity).
    unfold mwc_modulus, MWC.a in *. lia. }
  unfold mwc_modulus, MWC.a in *. nia.
Qed.

Lemma mwc_of_value_value v :
  0 <= v < 2 ^ 64 ->
  mwc_ok (mwc_of_value v) /\ mwc_value (mwc_of_value v) = v.
Proof.
  intros Hv. unfold mwc_ok, mwc_value, mwc_of_value, word_ok.
  cbn [MWC.state MWC.carry].
  pose proof (Z.mod_pos_bound v (2 ^ 32) ltac:(lia)).
  pose proof (Z.div_mod v (2 ^ 32) ltac:(lia)).
  assert (0 <= v / 2 ^ 32 < 2 ^ 32).
  { split; [apply Z.div_pos; lia | apply Z.div_lt_upper_bound; lia]. }
  lia.
Qed.

Lemma mwc_value_inj g h :
  mwc_ok g -> mwc_ok h -> mwc_value g = mwc_value h -> g = h.
Proof.
  destruct g as [s c], h as [s' c']. unfold mwc_ok, mwc_value, word_ok.
  cbn [MWC.state MWC.carry]. intros [Hs Hc] [Hs' Hc'] E.
  assert (c = c') by lia. assert (s = s') by lia. subst. reflexivity.
Qed.

Lemma mwc_regular_next g : mwc_regular g -> mwc_regular (snd (MWC.next g)).
Proof.
  intros [Hok Hv]. pose proof (mwc_modular_law g Hok) as Hlaw.
  destruct (mwc_next_value g Hok) as [Hok' [Hv' [_ Hc]]].
  split; [exact Hok'|].
  set (v' := mwc_value (snd (MWC.next g))) in *.
  rewrite (Z.mod_small (mwc_value g)) in Hlaw by lia.
  assert (Hca : MWC.carry g < MWC.a).
  { destruct Hok as [Hs _]. unfold mwc_value, mwc_modulus, word_ok, MWC.a in *. lia. }
  assert (Hr : 0 <= v' <= mwc_modulus).
  { destruct Hok as [Hs Hcw]. rewrite Hv'.
    unfold mwc_modulus, word_ok, MWC.a in *. lia. }
  destruct (Z.eq_dec v' 0) as [E | E].
  { rewrite E, Z.mul_0_r in Hlaw. rewrite Z.mod_0_l in Hlaw
      by (unfold mwc_modulus, MWC.a; lia). lia. }
  destruct (Z.eq_dec v' mwc_modulus) as [E' | E'].
  { rewrite E', Z.mod_mul in Hlaw by (unfold mwc_modulus, MWC.a; lia). lia. }
  lia.
Qed.

Lemma mwc_unstep_next g : mwc_regular g -> mwc_unstep (snd (MWC.next g)) = g.
Proof.
  intros [Hok Hv]. unfold mwc_unstep.
  rewrite mwc_modular_law, Z.mod_small by (try assumption; lia).
  assert (H64 : 0 <= mwc_value g < 2 ^ 64)
    by (unfold mwc_modulus, MWC.a in Hv; lia).
  destruct (mwc_of_value_value _ H64) as [Hok' Hv'].
  now apply mwc_value_inj.
Qed.

Lemma mwc_regular_unstep g :
  mwc_regular g ->
  mwc_regular (mwc_unstep g) /\ snd (MWC.next (mwc_unstep g)) = g.
Proof.
  intros [Hok Hv].
  assert (Hm : 0 < mwc_modulus < 2 ^ 64) by (unfold mwc_modulus, MWC.a; lia).
  set (u := (2 ^ 32 * mwc_value g) mod mwc_modulus).
  pose proof (Z.mod_pos_bound (2 ^ 32 * mwc_value g) mwc_modulus ltac:(lia)) as Hu.
  fold u in Hu.
  assert (Hu0 : u <> 0).
  { intros E. apply mwc_cancel in E; lia. }
  destruct (mwc_of_value_value u ltac:(lia)) as [Hok' Hv'].
  assert (Hreg : mwc_regular (mwc_unstep g)).
  { unfold mwc_unstep. fold u. split; [exact Hok' | lia]. }
  split; [exact Hreg|].
  pose proof (mwc_regular_next _ Hreg) as [Hok2 Hv2].
  apply mwc_value_inj; [exact Hok2 | exact Hok |].
  pose proof (mwc_modular_law (mwc_unstep g) (proj1 Hreg)) as Hlaw.
  unfold mwc_unstep in Hlaw at 2. fold u in Hlaw. rewrite Hv' in Hlaw.
  rewrite (Z.mod_small u) in Hlaw by lia. unfold u in Hlaw.
  set (v2 := mwc_value (snd (MWC.next (mwc_unstep g)))) in *.
  assert (Hz : (2 ^ 32 * (v2 - mwc_value g)) mod mwc_modulus = 0).
  { rewrite Z.mul_sub_distr_l, Zminus_mod, Hlaw, Z.sub_diag.
    apply Z.mod_0_l. lia. }
  apply mwc_cancel in Hz; lia.
Qed.

(** X6. The MWC step multiplies the value [carry * 2^32 + state] by the
    inverse of [2^32] modulo [a * 2^32 - 1].  It has two fixed points,
    value 0 and value [a * 2^32 - 1]; on all other states with carry below
    [a] it is a permutation with inverse [mwc_unstep], so a seed that is
    not a fixed point never runs into one. *)
Theorem mwc_step_permutation :
  forall g : MWC.t,
    mwc_ok g ->
    (2 ^ 32 * mwc_value (snd (MWC.next g))) mod mwc_modulus
    = mwc_value g mod mwc_modulus
    /\ (MWC.carry g < MWC.a -> g <> MWC.mk 0 0 ->
        g <> MWC.mk (2 ^ 32 - 1) (MWC.a - 1) -> mwc_regular g)
    /\ (mwc_regular g ->
        mwc_regular (snd (MWC.next g))
        /\ mwc_unstep (snd (MWC.next g)) = g
        /\ mwc_regular (mwc_unstep g)
        /\ snd (MWC.next (mwc_unstep g)) = g)
    /\ (forall h, mwc_regular g -> mwc_regular h ->
          snd (MWC.next g) = snd (MWC.next h) -> g = h)
    /\ MWC.next (MWC.mk 0 0) = (0, MWC.mk 0 0)
    /\ MWC.next (MWC.mk (2 ^ 32 - 1) (MWC.a - 1))
       = (2 ^ 32 - 1, MWC.mk (2 ^ 32 - 1) (MWC.a - 1)).
Proof.
  intros g Hok.
  split; [now apply mwc_modular_law|].
  split.
  { intros Hc H0 H1. split; [exact Hok|].
    destruct g as [s c]. destruct Hok as [Hs Hcw].
    unfold mwc_value, mwc_modulus, word_ok, MWC.a in *.
    cbn [MWC.state MWC.carry] in *.
    assert (Hne0 : ~ (s = 0 /\ c = 0)) by (intros [-> ->]; now apply H0).
    assert (Hne1 : ~ (s = 2 ^ 32 - 1 /\ c = 4294957665 - 1))
      by (intros [-> ->]; now apply H1).
    lia. }
  split.
  { intros Hreg. split; [now apply mwc_regular_next|].
    split; [now apply mwc_unstep_next|]. now apply mwc_regular_unstep. }
  split.
  { intros h Hg Hh E.
    rewrite <- (mwc_unstep_next g Hg), <- (mwc_unstep_next h Hh), E. reflexivity. }
  split; vm_compute; reflexivity.
Qed.

Lemma mwc_step_permutation_witness :
  mwc_ok MWC.default
  /\ (2 ^ 32 * mwc_value (snd (MWC.next MWC.default))) mod mwc_modulus
     = mwc_value MWC.default mod mwc_modulus.
Proof.
  assert (Hok : mwc_ok MWC.default) by (split; apply wrap_u32_range).
  split; [exact Hok|].
  exact (proj1 (mwc_step_permutation MWC.default Hok)).
Defined.

(** ** The population count *)

Lemma word_bit_testbit x j :
  0 <= j -> Z.land (Z.shiftr x j) 1 = Z.b2z (Z.testbit x j).
Proof.
  intros Hj. rewrite land_1_mod, Z.shiftr_div_pow2, Z.testbit_spec' by lia.
  reflexivity.
Qed.

Lemma popcount_loop_zero fuel c : popcount_loop fuel 0 c = c.
Proof. destruct fuel; reflexivity. Qed.

Lemma popcount_loop_fuel (f : nat) : forall k x c,
  0 <= x < 2 ^ Z.of_nat f ->
  popcount_loop (f + k) x c = popcount_loop f x c.
Proof.
  induction f as [|f IH]; intros k x c Hx.
  - assert (x = 0) by (change (2 ^ Z.of_nat 0) with 1 in Hx; lia). subst x.
    now rewrite !popcount_loop_zero.
  - cbn [Nat.add popcount_loop]. destruct (x =? 0); [reflexivity|].
    apply IH. rewrite Z.shiftr_div_pow2 by lia. change (2 ^ 1) with 2.
    rewrite Nat2Z.inj_succ, Z.pow_succ_r in Hx by lia.
    split; [apply Z.div_pos; lia | apply Z.div_lt_upper_bound; lia].
Qed.

Lemma list_sum_b2z_zero {A : Type} (f : A -> bool) (l : list A) :
  list_sum (map (fun a => Z.b2z (f a)) l) = 0 -> forall a, In a l -> f a = false.
Proof.
  induction l as [|b l IH]; intros Hs a Ha; [contradiction|].
  cbn [map] in Hs. rewrite list_sum_cons in Hs.
  assert (Hge : 0 <= list_sum (map (fun a => Z.b2z (f a)) l)).
  { clear. induction l as [|b l IH]; [cbn; lia|].
    cbn [map]. rewrite list_sum_cons. destruct (f b); cbn [Z.b2z]; lia. }
  destruct Ha as [<- | Ha].
  - destruct (f b); [cbn [Z.b2z] in Hs; lia | reflexivity].
  - apply IH; [|exact Ha]. destruct (f b); cbn [Z.b2z] in Hs; lia.
Qed.

Lemma list_sum_b2z_full {A : Type} (f : A -> bool) (l : list A) :
  list_sum (map (fun a => Z.b2z (f a)) l) = Z.of_nat (length l) ->
  forall a, In a l -> f a = true.
Proof.
  induction l as [|b l IH]; intros Hs a Ha; [contradiction|].
  cbn [map length] in Hs. rewrite list_sum_cons in Hs.
  assert (Hle : list_sum (map (fun a => Z.b2z (f a)) l) <= Z.of_nat (length l)).
  { clear. induction l as [|b l IH]; [cbn; lia|].
    cbn [map length]. rewrite list_sum_cons. destruct (f b); cbn [Z.b2z]; lia. }
  destruct Ha as [<- | Ha].
  - destruct (f b); [reflexivity | cbn [Z.b2z] in Hs; lia].
  - apply IH; [|exact Ha]. destruct (f b); cbn [Z.b2z] in Hs; lia.
Qed.

Lemma word_bits_testbits x :
  word_bits x = map (fun j => Z.b2z (Z.testbit x j)) (zrange 32).
Proof.
  unfold word_bits. apply map_ext_in. intros j Hj. apply in_zrange in Hj.
  apply word_bit_testbit. lia.
Qed.

(** X7. [popcount32] returns the number of one-bits of a 32-bit word: a
    value between 0 and 32, zero only for the word 0 and 32 only for
    [0xFFFFFFFF]; its loop has stopped after at most 32 rounds. *)
Theorem popcount32_hamming_weight :
  forall x : Z,
    word_ok x ->
    popcount32 x = list_sum (word_bits x)
    /\ 0 <= popcount32 x <= 32
    /\ (popcount32 x = 0 <-> x = 0)
    /\ (popcount32 x = 32 <-> x = 2 ^ 32 - 1)
    /\ (forall fuel, (32 <= fuel)%nat -> popcount_loop fuel x 0 = popcount32 x).
Proof.
  intros x Hx. pose proof (popcount32_word_bits x Hx) as E.
  split; [exact E|]. split; [rewrite E; apply word_bits_bounds|].
  split; [|split].
  - split; [|intros ->; reflexivity].
    intros H0. rewrite E, word_bits_testbits in H0.
    pose proof (list_sum_b2z_zero _ _ H0) as Hb.
    apply Z.bits_inj'. intros j Hj. rewrite Z.testbit_0_l.
    destruct (Z.ltb_spec j 32).
    + apply Hb. apply in_zrange. lia.
    + now apply word_high_bits.
  - split; [|intros ->; reflexivity].
    intros H32. rewrite E, word_bits_testbits in H32.
    pose proof (list_sum_b2z_full (fun j => Z.testbit x j) (zrange 32)) as Hb.
    rewrite zrange_length in Hb. specialize (Hb H32).
    change (2 ^ 32 - 1) with (Z.ones 32).
    apply Z.bits_inj'. intros j Hj.
    destruct (Z.ltb_spec j 32).
    + rewrite Z.ones_spec_low by lia. apply Hb. apply in_zrange. lia.
    + rewrite Z.ones_spec_high by lia. now apply word_high_bits.
  - intros fuel Hf. unfold popcount32.
    replace fuel with (32 + (fuel - 32))%nat by lia.
    apply popcount_loop_fuel. exact Hx.
Qed.

Lemma popcount32_hamming_weight_witness :
  word_ok 2863311530 /\ popcount32 2863311530 = list_sum (word_bits 2863311530).
Proof.
  assert (Hw : word_ok 2863311530) by (unfold word_ok; lia).
  split; [exact Hw|].
  exact (proj1 (popcount32_hamming_weight 2863311530 Hw)).
Defined.



(** ** Signs of the summary statistics *)

Lemma bra_sign_clear mx ex lx :
  sign_clear (binary_round_aux Double.prec Double.emax false mx ex lx).
Proof.
  unfold binary_round_aux.
  destruct (shr_fexp Double.prec Double.emax mx ex lx) as [mrs' e'].
  destruct (shr_fexp Double.prec Double.emax _ e' loc_Exact) as [mrs'' e''].
  destruct (shr_m mrs''); cbn [sign_clear]; try reflexivity; try exact I.
  destruct (e'' <=? Double.emax - Double.prec); reflexivity.
Qed.

Lemma normalize_sign_clear D e :
  0 <= D -> sign_clear (binary_normalize Double.prec Double.emax D e false).
Proof.
  intros HD. destruct D as [|p|p]; [reflexivity| |lia].
  cbn [binary_normalize]. unfold binary_round.
  destruct (shl_align p e _) as [mz ez]. apply bra_sign_clear.
Qed.

Lemma of_Z_sign_clear z : 0 <= z -> sign_clear (Double.of_Z z).
Proof. apply normalize_sign_clear. Qed.

Lemma mul_self_sign_clear x : sign_clear (x * x)%D.
Proof.
  destruct x as [[|]|[|]| |[|] m e]; cbn; try reflexivity; try exact I;
    apply bra_sign_clear.
Qed.

Lemma add_sign_clear x y : sign_clear x -> sign_clear y -> sign_clear (x + y)%D.
Proof.
  destruct x as [sx|sx| |sx mx ex], y as [sy|sy| |sy my ey];
    cbn [sign_clear]; intros Hx Hy; subst; try exact I; try reflexivity.
  unfold Double.add, SFadd. apply normalize_sign_clear.
  cbn [cond_Zopp]. lia.
Qed.

Lemma div_sign_clear x y : sign_clear x -> sign_clear y -> sign_clear (x / y)%D.
Proof.
  destruct x as [sx|sx| |sx mx ex], y as [sy|sy| |sy my ey];
    cbn [sign_clear]; intros Hx Hy; subst; try exact I; try reflexivity.
  unfold Double.div, SFdiv. cbn [xorb].
  destruct (SFdiv_core_binary _ _ _ _ _ _) as [[mz ez] lz].
  apply bra_sign_clear.
Qed.

Lemma sqrt_sign_clear x : sign_clear x -> sign_clear (Double.sqrt x).
Proof.
  destruct x as [sx|sx| |sx mx ex]; cbn [sign_clear]; intros Hx; subst;
    try exact I; try reflexivity.
  unfold Double.sqrt, SFsqrt.
  destruct (SFsqrt_core_binary _ _ _ _) as [[mz ez] lz].
  apply bra_sign_clear.
Qed.

Lemma sign_clear_not_below_zero x :
  sign_clear x -> Double.ltb x Double.zero = false.
Proof.
  destruct x as [sx|sx| |sx mx ex]; cbn [sign_clear]; intros Hx; subst;
    reflexivity.
Qed.

Lemma for_range_preserves {S : Type} (P : S -> Prop) (body : Z -> S -> S) k :
  (forall j t, P t -> P (body j t)) ->
  forall i s, P s -> P (for_range i k body s).
Proof.
  intros Hb. induction k as [|k IH]; intros i s Hs; [exact Hs|].
  cbn [for_range]. apply IH. now apply Hb.
Qed.

(** X8. On a buffer of [n <= INT_MAX] samples, whatever the samples and
    whatever mean [m] is supplied, [mean], [stdev] and [chi_squared]
    never return a negative number nor [-0]: the result is NaN or has its
    sign bit clear, so it never compares below zero.  For [chi_squared]
    the arguments are those on which the call is defined:
    [1 <= bins <= INT_MAX], [1 <= max_val < 2^64] and a bin index within
    [int], [(2^32 - 1) * bins / max_val <= INT_MAX]. *)
Theorem statistics_never_negative :
  forall (data : list Z) (n : Z) (m : Double.double) (bins max_val : Z),
    buffer_ok data n -> n <= INT_MAX ->
    1 <= bins <= INT_MAX -> 1 <= max_val < 2 ^ 64 ->
    (2 ^ 32 - 1) * bins / max_val <= INT_MAX ->
    sign_clear (mean data n)
    /\ sign_clear (stdev data n m)
    /\ sign_clear (chi_squared data n bins max_val)
    /\ Double.ltb (mean data n) Double.zero = false
    /\ Double.ltb (stdev data n m) Double.zero = false
    /\ Double.ltb (chi_squared data n bins max_val) Double.zero = false.
Proof.
  intros data n m bins max_val Hok _ Hbins _ _.
  assert (Hn : 0 <= n) by (rewrite (buf_len _ _ Hok); lia).
  assert (Hb : 0 <= bins) by lia.
  assert (Hmean : sign_clear (mean data n)).
  { unfold mean. apply div_sign_clear; apply of_Z_sign_clear; [|exact Hn].
    unfold mean_sum, for_upto.
    apply (for_range_preserves (fun s => 0 <= s)); [|lia].
    intros j t _. unfold wrap_u64. apply Z.mod_pos_bound. lia. }
  assert (Hsd : sign_clear (stdev data n m)).
  { unfold stdev. apply sqrt_sign_clear, div_sign_clear;
      [|now apply of_Z_sign_clear].
    unfold stdev_acc, for_upto.
    apply (for_range_preserves sign_clear); [|reflexivity].
    intros j t Ht. apply add_sign_clear; [exact Ht | apply mul_self_sign_clear]. }
  assert (Hchi : sign_clear (chi_squared data n bins max_val)).
  { unfold chi_squared, chi_sum, for_upto. cbv zeta.
    apply (for_range_preserves sign_clear); [|reflexivity].
    intros j t Ht. apply add_sign_clear; [exact Ht|].
    apply div_sign_clear; [apply mul_self_sign_clear|].
    apply div_sign_clear; now apply of_Z_sign_clear. }
  repeat split; try assumption; now apply sign_clear_not_below_zero.
Qed.

Lemma statistics_never_negative_witness :
  buffer_ok [1; 2; 3] 3 /\ 3 <= INT_MAX /\ 1 <= 2 <= INT_MAX
  /\ 1 <= 4 < 2 ^ 64 /\ (2 ^ 32 - 1) * 2 / 4 <= INT_MAX
  /\ Double.ltb (stdev [1; 2; 3] 3 Double.one) Double.zero = false
  /\ Double.ltb (chi_squared [1; 2; 3] 3 2 4) Double.zero = false.
Proof.
  assert (Hok : buffer_ok [1; 2; 3] 3).
  { split; [reflexivity | | reflexivity].
    repeat constructor; unfold word_ok; lia. }
  assert (Hn : 3 <= INT_MAX) by (unfold INT_MAX; lia).
  assert (Hb : 1 <= 2 <= INT_MAX) by (unfold INT_MAX; lia).
  assert (Hm : 1 <= 4 < 2 ^ 64) by lia.
  assert (Hi : (2 ^ 32 - 1) * 2 / 4 <= INT_MAX) by (vm_compute; discriminate).
  split; [exact Hok | split; [exact Hn | split; [exact Hb | split; [exact Hm |
    split; [exact Hi|]]]]].
  destruct (statistics_never_negative [1; 2; 3] 3 Double.one 2 4
              Hok Hn Hb Hm Hi) as [_ [_ [_ [_ [H1 H2]]]]].
  split; [exact H1 | exact H2].
Defined.

(** ** Empty samples *)

Lemma nan_add_l x : (S754_nan + x)%D = S754_nan.
Proof. destruct x as [[|]|[|]| |[|] m e]; reflexivity. Qed.

(** X9. The summary statistics do not guard against an empty sample:
    with [n = 0], [mean] and [stdev] return NaN ([0.0 / 0]), so does the
    coefficient of variation computed from them, and so does
    [chi_squared] for any positive number of bins. *)
Theorem statistics_of_empty_sample :
  forall (data : list Z) (m sd : Double.double) (bins max_val : Z),
    mean data 0 = S754_nan
    /\ stdev data 0 m = S754_nan
    /\ coeff_var (mean data 0) sd = S754_nan
    /\ (1 <= bins <= INT_MAX -> chi_squared data 0 bins max_val = S754_nan).
Proof.
  intros data m sd bins max_val.
  split; [reflexivity|]. split; [reflexivity|].
  split; [destruct sd as [[|]|[|]| |[|] ms es]; reflexivity|].
  intros Hb. unfold INT_MAX in Hb.
  unfold chi_squared, chi_sum, chi_freq, for_upto. cbv zeta.
  cbn [Z.to_nat for_range].
  destruct (of_Z_exp bins ltac:(lia)) as [mb [eb [Eb _]]]. rewrite Eb.
  change (Double.of_Z 0 / S754_finite false mb eb)%D with Double.zero.
  assert (Hget : forall i, array_get (repeat 0 (Z.to_nat bins)) i = 0).
  { intros i. unfold array_get. destruct (i <? 0); [reflexivity|].
    generalize (Z.to_nat i). generalize (Z.to_nat bins).
    induction n as [|n IH]; intros [|k]; cbn; auto. }
  remember (repeat 0 (Z.to_nat bins)) as freq eqn:Hfreq. clear Hfreq.
  destruct (Z.to_nat bins) as [|k] eqn:Ek; [lia|].
  cbn [for_range]. rewrite Hget.
  change (Double.zero + (Double.of_Z 0 - Double.zero) * (Double.of_Z 0 - Double.zero)
           / Double.zero)%D with S754_nan.
  apply (for_range_preserves (fun t => t = S754_nan)); [|reflexivity].
  intros j t ->. apply nan_add_l.
Qed.

(** ** Cumulative sums: the walk *)

Lemma walk_sum_S w k :
  walk_sum w (Datatypes.S k) = walk_sum w k + walk_step w (Z.of_nat k).
Proof.
  unfold walk_sum. rewrite zrange_S, map_app, list_sum_app.
  cbn [map]. rewrite list_sum_cons. cbn. lia.
Qed.

Lemma walk_step_pm w i : walk_step w i = -1 \/ walk_step w i = 1.
Proof. unfold walk_step. destruct (bit_at w i =? 0); auto. Qed.

Lemma walk_sum_bound w k : Z.abs (walk_sum w k) <= Z.of_nat k.
Proof.
  induction k as [|k IH]; [cbn; lia|].
  rewrite walk_sum_S. destruct (walk_step_pm w (Z.of_nat k)) as [-> | ->]; lia.
Qed.

Lemma max_excursion_bounds w k : 0 <= max_excursion w k <= Z.of_nat k.
Proof.
  induction k as [|k IH]; [cbn; lia|].
  cbn [max_excursion]. pose proof (walk_sum_bound w (Datatypes.S k)). lia.
Qed.

Lemma cusum_step_walk w (k : nat) :
  Z.of_nat k + 1 < 2 ^ 63 ->
  cusum_step w (Z.of_nat k) (walk_sum w k, max_excursion w k)
  = (walk_sum w (Datatypes.S k), max_excursion w (Datatypes.S k)).
Proof.
  intros Hk. unfold cusum_step. fold (walk_step w (Z.of_nat k)).
  rewrite <- walk_sum_S.
  pose proof (walk_sum_bound w (Datatypes.S k)) as Hb.
  pose proof (max_excursion_bounds w k) as Hm.
  cbn [max_excursion].
  set (s := walk_sum w (Datatypes.S k)) in *.
  rewrite (wrap_s64_small s) by lia.
  rewrite (wrap_s64_small (- s)) by lia.
  destruct (Z.gtb_spec s (max_excursion w k)); [f_equal; lia|].
  destruct (Z.gtb_spec (- s) (max_excursion w k)); f_equal; lia.
Qed.

Lemma cusum_walk_prefix w (k : nat) :
  Z.of_nat k < 2 ^ 63 ->
  for_range 0 k (cusum_step w) (0, 0) = (walk_sum w k, max_excursion w k).
Proof.
  induction k as [|k IH]; intros Hk; [reflexivity|].
  rewrite for_range_snoc, IH by lia. rewrite Z.add_0_l.
  apply cusum_step_walk. lia.
Qed.

Lemma max_excursion_upper w k j :
  (1 <= j <= k)%nat -> Z.abs (walk_sum w j) <= max_excursion w k.
Proof.
  induction k as [|k IH]; intros Hj; [lia|].
  cbn [max_excursion].
  destruct (Nat.eq_dec j (Datatypes.S k)) as [-> | Hne]; [lia|].
  specialize (IH ltac:(lia)). lia.
Qed.

Lemma max_excursion_attained w k :
  (1 <= k)%nat ->
  exists j, (1 <= j <= k)%nat /\ Z.abs (walk_sum w j) = max_excursion w k.
Proof.
  induction k as [|k IH]; intros Hk; [lia|].
  cbn [max_excursion].
  destruct (Z.max_spec (max_excursion w k) (Z.abs (walk_sum w (Datatypes.S k))))
    as [[_ E] | [Hle E]]; rewrite E.
  - exists (Datatypes.S k). split; [lia | reflexivity].
  - destruct k as [|k'].
    + exists 1%nat. split; [lia|]. cbn [max_excursion] in Hle |- *.
      pose proof (Z.abs_nonneg (walk_sum w 1)). lia.
    + destruct (IH ltac:(lia)) as [j [Hj Ej]]. exists j. split; [lia | exact Ej].
Qed.

Lemma walk_sum_ones w k :
  walk_sum w k = 2 * count_ones (bits_prefix w k) - Z.of_nat k.
Proof.
  induction k as [|k IH]; [reflexivity|].
  rewrite walk_sum_S, IH, bits_prefix_S. unfold count_ones.
  rewrite list_sum_app, list_sum_cons. change (list_sum []) with 0.
  unfold walk_step. rewrite Nat2Z.inj_succ.
  destruct (bit_at_01 w (Z.of_nat k)) as [E | E]; rewrite E;
    cbn [Z.eqb]; lia.
Qed.

(** X10. The loop of [nist_cumulative_sums] computes the random walk of
    the bitstream: it ends with the walk's final sum [2 * ones - n] and
    with [zmax] the largest absolute partial sum, which bounds every
    partial sum and is attained by one of them; on an empty buffer
    [zmax] is 0 and the test reports failure. *)
Theorem cusum_walk_excursion :
  forall (erfc : Double.double -> Double.double) (w : list Z) (len : Z),
    buffer_ok w len -> 0 <= len -> len * 32 < 2 ^ 63 ->
    let n := Z.to_nat (32 * len) in
    cusum_walk w len = (walk_sum w n, max_excursion w n)
    /\ fst (cusum_walk w len) = 2 * count_ones (bits w len) - 32 * len
    /\ (forall j, (1 <= j <= n)%nat -> Z.abs (walk_sum w j) <= cusum_zmax w len)
    /\ ((1 <= n)%nat ->
        exists j, (1 <= j <= n)%nat /\ Z.abs (walk_sum w j) = cusum_zmax w len)
    /\ (len = 0 -> cusum_zmax w len = 0 /\ nist_cumulative_sums erfc w len = 0).
Proof.
  intros erfc w len Hok Hlen Hbits n.
  assert (Hwalk : cusum_walk w len = (walk_sum w n, max_excursion w n)).
  { unfold cusum_walk, for_upto. rewrite wrap_u64_small by lia.
    replace (len * 32) with (32 * len) by lia. fold n.
    apply cusum_walk_prefix. lia. }
  split; [exact Hwalk|]. unfold cusum_zmax. rewrite Hwalk. cbn [fst snd].
  split; [|split; [|split]].
  - rewrite walk_sum_ones. unfold bits.
    replace (Z.to_nat (len * 32)) with n by lia. lia.
  - intros j Hj. now apply max_excursion_upper.
  - apply max_excursion_attained.
  - intros ->. split; [reflexivity|].
    unfold nist_cumulative_sums, cusum_zmax. rewrite Hwalk. reflexivity.
Qed.

Lemma cusum_walk_excursion_witness :
  buffer_ok [2863311530; 7] 2 /\ 0 <= 2 /\ 2 * 32 < 2 ^ 63
  /\ fst (cusum_walk [2863311530; 7] 2)
     = 2 * count_ones (bits [2863311530; 7] 2) - 32 * 2.
Proof.
  assert (Hok : buffer_ok [2863311530; 7] 2).
  { split; [reflexivity | | reflexivity].
    repeat constructor; unfold word_ok; lia. }
  split; [exact Hok | split; [lia | split; [lia|]]].
  destruct (cusum_walk_excursion (fun _ => Double.one) _ 2 Hok
              ltac:(lia) ltac:(lia)) as [_ [H _]].
  exact H.
Defined.

(** *** Complemented buffers *)

Lemma complement_word_bit x k :
  word_ok x -> 0 <= k < 32 ->
  Z.testbit (2 ^ 32 - 1 - x) k = negb (Z.testbit x k).
Proof.
  intros Hx Hk.
  replace (2 ^ 32 - 1 - x) with ((Z.lnot x) mod 2 ^ 32).
  - rewrite Z.mod_pow2_bits_low by lia. apply Z.lnot_spec. lia.
  - unfold Z.lnot, word_ok in *.
    symmetry. apply Z.mod_unique with (q := -1); lia.
Qed.

Lemma complement_length w : length (complement w) = length w.
Proof. apply length_map. Qed.

Lemma complement_ok w len : buffer_ok w len -> buffer_ok (complement w) len.
Proof.
  intros [Hl Hw Hb]. split; [now rewrite complement_length | | exact Hb].
  unfold complement. apply Forall_map. eapply Forall_impl; [|exact Hw].
  intros x Hx. unfold word_ok in *. lia.
Qed.

Lemma complement_bit w i :
  Forall word_ok w -> 0 <= i < 32 * Z.of_nat (length w) ->
  bit_at (complement w) i = 1 - bit_at w i.
Proof.
  intros Hw Hi. unfold bit_at, word_at, complement.
  assert (Hidx : (Z.to_nat (i / 32) < length w)%nat).
  { assert (i / 32 < Z.of_nat (length w)) by (apply Z.div_lt_upper_bound; lia).
    assert (0 <= i / 32) by (apply Z.div_pos; lia). lia. }
  rewrite (nth_indep _ 0 ((fun x => 2 ^ 32 - 1 - x) 0))
    by (rewrite length_map; exact Hidx).
  rewrite map_nth.
  pose proof (Z.mod_pos_bound i 32 ltac:(lia)) as Hm.
  assert (Hx : word_ok (nth (Z.to_nat (i / 32)) w 0)).
  { rewrite Forall_forall in Hw. apply Hw. now apply nth_In. }
  rewrite !word_bit_testbit by lia.
  rewrite complement_word_bit by (try assumption; lia).
  destruct (Z.testbit _ _); reflexivity.
Qed.

Lemma complement_walk_sum w k :
  Forall word_ok w -> Z.of_nat k <= 32 * Z.of_nat (length w) ->
  walk_sum (complement w) k = - walk_sum w k.
Proof.
  intros Hw. induction k as [|k IH]; intros Hk; [reflexivity|].
  rewrite !walk_sum_S, IH by lia. unfold walk_step.
  rewrite complement_bit by (try assumption; lia).
  destruct (bit_at_01 w (Z.of_nat k)) as [E | E]; rewrite E;
    cbn [Z.sub Z.opp Z.add Z.eqb Z.pos_sub]; lia.
Qed.

Lemma complement_max_excursion w k :
  Forall word_ok w -> Z.of_nat k <= 32 * Z.of_nat (length w) ->
  max_excursion (complement w) k = max_excursion w k.
Proof.
  intros Hw. induction k as [|k IH]; intros Hk; [reflexivity|].
  cbn [max_excursion]. rewrite IH by lia.
  rewrite complement_walk_sum by (try assumption; lia).
  rewrite Z.abs_opp. reflexivity.
Qed.

(** X11. The cumulative-sums test does not see the polarity of the
    stream: a buffer and its bitwise complement have the same [zmax] and
    get the same verdict. *)
Theorem cusum_complement_invariant :
  forall (erfc : Double.double -> Double.double) (w : list Z) (len : Z),
    buffer_ok w len -> 0 <= len -> len * 32 < 2 ^ 63 ->
    fst (cusum_walk (complement w) len) = - fst (cusum_walk w len)
    /\ cusum_zmax (complement w) len = cusum_zmax w len
    /\ nist_cumulative_sums erfc (complement w) len
       = nist_cumulative_sums erfc w len.
Proof.
  intros erfc w len Hok Hlen Hbits.
  pose proof (buf_len _ _ Hok) as Hl. pose proof (buf_words _ _ Hok) as Hw.
  assert (Hwalk : forall v, buffer_ok v len ->
            cusum_walk v len
            = (walk_sum v (Z.to_nat (32 * len)), max_excursion v (Z.to_nat (32 * len)))).
  { intros v Hv. unfold cusum_walk, for_upto. rewrite wrap_u64_small by lia.
    replace (len * 32) with (32 * len) by lia. apply cusum_walk_prefix. lia. }
  assert (Hz : cusum_zmax (complement w) len = cusum_zmax w len).
  { unfold cusum_zmax. rewrite !Hwalk by (try apply complement_ok; assumption).
    cbn [snd]. apply complement_max_excursion; [exact Hw | lia]. }
  split; [|split; [exact Hz|]].
  - rewrite !Hwalk by (try apply complement_ok; assumption). cbn [fst].
    apply complement_walk_sum; [exact Hw | lia].
  - unfold nist_cumulative_sums. rewrite Hz. reflexivity.
Qed.

Lemma cusum_complement_invariant_witness :
  buffer_ok [2863311530; 7] 2 /\ 0 <= 2 /\ 2 * 32 < 2 ^ 63
  /\ cusum_zmax (complement [2863311530; 7]) 2 = cusum_zmax [2863311530; 7] 2.
Proof.
  assert (Hok : buffer_ok [2863311530; 7] 2).
  { split; [reflexivity | | reflexivity].
    repeat constructor; unfold word_ok; lia. }
  split; [exact Hok | split; [lia | split; [lia|]]].
  destruct (cusum_complement_invariant (fun _ => Double.one) _ 2 Hok
              ltac:(lia) ltac:(lia)) as [_ [H _]].
  exact H.
Defined.

(** ** Second-order serial: the counters *)

Lemma array_incr_pair a b :
  array_incr [a; b] 0 = [wrap_u64 (a + 1); b]
  /\ array_incr [a; b] 1 = [a; wrap_u64 (b + 1)].
Proof. split; reflexivity. Qed.

Lemma serial_c1_inv w (k : nat) :
  Z.of_nat k < 2 ^ 64 ->
  ss_c1 (for_range 0 k (serial_step w)
           {| ss_c1 := [0; 0]; ss_c2 := [0; 0; 0; 0]; ss_prev := -1 |})
  = [Z.of_nat k - count_ones (bits_prefix w k); count_ones (bits_prefix w k)].
Proof.
  induction k as [|k IH]; intros Hk; [reflexivity|].
  rewrite for_range_snoc. unfold serial_step at 1. cbn [ss_c1].
  rewrite IH by lia. rewrite Z.add_0_l, bits_prefix_S.
  unfold count_ones. rewrite list_sum_app, list_sum_cons.
  change (list_sum []) with 0.
  pose proof (count_ones_prefix_bounds w k) as Hb. unfold count_ones in Hb.
  rewrite Nat2Z.inj_succ.
  destruct (bit_at_01 w (Z.of_nat k)) as [E | E]; rewrite E.
  - rewrite (proj1 (array_incr_pair _ _)), wrap_u64_small by lia.
    repeat (f_equal; try lia).
  - rewrite (proj2 (array_incr_pair _ _)), wrap_u64_small by lia.
    repeat (f_equal; try lia).
Qed.

Lemma pattern_first_bit w (ps : list (Z * Z)) :
  tally 2 (map (pair_pattern w) ps) + tally 3 (map (pair_pattern w) ps)
  = list_sum (map (fun p => bit_at w (fst p)) ps).
Proof.
  induction ps as [|p ps IH]; [reflexivity|].
  cbn [map]. rewrite !tally_cons, list_sum_cons, <- IH. unfold pair_pattern.
  set (a := bit_at w (fst p)). set (b := bit_at w (snd p)).
  assert (Ha : a = 0 \/ a = 1) by apply bit_at_01.
  assert (Hb : b = 0 \/ b = 1) by apply bit_at_01.
  destruct (Z.eqb_spec 2 (2 * a + b)), (Z.eqb_spec 3 (2 * a + b)); lia.
Qed.

Lemma pattern_second_bit w (ps : list (Z * Z)) :
  tally 1 (map (pair_pattern w) ps) + tally 3 (map (pair_pattern w) ps)
  = list_sum (map (fun p => bit_at w (snd p)) ps).
Proof.
  induction ps as [|p ps IH]; [reflexivity|].
  cbn [map]. rewrite !tally_cons, list_sum_cons, <- IH. unfold pair_pattern.
  set (a := bit_at w (fst p)). set (b := bit_at w (snd p)).
  assert (Ha : a = 0 \/ a = 1) by apply bit_at_01.
  assert (Hb : b = 0 \/ b = 1) by apply bit_at_01.
  destruct (Z.eqb_spec 1 (2 * a + b)), (Z.eqb_spec 3 (2 * a + b)); lia.
Qed.

Lemma cyclic_first_bits w (k : nat) :
  list_sum (map (fun p => bit_at w (fst p)) (cyclic_pairs (Z.of_nat k)))
  = count_ones (bits_prefix w k).
Proof.
  unfold cyclic_pairs, count_ones, bits_prefix. rewrite Nat2Z.id, map_map.
  reflexivity.
Qed.

Lemma cyclic_second_bits w (k : nat) :
  list_sum (map (fun p => bit_at w (snd p)) (cyclic_pairs (Z.of_nat k)))
  = count_ones (bits_prefix w k).
Proof.
  destruct k as [|k]; [reflexivity|].
  unfold cyclic_pairs, count_ones, bits_prefix. rewrite Nat2Z.id, map_map.
  cbn [snd]. rewrite zrange_S at 1. rewrite map_app, list_sum_app.
  cbn [map]. rewrite list_sum_cons. change (list_sum []) with 0.
  replace (Z.of_nat k + 1) with (Z.of_nat (Datatypes.S k)) by lia.
  rewrite Z.mod_same by lia.
  rewrite zrange_cons. cbn [map]. rewrite list_sum_cons, map_map.
  assert (E : map (fun x => bit_at w ((x + 1) mod Z.of_nat (Datatypes.S k))) (zrange k)
              = map (fun x => bit_at w (x + 1)) (zrange k)).
  { apply map_ext_in. intros i Hi. apply in_zrange in Hi.
    rewrite Z.mod_small by lia. reflexivity. }
  rewrite E. lia.
Qed.

Lemma serial_c2_tallies w len :
  buffer_ok w len -> 1 <= len ->
  ss_c2 (serial_counts w len)
  = tallies (map (pair_pattern w) (cyclic_pairs (32 * len))).
Proof.
  intros Hok Hlen. pose proof (buf_bits _ _ Hok) as Hbits.
  unfold serial_counts, for_upto. cbn [ss_c2].
  rewrite bit_count_in_range by assumption.
  destruct (Z.to_nat (len * 32)) as [|k] eqn:E; [lia|].
  assert (Hn : 32 * len = Z.of_nat (Datatypes.S k)) by lia.
  destruct (serial_loop_inv w (Datatypes.S k)) as [Hp Hc]; [lia|].
  rewrite Hp, Hc. cbn [Nat.pred].
  destruct (Z.eqb_spec (Z.of_nat (Datatypes.S k)) 0); [lia|].
  replace (Z.of_nat (Datatypes.S k) - 1) with (Z.of_nat k) by lia.
  rewrite <- bit_at_0, pair_index_lor by (auto using bit_at_01).
  unfold tallies at 1. rewrite array_incr_tallies.
  - rewrite Hn, cyclic_patterns. reflexivity.
  - apply pattern_range.
  - rewrite linear_patterns_length. lia.
Qed.

(** X12. The counters of [nist_serial2] are consistent: [c1] holds the
    numbers of zero and one bits; among the cyclic pairs, those starting
    with a given bit value are as many as those ending with it, namely the
    number of bits of that value; hence the patterns 01 and 10 occur
    equally often. *)
Theorem serial2_counter_marginals :
  forall (w : list Z) (len : Z),
    buffer_ok w len -> 1 <= len ->
    let n := 32 * len in
    let ones := count_ones (bits w len) in
    let c1 := ss_c1 (serial_counts w len) in
    let c2 := ss_c2 (serial_counts w len) in
    c1 = [n - ones; ones]
    /\ array_get c2 0 + array_get c2 1 = n - ones
    /\ array_get c2 2 + array_get c2 3 = ones
    /\ array_get c2 0 + array_get c2 2 = n - ones
    /\ array_get c2 1 + array_get c2 3 = ones
    /\ array_get c2 1 = array_get c2 2.
Proof.
  intros w len Hok Hlen n ones c1 c2.
  pose proof (buf_bits _ _ Hok) as Hbits.
  pose proof (serial_c2_tallies w len Hok Hlen) as Hc2. fold n c2 in Hc2.
  assert (Hsum : array_get c2 0 + array_get c2 1 + array_get c2 2
                 + array_get c2 3 = n).
  { rewrite Hc2. unfold tallies.
    change (array_get (map (fun v => tally v (map (pair_pattern w) (cyclic_pairs n)))
                         [0; 1; 2; 3]) 0)
      with (tally 0 (map (pair_pattern w) (cyclic_pairs n))).
    change (array_get (map (fun v => tally v (map (pair_pattern w) (cyclic_pairs n)))
                         [0; 1; 2; 3]) 1)
      with (tally 1 (map (pair_pattern w) (cyclic_pairs n))).
    change (array_get (map (fun v => tally v (map (pair_pattern w) (cyclic_pairs n)))
                         [0; 1; 2; 3]) 2)
      with (tally 2 (map (pair_pattern w) (cyclic_pairs n))).
    change (array_get (map (fun v => tally v (map (pair_pattern w) (cyclic_pairs n)))
                         [0; 1; 2; 3]) 3)
      with (tally 3 (map (pair_pattern w) (cyclic_pairs n))).
    rewrite tallies_total.
    - unfold cyclic_pairs. rewrite !length_map, zrange_length. subst n. lia.
    - apply Forall_forall. intros x Hx. apply in_map_iff in Hx.
      destruct Hx as [p [<- _]]. apply pattern_range. }
  set (k := Z.to_nat (len * 32)).
  assert (Hn : n = Z.of_nat k) by (subst n k; lia).
  assert (Hones : ones = count_ones (bits_prefix w k)) by reflexivity.
  assert (Hc1 : c1 = [n - ones; ones]).
  { subst c1. unfold serial_counts, for_upto. cbn [ss_c1].
    rewrite bit_count_in_range by assumption. fold k.
    rewrite serial_c1_inv by lia. rewrite Hn, Hones. reflexivity. }
  assert (Hget : forall v, 0 <= v < 4 ->
            array_get c2 v = tally v (map (pair_pattern w) (cyclic_pairs n))).
  { intros v Hv. rewrite Hc2. unfold tallies.
    assert (Hcases : v = 0 \/ v = 1 \/ v = 2 \/ v = 3) by lia.
    destruct Hcases as [-> | [-> | [-> | ->]]]; reflexivity. }
  pose proof (pattern_first_bit w (cyclic_pairs n)) as H1.
  pose proof (pattern_second_bit w (cyclic_pairs n)) as H2.
  rewrite Hn, cyclic_first_bits, <- Hones, <- Hn in H1.
  rewrite Hn, cyclic_second_bits, <- Hones, <- Hn in H2.
  rewrite <- !Hget in H1, H2 by lia.
  split; [exact Hc1|]. lia.
Qed.

Lemma serial2_counter_marginals_witness :
  buffer_ok [2863311530; 7] 2 /\ 1 <= 2
  /\ array_get (ss_c2 (serial_counts [2863311530; 7] 2)) 1
     = array_get (ss_c2 (serial_counts [2863311530; 7] 2)) 2.
Proof.
  assert (Hok : buffer_ok [2863311530; 7] 2).
  { split; [reflexivity | | reflexivity].
    repeat constructor; unfold word_ok; lia. }
  split; [exact Hok | split; [lia|]].
  destruct (serial2_counter_marginals _ 2 Hok ltac:(lia))
    as [_ [_ [_ [_ [_ H]]]]].
  exact H.
Defined.

(** ** Chi-squared: the histogram for any declared range *)

Lemma chi_bin_general x B R :
  word_ok x -> 1 <= B <= INT_MAX -> 1 <= R < 2 ^ 64 ->
  (2 ^ 32 - 1) * B / R <= INT_MAX ->
  chi_bin x B R = bin_of B R x /\ 0 <= chi_bin x B R < B.
Proof.
  intros Hx HB HR Hfit. unfold word_ok in Hx. unfold INT_MAX in *.
  unfold chi_bin, bin_of.
  rewrite (wrap_u64_small B) by lia.
  rewrite (wrap_u64_small (x * B)) by nia.
  assert (Hq : 0 <= x * B / R <= 2 ^ 31 - 1).
  { split; [apply Z.div_pos; nia|].
    etransitivity; [|exact Hfit]. apply Z.div_le_mono; nia. }
  rewrite wrap_s32_small by lia.
  destruct (Z.geb_spec (x * B / R) B); lia.
Qed.

Lemma chi_freq_general data n B R :
  buffer_ok data n -> 1 <= B <= INT_MAX -> 1 <= R < 2 ^ 64 ->
  (2 ^ 32 - 1) * B / R <= INT_MAX ->
  chi_freq data n B R = map (observed B R data) (zrange (Z.to_nat B)).
Proof.
  intros Hok HB HR Hfit. unfold chi_freq, for_upto.
  pose proof (buf_len _ _ Hok) as Hlen. pose proof (buf_words _ _ Hok) as Hw.
  pose proof (buf_bits _ _ Hok) as Hbits.
  assert (Hinv : forall k : nat,
             (k <= length data)%nat ->
             for_range 0 k
               (fun i freq => array_incr freq (chi_bin (word_at data i) B R))
               (repeat 0 (Z.to_nat B))
             = map (fun i => tally i (map (bin_of B R)
                                        (map (word_at data) (zrange k))))
                 (zrange (Z.to_nat B))).
  { induction k as [|k IH]; intros Hk.
    - cbn [for_range zrange seq map]. 
      induction (Z.to_nat B) as [|m IHm]; [reflexivity|].
      rewrite zrange_S, map_app, <- IHm. cbn [map].
      now rewrite <- repeat_cons.
    - rewrite for_range_snoc, IH by lia. rewrite Z.add_0_l.
      destruct (chi_bin_general (word_at data (Z.of_nat k)) B R) as [Hb Hr];
        [apply word_at_ok; assumption | assumption | assumption | assumption |].
      rewrite array_incr_observed; [| lia |].
      + rewrite zrange_S, !map_app, Hb. reflexivity.
      + rewrite !length_map, zrange_length. lia. }
  rewrite Hlen, Nat2Z.id, Hinv by lia.
  unfold observed. now rewrite buffer_as_map.
Qed.

Lemma tally_permutation v l l' : Permutation l l' -> tally v l = tally v l'.
Proof.
  intros Hp. unfold tally. f_equal. now apply Permutation_count_occ.
Qed.

Lemma chi_freq_total data n B R :
  buffer_ok data n -> 1 <= B <= INT_MAX -> 1 <= R < 2 ^ 64 ->
  (2 ^ 32 - 1) * B / R <= INT_MAX ->
  list_sum (chi_freq data n B R) = n.
Proof.
  intros Hok HB HR Hfit.
  rewrite (chi_freq_general data n B R Hok HB HR Hfit). unfold observed.
  rewrite observed_total.
  - rewrite length_map. symmetry. apply (buf_len _ _ Hok).
  - apply Forall_forall. intros b Hb. apply in_map_iff in Hb.
    destruct Hb as [x [<- Hx]].
    pose proof (buf_words _ _ Hok) as Hw. rewrite Forall_forall in Hw.
    destruct (chi_bin_general x B R (Hw x Hx) HB HR Hfit) as [E Hr].
    rewrite <- E. lia.
Qed.

(** X13. For any declared range [max_val] that keeps the bin index
    within [int], [chi_squared] files every sample in exactly one bin
    between 0 and [bins - 1] (samples at or above [max_val] go to the
    last bin), so the histogram counts add up to [n]; the result depends
    on the samples only through the histogram, hence not on their
    order. *)
Theorem chi_squared_histogram :
  forall (data : list Z) (n B R : Z),
    buffer_ok data n -> 1 <= B <= INT_MAX -> 1 <= R < 2 ^ 64 ->
    (2 ^ 32 - 1) * B / R <= INT_MAX ->
    chi_freq data n B R = map (observed B R data) (zrange (Z.to_nat B))
    /\ list_sum (chi_freq data n B R) = n
    /\ (forall x, word_ok x ->
          0 <= chi_bin x B R < B
          /\ chi_bin x B R = Z.min (x * B / R) (B - 1)
          /\ (R <= x -> chi_bin x B R = B - 1))
    /\ (forall data', Permutation data data' ->
          chi_squared data' n B R = chi_squared data n B R).
Proof.
  intros data n B R Hok HB HR Hfit.
  pose proof (chi_freq_general data n B R Hok HB HR Hfit) as Hfreq.
  split; [exact Hfreq|]. split; [|split].
  - now apply chi_freq_total.
  - intros x Hx. destruct (chi_bin_general x B R Hx HB HR Hfit) as [E Hr].
    split; [exact Hr|]. split; [exact E|].
    intros Hge. rewrite E. unfold bin_of.
    assert (B <= x * B / R) by (apply Z.div_le_lower_bound; nia).
    lia.
  - intros data' Hp.
    assert (Hok' : buffer_ok data' n).
    { destruct Hok as [Hl Hw Hb]. split; [|eapply Permutation_Forall; eauto | exact Hb].
      rewrite Hl. f_equal. now apply Permutation_length. }
    unfold chi_squared.
    rewrite Hfreq, (chi_freq_general data' n B R Hok' HB HR Hfit).
    f_equal. apply map_ext. intros i. unfold observed.
    symmetry. apply tally_permutation. now apply Permutation_map.
Qed.

Lemma chi_squared_histogram_witness :
  buffer_ok [5; 4000000000; 7] 3 /\ 1 <= 2 <= INT_MAX /\ 1 <= 100 < 2 ^ 64
  /\ (2 ^ 32 - 1) * 2 / 100 <= INT_MAX
  /\ list_sum (chi_freq [5; 4000000000; 7] 3 2 100) = 3.
Proof.
  assert (Hok : buffer_ok [5; 4000000000; 7] 3).
  { split; [reflexivity | | reflexivity].
    repeat constructor; unfold word_ok; lia. }
  assert (HB : 1 <= 2 <= INT_MAX) by (unfold INT_MAX; lia).
  assert (HR : 1 <= 100 < 2 ^ 64) by lia.
  assert (Hfit : (2 ^ 32 - 1) * 2 / 100 <= INT_MAX) by (vm_compute; discriminate).
  split; [exact Hok | split; [exact HB | split; [exact HR | split; [exact Hfit|]]]].
  destruct (chi_squared_histogram _ 3 2 100 Hok HB HR Hfit) as [_ [H _]].
  exact H.
Defined.

(** ** Runs: constant streams *)

Lemma constant_buffer_bit w (x0 : Z) i :
  Forall (fun x => x = x0) w -> 0 <= i < 32 * Z.of_nat (length w) ->
  bit_at w i = Z.b2z (Z.testbit x0 (i mod 32)).
Proof.
  intros Hw Hi. unfold bit_at.
  pose proof (Z.mod_pos_bound i 32 ltac:(lia)) as Hm.
  rewrite word_bit_testbit by lia.
  assert (E : word_at w (i / 32) = x0).
  { unfold word_at. rewrite Forall_forall in Hw. apply Hw. apply nth_In.
    assert (i / 32 < Z.of_nat (length w)) by (apply Z.div_lt_upper_bound; lia).
    assert (0 <= i / 32) by (apply Z.div_pos; lia). lia. }
  rewrite E. reflexivity.
Qed.

Lemma count_runs_constant w (c : Z) (k : nat) :
  (forall i, 0 <= i <= Z.of_nat k -> bit_at w i = c) ->
  count_runs (bits_prefix w (Datatypes.S k)) = 1.
Proof.
  induction k as [|k IH]; intros Hc; [reflexivity|].
  rewrite (bits_prefix_S w (Datatypes.S k)), (bits_prefix_S w k).
  rewrite count_runs_snoc, <- bits_prefix_S, IH by (intros i Hi; apply Hc; lia).
  rewrite !Hc by lia. rewrite Z.eqb_refl. reflexivity.
Qed.

Lemma half_normal : normal_pos Double.half /\ Vabs Double.half * 2 = 2 ^ 1074.
Proof. split; [cbn; lia | reflexivity]. Qed.

(** For 32 bits or more, [2 / sqrt n] is below one half. *)
Lemma runs_threshold_small n :
  32 <= n < 2 ^ 64 ->
  Double.ltb (Double.two / Double.sqrt (Double.of_Z n))%D Double.half = true.
Proof.
  intros Hn.
  set (U := 2 ^ 1074). assert (HU : 0 < U) by (apply pow2_pos; lia).
  pose proof (of_Z_normal n ltac:(lia)) as Nx.
  destruct (of_Z_bounds n) as [_ [Hxl Hxu]].
  { pose proof (pow2_le 64 1024 ltac:(lia)). lia. }
  assert (Hx32 : 32 * U <= Vabs (Double.of_Z n)).
  { destruct (Hxl (2 ^ 52) (-47) ltac:(lia) ltac:(lia)) as [Hi | H].
    - change (Vfin (2 ^ 52) (-47)) with (32 * U). unfold Vfin.
      change (2 ^ (0 + 1074)) with U. nia.
    - rewrite Hi in Nx. contradiction.
    - exact H. }
  assert (Hx64 : Vabs (Double.of_Z n) <= 2 ^ 64 * U).
  { destruct (Hxu (2 ^ 52) 12 ltac:(lia) ltac:(lia)) as [_ H].
    - change (Vfin (2 ^ 52) 12) with (2 ^ 64 * U). unfold Vfin.
      change (2 ^ (0 + 1074)) with U. nia.
    - exact H. }
  destruct (sqrt_bounds (Double.of_Z n) Nx) as [Nr [Hrl Hru]].
  set (x := Double.of_Z n) in *. set (r := Double.sqrt x) in *.
  assert (Hr5 : 5 * U <= Vabs r).
  { change (5 * U) with (Vfin (5 * 2 ^ 50) (-50)).
    apply Hrl; [lia | lia |].
    change (Vfin (5 * 2 ^ 50) (-50)) with (5 * U). change (2 ^ 1074) with U. nia. }
  assert (Hr32 : Vabs r <= 2 ^ 32 * U).
  { change (2 ^ 32 * U) with (Vfin (2 ^ 52) (-20)).
    apply Hru; [lia | lia |].
    change (Vfin (2 ^ 52) (-20)) with (2 ^ 32 * U). change (2 ^ 1074) with U. nia. }
  destruct two_normal as [N2 V2]. fold U in V2.
  destruct (div_bounds Double.two r N2 Nr) as [_ [_ Hqu]].
  { rewrite V2. pose proof (pow2_pos 960 ltac:(lia)).
    assert (2 ^ 32 * U <= 2 * U * 2 ^ 960)
      by (change (2 ^ 960) with (2 ^ 32 * 2 ^ 928); nia).
    lia. }
  destruct (Hqu (7 * 2 ^ 50) (-54) ltac:(lia) ltac:(lia)) as [Nq Vq].
  { rewrite V2. change (2 ^ 1074) with U.
    assert (E : Vfin (7 * 2 ^ 50) (-54) * 16 = 7 * U) by reflexivity.
    assert (2 * U * U * 16 <= Vfin (7 * 2 ^ 50) (-54) * 16 * Vabs r)
      by (rewrite E; nia).
    nia. }
  destruct half_normal as [Nh Vh]. fold U in Vh.
  apply ltb_normal_pos; [exact Nq | exact Nh |].
  assert (E : Vfin (7 * 2 ^ 50) (-54) * 16 = 7 * U) by reflexivity.
  lia.
Qed.

(** X14. A stream stuck at one value never passes the runs test: on a
    buffer of all-zero words, or of all-one words, the frequency
    pre-check [|pi - 0.5| > 2 / sqrt n] fires and [nist_runs] returns 0,
    whatever [erfc] is. *)
Theorem runs_constant_stream_fails :
  forall (erfc : Double.double -> Double.double) (w : list Z) (len : Z),
    buffer_ok w len -> 1 <= len -> len * 32 < 2 ^ 63 ->
    Forall (fun x => x = 0) w \/ Forall (fun x => x = 4294967295) w ->
    count_runs (bits w len) = 1
    /\ nist_runs erfc w len = 0.
Proof.
  intros erfc w len Hok Hlen Hbits Hconst.
  pose proof (buf_len _ _ Hok) as Hl.
  set (n := len * 32) in *.
  assert (Hruns : count_runs (bits w len) = 1).
  { unfold bits. fold n.
    destruct (Z.to_nat n) as [|k] eqn:Ek; [lia|].
    destruct Hconst as [H0 | H1].
    - apply (count_runs_constant w 0). intros i Hi.
      rewrite (constant_buffer_bit w 0) by (try assumption; lia).
      rewrite Z.testbit_0_l. reflexivity.
    - apply (count_runs_constant w 1). intros i Hi.
      rewrite (constant_buffer_bit w 4294967295) by (try assumption; lia).
      change 4294967295 with (Z.ones 32).
      rewrite Z.ones_spec_low; [reflexivity|].
      apply Z.mod_pos_bound. lia. }
  split; [exact Hruns|].
  destruct (runs_loop_counts w len Hlen Hbits) as [Hones _].
  { rewrite Hruns. unfold INT_MAX. lia. }
  assert (Hn : wrap_u64 n = n) by (apply wrap_u64_small; lia).
  pose proof (of_Z_normal n ltac:(lia)) as Nx.
  destruct (normal_pos_inv _ Nx) as [m [e [Ex [Hm He]]]].
  assert (Hpi : Double.fabs (runs_pi w len - Double.half)%D = Double.half).
  { unfold runs_pi. rewrite Hones. fold n. rewrite Hn.
    destruct Hconst as [H0 | H1].
    - rewrite (count_ones_uniform_buffer w len 0 Hok ltac:(lia)).
      + rewrite Z.mul_0_l, Ex. reflexivity.
      + eapply Forall_impl; [|exact H0]. intros x ->. reflexivity.
    - rewrite (count_ones_uniform_buffer w len 32 Hok ltac:(lia)).
      + replace (32 * len) with n by (subst n; lia).
        rewrite (div_exact _ _ Double.one Nx Nx one_normal).
        * reflexivity.
        * pose proof (pow2_pos 960 ltac:(lia)).
          assert (0 < Vabs (Double.of_Z n))
            by (rewrite Ex; cbn [Vabs]; apply Vfin_pos; lia).
          nia.
        * rewrite Vabs_one. ring.
      + eapply Forall_impl; [|exact H1]. intros x ->. reflexivity. }
  unfold nist_runs. fold n. rewrite Hn, Hpi.
  unfold Double.gtb. fold (Double.ltb (Double.two / Double.sqrt (Double.of_Z n))%D Double.half).
  rewrite runs_threshold_small by (subst n; lia). reflexivity.
Qed.

Lemma runs_constant_stream_fails_witness :
  buffer_ok [0; 0] 2 /\ 1 <= 2 /\ 2 * 32 < 2 ^ 63
  /\ (Forall (fun x => x = 0) [0; 0] \/ Forall (fun x => x = 4294967295) [0; 0])
  /\ nist_runs (fun _ => Double.one) [0; 0] 2 = 0.
Proof.
  assert (Hok : buffer_ok [0; 0] 2).
  { split; [reflexivity | | reflexivity].
    repeat constructor; unfold word_ok; lia. }
  assert (Hc : Forall (fun x => x = 0) [0; 0] \/ Forall (fun x => x = 4294967295) [0; 0])
    by (left; repeat constructor).
  split; [exact Hok | split; [lia | split; [lia | split; [exact Hc|]]]].
  exact (proj2 (runs_constant_stream_fails (fun _ => Double.one) _ 2 Hok
                  ltac:(lia) ltac:(lia) Hc)).
Defined.

(** ** Block frequency: the statistic *)

Lemma ones_from_S w start k :
  ones_from w start (Datatypes.S k) = ones_from w start k + bit_at w (start + Z.of_nat k).
Proof.
  unfold ones_from. rewrite zrange_S, map_app, list_sum_app.
  cbn [map]. rewrite list_sum_cons. change (list_sum []) with 0. lia.
Qed.

Lemma ones_from_bounds w start k : 0 <= ones_from w start k <= Z.of_nat k.
Proof.
  induction k as [|k IH]; [cbn; lia|].
  rewrite ones_from_S. destruct (bit_at_01 w (start + Z.of_nat k)); lia.
Qed.

Lemma ones_from_ext w w' start k :
  (forall j, 0 <= j < Z.of_nat k -> bit_at w' (start + j) = bit_at w (start + j)) ->
  ones_from w' start k = ones_from w start k.
Proof.
  intros H. unfold ones_from. f_equal. apply map_ext_in.
  intros j Hj. apply in_zrange in Hj. now apply H.
Qed.

(** The inner loop counts the ones of one block and advances the bit
    cursor by the block size. *)
Lemma block_ones_loop w (k : nat) : forall i start,
  0 <= start -> start + Z.of_nat k < 2 ^ 64 -> Z.of_nat k <= INT_MAX ->
  for_range i k
    (fun _ '(ones, bit) => (wrap_s32 (ones + bit_at w bit), wrap_u64 (bit + 1)))
    (0, start)
  = (ones_from w start k, start + Z.of_nat k).
Proof.
  induction k as [|k IH]; intros i start Hs Hk Hint.
  - cbn [for_range]. unfold ones_from. cbn. f_equal. lia.
  - rewrite for_range_snoc, IH by lia.
    rewrite ones_from_S.
    pose proof (ones_from_bounds w start k).
    unfold INT_MAX in Hint.
    rewrite wrap_s32_small
      by (destruct (bit_at_01 w (start + Z.of_nat k)); lia).
    rewrite wrap_u64_small by lia. f_equal. lia.
Qed.

Lemma block_ones_spec w M start :
  0 <= start -> 0 <= M <= INT_MAX -> start + M < 2 ^ 64 ->
  block_ones w M start = (ones_from w start (Z.to_nat M), start + M).
Proof.
  intros Hs HM Hb. unfold block_ones, for_upto.
  rewrite block_ones_loop by lia. f_equal. lia.
Qed.

Lemma block_chi_loop w M (k : nat) :
  0 <= M <= INT_MAX -> Z.of_nat k * M < 2 ^ 64 ->
  for_range 0 k
    (fun _ '(chi, bit) =>
       let '(ones, bit') := block_ones w M bit in
       let pi := (Double.of_Z ones / Double.of_Z M)%D in
       ((chi + (pi - Double.half) * (pi - Double.half))%D, bit'))
    (Double.zero, 0)
  = (block_deviation w M k, Z.of_nat k * M).
Proof.
  intros HM. induction k as [|k IH]; intros Hk; [reflexivity|].
  rewrite for_range_snoc, IH by nia.
  rewrite block_ones_spec by nia.
  unfold block_deviation. rewrite zrange_S, fold_left_app. cbn [fold_left].
  f_equal. lia.
Qed.

Lemma block_chi_value w len M :
  buffer_ok w len -> 1 <= M <= INT_MAX ->
  block_chi w M (32 * len / M)
  = (block_deviation w M (Z.to_nat (32 * len / M)), 32 * len / M * M).
Proof.
  intros Hok HM. pose proof (buf_bits _ _ Hok) as Hbits.
  assert (Hlen : 0 <= len) by (rewrite (buf_len _ _ Hok); lia).
  assert (Hle : 32 * len / M * M <= 32 * len).
  { rewrite Z.mul_comm. apply Z.mul_div_le. lia. }
  assert (0 <= 32 * len / M) by (apply Z.div_pos; lia).
  unfold block_chi, for_upto.
  rewrite block_chi_loop by lia. f_equal. lia.
Qed.

Lemma block_frequency_value (erfc : Double.double -> Double.double) w len M :
  buffer_ok w len -> 1 <= M <= INT_MAX -> 20 <= 32 * len / M ->
  nist_block_frequency erfc w len M
  = verdict
      (erfc (Double.sqrt
               (block_deviation w M (Z.to_nat (32 * len / M))
                * (Double.four * Double.of_Z M) / Double.two)
             / Double.sqrt (Double.of_Z (32 * len / M) / Double.two))%D).
Proof.
  intros Hok HM Hn. pose proof (buf_bits _ _ Hok) as Hbits.
  assert (Hlen : 0 <= len) by (rewrite (buf_len _ _ Hok); lia).
  unfold nist_block_frequency.
  rewrite wrap_u64_small by lia.
  replace (len * 32) with (32 * len) by lia.
  destruct (Z.ltb_spec (32 * len / M) 20); [lia|].
  rewrite block_chi_value by assumption. reflexivity.
Qed.

(** X15. With at least 20 blocks of [M] bits ([M] within [int]), the
    block-frequency verdict is [p >= 0.01] for
    [p = erfc (sqrt (chi * 4M / 2) / sqrt (nBlocks / 2))], where [chi]
    sums over the complete blocks the squared deviation of the block's
    proportion of ones from 1/2.  The bit cursor stops at [nBlocks * M]:
    the bits after the last complete block are never read, and do not
    influence the verdict. *)
Theorem block_frequency_statistic :
  forall (erfc : Double.double -> Double.double) (w : list Z) (len M : Z),
    buffer_ok w len -> 1 <= M <= INT_MAX ->
    let nBlocks := 32 * len / M in
    20 <= nBlocks ->
    nist_block_frequency erfc w len M
    = verdict
        (erfc (Double.sqrt
                 (block_deviation w M (Z.to_nat nBlocks)
                  * (Double.four * Double.of_Z M) / Double.two)
               / Double.sqrt (Double.of_Z nBlocks / Double.two))%D)
    /\ snd (block_chi w M nBlocks) = nBlocks * M
    /\ nBlocks * M <= 32 * len
    /\ (forall w', buffer_ok w' len ->
          (forall i, 0 <= i < nBlocks * M -> bit_at w' i = bit_at w i) ->
          nist_block_frequency erfc w' len M = nist_block_frequency erfc w len M).
Proof.
  intros erfc w len M Hok HM nBlocks Hn.
  assert (Hle : nBlocks * M <= 32 * len).
  { subst nBlocks. rewrite Z.mul_comm. apply Z.mul_div_le. lia. }
  split; [now apply block_frequency_value|].
  split; [subst nBlocks; rewrite block_chi_value by assumption; reflexivity|].
  split; [exact Hle|].
  intros w' Hok' Hsame. rewrite !block_frequency_value by assumption.
  fold nBlocks.
  assert (E : block_deviation w' M (Z.to_nat nBlocks)
              = block_deviation w M (Z.to_nat nBlocks)).
  { unfold block_deviation. apply fold_left_ext_in.
    intros chi b Hb. apply in_zrange in Hb. cbv zeta.
    rewrite (ones_from_ext w w').
    - reflexivity.
    - intros j Hj. apply Hsame. nia. }
  rewrite E. reflexivity.
Qed.

Lemma block_frequency_statistic_witness :
  buffer_ok [1; 2; 3; 4; 5] 5 /\ 1 <= 8 <= INT_MAX /\ 20 <= 32 * 5 / 8
  /\ snd (block_chi [1; 2; 3; 4; 5] 8 (32 * 5 / 8)) = 32 * 5 / 8 * 8.
Proof.
  assert (Hok : buffer_ok [1; 2; 3; 4; 5] 5).
  { split; [reflexivity | | reflexivity].
    repeat constructor; unfold word_ok; lia. }
  assert (HM : 1 <= 8 <= INT_MAX) by (unfold INT_MAX; lia).
  assert (Hn : 20 <= 32 * 5 / 8) by (vm_compute; discriminate).
  split; [exact Hok | split; [exact HM | split; [exact Hn|]]].
  destruct (block_frequency_statistic (fun _ => Double.one) _ 5 8 Hok HM Hn)
    as [_ [H _]].
  exact H.
Defined.

(** ** Block frequency: balanced blocks *)

Lemma half_of_int h :
  0 < h -> 2 * h < 2 ^ 53 ->
  (Double.of_Z h / Double.of_Z (2 * h))%D = Double.half.
Proof.
  intros Hh H2.
  destruct (small_int_normal h ltac:(lia)) as [Nh Vh].
  destruct (small_int_normal (2 * h) ltac:(lia)) as [N2 V2].
  destruct half_normal as [Nhalf Vhalf].
  pose proof (pow2_pos 1074 ltac:(lia)).
  apply div_exact; try assumption.
  - rewrite Vh, V2. pose proof (pow2_pos 960 ltac:(lia)).
    assert (2 <= 2 ^ 960) by (change 2 with (2 ^ 1) at 1; apply pow2_le; lia).
    nia.
  - rewrite Vh, V2. nia.
Qed.

Lemma halved_normal x :
  normal_pos x -> 2 ^ 1074 <= Vabs x ->
  exists m e, (x / Double.two)%D = S754_finite false m e.
Proof.
  intros Nx Hx. destruct (normal_pos_inv x Nx) as [m [e [-> [Hm He]]]].
  cbn [Vabs] in Hx.
  assert (He0 : -52 <= e).
  { apply (normal_exp_lower (Zpos m) e 0); try lia; exact Hx. }
  exists m, (e - 1).
  destruct two_normal as [N2 V2].
  apply div_exact; [exact Nx | exact N2 | cbn; lia | |].
  - rewrite V2. cbn [Vabs]. pose proof (pow2_pos 960 ltac:(lia)).
    pose proof (pow2_pos 1074 ltac:(lia)).
    assert (2 <= 2 ^ 960) by (change 2 with (2 ^ 1) at 1; apply pow2_le; lia).
    nia.
  - rewrite V2. cbn [Vabs]. unfold Vfin.
    replace (e + 1074) with (e - 1 + 1074 + 1) by lia.
    rewrite (pow2_split (e - 1 + 1074) 1) by lia. change (2 ^ 1) with 2. ring.
Qed.

Section BlockFrequencyVerdicts.

Variable erfc : Double.double -> Double.double.
Hypothesis erfc_zero : (erfc Double.zero >=? Double.alpha)%D = true.

(** X16. A stream whose every complete block is exactly balanced (as
    many ones as zeros, for an even block size [M] within [int],
    [2 <= M <= INT_MAX], and at least 20 blocks) passes the
    block-frequency test: the statistic is exactly 0 and the verdict is
    that of [erfc 0]. *)
Theorem block_frequency_balanced_passes :
  forall (w : list Z) (len M : Z),
    buffer_ok w len -> 2 <= M <= INT_MAX -> M mod 2 = 0 ->
    20 <= 32 * len / M ->
    (forall b, 0 <= b < 32 * len / M ->
       2 * ones_from w (b * M) (Z.to_nat M) = M) ->
    block_deviation w M (Z.to_nat (32 * len / M)) = Double.zero
    /\ nist_block_frequency erfc w len M = 1.
Proof.
  intros w len M Hok HM Heven Hn Hbal.
  set (nBlocks := 32 * len / M) in *.
  pose proof (buf_bits _ _ Hok) as Hbits.
  assert (Hlen : 0 <= len) by (rewrite (buf_len _ _ Hok); lia).
  unfold INT_MAX in HM.
  assert (Hdev : block_deviation w M (Z.to_nat nBlocks) = Double.zero).
  { unfold block_deviation. rewrite <- fold_left_rev_right.
    assert (Hterm : forall b, In b (zrange (Z.to_nat nBlocks)) ->
              forall chi, chi = Double.zero ->
              (chi + ((Double.of_Z (ones_from w (b * M) (Z.to_nat M)) / Double.of_Z M
                       - Double.half)
                      * (Double.of_Z (ones_from w (b * M) (Z.to_nat M)) / Double.of_Z M
                         - Double.half)))%D = Double.zero).
    { intros b Hb chi ->. apply in_zrange in Hb.
      specialize (Hbal b ltac:(lia)).
      set (h := ones_from w (b * M) (Z.to_nat M)) in *.
      replace M with (2 * h) at 1 2 by lia.
      rewrite half_of_int by lia. reflexivity. }
    assert (Hall : forall l, (forall b, In b l -> In b (zrange (Z.to_nat nBlocks))) ->
              fold_right
                (fun b chi =>
                   (chi + ((Double.of_Z (ones_from w (b * M) (Z.to_nat M)) / Double.of_Z M
                            - Double.half)
                           * (Double.of_Z (ones_from w (b * M) (Z.to_nat M)) / Double.of_Z M
                              - Double.half)))%D)
                Double.zero l = Double.zero).
    { induction l as [|b l IH]; intros Hin; [reflexivity|].
      cbn [fold_right]. apply Hterm; [apply Hin; left; reflexivity|].
      apply IH. intros c Hc. apply Hin. right. exact Hc. }
    apply Hall. intros b Hb. now apply in_rev. }
  split; [exact Hdev|].
  rewrite block_frequency_value by (try assumption; unfold INT_MAX; lia).
  fold nBlocks. rewrite Hdev.
  (* 0 * (4 M) / 2 is 0 *)
  destruct four_normal as [N4 V4].
  destruct (small_int_normal M ltac:(lia)) as [NM VM].
  destruct (small_int_normal (4 * M) ltac:(lia)) as [N4M V4M].
  pose proof (pow2_pos 1074 ltac:(lia)) as HU.
  assert (E4M : (Double.four * Double.of_Z M)%D = Double.of_Z (4 * M)).
  { apply mul_exact_pos; try assumption.
    - rewrite V4. lia.
    - rewrite VM. nia.
    - rewrite V4, VM, V4M. ring. }
  rewrite E4M.
  destruct (normal_pos_inv _ N4M) as [m4 [e4 [E4 _]]]. rewrite E4.
  change (Double.sqrt (Double.zero * S754_finite false m4 e4 / Double.two))%D
    with Double.zero.
  assert (Hle : nBlocks * M <= 32 * len).
  { subst nBlocks. rewrite Z.mul_comm. apply Z.mul_div_le. lia. }
  (* the denominator is a positive finite number *)
  assert (HnB : nBlocks <= 32 * len).
  { subst nBlocks. apply Z.div_le_upper_bound; nia. }
  pose proof (of_Z_normal nBlocks ltac:(lia)) as NnB.
  destruct (of_Z_bounds nBlocks) as [_ [HnBl _]].
  { pose proof (pow2_le 64 1024 ltac:(lia)). lia. }
  assert (HnB1 : 2 ^ 1074 <= Vabs (Double.of_Z nBlocks)).
  { destruct (HnBl (2 ^ 52) (-52) ltac:(lia) ltac:(lia)) as [Hi | Hge].
    - change (Vfin (2 ^ 52) (-52)) with (2 ^ 1074). unfold Vfin.
      change (2 ^ (0 + 1074)) with (2 ^ 1074). nia.
    - rewrite Hi in NnB. contradiction.
    - exact Hge. }
  destruct (halved_normal _ NnB HnB1) as [mh [eh Eh]]. rewrite Eh.
  assert (Nh : normal_pos (S754_finite false mh eh)).
  { rewrite <- Eh.
    destruct two_normal as [N2 V2].
    destruct (div_bounds _ _ NnB N2) as [Cq [_ Hqu]].
    { rewrite V2. pose proof (pow2_pos 960 ltac:(lia)).
      assert (2 <= 2 ^ 960) by (change 2 with (2 ^ 1) at 1; apply pow2_le; lia).
      nia. }
    destruct Cq as [Hi | Nq]; [|exact Nq].
    rewrite Eh in Hi. discriminate Hi. }
  destruct (sqrt_bounds _ Nh) as [Nr _].
  destruct (normal_pos_inv _ Nr) as [mr [er [Er _]]]. rewrite Er.
  change (Double.zero / S754_finite false mr er)%D with Double.zero.
  unfold verdict. rewrite erfc_zero. reflexivity.
Qed.

End BlockFrequencyVerdicts.

Lemma block_frequency_balanced_passes_witness :
  ((fun _ : Double.double => Double.one) Double.zero >=? Double.alpha)%D = true
  /\ buffer_ok (repeat 2863311530 20) 20 /\ 2 <= 32 <= INT_MAX /\ 32 mod 2 = 0
  /\ 20 <= 32 * 20 / 32
  /\ nist_block_frequency (fun _ => Double.one) (repeat 2863311530 20) 20 32 = 1.
Proof.
  assert (He : ((fun _ : Double.double => Double.one) Double.zero >=? Double.alpha)%D = true)
    by reflexivity.
  assert (Hok : buffer_ok (repeat 2863311530 20) 20).
  { split; [reflexivity | | reflexivity].
    apply Forall_forall. intros x Hx. apply repeat_spec in Hx. subst x.
    unfold word_ok. lia. }
  assert (HM : 2 <= 32 <= INT_MAX) by (unfold INT_MAX; lia).
  assert (Hn : 20 <= 32 * 20 / 32) by (vm_compute; discriminate).
  split; [exact He | split; [exact Hok | split; [exact HM | split; [reflexivity |
    split; [exact Hn|]]]]].
  refine (proj2 (block_frequency_balanced_passes (fun _ => Double.one) He
                   _ 20 32 Hok HM eq_refl Hn _)).
  intros b Hb. change (32 * 20 / 32) with 20 in Hb.
  assert (Hcases : b = 0 \/ b = 1 \/ b = 2 \/ b = 3 \/ b = 4 \/ b = 5 \/ b = 6
                   \/ b = 7 \/ b = 8 \/ b = 9 \/ b = 10 \/ b = 11 \/ b = 12
                   \/ b = 13 \/ b = 14 \/ b = 15 \/ b = 16 \/ b = 17 \/ b = 18
                   \/ b = 19) by lia.
  repeat (destruct Hcases as [-> | Hcases]; [vm_compute; reflexivity|]).
  subst b. vm_compute. reflexivity.
Defined.

(** ** Monobit: the numerator and complemented buffers *)

Lemma sub_swap x y :
  normal_pos x -> normal_pos y -> Vabs x <> Vabs y ->
  (x - y)%D = (- (y - x))%D.
Proof.
  intros Nx Ny Hne.
  destruct (normal_pos_inv x Nx) as [mx [ex [-> [Hmx Hex]]]].
  destruct (normal_pos_inv y Ny) as [my [ey [-> [Hmy Hey]]]].
  pose proof (sub_finite false mx ex false my ey) as Hxy.
  pose proof (sub_finite false my ey false mx ex) as Hyx.
  cbv zeta in Hxy, Hyx. rewrite Hxy, Hyx. cbn [cond_Zopp].
  rewrite (Z.min_comm ey ex).
  set (ez := Z.min ex ey).
  unfold Double.neg. rewrite <- normalize_opp.
  - f_equal. lia.
  - intros E. apply Hne. cbn [Vabs].
    rewrite <- (aligned_value (Zpos mx) ex ez) by (subst ez; lia).
    rewrite <- (aligned_value (Zpos my) ey ez) by (subst ez; lia).
    f_equal. lia.
Qed.

Lemma fabs_of_Z z : 0 < z < 2 ^ 53 -> Double.fabs (Double.of_Z z) = Double.of_Z z.
Proof.
  intros Hz. destruct (of_Z_exp z Hz) as [m [e [-> _]]]. reflexivity.
Qed.

Lemma fabs_neg_of_Z z :
  0 < z < 2 ^ 53 -> Double.fabs (- Double.of_Z z)%D = Double.of_Z z.
Proof.
  intros Hz. destruct (of_Z_exp z Hz) as [m [e [-> _]]]. reflexivity.
Qed.

(** [|2.0 * ones - n|] is computed exactly. *)
Lemma monobit_numerator ones n :
  0 <= ones <= n -> 1 <= n <= INT_MAX ->
  Double.fabs (Double.two * Double.of_Z ones - Double.of_Z n)%D
  = if 2 * ones =? n then Double.zero
    else Double.of_Z (Z.abs (2 * ones - n)).
Proof.
  intros Ho Hn. unfold INT_MAX in Hn.
  pose proof (pow2_pos 1074 ltac:(lia)) as HU.
  destruct (small_int_normal n ltac:(lia)) as [Nn Vn].
  destruct (Z.eq_dec ones 0) as [-> | Hpos].
  - destruct (Z.eqb_spec (2 * 0) n); [lia|].
    replace (Z.abs (2 * 0 - n)) with n by lia.
    destruct (of_Z_exp n ltac:(lia)) as [m [e [En _]]]. rewrite En. reflexivity.
  - rewrite double_int_exact by lia.
    destruct (small_int_normal (2 * ones) ltac:(lia)) as [Na Va].
    destruct (Z.eqb_spec (2 * ones) n) as [E | E].
    + rewrite E, sub_self; [reflexivity|].
      destruct (of_Z_exp n ltac:(lia)) as [m [e [En _]]]. rewrite En. eauto.
    + destruct (Z.lt_ge_cases n (2 * ones)) as [Hgt | Hle].
      * replace (Z.abs (2 * ones - n)) with (2 * ones - n) by lia.
        destruct (small_int_normal (2 * ones - n) ltac:(lia)) as [Nd Vd].
        rewrite (sub_exact_pos _ _ (Double.of_Z (2 * ones - n))); try assumption.
        -- apply fabs_of_Z. lia.
        -- rewrite Vd, Va, Vn. ring.
      * replace (Z.abs (2 * ones - n)) with (n - 2 * ones) by lia.
        destruct (small_int_normal (n - 2 * ones) ltac:(lia)) as [Nd Vd].
        rewrite sub_swap; try assumption.
        -- rewrite (sub_exact_pos _ _ (Double.of_Z (n - 2 * ones))); try assumption.
           ++ apply fabs_neg_of_Z. lia.
           ++ rewrite Vd, Va, Vn. ring.
        -- rewrite Va, Vn. nia.
Qed.

Lemma complement_count_ones w len :
  buffer_ok w len -> 0 <= len ->
  count_ones (bits (complement w) len) = 32 * len - count_ones (bits w len).
Proof.
  intros Hok Hlen. pose proof (buf_len _ _ Hok) as Hl.
  pose proof (buf_words _ _ Hok) as Hw.
  set (k := Z.to_nat (len * 32)).
  pose proof (walk_sum_ones w k) as H1.
  pose proof (walk_sum_ones (complement w) k) as H2.
  rewrite complement_walk_sum in H2 by (try assumption; lia).
  unfold bits. fold k. lia.
Qed.

(** X17. The monobit numerator [|2 * ones - n|] is computed without
    rounding, and the test does not see the polarity of the stream: a
    buffer and its bitwise complement, which has [n - ones] one-bits, get
    the same statistic and the same verdict. *)
Theorem monobit_complement_invariant :
  forall (erfc : Double.double -> Double.double) (w : list Z) (len : Z),
    buffer_ok w len -> 1 <= len -> len * 32 <= INT_MAX ->
    let n := 32 * len in
    let ones := count_ones (bits w len) in
    monobit_s w len
    = Double.div
        (if 2 * ones =? n then Double.zero else Double.of_Z (Z.abs (2 * ones - n)))
        (Double.sqrt (Double.of_Z n))
    /\ count_ones (bits (complement w) len) = n - ones
    /\ monobit_s (complement w) len = monobit_s w len
    /\ nist_monobit erfc (complement w) len = nist_monobit erfc w len.
Proof.
  intros erfc w len Hok Hlen Hint n ones.
  assert (Hstat : forall v, buffer_ok v len ->
            monobit_s v len
            = Double.div
                (if 2 * count_ones (bits v len) =? n then Double.zero
                 else Double.of_Z (Z.abs (2 * count_ones (bits v len) - n)))
                (Double.sqrt (Double.of_Z n))).
  { intros v Hv. unfold monobit_s. unfold INT_MAX in Hint.
    rewrite monobit_ones_count by (try assumption; lia).
    rewrite (wrap_s32_small len), wrap_s32_small by lia.
    replace (len * 32) with n by (subst n; lia).
    rewrite monobit_numerator; [reflexivity | | unfold INT_MAX; subst n; lia].
    pose proof (count_ones_prefix_bounds v (Z.to_nat (len * 32))) as Hb.
    unfold bits. subst n. lia. }
  pose proof (complement_count_ones w len Hok ltac:(lia)) as Hc. fold n ones in Hc.
  assert (Hs : monobit_s (complement w) len = monobit_s w len).
  { rewrite !Hstat by (try apply complement_ok; assumption).
    rewrite Hc. fold ones.
    replace (2 * (n - ones) - n) with (- (2 * ones - n)) by lia.
    rewrite Z.abs_opp.
    destruct (Z.eqb_spec (2 * (n - ones)) n), (Z.eqb_spec (2 * ones) n);
      try lia; reflexivity. }
  split; [now apply Hstat|]. split; [exact Hc|]. split; [exact Hs|].
  unfold nist_monobit. rewrite Hs. reflexivity.
Qed.

Lemma monobit_complement_invariant_witness :
  buffer_ok [2863311530; 7] 2 /\ 1 <= 2 /\ 2 * 32 <= INT_MAX
  /\ monobit_s (complement [2863311530; 7]) 2 = monobit_s [2863311530; 7] 2.
Proof.
  assert (Hok : buffer_ok [2863311530; 7] 2).
  { split; [reflexivity | | reflexivity].
    repeat constructor; unfold word_ok; lia. }
  assert (Hint : 2 * 32 <= INT_MAX) by (unfold INT_MAX; lia).
  split; [exact Hok | split; [lia | split; [exact Hint|]]].
  destruct (monobit_complement_invariant (fun _ => Double.one) _ 2 Hok
              ltac:(lia) Hint) as [_ [_ [H _]]].
  exact H.
Defined.

(** ** The driver: filling a buffer *)

Lemma store_nat_app l x y r :
  store_nat (l ++ y :: r) (length l) x = l ++ x :: r.
Proof. induction l as [|a l IH]; [reflexivity|]. cbn. now rewrite IH. Qed.

(** After [k] rounds the first [k] cells hold the first [k] outputs; the
    others are untouched. *)
Lemma fill_prefix {G : Type} (next : G -> Z * G) (k : nat) : forall buffer g,
  (k <= length buffer)%nat ->
  for_range 0 k
    (fun j '(buffer, g) => let '(x, g') := next g in (array_store buffer j x, g'))
    (buffer, g)
  = (outputs next k g ++ skipn k buffer, after next k g).
Proof.
  induction k as [|k IH]; intros buffer g Hk; [reflexivity|].
  rewrite for_range_snoc, IH by lia. rewrite Z.add_0_l.
  rewrite after_S, outputs_S.
  destruct (next (after next k g)) as [x g'] eqn:E. cbn [fst snd].
  f_equal. unfold array_store.
  destruct (Z.ltb_spec (Z.of_nat k) 0); [lia|]. rewrite Nat2Z.id.
  destruct (skipn k buffer) as [|y r] eqn:Es.
  { apply (f_equal (@length Z)) in Es. rewrite length_skipn in Es.
    cbn [length] in Es. lia. }
  assert (Er : skipn (Datatypes.S k) buffer = r).
  { replace (Datatypes.S k) with (1 + k)%nat by lia.
    rewrite <- skipn_skipn, Es. reflexivity. }
  rewrite Er.
  rewrite <- (outputs_length next k g) at 2.
  rewrite store_nat_app, <- app_assoc. reflexivity.
Qed.

Lemma fill_outputs {G : Type} (next : G -> Z * G) n buffer g :
  0 <= n -> Z.of_nat (length buffer) = n ->
  Driver.fill next n buffer g = (outputs next (Z.to_nat n) g, after next (Z.to_nat n) g).
Proof.
  intros Hn Hl. unfold Driver.fill, for_upto.
  rewrite fill_prefix by lia.
  rewrite skipn_all2 by lia. rewrite app_nil_r. reflexivity.
Qed.

Lemma outputs_words {G : Type} (next : G -> Z * G) (inv : G -> Prop) :
  (forall g, inv g -> word_ok (fst (next g)) /\ inv (snd (next g))) ->
  forall n g, inv g -> Forall word_ok (outputs next n g) /\ inv (after next n g).
Proof.
  intros Hstep. induction n as [|n IH]; intros g Hg.
  - split; [constructor | exact Hg].
  - destruct (IH g Hg) as [Hw Hi]. rewrite outputs_S, after_S.
    destruct (Hstep _ Hi) as [Hx Hi']. split; [|exact Hi'].
    apply Forall_app. split; [exact Hw | constructor; [exact Hx | constructor]].
Qed.

(** X18. The fill loop of the driver overwrites the whole buffer with
    the next [n] values of the generator, in order, and leaves the
    generator advanced by [n] steps; the result does not depend on the
    indeterminate initial content of the buffer.  For the three
    generators (from any state a constructor can build) the filled
    buffer is a well-formed buffer of [n] 32-bit words. *)
Theorem driver_fill_draws_stream :
  forall (G : Type) (next : G -> Z * G) (n : Z) (buffer : list Z) (g : G),
    0 <= n <= INT_MAX -> Z.of_nat (length buffer) = n ->
    Driver.fill next n buffer g
    = (outputs next (Z.to_nat n) g, after next (Z.to_nat n) g)
    /\ (forall buffer', Z.of_nat (length buffer') = n ->
          Driver.fill next n buffer' g = Driver.fill next n buffer g)
    /\ (forall inv : G -> Prop,
          (forall h, inv h -> word_ok (fst (next h)) /\ inv (snd (next h))) ->
          inv g ->
          buffer_ok (fst (Driver.fill next n buffer g)) n
          /\ inv (snd (Driver.fill next n buffer g)))
    /\ (forall l : LCG.t, buffer_ok (fst (Driver.fill LCG.next n buffer l)) n)
    /\ (forall x : XORShift32.t, word_ok (XORShift32.state x) ->
          buffer_ok (fst (Driver.fill XORShift32.next n buffer x)) n)
    /\ (forall c : MWC.t, mwc_ok c ->
          buffer_ok (fst (Driver.fill MWC.next n buffer c)) n).
Proof.
  intros G next n buffer g Hn Hl. unfold INT_MAX in Hn.
  assert (Hgen : forall (H : Type) (nx : H -> Z * H) (inv : H -> Prop),
             (forall h, inv h -> word_ok (fst (nx h)) /\ inv (snd (nx h))) ->
             forall h, inv h ->
               buffer_ok (fst (Driver.fill nx n buffer h)) n
               /\ inv (snd (Driver.fill nx n buffer h))).
  { intros H nx inv Hstep h Hh. rewrite fill_outputs by lia. cbn [fst snd].
    destruct (outputs_words nx inv Hstep (Z.to_nat n) h Hh) as [Hw Hi].
    split; [|exact Hi]. split; [rewrite outputs_length; lia | exact Hw | lia]. }
  split; [apply fill_outputs; lia|].
  split; [intros buffer' Hl'; rewrite !fill_outputs by lia; reflexivity|].
  split; [intros inv Hstep Hg; exact (Hgen G next inv Hstep g Hg)|].
  split; [|split].
  - intros l.
    refine (proj1 (Hgen _ LCG.next (fun _ => True) _ l I)).
    intros h _. split; [apply wrap_u32_range | exact I].
  - intros x Hx.
    refine (proj1 (Hgen _ XORShift32.next
                     (fun h => word_ok (XORShift32.state h)) _ x Hx)).
    intros h Hh. cbn [XORShift32.next fst snd XORShift32.state].
    split; now apply xorshift_step_word.
  - intros c Hc.
    refine (proj1 (Hgen _ MWC.next mwc_ok _ c Hc)).
    intros h Hh. destruct (mwc_next_value h Hh) as [Hok' _].
    split; [|exact Hok']. unfold MWC.next. cbn [fst MWC.state].
    apply wrap_u32_range.
Qed.

Lemma driver_fill_draws_stream_witness :
  0 <= 3 <= INT_MAX /\ Z.of_nat (length [7; 7; 7]) = 3
  /\ Driver.fill LCG.next 3 [7; 7; 7] (LCG.make 1234)
     = (outputs LCG.next (Z.to_nat 3) (LCG.make 1234),
        after LCG.next (Z.to_nat 3) (LCG.make 1234)).
Proof.
  assert (Hn : 0 <= 3 <= INT_MAX) by (unfold INT_MAX; lia).
  split; [exact Hn | split; [reflexivity|]].
  exact (proj1 (driver_fill_draws_stream _ LCG.next 3 [7; 7; 7] (LCG.make 1234)
                  Hn eq_refl)).
Defined.

(** ** The driver: one row *)

Lemma after_add {G : Type} (next : G -> Z * G) a b g :
  after next b (after next a g) = after next (a + b) g.
Proof. unfold after. symmetry. apply iter_nat_add. Qed.

Lemma sample_generator (erfc : Double.double -> Double.double) {G : Type}
    (next : G -> Z * G) n buffer acc g :
  0 <= n -> Z.of_nat (length buffer) = n ->
  snd (Driver.sample erfc next n buffer acc g) = after next (Z.to_nat n) g
  /\ forall buffer', Z.of_nat (length buffer') = n ->
       Driver.sample erfc next n buffer' acc g
       = Driver.sample erfc next n buffer acc g.
Proof.
  intros Hn Hl. unfold Driver.sample. split.
  - rewrite fill_outputs by lia. reflexivity.
  - intros buffer' Hl'. rewrite !fill_outputs by lia. reflexivity.
Qed.

(** X19. The samples of a row are consecutive stretches of one stream:
    the generator is not re-seeded between samples, so after the
    [num_samples = 10] samples of [sample_size] words it has advanced by
    exactly [10 * sample_size] steps; and the row's sums and averages do
    not depend on the indeterminate initial contents of the buffers. *)
Theorem driver_row_threads_generator :
  forall (erfc : Double.double -> Double.double) (G : Type)
         (next : G -> Z * G) (sample_size : Z) (junk : Z -> list Z) (g : G),
    0 <= sample_size ->
    (forall i, Z.of_nat (length (junk i)) = sample_size) ->
    snd (Driver.row erfc next sample_size junk g)
    = after next (Z.to_nat (Driver.num_samples * sample_size)) g
    /\ (forall junk', (forall i, Z.of_nat (length (junk' i)) = sample_size) ->
          Driver.row erfc next sample_size junk' g
          = Driver.row erfc next sample_size junk g).
Proof.
  intros erfc G next n junk g Hn Hj.
  assert (Hloop : forall (k : nat) jk,
             (forall i, Z.of_nat (length (jk i)) = n) ->
             snd (for_range 0 k
                    (fun i '(acc, g) => Driver.sample erfc next n (jk i) acc g)
                    (Driver.zero_sums, g))
             = after next (k * Z.to_nat n) g
             /\ for_range 0 k
                  (fun i '(acc, g) => Driver.sample erfc next n (jk i) acc g)
                  (Driver.zero_sums, g)
                = for_range 0 k
                    (fun i '(acc, g) => Driver.sample erfc next n (junk i) acc g)
                    (Driver.zero_sums, g)).
  { induction k as [|k IH]; intros jk Hjk; [split; reflexivity|].
    destruct (IH jk Hjk) as [IHg IHe].
    rewrite !for_range_snoc. rewrite IHe in *.
    destruct (for_range 0 k _ (Driver.zero_sums, g)) as [acc h] eqn:E.
    cbn [snd] in IHg. subst h.
    destruct (sample_generator erfc next n (jk (0 + Z.of_nat k)) acc
                (after next (k * Z.to_nat n) g) Hn (Hjk _)) as [Hs He].
    split.
    - rewrite Hs, after_add. f_equal. lia.
    - rewrite <- (He (junk (0 + Z.of_nat k)) (Hj _)). reflexivity. }
  unfold Driver.row, Driver.row_sums, for_upto.
  split.
  - destruct (Hloop (Z.to_nat Driver.num_samples) junk Hj) as [Hg _].
    destruct (for_range 0 _ _ (Driver.zero_sums, g)) as [acc h].
    cbn [snd] in *. rewrite Hg. f_equal.
    unfold Driver.num_samples. lia.
  - intros junk' Hj'.
    destruct (Hloop (Z.to_nat Driver.num_samples) junk' Hj') as [_ He].
    rewrite He. reflexivity.
Qed.

Lemma driver_row_threads_generator_witness :
  0 <= 2 /\ (forall i : Z, Z.of_nat (length [0; 0]) = 2)
  /\ snd (Driver.row (fun _ => Double.one) LCG.next 2 (fun _ => [0; 0]) (LCG.make 1234))
     = after LCG.next (Z.to_nat (Driver.num_samples * 2)) (LCG.make 1234).
Proof.
  assert (Hj : forall i : Z, Z.of_nat (length [0; 0]) = 2) by reflexivity.
  split; [lia | split; [exact Hj|]].
  exact (proj1 (driver_row_threads_generator (fun _ => Double.one) _ LCG.next 2
                  (fun _ => [0; 0]) (LCG.make 1234) ltac:(lia) Hj)).
Defined.

(** ** The driver: the statistics are called within their domain *)

Lemma sample_sizes_range s :
  In s Driver.sample_sizes -> 1000 <= s <= 100000 /\ s mod 4 = 0.
Proof.
  intros Hs. unfold Driver.sample_sizes in Hs. cbn [In] in Hs.
  repeat (destruct Hs as [<- | Hs]; [split; [lia | reflexivity]|]).
  contradiction.
Qed.

(** X20. For every sample size of the driver's table and every filled
    buffer, the statistics run inside their domain: [bins = 1000] does
    not exceed the sample size and the range is [2^32], so every sample
    is binned; the [int] bit count of [nist_monobit] does not overflow;
    the block size 128 divides the bit count into [sample_size / 4 >= 250]
    blocks, so the block-frequency test never returns early and uses
    every bit; [zmax] is at least 1; and the runs counter fits an
    [int]. *)
Theorem driver_statistics_in_domain :
  forall (erfc : Double.double -> Double.double) (sample_size : Z)
         (buffer : list Z),
    In sample_size Driver.sample_sizes -> buffer_ok buffer sample_size ->
    Driver.range = 2 ^ 32
    /\ Driver.bins <= sample_size <= INT_MAX
    /\ list_sum (chi_freq buffer sample_size Driver.bins Driver.range) = sample_size
    /\ wrap_s32 (wrap_s32 sample_size * 32) = 32 * sample_size
    /\ 32 * sample_size / 128 = sample_size / 4
    /\ 250 <= sample_size / 4
    /\ sample_size / 4 * 128 = 32 * sample_size
    /\ nist_block_frequency erfc buffer sample_size 128
       = verdict
           (erfc (Double.sqrt
                    (block_deviation buffer 128 (Z.to_nat (sample_size / 4))
                     * (Double.four * Double.of_Z 128) / Double.two)
                  / Double.sqrt (Double.of_Z (sample_size / 4) / Double.two))%D)
    /\ 1 <= cusum_zmax buffer sample_size <= 32 * sample_size
    /\ count_runs (bits buffer sample_size) <= INT_MAX.
Proof.
  intros erfc n buffer Hin Hok.
  destruct (sample_sizes_range n Hin) as [Hn H4].
  assert (Hq : 32 * n / 128 = n / 4).
  { replace (32 * n) with (n * 32) by lia. change 128 with (4 * 32).
    apply Z.div_mul_cancel_r; lia. }
  assert (Hd : n = 4 * (n / 4)).
  { pose proof (Z.div_mod n 4 ltac:(lia)). lia. }
  split; [reflexivity|]. split; [unfold Driver.bins, INT_MAX; lia|].
  split.
  { apply chi_freq_total; try assumption.
    - unfold Driver.bins, INT_MAX. lia.
    - unfold Driver.range. cbn. lia.
    - vm_compute. discriminate. }
  split; [rewrite (wrap_s32_small n), wrap_s32_small by lia; lia|].
  split; [exact Hq|]. split; [lia|]. split; [lia|].
  split.
  { rewrite block_frequency_value; try assumption.
    - rewrite Hq. reflexivity.
    - unfold INT_MAX. lia.
    - rewrite Hq. lia. }
  split.
  { pose proof (buf_bits _ _ Hok) as Hbits.
    pose proof (cusum_zmax_pos buffer n ltac:(lia) Hbits).
    pose proof (cusum_zmax_le_bits buffer n ltac:(lia) ltac:(lia)). lia. }
  pose proof (count_runs_bounds (bits buffer n)) as Hr.
  unfold bits in Hr. rewrite bits_prefix_length in Hr.
  unfold bits, INT_MAX. lia.
Qed.

Lemma driver_statistics_in_domain_witness :
  In 1000 Driver.sample_sizes /\ buffer_ok (repeat 5 1000) 1000
  /\ list_sum (chi_freq (repeat 5 1000) 1000 Driver.bins Driver.range) = 1000.
Proof.
  assert (Hin : In 1000 Driver.sample_sizes) by (left; reflexivity).
  assert (Hok : buffer_ok (repeat 5 1000) 1000).
  { split; [rewrite repeat_length; reflexivity | | reflexivity].
    apply Forall_forall. intros x Hx. apply repeat_spec in Hx. subst x.
    unfold word_ok. lia. }
  split; [exact Hin | split; [exact Hok|]].
  destruct (driver_statistics_in_domain (fun _ => Double.one) 1000 _ Hin Hok)
    as [_ [_ [H _]]].
  exact H.
Defined.

(** ** The cumulative-sums p-value *)

Lemma pack_shape m e :
  0 <= m -> -1074 <= e -> nonneg_shape (pack false m e).
Proof.
  intros Hm He. unfold pack. destruct m as [|p|p]; [exact I| |lia].
  destruct (Zpos p =? 2 ^ 53).
  - destruct (e + 1 <=? 971); cbn; [lia | exact I].
  - destruct (e <=? 971); cbn; [lia | exact I].
Qed.

Lemma binary_round_shape p e :
  nonneg_shape (binary_round Double.prec Double.emax false p e).
Proof.
  unfold binary_round, shl_align. rewrite fexp64_eq.
  set (f := fexp64 (Zpos (digits2_pos p) + e)).
  assert (Hf : f = fexp64 (Zdigits2 (Zpos p) + e)) by reflexivity.
  destruct (f - e) as [|q|q] eqn:E.
  - destruct (bra_spec false (Zpos p) e loc_Exact ltac:(lia) ltac:(lia))
      as [m2 [Hm2 [_ ->]]].
    apply pack_shape.
    + pose proof (Z.div_pos (Zpos p) (2 ^ (fexp64 (Zdigits2 (Zpos p) + e) - e))
                    ltac:(lia) ltac:(apply pow2_pos; lia)). lia.
    + unfold fexp64. lia.
  - destruct (bra_spec false (Zpos p) e loc_Exact ltac:(lia) ltac:(lia))
      as [m2 [Hm2 [_ ->]]].
    apply pack_shape.
    + pose proof (Z.div_pos (Zpos p) (2 ^ (fexp64 (Zdigits2 (Zpos p) + e) - e))
                    ltac:(lia) ltac:(apply pow2_pos; lia)). lia.
    + unfold fexp64. lia.
  - assert (Hq : e = f + Zpos q) by lia.
    assert (Hd : Zdigits2 (Zpos (Pos.iter xO p q)) + f = Zdigits2 (Zpos p) + e).
    { rewrite shift_pos_pow, Zdigits2_shift by lia. lia. }
    destruct (bra_spec false (Zpos (Pos.iter xO p q)) f loc_Exact
                ltac:(lia) ltac:(rewrite Hd; lia)) as [m2 [Hm2 [_ ->]]].
    apply pack_shape.
    + rewrite Hd in Hm2.
      pose proof (Z.div_pos (Zpos (Pos.iter xO p q))
                    (2 ^ (fexp64 (Zdigits2 (Zpos p) + e) - f))
                    ltac:(lia) ltac:(apply pow2_pos; lia)). lia.
    + unfold fexp64. lia.
Qed.

Lemma normalize_pos_shape D e :
  0 < D -> nonneg_shape (binary_normalize Double.prec Double.emax D e false).
Proof.
  intros HD. destruct D as [|p|p]; try lia.
  cbn [binary_normalize]. apply binary_round_shape.
Qed.

Lemma opp_nonneg_shape x : nonneg_shape x -> nonpos_shape (SFopp x).
Proof. destruct x as [[|]|[|]| |[|] m e]; cbn; auto. Qed.

Lemma normalize_neg_shape D e :
  D < 0 -> nonpos_shape (binary_normalize Double.prec Double.emax D e false).
Proof.
  intros HD. replace D with (- (- D)) by lia.
  rewrite normalize_opp by lia. apply opp_nonneg_shape, normalize_pos_shape. lia.
Qed.

(** The mantissa and exponent of a canonical double. *)
Lemma bounded_canonical m e :
  bounded Double.prec Double.emax m e = true ->
  -1074 <= e <= 971 /\ Zpos m < 2 ^ 53 /\ (-1074 < e -> 2 ^ 52 <= Zpos m).
Proof.
  unfold bounded, canonical_mantissa. rewrite fexp64_eq.
  intros H. apply andb_prop in H. destruct H as [Hc He].
  apply Z.eqb_eq in Hc. apply Z.leb_le in He.
  change (Double.emax - Double.prec) with 971 in He.
  destruct (Zdigits2_bounds (Zpos m) ltac:(lia)) as [[Hlo Hhi] Hd].
  change (Zdigits2 (Zpos m)) with (Zpos (digits2_pos m)) in *.
  set (d := Zpos (digits2_pos m)) in *.
  unfold fexp64 in Hc.
  split; [lia | split].
  - pose proof (pow2_le d 53 ltac:(lia)). lia.
  - intros Hn. assert (d = 53) by lia.
    replace (d - 1) with 52 in Hlo by lia. exact Hlo.
Qed.

Lemma leb_canonical m1 e1 m2 e2 :
  bounded Double.prec Double.emax m1 e1 = true ->
  bounded Double.prec Double.emax m2 e2 = true ->
  Double.leb (S754_finite false m1 e1) (S754_finite false m2 e2) = true ->
  Vfin (Zpos m1) e1 <= Vfin (Zpos m2) e2.
Proof.
  intros H1 H2. apply bounded_canonical in H1, H2.
  unfold Double.leb, SFleb. simpl SFcompare.
  destruct (Z.compare_spec e1 e2) as [Heq | Hlt | Hgt].
  - subst e2. change (Pos.compare_cont Eq m1 m2) with (Zpos m1 ?= Zpos m2).
    unfold Vfin. pose proof (pow2_pos (e1 + 1074) ltac:(lia)).
    destruct (Z.compare_spec (Zpos m1) (Zpos m2)); intros; try discriminate; nia.
  - intros _. apply Z.lt_le_incl. apply normal_exp_lt; lia.
  - discriminate.
Qed.

(** Subtracting a larger from a smaller number gives a zero or a negative
    double, never NaN. *)
Lemma sub_leb_nonpos u v :
  nonneg_finite u = true -> nonneg_finite v = true ->
  Double.leb u v = true -> nonpos_shape (u - v)%D.
Proof.
  destruct u as [[|]| | |[|] mu eu]; try discriminate;
    destruct v as [[|]| | |[|] mv ev]; try discriminate;
    cbn [nonneg_finite]; intros Hu Hv Hle.
  - exact I.
  - apply bounded_canonical in Hv. cbn. lia.
  - pose proof (leb_canonical _ _ _ _ Hu Hv Hle) as HV.
    apply bounded_canonical in Hu, Hv.
    rewrite sub_finite. cbn [cond_Zopp].
    set (ez := Z.min eu ev).
    set (D := Zpos mu * 2 ^ (eu - ez) - Zpos mv * 2 ^ (ev - ez)).
    assert (HD : D <= 0).
    { rewrite <- (aligned_value (Zpos mu) eu ez) in HV by (subst ez; lia).
      rewrite <- (aligned_value (Zpos mv) ev ez) in HV by (subst ez; lia).
      unfold Vfin in HV. pose proof (pow2_pos (ez + 1074) ltac:(subst ez; lia)).
      subst D. nia. }
    destruct (Z.eq_dec D 0) as [-> | Hnz]; [exact I|].
    apply normalize_neg_shape. lia.
Qed.

(** Subtracting a zero or a negative number from a number that is at
    least 1 leaves it at least 1. *)
Lemma sub_nonpos_grows p t :
  at_least_one p -> nonpos_shape t -> at_least_one (p - t)%D.
Proof.
  intros [-> | [Np Hp]] Ht.
  - left. destruct t as [[|]|[|]| |[|] m e]; try contradiction; reflexivity.
  - destruct (normal_pos_inv p Np) as [mp [ep [-> [Hmp Hep]]]].
    destruct t as [[|]|[|]| |[|] mt et]; try contradiction.
    + right. split; assumption.
    + right. split; assumption.
    + left. reflexivity.
    + cbn [nonpos_shape] in Ht. cbn [Vabs] in Hp.
      rewrite sub_finite. cbn [cond_Zopp].
      set (ez := Z.min ep et).
      set (D := Zpos mp * 2 ^ (ep - ez) - - (Zpos mt * 2 ^ (et - ez))).
      pose proof (pow2_pos (ep - ez) ltac:(subst ez; lia)).
      pose proof (pow2_pos (et - ez) ltac:(subst ez; lia)).
      assert (HD : 0 < D) by (subst D; nia).
      assert (HV : Vfin (Zpos mp) ep <= Vfin (Z.abs D) ez).
      { rewrite Z.abs_eq by lia.
        rewrite <- (aligned_value (Zpos mp) ep ez) by (subst ez; lia).
        unfold Vfin. pose proof (pow2_pos (ez + 1074) ltac:(subst ez; lia)).
        subst D. nia. }
      assert (Hbig : 2 ^ 52 <= Vfin (Z.abs D) ez).
      { pose proof (pow2_le 52 1074 ltac:(lia)). lia. }
      destruct (normalize_bounds D ez ltac:(lia) ltac:(subst ez; lia) Hbig)
        as [Hc [Hl _]].
      replace (D <? 0) with false in * by (symmetry; apply Z.ltb_ge; lia).
      set (r := binary_normalize Double.prec Double.emax D ez false) in *.
      destruct (Hl (Zpos mp) ep Hmp Hep HV) as [Hi | Hge]; [left; exact Hi|].
      destruct Hc as [Hc | [m [e [Hr [Hn _]]]]]; [left; exact Hc|].
      right. split; [rewrite Hr in *; exact Hn | lia].
Qed.

(** The quotients of two numerators by the same divisor keep the order of
    the numerators, when the numerators differ by more than a few units in
    the last place. *)
Lemma div_gap_mono x y r :
  normal_pos x -> normal_pos y -> normal_pos r ->
  2 ^ 1074 <= Vabs x -> Vabs y <= 2 ^ 53 * 2 ^ 1074 ->
  2 ^ 1074 <= Vabs r <= 2 ^ 26 * 2 ^ 1074 ->
  Vabs x * (2 ^ 50 + 1) <= Vabs y * 2 ^ 50 ->
  normal_pos (x / r)%D /\ normal_pos (y / r)%D
  /\ Vabs (x / r)%D <= Vabs (y / r)%D.
Proof.
  intros Nx Ny Nr Hx Hy Hr Hgap.
  set (K := 2 ^ 1074) in *.
  assert (HK : 0 < K) by (apply pow2_pos; lia).
  pose proof (pow2_pos 960 ltac:(lia)) as H960.
  assert (Hxy : Vabs x <= Vabs y) by nia.
  destruct (div_bounds x r Nx Nr ltac:(nia)) as [_ [Hxl Hxu]].
  destruct (div_bounds y r Ny Nr ltac:(nia)) as [Cy [Hyl Hyu]].
  set (qx := (x / r)%D) in *. set (qy := (y / r)%D) in *.
  assert (V53 : Vfin (2 ^ 52) 1 = 2 ^ 53 * K) by reflexivity.
  assert (Vlo : Vfin (2 ^ 52) (-78) * 2 ^ 26 = K) by reflexivity.
  destruct (Hxu (2 ^ 52) 1 ltac:(lia) ltac:(lia)) as [Nqx Uqx];
    [rewrite V53; nia|].
  destruct (Hyu (2 ^ 52) 1 ltac:(lia) ltac:(lia)) as [Nqy Uqy];
    [rewrite V53; nia|].
  assert (Lqx : Vfin (2 ^ 52) (-78) <= Vabs qx).
  { destruct (Hxl (2 ^ 52) (-78) ltac:(lia) ltac:(lia)) as [Hi | Hge];
      [nia | rewrite Hi in Nqx; contradiction | exact Hge]. }
  split; [exact Nqx | split; [exact Nqy|]].
  destruct (normal_pos_inv qx Nqx) as [m [e [Eq [Hm He]]]].
  rewrite Eq in *. cbn [Vabs] in *.
  assert (He1 : -78 <= e).
  { destruct (Z.leb_spec (-78) e); [assumption | exfalso].
    pose proof (normal_exp_lt (Zpos m) e (2 ^ 52) (-78)
                  ltac:(lia) ltac:(lia) ltac:(lia) ltac:(lia)). lia. }
  assert (He2 : e <= 1).
  { destruct (Z.leb_spec e 1); [assumption | exfalso].
    pose proof (normal_exp_lt (2 ^ 53 - 1) 1 (Zpos m) e
                  ltac:(lia) ltac:(lia) ltac:(lia) ltac:(lia)) as Hlt.
    assert (Vfin (2 ^ 52) 1 <= Vfin (2 ^ 53 - 1) 1) by (unfold Vfin; nia).
    lia. }
  pose proof (pow2_pos (e + 1074) ltac:(lia)) as Hpe.
  (* the quotient is above the double before [qx] *)
  assert (Hbelow : Vfin (Zpos m - 1) e * Vabs r < Vabs x * K).
  { destruct (Z.ltb_spec (Vfin (Zpos m - 1) e * Vabs r) (Vabs x * K)) as [|Hge];
      [assumption | exfalso].
    destruct (Z.eq_dec (Zpos m) (2 ^ 52)) as [E52 | N52].
    - assert (Hle : Vfin (Zpos m - 1) e <= Vfin (2 ^ 53 - 1) (e - 1)).
      { rewrite E52. unfold Vfin.
        replace (e + 1074) with (1 + (e - 1 + 1074)) by lia.
        rewrite pow2_split by lia. change (2 ^ 1) with 2.
        pose proof (pow2_pos (e - 1 + 1074) ltac:(lia)). nia. }
      destruct (Hxu (2 ^ 53 - 1) (e - 1) ltac:(lia) ltac:(lia)) as [_ Hu]; [nia|].
      assert (Vfin (2 ^ 53 - 1) (e - 1) < Vfin (Zpos m) e).
      { apply normal_exp_lt; lia. }
      lia.
    - destruct (Hxu (Zpos m - 1) e ltac:(lia) ltac:(lia)) as [_ Hu]; [lia|].
      unfold Vfin in Hu. nia. }
  (* the double after [qx] is below the larger quotient *)
  assert (Habove : Vfin (Zpos m + 1) e * Vabs r <= Vabs y * K).
  { assert (H1 : Vfin (Zpos m + 1) e * (Zpos m - 1)
                 = Vfin (Zpos m - 1) e * (Zpos m + 1)) by (unfold Vfin; ring).
    assert (H2 : Vabs x * (Zpos m + 1) * 2 ^ 50 <= Vabs y * (Zpos m - 1) * 2 ^ 50).
    { assert (2 ^ 51 <= Zpos m - 1) by lia.
      assert (0 <= Vabs x) by lia.
      nia. }
    assert (H3 : Vabs x * (Zpos m + 1) <= Vabs y * (Zpos m - 1)) by lia.
    assert (H4 : Vfin (Zpos m + 1) e * Vabs r * (Zpos m - 1)
                 <= Vabs y * K * (Zpos m - 1)).
    { replace (Vfin (Zpos m + 1) e * Vabs r * (Zpos m - 1))
        with (Vfin (Zpos m - 1) e * Vabs r * (Zpos m + 1))
        by (unfold Vfin; ring).
      assert (Vfin (Zpos m - 1) e * Vabs r * (Zpos m + 1)
              <= Vabs x * K * (Zpos m + 1))
        by (apply Z.mul_le_mono_nonneg_r; lia).
      assert (Vabs x * (Zpos m + 1) * K <= Vabs y * (Zpos m - 1) * K)
        by (apply Z.mul_le_mono_nonneg_r; lia).
      lia. }
    assert (0 < Zpos m - 1) by lia.
    nia. }
  assert (Hnext : Vfin (Zpos m) e < Vfin (Zpos m + 1) e) by (unfold Vfin; nia).
  destruct (Z.eq_dec (Zpos m + 1) (2 ^ 53)) as [E53 | N53].
  - assert (HU : Vfin (2 ^ 52) (e + 1) = Vfin (Zpos m + 1) e).
    { rewrite E53. unfold Vfin.
      replace (e + 1 + 1074) with (1 + (e + 1074)) by lia.
      rewrite pow2_split by lia. change (2 ^ 1) with 2. lia. }
    destruct (Hyl (2 ^ 52) (e + 1) ltac:(lia) ltac:(lia)) as [Hi | Hge];
      [rewrite HU; exact Habove | rewrite Hi in Nqy; contradiction | lia].
  - destruct (Hyl (Zpos m + 1) e ltac:(lia) ltac:(lia)) as [Hi | Hge];
      [exact Habove | rewrite Hi in Nqy; contradiction | lia].
Qed.

Lemma of_Z_neg z : 0 < z -> Double.of_Z (- z) = (- Double.of_Z z)%D.
Proof. intros Hz. unfold Double.of_Z. apply normalize_opp. lia. Qed.

Lemma mul_neg_l mx ex my ey :
  (- S754_finite false mx ex * S754_finite false my ey)%D
  = (- (S754_finite false mx ex * S754_finite false my ey))%D.
Proof.
  unfold Double.neg, Double.mul, SFmul. cbn [SFopp negb xorb]. apply bra_opp.
Qed.

Lemma mul_neg_r mx ex my ey :
  (S754_finite false mx ex * - S754_finite false my ey)%D
  = (- (S754_finite false mx ex * S754_finite false my ey))%D.
Proof.
  unfold Double.neg, Double.mul, SFmul. cbn [SFopp negb xorb]. apply bra_opp.
Qed.

Lemma neg_sub_add mx ex my ey :
  (- S754_finite false mx ex - S754_finite false my ey)%D
  = (- (S754_finite false mx ex + S754_finite false my ey))%D.
Proof.
  unfold Double.neg. cbn [SFopp negb].
  pose proof (sub_finite true mx ex false my ey) as Hs.
  pose proof (add_finite false mx ex false my ey) as Ha.
  cbv zeta in Ha, Hs. rewrite Ha, Hs. cbn [cond_Zopp].
  pose proof (pow2_pos (ex - Z.min ex ey) ltac:(lia)).
  pose proof (pow2_pos (ey - Z.min ex ey) ltac:(lia)).
  rewrite <- normalize_opp by nia. f_equal. lia.
Qed.

Lemma add_exact_pos x y b :
  normal_pos x -> normal_pos y -> normal_pos b ->
  Vabs b = Vabs x + Vabs y -> (x + y)%D = b.
Proof.
  intros Hx Hy Hb HV.
  destruct (normal_pos_inv b Hb) as [mb [eb [Eb [Hmb Heb]]]].
  assert (Hvb : Vabs b = Vfin (Zpos mb) eb) by (rewrite Eb; reflexivity).
  destruct (add_pos_bounds x y Hx Hy) as [Hc [Hl Hu]].
  destruct (Hu (Zpos mb) eb Hmb Heb ltac:(lia)) as [Hn Hle].
  destruct (Hl (Zpos mb) eb Hmb Heb ltac:(lia)) as [Hi | Hge].
  - rewrite Hi in Hn. contradiction.
  - apply normal_pos_eq; try assumption. lia.
Qed.

Lemma of_Z_mul a b :
  0 < a -> 0 < b -> a * b < 2 ^ 53 ->
  (Double.of_Z a * Double.of_Z b)%D = Double.of_Z (a * b).
Proof.
  intros Ha Hb Hab.
  destruct (small_int_normal a ltac:(nia)) as [Na Va].
  destruct (small_int_normal b ltac:(nia)) as [Nb Vb].
  destruct (small_int_normal (a * b) ltac:(nia)) as [Nc Vc].
  pose proof (pow2_pos 1074 ltac:(lia)).
  apply mul_exact_pos; try assumption; nia.
Qed.

Lemma of_Z_add a b :
  0 < a -> 0 < b -> a + b < 2 ^ 53 ->
  (Double.of_Z a + Double.of_Z b)%D = Double.of_Z (a + b).
Proof.
  intros Ha Hb Hab.
  destruct (small_int_normal a ltac:(lia)) as [Na Va].
  destruct (small_int_normal b ltac:(lia)) as [Nb Vb].
  destruct (small_int_normal (a + b) ltac:(lia)) as [Nc Vc].
  apply add_exact_pos; try assumption. rewrite Va, Vb, Vc. ring.
Qed.

Lemma of_Z_sub a b :
  0 < b -> b < a -> a < 2 ^ 53 ->
  (Double.of_Z a - Double.of_Z b)%D = Double.of_Z (a - b).
Proof.
  intros Hb Hab Ha.
  destruct (small_int_normal a ltac:(lia)) as [Na Va].
  destruct (small_int_normal b ltac:(lia)) as [Nb Vb].
  destruct (small_int_normal (a - b) ltac:(lia)) as [Nc Vc].
  apply sub_exact_pos; try assumption. rewrite Va, Vb, Vc. ring.
Qed.

Lemma neg_of_Z_finite z :
  0 < z < 2 ^ 53 ->
  exists m e, Double.of_Z z = S754_finite false m e.
Proof.
  intros Hz. destruct (of_Z_exp z Hz) as [m [e [E _]]]. now exists m, e.
Qed.

(** The numerators [(4k + 1) * zmax] and [(4k - 1) * zmax] of the two
    arguments of [erfc] are computed without rounding. *)
Lemma cusum_numerators k z :
  1 <= z -> (4 * Z.abs k + 1) * z < 2 ^ 53 ->
  let hi := ((Double.four * Double.of_Z k + Double.one) * Double.of_Z z)%D in
  let lo := ((Double.four * Double.of_Z k - Double.one) * Double.of_Z z)%D in
  (1 <= k -> hi = Double.of_Z ((4 * k + 1) * z)
             /\ lo = Double.of_Z ((4 * k - 1) * z))
  /\ (k = 0 -> hi = Double.of_Z z /\ lo = (- Double.of_Z z)%D)
  /\ (k <= -1 -> hi = (- Double.of_Z ((4 * - k - 1) * z))%D
                 /\ lo = (- Double.of_Z ((4 * - k + 1) * z))%D).
Proof.
  intros Hz Hb hi lo.
  change Double.four with (Double.of_Z 4) in *.
  change Double.one with (Double.of_Z 1) in *.
  destruct (neg_of_Z_finite z ltac:(nia)) as [mz [ez Ez]].
  split; [|split].
  - intros Hk. rewrite Z.abs_eq in Hb by lia. subst hi lo.
    rewrite of_Z_mul by nia.
    rewrite of_Z_add, of_Z_sub by nia.
    rewrite !of_Z_mul by nia. split; reflexivity.
  - intros ->. subst hi lo. change (Double.of_Z 0) with Double.zero.
    change (Double.of_Z 4 * Double.zero)%D with Double.zero.
    change (Double.zero + Double.of_Z 1)%D with (Double.of_Z 1).
    change (Double.zero - Double.of_Z 1)%D with (- Double.of_Z 1)%D.
    split.
    + rewrite of_Z_mul by lia. f_equal. lia.
    + rewrite Ez.
      change (Double.of_Z 1) with (S754_finite false 4503599627370496 (-52)).
      rewrite mul_neg_l. f_equal. rewrite <- Ez.
      change (S754_finite false 4503599627370496 (-52)) with (Double.of_Z 1).
      rewrite of_Z_mul by lia. f_equal. lia.
  - intros Hk. rewrite Z.abs_neq in Hb by lia. subst hi lo.
    set (c := - k) in *. assert (Hc : 1 <= c) by (subst c; lia).
    replace k with (- c) by (subst c; lia). clearbody c. clear Hk.
    rewrite of_Z_neg by lia.
    destruct (neg_of_Z_finite c ltac:(nia)) as [mk [ek Ek]].
    destruct (neg_of_Z_finite (4 * c) ltac:(nia)) as [m4 [e4 E4]].
    rewrite Ek.
    change (Double.of_Z 4) with (S754_finite false 4503599627370496 (-50)).
    rewrite mul_neg_r.
    change (S754_finite false 4503599627370496 (-50)) with (Double.of_Z 4).
    rewrite <- Ek, of_Z_mul by nia. rewrite E4.
    change (Double.of_Z 1) with (S754_finite false 4503599627370496 (-52)).
    rewrite neg_sub_add.
    assert (Hsw : (- S754_finite false m4 e4
                   + S754_finite false 4503599627370496 (-52))%D
                  = (- (S754_finite false m4 e4
                        - S754_finite false 4503599627370496 (-52)))%D).
    { apply neg_add_sub.
      assert (HV : Vfin (Zpos m4) e4 <> Vfin 4503599627370496 (-52)).
      { change (Vfin (Zpos m4) e4) with (Vabs (S754_finite false m4 e4)).
        rewrite <- E4.
        destruct (small_int_normal (4 * c) ltac:(nia)) as [_ ->].
        change (Vfin 4503599627370496 (-52)) with (2 ^ 1074).
        pose proof (pow2_pos 1074 ltac:(lia)). nia. }
      assert (N4 : normal_pos (S754_finite false m4 e4)).
      { rewrite <- E4. apply small_int_normal. nia. }
      destruct N4 as [_ He4].
      intros E. apply HV.
      rewrite <- (aligned_value (Zpos m4) e4 (Z.min e4 (-52))) by lia.
      rewrite <- (aligned_value 4503599627370496 (-52) (Z.min e4 (-52))) by lia.
      f_equal. exact E. }
    rewrite Hsw.
    change (S754_finite false 4503599627370496 (-52)) with (Double.of_Z 1).
    rewrite <- E4, of_Z_add, of_Z_sub by nia.
    destruct (neg_of_Z_finite (4 * c + 1) ltac:(nia)) as [ma [ea Ea]].
    destruct (neg_of_Z_finite (4 * c - 1) ltac:(nia)) as [mb [eb Eb]].
    rewrite Ea, Eb, Ez, !mul_neg_l, <- Ea, <- Eb, <- Ez.
    rewrite !of_Z_mul by nia. split; reflexivity.
Qed.

(** The divisor [sqrt (2.0 * n)] is between 1 and [2^26]. *)
Lemma cusum_root n :
  1 <= n < 2 ^ 49 ->
  let r := Double.sqrt (Double.two * Double.of_Z n)%D in
  normal_pos r /\ 2 ^ 1074 <= Vabs r <= 2 ^ 26 * 2 ^ 1074.
Proof.
  intros Hn r. subst r.
  rewrite double_int_exact by lia.
  destruct (small_int_normal (2 * n) ltac:(lia)) as [N2 V2].
  destruct (sqrt_bounds (Double.of_Z (2 * n)) N2) as [Nr [Hl Hu]].
  set (K := 2 ^ 1074) in *.
  assert (HK : 0 < K) by (apply pow2_pos; lia).
  split; [exact Nr | split].
  - change K with (Vfin (2 ^ 52) (-52)).
    apply Hl; [lia | lia |]. change (Vfin (2 ^ 52) (-52)) with K.
    rewrite V2. nia.
  - change (2 ^ 26 * K) with (Vfin (2 ^ 52) (-26)).
    apply Hu; [lia | lia |]. change (Vfin (2 ^ 52) (-26)) with (2 ^ 26 * K).
    rewrite V2. nia.
Qed.

(** The quotients [c * zmax / sqrt (2n)] grow with [c]. *)
Lemma cusum_quotients n z c :
  1 <= z -> 1 <= n < 2 ^ 49 -> 1 <= c -> (c + 2) * z <= n + 2 * z ->
  z <= n ->
  let r := Double.sqrt (Double.two * Double.of_Z n)%D in
  let q1 := (Double.of_Z (c * z) / r)%D in
  let q2 := (Double.of_Z ((c + 2) * z) / r)%D in
  normal_pos q1 /\ normal_pos q2 /\ Vabs q1 <= Vabs q2.
Proof.
  intros Hz Hn Hc Hcz Hzn r q1 q2.
  destruct (cusum_root n Hn) as [Nr Hr]. fold r in Nr, Hr.
  assert (Hc1 : 0 < c * z) by nia.
  assert (Hc2 : (c + 2) * z < 2 ^ 51) by lia.
  destruct (small_int_normal (c * z) ltac:(nia)) as [N1 V1].
  destruct (small_int_normal ((c + 2) * z) ltac:(nia)) as [N2 V2].
  pose proof (pow2_pos 1074 ltac:(lia)) as HK.
  apply div_gap_mono; try assumption.
  - rewrite V1. nia.
  - rewrite V2. nia.
  - rewrite V1, V2.
    assert (c * z * (2 ^ 50 + 1) <= (c + 2) * z * 2 ^ 50) by nia.
    nia.
Qed.

Lemma leb_neg_normal x y :
  normal_pos x -> normal_pos y -> Vabs x <= Vabs y ->
  Double.leb (- y)%D (- x)%D = true.
Proof.
  destruct x as [| | |[|] m1 e1]; try contradiction.
  destruct y as [| | |[|] m2 e2]; try contradiction.
  intros [H1 He1] [H2 He2] HV. cbn [Vabs] in HV.
  unfold Double.leb, SFleb, Double.neg. simpl.
  destruct (Z.compare_spec e2 e1) as [Heq | Hlt | Hgt].
  - subst e2. change (Pos.compare_cont Eq m2 m1) with (Zpos m2 ?= Zpos m1).
    unfold Vfin in HV. pose proof (pow2_pos (e1 + 1074) ltac:(lia)).
    destruct (Z.compare_spec (Zpos m2) (Zpos m1)); try reflexivity. nia.
  - pose proof (normal_exp_lt (Zpos m2) e2 (Zpos m1) e1
                  ltac:(lia) ltac:(lia) ltac:(lia) Hlt). lia.
  - reflexivity.
Qed.

Lemma leb_neg_pos x : normal_pos x -> Double.leb (- x)%D x = true.
Proof. destruct x as [| | |[|] m e]; try contradiction. reflexivity. Qed.

Lemma nonpos_leb_zero t : nonpos_shape t -> Double.leb t Double.zero = true.
Proof. destruct t as [[|]|[|]| |[|] m e]; try contradiction; reflexivity. Qed.

Lemma at_least_one_leb p :
  at_least_one p ->
  Double.leb Double.one p = true /\ verdict p = 1.
Proof.
  intros [-> | [Np Hp]]; [split; reflexivity|].
  split.
  - apply leb_normal_pos; [exact one_normal | exact Np |]. exact Hp.
  - unfold verdict, Double.geb. fold Double.leb.
    replace (Double.leb Double.alpha p) with true; [reflexivity|].
    symmetry. apply leb_normal_pos; [unfold Double.alpha; simpl; lia | exact Np|].
    assert (Vabs Double.alpha <= 2 ^ 1074) by (vm_compute; discriminate).
    lia.
Qed.

Section CusumVerdict.

(** What the verdict below uses of the C library's [erfc]: on a number it
    returns a non-negative number, and it does not increase. *)
Variable erfc : Double.double -> Double.double.
Hypothesis erfc_range :
  forall x, x <> S754_nan -> nonneg_finite (erfc x) = true.
Hypothesis erfc_decreasing :
  forall x y, Double.leb x y = true -> Double.leb (erfc y) (erfc x) = true.

Lemma cusum_term_nonpos n z k :
  1 <= z <= n -> n < 2 ^ 49 ->
  - ((n - z) / (4 * z)) <= k <= (n - z) / (4 * z) ->
  nonpos_shape (cusum_term erfc n z k).
Proof.
  intros Hz Hn Hk.
  set (j := (n - z) / (4 * z)) in *.
  assert (Hj : 4 * z * j <= n - z).
  { subst j. apply Z.mul_div_le. lia. }
  assert (Hj0 : 0 <= j) by (subst j; apply Z.div_pos; lia).
  assert (Hkz : (4 * Z.abs k + 1) * z <= n) by nia.
  unfold cusum_term.
  set (r := Double.sqrt (Double.two * Double.of_Z n)%D).
  destruct (cusum_numerators k z ltac:(lia) ltac:(lia)) as [Hpos [Hzero Hneg]].
  set (hi := ((Double.four * Double.of_Z k + Double.one) * Double.of_Z z)%D) in *.
  set (lo := ((Double.four * Double.of_Z k - Double.one) * Double.of_Z z)%D) in *.
  destruct (cusum_root n ltac:(lia)) as [Nr Hr]. fold r in Nr, Hr.
  destruct (normal_pos_inv r Nr) as [mr [er [Er _]]].
  assert (Hord : Double.leb (lo / r)%D (hi / r)%D = true
                 /\ (hi / r)%D <> S754_nan /\ (lo / r)%D <> S754_nan).
  { destruct (Z_lt_le_dec 0 k) as [Hp | Hnp];
      [| destruct (Z.eq_dec k 0) as [H0 | Hn0]].
    - destruct (Hpos ltac:(lia)) as [-> ->].
      rewrite Z.abs_eq in Hkz by lia.
      destruct (cusum_quotients n z (4 * k - 1) ltac:(lia) ltac:(lia)
                  ltac:(lia) ltac:(nia) ltac:(lia)) as [N1 [N2 HV]].
      fold r in N1, N2, HV.
      replace (4 * k - 1 + 2) with (4 * k + 1) in * by lia.
      split; [apply leb_normal_pos; assumption|].
      split; intros E; [rewrite E in N2 | rewrite E in N1]; contradiction.
    - destruct (Hzero H0) as [-> ->].
      destruct (cusum_quotients n z 1 ltac:(lia) ltac:(lia)
                  ltac:(lia) ltac:(nia) ltac:(lia)) as [N1 _].
      fold r in N1. rewrite Z.mul_1_l in N1.
      destruct (neg_of_Z_finite z ltac:(lia)) as [mz [ez Ez]].
      rewrite Ez, Er in *. rewrite neg_div.
      split; [apply leb_neg_pos; exact N1|].
      destruct (S754_finite false mz ez / S754_finite false mr er)%D
        as [| | |[|] mq eq]; try contradiction.
      split; discriminate.
    - rewrite Z.abs_neq in Hkz by lia.
      destruct (Hneg ltac:(lia)) as [-> ->].
      destruct (cusum_quotients n z (4 * - k - 1) ltac:(lia) ltac:(lia)
                  ltac:(lia) ltac:(nia) ltac:(lia)) as [N1 [N2 HV]].
      fold r in N1, N2, HV.
      replace (4 * - k - 1 + 2) with (4 * - k + 1) in * by lia.
      destruct (neg_of_Z_finite ((4 * - k - 1) * z) ltac:(nia)) as [ma [ea Ea]].
      destruct (neg_of_Z_finite ((4 * - k + 1) * z) ltac:(nia)) as [mb [eb Eb]].
      rewrite Ea, Eb, Er in *. rewrite !neg_div.
      split; [apply leb_neg_normal; assumption|].
      destruct (S754_finite false ma ea / S754_finite false mr er)%D
        as [| | |[|] mq eq]; try contradiction.
      destruct (S754_finite false mb eb / S754_finite false mr er)%D
        as [| | |[|] mq' eq']; try contradiction.
      split; discriminate. }
  destruct Hord as [Hle [Hhi Hlo]].
  apply sub_leb_nonpos.
  - apply erfc_range. exact Hhi.
  - apply erfc_range. exact Hlo.
  - apply erfc_decreasing. exact Hle.
Qed.

Lemma cusum_p_at_least_one n z :
  1 <= z <= n -> n < 2 ^ 49 ->
  let j := (n - z) / (4 * z) in
  at_least_one (cusum_p erfc n z (- j) j).
Proof.
  intros Hz Hn j. unfold cusum_p.
  assert (Hj0 : 0 <= j) by (subst j; apply Z.div_pos; lia).
  apply (for_range_inv (fun _ p => at_least_one p)).
  - right. split; [exact one_normal|]. change (Vabs Double.one) with (2 ^ 1074). lia.
  - intros k p Hk Hp. apply sub_nonpos_grows; [exact Hp|].
    apply cusum_term_nonpos; try assumption. fold j. lia.
Qed.

Lemma cusum_passes w len :
  buffer_ok w len -> 1 <= len < 2 ^ 44 ->
  (32 * len - cusum_zmax w len) / (4 * cusum_zmax w len) < INT_MAX ->
  Double.leb Double.one
    (cusum_p erfc (32 * len) (cusum_zmax w len)
       (cusum_start (32 * len) (cusum_zmax w len))
       (cusum_end (32 * len) (cusum_zmax w len))) = true
  /\ nist_cumulative_sums erfc w len = 1.
Proof.
  intros Hok Hlen Hfit.
  set (n := 32 * len) in *. set (zmax := cusum_zmax w len) in *.
  pose proof (buf_bits _ _ Hok) as Hbits.
  pose proof (cusum_zmax_pos w len ltac:(lia) Hbits) as Hpos. fold zmax in Hpos.
  pose proof (cusum_zmax_le_bits w len ltac:(lia) ltac:(lia)) as Hle.
  fold zmax in Hle.
  assert (Hn : n < 2 ^ 49) by (subst n; lia).
  assert (Hzn : 1 <= zmax <= n) by (subst n; lia).
  destruct (cusum_bounds_value n zmax Hzn Hn ltac:(lia)) as [He Hs].
  rewrite He, Hs.
  destruct (at_least_one_leb _ (cusum_p_at_least_one n zmax Hzn Hn)) as [H1 Hv].
  split; [exact H1|].
  unfold nist_cumulative_sums. fold zmax.
  destruct (Z.eqb_spec zmax 0); [lia|].
  rewrite bit_count_in_range by lia.
  replace (len * 32) with n by (subst n; lia).
  rewrite He, Hs. exact Hv.
Qed.

(** X21. The cumulative-sums test cannot fail on a non-empty buffer.
    Every term [erfc a - erfc b] the loop subtracts from [p] has
    [a >= b], so it is zero or negative for any [erfc] that does not
    increase; [p] starts at 1.0 and never goes below it, and the test
    returns 1 whatever the buffer holds. *)
Theorem cusum_never_fails :
  forall (w : list Z) (len : Z),
    buffer_ok w len -> 1 <= len < 2 ^ 44 ->
    (32 * len - cusum_zmax w len) / (4 * cusum_zmax w len) < INT_MAX ->
    let n := 32 * len in
    let zmax := cusum_zmax w len in
    (forall k, cusum_start n zmax <= k <= cusum_end n zmax ->
       Double.leb (cusum_term erfc n zmax k) Double.zero = true)
    /\ Double.leb Double.one
         (cusum_p erfc n zmax (cusum_start n zmax) (cusum_end n zmax)) = true
    /\ nist_cumulative_sums erfc w len = 1.
Proof.
  intros w len Hok Hlen Hfit n zmax.
  pose proof (buf_bits _ _ Hok) as Hbits.
  pose proof (cusum_zmax_pos w len ltac:(lia) Hbits) as Hpos. fold zmax in Hpos.
  pose proof (cusum_zmax_le_bits w len ltac:(lia) ltac:(lia)) as Hle.
  fold zmax in Hle.
  assert (Hn : n < 2 ^ 49) by (subst n; lia).
  assert (Hzn : 1 <= zmax <= n) by (subst n; lia).
  split; [|exact (cusum_passes w len Hok Hlen Hfit)].
  fold n zmax in Hfit.
  destruct (cusum_bounds_value n zmax Hzn Hn ltac:(lia)) as [He Hs].
  rewrite He, Hs.
  intros k Hk. apply nonpos_leb_zero. apply cusum_term_nonpos; assumption.
Qed.

End CusumVerdict.

Lemma cusum_never_fails_witness :
  (forall x, x <> S754_nan ->
     nonneg_finite
       ((fun x => if Double.ltb x Double.zero then Double.two else Double.zero) x)
     = true)
  /\ (forall x y, Double.leb x y = true ->
        Double.leb
          ((fun x => if Double.ltb x Double.zero then Double.two else Double.zero) y)
          ((fun x => if Double.ltb x Double.zero then Double.two else Double.zero) x)
        = true)
  /\ buffer_ok [0] 1 /\ 1 <= 1 < 2 ^ 44
  /\ (32 * 1 - cusum_zmax [0] 1) / (4 * cusum_zmax [0] 1) < INT_MAX
  /\ nist_cumulative_sums
       (fun x => if Double.ltb x Double.zero then Double.two else Double.zero)
       [0] 1 = 1.
Proof.
  assert (Hr : forall x, x <> S754_nan ->
     nonneg_finite
       ((fun x => if Double.ltb x Double.zero then Double.two else Double.zero) x)
     = true).
  { intros x _. cbv beta. destruct (Double.ltb x Double.zero); reflexivity. }
  assert (Hd : forall x y, Double.leb x y = true ->
        Double.leb
          ((fun x => if Double.ltb x Double.zero then Double.two else Double.zero) y)
          ((fun x => if Double.ltb x Double.zero then Double.two else Double.zero) x)
        = true).
  { intros x y. cbv beta.
    destruct x as [[|]|[|]| |[|] mx ex], y as [[|]|[|]| |[|] my ey];
      try reflexivity; try discriminate. }
  assert (Hok : buffer_ok [0] 1).
  { split; [reflexivity | | reflexivity].
    repeat constructor; unfold word_ok; lia. }
  assert (Hlen : 1 <= 1 < 2 ^ 44) by lia.
  assert (Hfit : (32 * 1 - cusum_zmax [0] 1) / (4 * cusum_zmax [0] 1) < INT_MAX)
    by (vm_compute; reflexivity).
  split; [exact Hr | split; [exact Hd | split; [exact Hok | split;
    [exact Hlen | split; [exact Hfit|]]]]].
  exact (proj2 (proj2 (cusum_never_fails _ Hr Hd [0] 1 Hok Hlen Hfit))).
Defined.

(** ** The serial test on a constant stream *)

Lemma tally_const v c l :
  (forall x, In x l -> x = c) ->
  tally v l = if v =? c then Z.of_nat (length l) else 0.
Proof.
  induction l as [|x l IH]; intros H.
  - rewrite tally_nil. destruct (v =? c); reflexivity.
  - rewrite tally_cons, IH by (intros y Hy; apply H; now right).
    rewrite (H x) by now left.
    destruct (v =? c); cbn [length]; lia.
Qed.

(** An integer with at most 53 significant bits, scaled by a power of
    two, converts without rounding. *)
Lemma of_Z_exact_scaled a s :
  0 < a < 2 ^ 53 -> 0 <= s <= 900 ->
  normal_pos (Double.of_Z (a * 2 ^ s))
  /\ Vabs (Double.of_Z (a * 2 ^ s)) = a * 2 ^ s * 2 ^ 1074.
Proof.
  intros Ha Hs.
  destruct (normal_form a s Ha ltac:(lia)) as [mb [eb [Hmb [Heb HV]]]].
  pose proof (pow2_pos s ltac:(lia)) as Hps.
  assert (HV' : Vfin mb eb = Vfin (a * 2 ^ s) 0).
  { rewrite HV. unfold Vfin. replace (s + 1074) with (s + (0 + 1074)) by lia.
    rewrite pow2_split by lia. ring. }
  assert (Hz : 0 < a * 2 ^ s < 2 ^ 1024).
  { split; [nia|].
    pose proof (pow2_le s 900 ltac:(lia)).
    assert (a * 2 ^ s < 2 ^ 53 * 2 ^ 900) by nia.
    rewrite <- pow2_split in H0 by lia.
    pose proof (pow2_le (53 + 900) 1024 ltac:(lia)). lia. }
  destruct (of_Z_bounds (a * 2 ^ s) Hz) as [_ [Hl Hu]].
  destruct (Hu mb eb Hmb Heb ltac:(lia)) as [Nr Hle].
  destruct (Hl mb eb Hmb Heb ltac:(lia)) as [Hi | Hge];
    [rewrite Hi in Nr; contradiction|].
  split; [exact Nr|].
  assert (Vabs (Double.of_Z (a * 2 ^ s)) = Vfin mb eb) by lia.
  rewrite H, HV'. unfold Vfin. change (0 + 1074) with 1074. ring.
Qed.

(** The square of a bit count [n = 32 * len] below [2^31], and its
    small multiples, convert and divide back without rounding. *)
Lemma serial_square_chain len (c : Z) (s : Z) :
  1 <= len -> len * 32 < 2 ^ 31 -> c = 2 ^ s -> 1 <= s <= 2 ->
  let n := 32 * len in
  let dn := Double.of_Z n in
  (Double.of_Z (n * n) * Double.of_Z c / dn - dn)%D = Double.of_Z ((c - 1) * n).
Proof.
  intros Hlen Hn Hc Hs n dn.
  assert (Hl2 : 0 < len * len < 2 ^ 53) by nia.
  destruct (of_Z_exact_scaled (len * len) 10 Hl2 ltac:(lia)) as [Nq Vq].
  replace (len * len * 2 ^ 10) with (n * n) in Nq, Vq by (subst n; ring).
  destruct (of_Z_exact_scaled (len * len) (10 + s) Hl2 ltac:(lia)) as [Nc Vc].
  replace (len * len * 2 ^ (10 + s)) with (n * n * c) in Nc, Vc
    by (rewrite pow2_split by lia; subst n c; ring).
  assert (Hc4 : c = 2 \/ c = 4).
  { assert (s = 1 \/ s = 2) as [-> | ->] by lia; subst c; [left | right];
      reflexivity. }
  destruct (small_int_normal c ltac:(lia)) as [NC VC].
  destruct (small_int_normal n ltac:(subst n; lia)) as [Nn Vn].
  destruct (small_int_normal (c * n) ltac:(subst n; lia)) as [Ncn Vcn].
  set (K := 2 ^ 1074) in *.
  assert (HK : 0 < K) by (apply pow2_pos; lia).
  assert (E1 : (Double.of_Z (n * n) * Double.of_Z c)%D = Double.of_Z (n * n * c)).
  { apply mul_exact_pos; try assumption.
    - fold K. rewrite Vq. nia.
    - fold K. rewrite VC. nia.
    - fold K. rewrite Vq, VC, Vc. ring. }
  rewrite E1.
  assert (E2 : (Double.of_Z (n * n * c) / dn)%D = Double.of_Z (c * n)).
  { apply div_exact; try assumption.
    - subst dn. rewrite Vn, Vc. pose proof (pow2_pos 960 ltac:(lia)).
      assert (n <= n * n * c) by nia. nia.
    - subst dn. fold K. rewrite Vc, Vcn, Vn. ring. }
  rewrite E2. subst dn.
  rewrite of_Z_sub by (subst n; lia).
  f_equal. ring.
Qed.

Lemma serial_psi2_sum_cases a b c d :
  serial_psi2_sum [a; b; c; d]
  = (Double.zero + Double.of_Z (wrap_u64 (a * a)) + Double.of_Z (wrap_u64 (b * b))
     + Double.of_Z (wrap_u64 (c * c)) + Double.of_Z (wrap_u64 (d * d)))%D.
Proof. reflexivity. Qed.

Section SerialVerdicts.

Variable erfc : Double.double -> Double.double.
Hypothesis erfc_tail :
  forall x, Double.leb Double.two x = true -> (erfc x >=? Double.alpha)%D = false.

(** [|psi2 - psi1| / (2 sqrt (2n)) >= 2] when the difference is [2n]. *)
Lemma serial_constant_statistic n :
  32 <= n < 2 ^ 31 ->
  Double.leb Double.two
    (Double.of_Z (2 * n)
     / (Double.two * Double.sqrt (Double.two * Double.of_Z n)))%D = true.
Proof.
  intros Hn.
  rewrite double_int_exact by lia.
  destruct (small_int_normal (2 * n) ltac:(lia)) as [N2 V2].
  destruct (of_Z_exp n ltac:(lia)) as [m [e [En [Hm [He Hv]]]]].
  set (K := 2 ^ 1074) in *.
  assert (HK : 0 < K) by (apply pow2_pos; lia).
  destruct (sqrt_bounds (Double.of_Z (2 * n)) N2) as [Nr [Hrl Hru]].
  set (r := Double.sqrt (Double.of_Z (2 * n))) in *.
  assert (Hhalf : Vfin (Zpos m) (e - 1) * 2 = n * K).
  { unfold Vfin in Hv. change (0 + 1074) with 1074 in Hv. fold K in Hv.
    rewrite <- Hv. unfold Vfin.
    replace (e + 1074) with (1 + (e - 1 + 1074)) by lia.
    rewrite (pow2_split 1 (e - 1 + 1074)) by lia. change (2 ^ 1) with 2. ring. }
  assert (Hr : Vabs r * 2 <= n * K).
  { rewrite <- Hhalf. apply Z.mul_le_mono_nonneg_r; [lia|].
    apply Hru; [assumption | lia |]. rewrite V2. fold K. nia. }
  assert (Hr1 : K <= Vabs r).
  { change K with (Vfin (2 ^ 52) (-52)).
    apply Hrl; [lia | lia |]. change (Vfin (2 ^ 52) (-52)) with K.
    rewrite V2. fold K. nia. }
  destruct (normal_pos_inv r Nr) as [mr [er [Er [Hmr Her]]]].
  assert (Her2 : er <= 0).
  { apply (normal_exp_upper (Zpos mr) er 52); [lia | lia |].
    change (2 ^ (52 + 1074)) with (2 ^ 52 * K).
    rewrite Er in Hr. cbn [Vabs] in Hr. nia. }
  set (d := S754_finite false mr (er + 1)).
  assert (Nd : normal_pos d) by (unfold d; cbn; lia).
  assert (Vd : Vabs d = 2 * Vabs r).
  { rewrite Er. unfold d. cbn [Vabs]. unfold Vfin.
    replace (er + 1 + 1074) with (1 + (er + 1074)) by lia.
    rewrite (pow2_split 1 (er + 1074)) by lia. change (2 ^ 1) with 2. ring. }
  destruct two_normal as [Nt Vt]. fold K in Vt.
  assert (Ed : (Double.two * r)%D = d).
  { apply mul_exact_pos; try assumption.
    - fold K. lia.
    - fold K. rewrite Vt, Vd. ring. }
  rewrite Ed.
  destruct (div_bounds (Double.of_Z (2 * n)) d N2 Nd) as [Cq [Hql _]].
  { rewrite V2, Vd. fold K. pose proof (pow2_pos 960 ltac:(lia)). nia. }
  destruct (Hql (2 ^ 52) (-51) ltac:(lia) ltac:(lia)) as [Hi | Hge].
  - change (Vfin (2 ^ 52) (-51)) with (2 * K). rewrite V2, Vd. fold K. nia.
  - rewrite Hi. reflexivity.
  - destruct Cq as [Hi | Nq]; [rewrite Hi; reflexivity|].
    apply leb_normal_pos; [exact Nt | exact Nq |].
    rewrite Vt. change (Vfin (2 ^ 52) (-51)) with (2 * K) in Hge. exact Hge.
Qed.

(** X22. A stream stuck at one value fails the serial test: all its
    [n] bits fall into one counter of [c1] and all its [n] cyclic pairs
    into one counter of [c2], [psi1 = n] and [psi2 = 3n] are computed
    without rounding, and the statistic [2n / (2 sqrt (2n))] is at least
    2. *)
Theorem serial2_constant_stream_fails :
  forall (w : list Z) (len : Z),
    buffer_ok w len -> 1 <= len -> len * 32 <= INT_MAX ->
    Forall (fun x => x = 0) w \/ Forall (fun x => x = 4294967295) w ->
    let n := 32 * len in
    let st := serial_counts w len in
    ((ss_c1 st = [n; 0] /\ ss_c2 st = [n; 0; 0; 0])
     \/ (ss_c1 st = [0; n] /\ ss_c2 st = [0; 0; 0; n]))
    /\ nist_serial2 erfc w len = 0.
Proof.
  intros w len Hok Hlen Hint Hconst n st. unfold INT_MAX in Hint.
  pose proof (buf_len _ _ Hok) as Hl.
  pose proof (buf_bits _ _ Hok) as Hbits.
  set (k := Z.to_nat (len * 32)).
  assert (Hn : n = Z.of_nat k) by (subst n k; lia).
  assert (Hc1 : forall c, Forall (fun x => list_sum (word_bits x) = c) w ->
                  ss_c1 st = [n - c * len; c * len]).
  { intros c Hc. subst st. unfold serial_counts, for_upto. cbn [ss_c1].
    rewrite bit_count_in_range by assumption. fold k.
    rewrite serial_c1_inv by lia.
    change (bits_prefix w k) with (bits w len).
    rewrite (count_ones_uniform_buffer w len c Hok ltac:(lia) Hc).
    rewrite Hn. reflexivity. }
  assert (Hc2 : forall x0 b, Forall (fun x => x = x0) w ->
                  (forall i, Z.b2z (Z.testbit x0 (i mod 32)) = b) ->
                  forall v, tally v (map (pair_pattern w) (cyclic_pairs n))
                            = if v =? 3 * b then n else 0).
  { intros x0 b Hx0 Hb v.
    rewrite (tally_const v (3 * b)).
    - unfold cyclic_pairs. rewrite !length_map, zrange_length.
      replace (Z.of_nat (Z.to_nat n)) with n by lia. reflexivity.
    - intros x Hx. apply in_map_iff in Hx. destruct Hx as [p [<- Hp]].
      unfold cyclic_pairs in Hp. apply in_map_iff in Hp.
      destruct Hp as [i [<- Hi]]. apply in_zrange in Hi.
      unfold pair_pattern. cbn [fst snd].
      pose proof (Z.mod_pos_bound (i + 1) n ltac:(lia)).
      rewrite !(constant_buffer_bit w x0) by (try assumption; lia).
      rewrite !Hb. lia. }
  pose proof (serial_c2_tallies w len Hok Hlen) as Ht. fold n st in Ht.
  assert (Hcounts : (ss_c1 st = [n; 0] /\ ss_c2 st = [n; 0; 0; 0])
                    \/ (ss_c1 st = [0; n] /\ ss_c2 st = [0; 0; 0; n])).
  { destruct Hconst as [H0 | H1]; [left | right]; split.
    - rewrite (Hc1 0)
        by (eapply Forall_impl; [|exact H0]; intros x ->; reflexivity).
      rewrite Z.mul_0_l, Z.sub_0_r. reflexivity.
    - rewrite Ht. unfold tallies. cbn [map].
      rewrite !(Hc2 0 0 H0) by (intros i; rewrite Z.testbit_0_l; reflexivity).
      reflexivity.
    - rewrite (Hc1 32)
        by (eapply Forall_impl; [|exact H1]; intros x ->; reflexivity).
      unfold n. rewrite Z.sub_diag. reflexivity.
    - rewrite Ht. unfold tallies. cbn [map].
      assert (Hb1 : forall i, Z.b2z (Z.testbit 4294967295 (i mod 32)) = 1).
      { intros i. change 4294967295 with (Z.ones 32).
        rewrite Z.ones_spec_low; [reflexivity|].
        apply Z.mod_pos_bound. lia. }
      rewrite !(Hc2 4294967295 1 H1 Hb1). reflexivity. }
  split; [exact Hcounts|].
  assert (Hnn : wrap_u64 (n * n) = n * n) by (apply wrap_u64_small; nia).
  assert (Hw0 : wrap_u64 (n * n + 0) = n * n)
    by (rewrite Z.add_0_r; exact Hnn).
  pose proof (serial_square_chain len 2 1 Hlen ltac:(lia) eq_refl ltac:(lia)) as P1.
  pose proof (serial_square_chain len 4 2 Hlen ltac:(lia) eq_refl ltac:(lia)) as P2.
  cbv zeta in P1, P2. fold n in P1, P2.
  change (Double.of_Z 2) with Double.two in P1.
  change (Double.of_Z 4) with Double.four in P2.
  assert (Hsq : exists m e, Double.of_Z (n * n) = S754_finite false m e).
  { destruct (of_Z_exact_scaled (len * len) 10 ltac:(nia) ltac:(lia)) as [Nq _].
    replace (len * len * 2 ^ 10) with (n * n) in Nq by (subst n; ring).
    destruct (normal_pos_inv _ Nq) as [m [e [E _]]]. now exists m, e. }
  assert (Hstat : nist_serial2 erfc w len
                  = verdict (erfc (Double.of_Z (2 * n)
                       / (Double.two * Double.sqrt (Double.two * Double.of_Z n)))%D)).
  { unfold nist_serial2. fold st.
    assert (Hsum : serial_psi2_sum (ss_c2 st) = Double.of_Z (n * n)
                   /\ Double.of_Z (wrap_u64 (array_get (ss_c1 st) 0
                                             + array_get (ss_c1 st) 1))
                      = Double.of_Z n
                   /\ Double.of_Z
                        (wrap_u64
                           (wrap_u64 (array_get (ss_c1 st) 0 * array_get (ss_c1 st) 0)
                            + wrap_u64 (array_get (ss_c1 st) 1 * array_get (ss_c1 st) 1)))
                      = Double.of_Z (n * n)).
    { destruct Hsq as [m [e Esq]].
      destruct Hcounts as [[E1 E2] | [E1 E2]]; rewrite E1, E2;
        rewrite serial_psi2_sum_cases;
        change (array_get [n; 0] 0) with n; change (array_get [n; 0] 1) with 0;
        change (array_get [0; n] 0) with 0; change (array_get [0; n] 1) with n;
        change (0 * 0) with 0; change (wrap_u64 0) with 0;
        rewrite ?Z.add_0_r, ?Z.add_0_l, ?Hnn;
        rewrite ?(wrap_u64_small n) by lia;
        rewrite ?Hnn; change (Double.of_Z 0) with Double.zero;
        rewrite Esq; repeat split; reflexivity. }
    destruct Hsum as [-> [-> ->]].
    rewrite P1, P2.
    replace ((2 - 1) * n) with n by ring.
    replace ((4 - 1) * n) with (3 * n) by ring.
    rewrite of_Z_sub by (subst n; lia).
    replace (3 * n - n) with (2 * n) by ring.
    rewrite fabs_of_Z by (subst n; lia). reflexivity. }
  rewrite Hstat. unfold verdict.
  rewrite erfc_tail; [reflexivity|].
  apply serial_constant_statistic. subst n. lia.
Qed.

End SerialVerdicts.

Lemma serial2_constant_stream_fails_witness :
  (forall x, Double.leb Double.two x = true ->
     ((fun x => if Double.leb Double.two x then Double.zero else Double.one) x
      >=? Double.alpha)%D = false)
  /\ buffer_ok [4294967295] 1 /\ 1 <= 1 /\ 1 * 32 <= INT_MAX
  /\ nist_serial2
       (fun x => if Double.leb Double.two x then Double.zero else Double.one)
       [4294967295] 1 = 0.
Proof.
  assert (Ht : forall x, Double.leb Double.two x = true ->
     ((fun x => if Double.leb Double.two x then Double.zero else Double.one) x
      >=? Double.alpha)%D = false).
  { intros x Hx. cbv beta. rewrite Hx. reflexivity. }
  assert (Hok : buffer_ok [4294967295] 1).
  { split; [reflexivity | | reflexivity].
    repeat constructor; unfold word_ok; lia. }
  assert (Hlen : 1 <= 1) by lia.
  assert (Hint : 1 * 32 <= INT_MAX) by (unfold INT_MAX; lia).
  split; [exact Ht | split; [exact Hok | split; [exact Hlen | split;
    [exact Hint|]]]].
  refine (proj2 (serial2_constant_stream_fails _ Ht [4294967295] 1 Hok Hlen Hint _)).
  right. repeat constructor.
Defined.

(** ** The block-frequency test on a constant stream *)

(** A power of four within a factor two of [b]. *)
Lemma pow4_bracket b :
  1 <= b < 2 ^ 53 ->
  exists t, 0 <= t <= 26 /\ b <= 2 * 2 ^ (2 * t) /\ 2 ^ (2 * t) <= 2 * b.
Proof.
  intros Hb.
  pose proof (Z.log2_spec b ltac:(lia)) as [Hlo Hhi].
  pose proof (Z.log2_nonneg b) as Hl0.
  set (l := Z.log2 b) in *.
  assert (Hl : l <= 52).
  { destruct (Z.leb_spec l 52); [assumption | exfalso].
    pose proof (pow2_le 53 l ltac:(lia)). lia. }
  exists ((l + 1) / 2).
  pose proof (Z.div_mod (l + 1) 2 ltac:(lia)) as Hdm.
  pose proof (Z.mod_pos_bound (l + 1) 2 ltac:(lia)) as Hm.
  set (t := (l + 1) / 2) in *.
  split; [lia | split].
  - pose proof (pow2_le (Z.succ l) (1 + 2 * t) ltac:(lia)) as H.
    rewrite (pow2_split 1 (2 * t)) in H by lia. change (2 ^ 1) with 2 in H. lia.
  - pose proof (pow2_le (2 * t) (1 + l) ltac:(lia)) as H.
    rewrite (pow2_split 1 l) in H by lia. change (2 ^ 1) with 2 in H. lia.
Qed.

(** Adding [0.25] once per block: after [t >= 1] blocks the sum is
    [t / 4], without rounding. *)
Lemma quarter_sum (t : nat) :
  (1 <= t)%nat -> Z.of_nat t < 2 ^ 53 ->
  let chi := fold_left (fun chi (_ : Z) => (chi + Double.half * Double.half)%D)
               (zrange t) Double.zero in
  normal_pos chi /\ 4 * Vabs chi = Z.of_nat t * 2 ^ 1074.
Proof.
  induction t as [|t IH]; [lia|]. intros _ Ht. cbv zeta.
  rewrite zrange_S, fold_left_app. cbn [fold_left].
  change (Double.half * Double.half)%D with (S754_finite false 4503599627370496 (-54)).
  set (q := S754_finite false 4503599627370496 (-54)).
  assert (Nq : normal_pos q) by (unfold q; cbn; lia).
  assert (Vq : 4 * Vabs q = 2 ^ 1074) by reflexivity.
  destruct t as [|t].
  - change (zrange 0) with (@nil Z). cbn [fold_left].
    change (Double.zero + q)%D with q.
    split; [exact Nq|]. rewrite Vq. lia.
  - destruct IH as [Nc Vc]; [lia | lia |].
    change (Double.half * Double.half)%D with q in Nc, Vc.
    set (chi := fold_left (fun chi (_ : Z) => (chi + q)%D)
                  (zrange (Datatypes.S t)) Double.zero) in *.
    destruct (normal_form (Z.of_nat (Datatypes.S (Datatypes.S t))) (-2)
                ltac:(lia) ltac:(lia)) as [mb [eb [Hmb [Heb HV]]]].
    destruct mb as [|pb|pb]; try lia.
    set (b := S754_finite false pb eb).
    assert (Nb : normal_pos b) by (unfold b; cbn; lia).
    assert (Vb : 4 * Vabs b = Z.of_nat (Datatypes.S (Datatypes.S t)) * 2 ^ 1074).
    { unfold b. cbn [Vabs]. rewrite HV. unfold Vfin.
      change (-2 + 1074) with 1072. change (2 ^ 1074) with (4 * 2 ^ 1072). ring. }
    rewrite (add_exact_pos chi q b Nc Nq Nb); [split; assumption|].
    lia.
Qed.

(** The number of ones of a block of a constant stream. *)
Lemma ones_from_constant w (x0 c : Z) start (k : nat) :
  Forall (fun x => x = x0) w ->
  (forall i, Z.b2z (Z.testbit x0 (i mod 32)) = c) ->
  0 <= start -> start + Z.of_nat k <= 32 * Z.of_nat (length w) ->
  ones_from w start k = Z.of_nat k * c.
Proof.
  intros Hw Hc Hs Hk. unfold ones_from.
  rewrite (list_sum_const _ c); [rewrite zrange_length; reflexivity|].
  intros j Hj. apply in_zrange in Hj.
  rewrite (constant_buffer_bit w x0) by (try assumption; lia). apply Hc.
Qed.

Section BlockFrequencyConstant.

Variable erfc : Double.double -> Double.double.
Hypothesis erfc_tail :
  forall x, Double.leb Double.two x = true -> (erfc x >=? Double.alpha)%D = false.

(** [sqrt (b M / 2) / sqrt (b / 2) >= 2] in double arithmetic, for
    [M >= 16]. *)
Lemma block_constant_statistic b M (x : Double.double) :
  20 <= b -> 16 <= M -> b * M < 2 ^ 53 ->
  normal_pos x -> Vabs x = b * M * 2 ^ 1074 ->
  Double.leb Double.two
    (Double.sqrt (x / Double.two) / Double.sqrt (Double.of_Z b / Double.two))%D
  = true.
Proof.
  intros Hb HM HbM Nx Vx.
  set (K := 2 ^ 1074) in *.
  assert (HK : 0 < K) by (apply pow2_pos; lia).
  assert (HK2 : K = 2 * 2 ^ 1073) by reflexivity.
  destruct two_normal as [Nt Vt]. fold K in Vt.
  destruct (small_int_normal b ltac:(nia)) as [Nb Vb]. fold K in Vb.
  pose proof (pow2_pos 960 ltac:(lia)) as H960.
  assert (H960' : 2 <= 2 ^ 960)
    by (change 2 with (2 ^ 1) at 1; apply pow2_le; lia).
  (* the two halves, exactly *)
  destruct (normal_form (b * M) (-1) ltac:(nia) ltac:(lia))
    as [m1 [e1 [Hm1 [He1 HV1]]]].
  destruct m1 as [|p1|p1]; try lia.
  set (h1 := S754_finite false p1 e1).
  assert (Nh1 : normal_pos h1) by (unfold h1; cbn; lia).
  assert (Vh1 : 2 * Vabs h1 = b * M * K).
  { unfold h1. cbn [Vabs]. rewrite HV1. unfold Vfin.
    change (-1 + 1074) with 1073. rewrite HK2. ring. }
  assert (E1 : (x / Double.two)%D = h1).
  { apply div_exact; try assumption.
    - rewrite Vt, Vx. fold K. nia.
    - rewrite Vt, Vx. fold K. nia. }
  destruct (normal_form b (-1) ltac:(nia) ltac:(lia))
    as [m2 [e2 [Hm2 [He2 HV2]]]].
  destruct m2 as [|p2|p2]; try lia.
  set (h2 := S754_finite false p2 e2).
  assert (Nh2 : normal_pos h2) by (unfold h2; cbn; lia).
  assert (Vh2 : 2 * Vabs h2 = b * K).
  { unfold h2. cbn [Vabs]. rewrite HV2. unfold Vfin.
    change (-1 + 1074) with 1073. rewrite HK2. ring. }
  assert (E2 : (Double.of_Z b / Double.two)%D = h2).
  { apply div_exact; try assumption.
    - rewrite Vt, Vb. nia.
    - rewrite Vt, Vb. fold K. nia. }
  rewrite E1, E2.
  (* a power of two between the two roots *)
  destruct (pow4_bracket b ltac:(nia)) as [t [Ht [Hbt Htb]]].
  set (T := 2 ^ t).
  assert (HT : 0 < T) by (apply pow2_pos; lia).
  assert (HT2 : 2 ^ (2 * t) = T * T).
  { replace (2 * t) with (t + t) by lia. apply pow2_split; lia. }
  rewrite HT2 in Hbt, Htb.
  assert (VU : Vfin (2 ^ 52) (t - 52) = T * K).
  { unfold Vfin, T, K. replace (t - 52 + 1074) with (t + 1022) by lia.
    rewrite (pow2_split t 1022) by lia.
    change (2 ^ 1074) with (2 ^ 52 * 2 ^ 1022). ring. }
  assert (VL : Vfin (2 ^ 52) (t - 51) = 2 * T * K).
  { unfold Vfin, T, K. replace (t - 51 + 1074) with (t + 1023) by lia.
    rewrite (pow2_split t 1023) by lia.
    change (2 ^ 1074) with (2 ^ 52 * 2 ^ 1022).
    change (2 ^ 1023) with (2 * 2 ^ 1022). ring. }
  destruct (sqrt_bounds h1 Nh1) as [Nr1 [Hl1 _]].
  destruct (sqrt_bounds h2 Nh2) as [Nr2 [_ Hu2]].
  set (r1 := Double.sqrt h1) in *. set (r2 := Double.sqrt h2) in *.
  assert (Hr1 : 2 * T * K <= Vabs r1).
  { rewrite <- VL. apply Hl1; [lia | lia |]. rewrite VL. fold K.
    assert (8 * (T * T) <= b * M) by nia.
    assert (2 * (2 * T * K * (2 * T * K)) <= 2 * Vabs h1 * K); [|lia].
    rewrite Vh1.
    replace (2 * (2 * T * K * (2 * T * K))) with (8 * (T * T) * (K * K)) by ring.
    replace (b * M * K * K) with (b * M * (K * K)) by ring.
    apply Z.mul_le_mono_nonneg_r; nia. }
  assert (Hr2 : Vabs r2 <= T * K).
  { rewrite <- VU. apply Hu2; [lia | lia |]. rewrite VU. fold K.
    assert (2 * Vabs h2 * K <= 2 * (T * K * (T * K))); [|lia].
    rewrite Vh2.
    replace (2 * (T * K * (T * K))) with (2 * (T * T) * (K * K)) by ring.
    replace (b * K * K) with (b * (K * K)) by ring.
    apply Z.mul_le_mono_nonneg_r; nia. }
  assert (Hr2pos : 0 < Vabs r2).
  { destruct (normal_pos_inv r2 Nr2) as [mr [er [Er [Hmr Her]]]].
    rewrite Er. cbn [Vabs]. apply Vfin_pos; lia. }
  destruct (div_bounds r1 r2 Nr1 Nr2) as [Cq [Hql _]]; [nia|].
  destruct (Hql (2 ^ 52) (-51) ltac:(lia) ltac:(lia)) as [Hi | Hge].
  - change (Vfin (2 ^ 52) (-51)) with (2 * K). fold K. nia.
  - rewrite Hi. reflexivity.
  - destruct Cq as [Hi | Nq]; [rewrite Hi; reflexivity|].
    apply leb_normal_pos; [exact Nt | exact Nq |].
    rewrite Vt. change (Vfin (2 ^ 52) (-51)) with (2 * K) in Hge. exact Hge.
Qed.

(** X23. A stream stuck at one value fails the block-frequency test for
    every block size from 16 on: each block deviates from one half by
    exactly [0.5], [chi] is exactly [nBlocks / 4], and the statistic
    [sqrt (nBlocks M / 2) / sqrt (nBlocks / 2)] is at least 2. *)
Theorem block_frequency_constant_stream_fails :
  forall (w : list Z) (len M : Z),
    buffer_ok w len -> 16 <= M <= INT_MAX -> len * 32 < 2 ^ 53 ->
    20 <= 32 * len / M ->
    Forall (fun x => x = 0) w \/ Forall (fun x => x = 4294967295) w ->
    let nBlocks := 32 * len / M in
    (block_deviation w M (Z.to_nat nBlocks) * Double.four)%D = Double.of_Z nBlocks
    /\ nist_block_frequency erfc w len M = 0.
Proof.
  intros w len M Hok HM Hbits Hn Hconst nBlocks.
  pose proof (buf_len _ _ Hok) as Hl.
  assert (Hlen : 0 <= len) by lia.
  unfold INT_MAX in HM.
  assert (Hle : nBlocks * M <= 32 * len).
  { subst nBlocks. rewrite Z.mul_comm. apply Z.mul_div_le. lia. }
  set (K := 2 ^ 1074).
  assert (HK : 0 < K) by (apply pow2_pos; lia).
  (* every block contributes 0.25 *)
  assert (Hterm : forall b, 0 <= b < nBlocks ->
            let pi := (Double.of_Z (ones_from w (b * M) (Z.to_nat M))
                       / Double.of_Z M)%D in
            ((pi - Double.half) * (pi - Double.half))%D
            = (Double.half * Double.half)%D).
  { intros b Hb. cbv zeta.
    destruct (small_int_normal M ltac:(lia)) as [NM VM].
    destruct (normal_pos_inv _ NM) as [mM [eM [EM _]]].
    assert (Hpos : 0 <= b * M /\ b * M + Z.of_nat (Z.to_nat M)
                                <= 32 * Z.of_nat (length w)) by nia.
    destruct Hconst as [H0 | H1].
    - rewrite (ones_from_constant w 0 0) by
        (try assumption; try lia; intros i; rewrite Z.testbit_0_l; reflexivity).
      rewrite Z.mul_0_r, EM. reflexivity.
    - assert (Hb1 : forall i, Z.b2z (Z.testbit 4294967295 (i mod 32)) = 1).
      { intros i. change 4294967295 with (Z.ones 32).
        rewrite Z.ones_spec_low; [reflexivity|].
        apply Z.mod_pos_bound. lia. }
      rewrite (ones_from_constant w 4294967295 1) by (try assumption; lia).
      rewrite Z.mul_1_r, Z2Nat.id by lia.
      rewrite (div_exact _ _ Double.one NM NM one_normal).
      + reflexivity.
      + rewrite VM. pose proof (pow2_pos 960 ltac:(lia)). nia.
      + rewrite Vabs_one. ring. }
  assert (Hdev : block_deviation w M (Z.to_nat nBlocks)
                 = fold_left (fun chi (_ : Z) => (chi + Double.half * Double.half)%D)
                     (zrange (Z.to_nat nBlocks)) Double.zero).
  { unfold block_deviation. apply fold_left_ext_in.
    intros chi b Hb. apply in_zrange in Hb. cbv zeta.
    rewrite (Hterm b) by lia. reflexivity. }
  destruct (quarter_sum (Z.to_nat nBlocks) ltac:(lia) ltac:(nia)) as [Nc Vc].
  cbv zeta in Nc, Vc. rewrite <- Hdev in Nc, Vc.
  rewrite Z2Nat.id in Vc by lia. fold K in Vc.
  set (chi := block_deviation w M (Z.to_nat nBlocks)) in *.
  destruct four_normal as [N4 V4]. fold K in V4.
  destruct (small_int_normal nBlocks ltac:(nia)) as [NB VB]. fold K in VB.
  assert (E4 : (chi * Double.four)%D = Double.of_Z nBlocks).
  { apply mul_exact_pos; try assumption.
    - fold K. lia.
    - fold K. lia.
    - fold K. rewrite V4, VB. nia. }
  split; [exact E4|].
  rewrite block_frequency_value by (try assumption; unfold INT_MAX; lia).
  fold nBlocks chi.
  destruct (small_int_normal M ltac:(lia)) as [NM VM]. fold K in VM.
  destruct (small_int_normal (nBlocks * M) ltac:(nia)) as [NBM VBM]. fold K in VBM.
  change Double.four with (Double.of_Z 4). rewrite (of_Z_mul 4 M) by lia.
  destruct (small_int_normal (4 * M) ltac:(lia)) as [N4M V4M]. fold K in V4M.
  assert (EBM : (chi * Double.of_Z (4 * M))%D = Double.of_Z (nBlocks * M)).
  { apply mul_exact_pos; try assumption.
    - fold K. lia.
    - fold K. rewrite V4M. nia.
    - fold K. rewrite V4M, VBM. nia. }
  rewrite EBM. unfold verdict.
  rewrite erfc_tail; [reflexivity|].
  apply (block_constant_statistic nBlocks M); try assumption; lia.
Qed.

End BlockFrequencyConstant.

Lemma block_frequency_constant_stream_fails_witness :
  (forall x, Double.leb Double.two x = true ->
     ((fun x => if Double.leb Double.two x then Double.zero else Double.one) x
      >=? Double.alpha)%D = false)
  /\ buffer_ok (repeat 0 10) 10 /\ 16 <= 16 <= INT_MAX /\ 10 * 32 < 2 ^ 53
  /\ 20 <= 32 * 10 / 16
  /\ nist_block_frequency
       (fun x => if Double.leb Double.two x then Double.zero else Double.one)
       (repeat 0 10) 10 16 = 0.
Proof.
  assert (Ht : forall x, Double.leb Double.two x = true ->
     ((fun x => if Double.leb Double.two x then Double.zero else Double.one) x
      >=? Double.alpha)%D = false).
  { intros x Hx. cbv beta. rewrite Hx. reflexivity. }
  assert (Hok : buffer_ok (repeat 0 10) 10).
  { split; [reflexivity | | reflexivity].
    apply Forall_forall. intros x Hx. apply repeat_spec in Hx. subst x.
    unfold word_ok. lia. }
  assert (HM : 16 <= 16 <= INT_MAX) by (unfold INT_MAX; lia).
  assert (Hb : 10 * 32 < 2 ^ 53) by lia.
  assert (Hn : 20 <= 32 * 10 / 16) by (vm_compute; discriminate).
  split; [exact Ht | split; [exact Hok | split; [exact HM | split;
    [exact Hb | split; [exact Hn|]]]]].
  refine (proj2 (block_frequency_constant_stream_fails _ Ht _ 10 16
                   Hok HM Hb Hn _)).
  left. apply Forall_forall. intros x Hx. apply repeat_spec in Hx. exact Hx.
Defined.

(** ** The runs test on a balanced stream *)

(** Halving a double that is at least 1 is exact. *)
Lemma mul_half_exact x b :
  normal_pos x -> normal_pos b -> 2 ^ 1074 <= Vabs x -> 2 * Vabs b = Vabs x ->
  (x * Double.half)%D = b.
Proof.
  intros Nx Nb Hx HV.
  destruct (normal_pos_inv x Nx) as [mx [ex [-> [Hmx Hex]]]].
  destruct (normal_pos_inv b Nb) as [mb [eb [Eb [Hmb Heb]]]].
  cbn [Vabs] in *.
  assert (Hvb : Vabs b = Vfin (Zpos mb) eb) by (rewrite Eb; reflexivity).
  assert (He : -52 <= ex).
  { apply (normal_exp_lower (Zpos mx) ex 0); first [lia | exact Hx]. }
  unfold Double.half.
  destruct (mul_bounds false mx ex false 4503599627370496 (-53) Hmx
              ltac:(lia) ltac:(lia) ltac:(lia) ltac:(lia)) as [Hc [Hl Hu]].
  cbn [xorb] in *.
  set (r := (S754_finite false mx ex * S754_finite false 4503599627370496 (-53))%D)
    in *.
  assert (Hh : Vfin 4503599627370496 (-53) * 2 = 2 ^ 1074) by reflexivity.
  pose proof (pow2_pos 1074 ltac:(lia)) as HK.
  destruct (Hu (Zpos mb) eb Hmb Heb ltac:(nia)) as [Hni Hle].
  destruct (Hl (Zpos mb) eb Hmb Heb ltac:(nia)) as [Hi | Hge]; [contradiction|].
  destruct Hc as [Hc | [m [e [Hr [Hn _]]]]]; [contradiction|].
  apply normal_pos_eq; try assumption.
  - rewrite Hr in *. exact Hn.
  - lia.
Qed.

Lemma count_runs_pos x l : 1 <= count_runs (x :: l).
Proof.
  revert x. induction l as [|y l IH]; intros x; [simpl; lia|].
  change (count_runs (x :: y :: l))
    with ((if x =? y then 0 else 1) + count_runs (y :: l)).
  specialize (IH y). destruct (x =? y); lia.
Qed.

Section RunsVerdicts.

Variable erfc : Double.double -> Double.double.
Hypothesis erfc_tail :
  forall x, Double.leb Double.two x = true -> (erfc x >=? Double.alpha)%D = false.

(** The statistic of a balanced stream whose number of runs is [d] away
    from [n / 2]: [d / (sqrt (2n) / 2)], at least 2 when [d^2 >= 2n]. *)
Lemma runs_balanced_statistic h runs :
  16 <= h -> 2 * h < 2 ^ 31 -> 1 <= runs <= 2 * h ->
  4 * h <= (runs - h) * (runs - h) ->
  Double.leb Double.two (runs_z runs (2 * h) Double.half) = true.
Proof.
  intros Hh Hn Hr Hfar. unfold runs_z.
  set (n := 2 * h) in *.
  set (K := 2 ^ 1074).
  assert (HK : 0 < K) by (apply pow2_pos; lia).
  change (Double.one - Double.half)%D with Double.half.
  destruct (small_int_normal n ltac:(lia)) as [Nn Vn]. fold K in Vn.
  destruct (small_int_normal (2 * n) ltac:(lia)) as [N2n V2n]. fold K in V2n.
  destruct (small_int_normal h ltac:(lia)) as [Nh Vh]. fold K in Vh.
  destruct (small_int_normal runs ltac:(lia)) as [NR VR]. fold K in VR.
  destruct two_normal as [Nt Vt]. fold K in Vt.
  rewrite double_int_exact by lia.
  (* expRuns = n / 2 *)
  rewrite (mul_half_exact (Double.of_Z (2 * n)) (Double.of_Z n) N2n Nn)
    by (fold K; lia).
  rewrite (mul_half_exact (Double.of_Z n) (Double.of_Z h) Nn Nh)
    by (fold K; subst n; lia).
  (* the numerator *)
  set (d := Z.abs (runs - h)).
  assert (Hd : 1 <= d < 2 ^ 31) by (subst d; nia).
  assert (Hdd : 4 * h <= d * d).
  { subst d. destruct (Z.abs_spec (runs - h)) as [[_ ->] | [_ ->]]; nia. }
  assert (Enum : Double.fabs (Double.of_Z runs - Double.of_Z h)%D = Double.of_Z d).
  { destruct (Z_lt_le_dec h runs) as [Hgt | Hle].
    - rewrite of_Z_sub by lia. rewrite fabs_of_Z by lia.
      f_equal. subst d. lia.
    - assert (Hne : runs <> h) by (intros ->; subst d; rewrite Z.sub_diag in Hd;
                                  cbn in Hd; lia).
      rewrite (sub_swap (Double.of_Z runs) (Double.of_Z h) NR Nh)
        by (rewrite VR, Vh; nia).
      rewrite of_Z_sub by lia. rewrite fabs_neg_of_Z by lia.
      f_equal. subst d. lia. }
  rewrite Enum.
  destruct (small_int_normal d ltac:(lia)) as [Nd Vd]. fold K in Vd.
  (* the denominator is sqrt (2n) / 2 *)
  destruct (sqrt_bounds (Double.of_Z (2 * n)) N2n) as [Nr [Hrl Hru]].
  set (r := Double.sqrt (Double.of_Z (2 * n))) in *.
  assert (Hr1 : K <= Vabs r).
  { change K with (Vfin (2 ^ 52) (-52)).
    apply Hrl; [lia | lia |]. change (Vfin (2 ^ 52) (-52)) with K.
    rewrite V2n. fold K. nia. }
  assert (Hrd : Vabs r <= d * K).
  { destruct (normal_pos_inv _ Nd) as [md [ed [Ed [Hmd Hed]]]].
    rewrite <- Vd, Ed. cbn [Vabs]. apply Hru; [assumption | assumption |].
    change (Vfin (Zpos md) ed) with (Vabs (S754_finite false md ed)).
    rewrite <- Ed, Vd, V2n. fold K.
    replace (d * K * (d * K)) with (d * d * (K * K)) by ring.
    replace (2 * n * K * K) with (2 * n * (K * K)) by ring.
    apply Z.mul_le_mono_nonneg_r; [nia | subst n; lia]. }
  destruct (normal_pos_inv r Nr) as [mr [er [Er [Hmr Her]]]].
  assert (Her2 : er <= 0).
  { apply (normal_exp_upper (Zpos mr) er 52); [lia | lia |].
    change (2 ^ (52 + 1074)) with (2 ^ 52 * K).
    rewrite Er in Hrd. cbn [Vabs] in Hrd. nia. }
  assert (Her1 : -52 <= er).
  { apply (normal_exp_lower (Zpos mr) er 0); try lia.
    rewrite Er in Hr1. exact Hr1. }
  set (r2 := S754_finite false mr (er + 1)).
  assert (Nr2 : normal_pos r2) by (unfold r2; cbn; lia).
  assert (Vr2 : Vabs r2 = 2 * Vabs r).
  { rewrite Er. unfold r2. cbn [Vabs]. unfold Vfin.
    replace (er + 1 + 1074) with (1 + (er + 1074)) by lia.
    rewrite (pow2_split 1 (er + 1074)) by lia. change (2 ^ 1) with 2. ring. }
  assert (E2r : (Double.two * r)%D = r2).
  { apply mul_exact_pos; try assumption.
    - fold K. lia.
    - fold K. rewrite Vt, Vr2. ring. }
  rewrite E2r.
  rewrite (mul_half_exact r2 r Nr2 Nr) by (fold K; lia).
  set (rh := S754_finite false mr (er - 1)).
  assert (Nrh : normal_pos rh) by (unfold rh; cbn; lia).
  assert (Vrh : 2 * Vabs rh = Vabs r).
  { rewrite Er. unfold rh. cbn [Vabs]. unfold Vfin.
    replace (er + 1074) with (1 + (er - 1 + 1074)) by lia.
    rewrite (pow2_split 1 (er - 1 + 1074)) by lia. change (2 ^ 1) with 2. ring. }
  rewrite (mul_half_exact r rh Nr Nrh) by (fold K; lia).
  assert (Hrh0 : 0 < Vabs rh) by lia.
  destruct (div_bounds (Double.of_Z d) rh Nd Nrh) as [Cq [Hql _]].
  { rewrite Vd. pose proof (pow2_pos 960 ltac:(lia)). nia. }
  destruct (Hql (2 ^ 52) (-51) ltac:(lia) ltac:(lia)) as [Hi | Hge].
  - change (Vfin (2 ^ 52) (-51)) with (2 * K). rewrite Vd. fold K. nia.
  - rewrite Hi. reflexivity.
  - destruct Cq as [Hi | Nq]; [rewrite Hi; reflexivity|].
    apply leb_normal_pos; [exact Nt | exact Nq |].
    rewrite Vt. change (Vfin (2 ^ 52) (-51)) with (2 * K) in Hge. exact Hge.
Qed.

(** X24. A balanced stream whose number of runs is far from [n / 2]
    fails the runs test in its second stage: with as many ones as zeros
    the proportion is exactly [0.5] and the frequency pre-check does not
    fire, the expected number of runs is exactly [n / 2], and the
    statistic is at least 2 as soon as [(2 runs - n)^2 >= 8 n].  A
    strictly alternating stream is such a stream. *)
Theorem runs_balanced_far_fails :
  forall (w : list Z) (len : Z),
    buffer_ok w len -> 1 <= len -> len * 32 <= INT_MAX ->
    let n := 32 * len in
    let ones := count_ones (bits w len) in
    let runs := count_runs (bits w len) in
    2 * ones = n -> 8 * n <= (2 * runs - n) * (2 * runs - n) ->
    runs_pi w len = Double.half
    /\ (Double.fabs (runs_pi w len - Double.half)
        >? Double.two / Double.sqrt (Double.of_Z n))%D = false
    /\ nist_runs erfc w len = 0.
Proof.
  intros w len Hok Hlen Hint n ones runs Hbal Hfar. unfold INT_MAX in Hint.
  assert (Hrb : 1 <= runs <= n).
  { subst runs. unfold bits.
    pose proof (count_runs_bounds (bits_prefix w (Z.to_nat (len * 32)))) as Hb.
    rewrite bits_prefix_length in Hb.
    destruct (Z.to_nat (len * 32)) as [|k] eqn:Ek; [lia|].
    rewrite (bits_prefix_S w k) in *.
    destruct (bits_prefix w k) as [|x l]; cbn [app] in *;
      [pose proof (count_runs_pos (bit_at w (Z.of_nat k)) [])
      |pose proof (count_runs_pos x (l ++ [bit_at w (Z.of_nat k)]))];
      subst n; lia. }
  destruct (runs_loop_counts w len Hlen ltac:(lia)) as [Hones Hruns].
  { fold runs. unfold INT_MAX. subst n. lia. }
  fold ones in Hones. fold runs in Hruns.
  assert (Hn : wrap_u64 (len * 32) = n) by (rewrite wrap_u64_small; subst n; lia).
  assert (Hpi : runs_pi w len = Double.half).
  { unfold runs_pi. rewrite Hones, Hn, <- Hbal.
    apply half_of_int; subst n; lia. }
  assert (Hpre : (Double.fabs (Double.half - Double.half)
                  >? Double.two / Double.sqrt (Double.of_Z n))%D = false).
  { change (Double.fabs (Double.half - Double.half))%D with Double.zero.
    unfold Double.gtb. fold (Double.ltb (Double.two / Double.sqrt (Double.of_Z n))%D
                               Double.zero).
    apply sign_clear_not_below_zero, div_sign_clear; [reflexivity|].
    apply sqrt_sign_clear, of_Z_sign_clear. subst n. lia. }
  split; [exact Hpi | split; [rewrite Hpi; exact Hpre|]].
  unfold nist_runs. rewrite Hpi, Hn, Hpre, Hruns. unfold verdict.
  rewrite erfc_tail; [reflexivity|].
  rewrite <- Hbal. apply runs_balanced_statistic; subst n; lia.
Qed.

End RunsVerdicts.

Lemma runs_balanced_far_fails_witness :
  (forall x, Double.leb Double.two x = true ->
     ((fun x => if Double.leb Double.two x then Double.zero else Double.one) x
      >=? Double.alpha)%D = false)
  /\ buffer_ok [2863311530] 1 /\ 1 <= 1 /\ 1 * 32 <= INT_MAX
  /\ 2 * count_ones (bits [2863311530] 1) = 32 * 1
  /\ 8 * (32 * 1)
     <= (2 * count_runs (bits [2863311530] 1) - 32 * 1)
        * (2 * count_runs (bits [2863311530] 1) - 32 * 1)
  /\ nist_runs
       (fun x => if Double.leb Double.two x then Double.zero else Double.one)
       [2863311530] 1 = 0.
Proof.
  assert (Ht : forall x, Double.leb Double.two x = true ->
     ((fun x => if Double.leb Double.two x then Double.zero else Double.one) x
      >=? Double.alpha)%D = false).
  { intros x Hx. cbv beta. rewrite Hx. reflexivity. }
  assert (Hok : buffer_ok [2863311530] 1).
  { split; [reflexivity | | reflexivity].
    repeat constructor; unfold word_ok; lia. }
  assert (Hlen : 1 <= 1) by lia.
  assert (Hint : 1 * 32 <= INT_MAX) by (unfold INT_MAX; lia).
  assert (Hbal : 2 * count_ones (bits [2863311530] 1) = 32 * 1)
    by (vm_compute; reflexivity).
  assert (Hfar : 8 * (32 * 1)
     <= (2 * count_runs (bits [2863311530] 1) - 32 * 1)
        * (2 * count_runs (bits [2863311530] 1) - 32 * 1))
    by (vm_compute; discriminate).
  split; [exact Ht | split; [exact Hok | split; [exact Hlen | split;
    [exact Hint | split; [exact Hbal | split; [exact Hfar|]]]]]].
  exact (proj2 (proj2 (runs_balanced_far_fails _ Ht [2863311530] 1
                         Hok Hlen Hint Hbal Hfar))).
Defined.

(** ** The serial test on uniformly distributed pairs *)

Lemma of_Z_scaled_add a b s :
  0 < a -> 0 < b -> a + b < 2 ^ 53 -> 0 <= s <= 900 ->
  (Double.of_Z (a * 2 ^ s) + Double.of_Z (b * 2 ^ s))%D
  = Double.of_Z ((a + b) * 2 ^ s).
Proof.
  intros Ha Hb Hab Hs.
  destruct (of_Z_exact_scaled a s ltac:(lia) Hs) as [Na Va].
  destruct (of_Z_exact_scaled b s ltac:(lia) Hs) as [Nb Vb].
  destruct (of_Z_exact_scaled (a + b) s ltac:(lia) Hs) as [Nc Vc].
  apply add_exact_pos; try assumption. rewrite Va, Vb, Vc. ring.
Qed.

(** [sum * c / n - n] vanishes when [sum * c = n^2]. *)
Lemma serial_psi_zero len (a s c : Z) :
  1 <= len -> len * 32 < 2 ^ 30 ->
  0 <= s <= 9 -> a = len * len * 2 ^ s -> c = 2 ^ (10 - s) ->
  let n := 32 * len in
  (Double.of_Z a * Double.of_Z c / Double.of_Z n - Double.of_Z n)%D = Double.zero.
Proof.
  intros Hlen Hn Hs Ha Hc n.
  assert (Hl2 : 0 < len * len < 2 ^ 53) by nia.
  destruct (of_Z_exact_scaled (len * len) s Hl2 ltac:(lia)) as [Na Va].
  rewrite <- Ha in Na, Va.
  destruct (of_Z_exact_scaled (len * len) 10 Hl2 ltac:(lia)) as [Nq Vq].
  replace (len * len * 2 ^ 10) with (n * n) in Nq, Vq by (subst n; ring).
  assert (Hac : a * c = n * n).
  { subst a c n. rewrite <- Z.mul_assoc, <- pow2_split by lia.
    replace (s + (10 - s)) with 10 by lia. ring. }
  pose proof (pow2_pos s ltac:(lia)) as Hps.
  pose proof (pow2_pos (10 - s) ltac:(lia)) as Hpc.
  assert (Hc4 : 2 <= c <= 2 ^ 10).
  { subst c. split.
    - change 2 with (2 ^ 1) at 1. apply pow2_le; lia.
    - apply pow2_le; lia. }
  destruct (small_int_normal c ltac:(lia)) as [NC VC].
  destruct (small_int_normal n ltac:(subst n; lia)) as [Nn Vn].
  set (K := 2 ^ 1074) in *.
  assert (HK : 0 < K) by (apply pow2_pos; lia).
  assert (E1 : (Double.of_Z a * Double.of_Z c)%D = Double.of_Z (n * n)).
  { apply mul_exact_pos; try assumption.
    - fold K. rewrite Va. nia.
    - fold K. rewrite VC. nia.
    - fold K. rewrite Va, VC, Vq, <- Hac. ring. }
  rewrite E1.
  assert (E2 : (Double.of_Z (n * n) / Double.of_Z n)%D = Double.of_Z n).
  { apply div_exact; try assumption.
    - rewrite Vn, Vq. pose proof (pow2_pos 960 ltac:(lia)).
      assert (n <= n * n) by nia. nia.
    - fold K. rewrite Vq, Vn. ring. }
  rewrite E2.
  destruct (normal_pos_inv _ Nn) as [m [e [En _]]].
  apply sub_self. exists false, m, e. exact En.
Qed.

Lemma serial_denominator_finite n :
  1 <= n < 2 ^ 31 ->
  exists m e,
    (Double.two * Double.sqrt (Double.two * Double.of_Z n))%D
    = S754_finite false m e.
Proof.
  intros Hn.
  rewrite double_int_exact by lia.
  destruct (small_int_normal (2 * n) ltac:(lia)) as [N2 V2].
  set (K := 2 ^ 1074) in *.
  assert (HK : 0 < K) by (apply pow2_pos; lia).
  destruct (sqrt_bounds (Double.of_Z (2 * n)) N2) as [Nr [Hrl Hru]].
  set (r := Double.sqrt (Double.of_Z (2 * n))) in *.
  assert (Hr1 : K <= Vabs r).
  { change K with (Vfin (2 ^ 52) (-52)).
    apply Hrl; [lia | lia |]. change (Vfin (2 ^ 52) (-52)) with K.
    rewrite V2. fold K. nia. }
  assert (Hr2 : Vabs r <= 2 ^ 26 * K).
  { change (2 ^ 26 * K) with (Vfin (2 ^ 52) (-26)).
    apply Hru; [lia | lia |]. change (Vfin (2 ^ 52) (-26)) with (2 ^ 26 * K).
    rewrite V2. fold K. nia. }
  destruct (normal_pos_inv r Nr) as [mr [er [Er [Hmr Her]]]].
  assert (Her2 : er <= 0).
  { apply (normal_exp_upper (Zpos mr) er 52); [lia | lia |].
    change (2 ^ (52 + 1074)) with (2 ^ 52 * K).
    rewrite Er in Hr2. cbn [Vabs] in Hr2. nia. }
  set (d := S754_finite false mr (er + 1)).
  assert (Nd : normal_pos d) by (unfold d; cbn; lia).
  assert (Vd : Vabs d = 2 * Vabs r).
  { rewrite Er. unfold d. cbn [Vabs]. unfold Vfin.
    replace (er + 1 + 1074) with (1 + (er + 1074)) by lia.
    rewrite (pow2_split 1 (er + 1074)) by lia. change (2 ^ 1) with 2. ring. }
  destruct two_normal as [Nt Vt]. fold K in Vt.
  exists mr, (er + 1). fold d.
  apply mul_exact_pos; try assumption.
  - fold K. lia.
  - fold K. rewrite Vt, Vd. ring.
Qed.

Section SerialUniform.

Variable erfc : Double.double -> Double.double.
Hypothesis erfc_zero : (erfc Double.zero >=? Double.alpha)%D = true.

(** X25. A stream in which the four two-bit patterns are equally
    frequent passes the serial test with the statistic exactly 0: its
    ones and zeros are then balanced as well, [psi1] and [psi2] are both
    computed as exactly 0, and the verdict is that of [erfc 0]. *)
Theorem serial2_uniform_pairs_pass :
  forall (w : list Z) (len q : Z),
    buffer_ok w len -> 1 <= len -> len * 32 < 2 ^ 30 ->
    ss_c2 (serial_counts w len) = [q; q; q; q] ->
    4 * q = 32 * len
    /\ ss_c1 (serial_counts w len) = [2 * q; 2 * q]
    /\ nist_serial2 erfc w len = 1.
Proof.
  intros w len q Hok Hlen Hn Hq.
  pose proof (buf_bits _ _ Hok) as Hbits.
  set (n := 32 * len).
  set (st := serial_counts w len) in *.
  pose proof (serial_c2_tallies w len Hok Hlen) as Ht. fold n st in Ht.
  rewrite Hq in Ht. unfold tallies in Ht. cbn [map] in Ht.
  injection Ht as T0 T1 T2 T3.
  set (k := Z.to_nat (len * 32)).
  assert (Hnk : n = Z.of_nat k) by (subst n k; lia).
  assert (Htot : 4 * q = n).
  { pose proof (tallies_total (map (pair_pattern w) (cyclic_pairs n))) as H.
    assert (Hlen' : Z.of_nat (length (map (pair_pattern w) (cyclic_pairs n))) = n).
    { unfold cyclic_pairs. rewrite !length_map, zrange_length. subst n. lia. }
    rewrite Hlen', <- T0, <- T1, <- T2, <- T3 in H. rewrite <- H; [lia|].
    apply Forall_forall. intros x Hx. apply in_map_iff in Hx.
    destruct Hx as [p [<- _]]. apply pattern_range. }
  assert (Hones : count_ones (bits w len) = 2 * q).
  { pose proof (pattern_first_bit w (cyclic_pairs n)) as H1.
    rewrite <- T2, <- T3 in H1. rewrite Hnk, cyclic_first_bits in H1.
    unfold bits. fold k. lia. }
  assert (Hc1 : ss_c1 st = [2 * q; 2 * q]).
  { subst st. unfold serial_counts, for_upto. cbn [ss_c1].
    rewrite bit_count_in_range by assumption. fold k.
    rewrite serial_c1_inv by lia.
    change (bits_prefix w k) with (bits w len). rewrite Hones, <- Hnk.
    f_equal. lia. }
  split; [exact Htot | split; [exact Hc1|]].
  assert (Hq8 : q = 8 * len) by (subst n; lia).
  unfold nist_serial2. fold st. rewrite Hc1, Hq.
  rewrite serial_psi2_sum_cases.
  change (array_get [2 * q; 2 * q] 0) with (2 * q).
  change (array_get [2 * q; 2 * q] 1) with (2 * q).
  assert (Hqq : wrap_u64 (q * q) = len * len * 2 ^ 6).
  { rewrite wrap_u64_small by nia. change (2 ^ 6) with 64. lia. }
  assert (H2q : wrap_u64 (wrap_u64 (2 * q * (2 * q)) + wrap_u64 (2 * q * (2 * q)))
                = len * len * 2 ^ 9).
  { assert (E : 2 * q * (2 * q) = len * len * 256) by lia.
    rewrite E. rewrite (wrap_u64_small (len * len * 256)) by nia.
    rewrite wrap_u64_small by nia. change (2 ^ 9) with 512. lia. }
  assert (Hdn : wrap_u64 (2 * q + 2 * q) = n)
    by (rewrite wrap_u64_small; subst n; lia).
  rewrite Hqq, H2q, Hdn.
  assert (Hl2 : 0 < len * len /\ 4 * (len * len) < 2 ^ 53) by nia.
  destruct (of_Z_exact_scaled (len * len) 6 ltac:(lia) ltac:(lia)) as [Na _].
  destruct (normal_pos_inv _ Na) as [ma [ea [Ea _]]].
  assert (Esum : (Double.zero + Double.of_Z (len * len * 2 ^ 6)
                  + Double.of_Z (len * len * 2 ^ 6)
                  + Double.of_Z (len * len * 2 ^ 6)
                  + Double.of_Z (len * len * 2 ^ 6))%D
                 = Double.of_Z (len * len * 2 ^ 8)).
  { replace (Double.zero + Double.of_Z (len * len * 2 ^ 6))%D
      with (Double.of_Z (len * len * 2 ^ 6)) by (rewrite Ea; reflexivity).
    rewrite of_Z_scaled_add by lia.
    rewrite of_Z_scaled_add by lia.
    rewrite of_Z_scaled_add by lia.
    f_equal. change (2 ^ 8) with (4 * 2 ^ 6). ring. }
  rewrite Esum.
  change Double.two with (Double.of_Z 2) at 1.
  change Double.four with (Double.of_Z 4).
  pose proof (serial_psi_zero len (len * len * 2 ^ 9) 9 2 Hlen Hn
                ltac:(lia) eq_refl eq_refl) as P1.
  pose proof (serial_psi_zero len (len * len * 2 ^ 8) 8 4 Hlen Hn
                ltac:(lia) eq_refl eq_refl) as P2.
  cbv zeta in P1, P2. fold n in P1, P2. rewrite P1, P2.
  change (Double.fabs (Double.zero - Double.zero))%D with Double.zero.
  destruct (serial_denominator_finite n ltac:(subst n; lia)) as [md [ed Ed]].
  rewrite Ed.
  change (Double.zero / S754_finite false md ed)%D with Double.zero.
  unfold verdict. rewrite erfc_zero. reflexivity.
Qed.

End SerialUniform.

Lemma serial2_uniform_pairs_pass_witness :
  ((fun _ : Double.double => Double.one) Double.zero >=? Double.alpha)%D = true
  /\ buffer_ok [858993459] 1 /\ 1 <= 1 /\ 1 * 32 < 2 ^ 30
  /\ ss_c2 (serial_counts [858993459] 1) = [8; 8; 8; 8]
  /\ nist_serial2 (fun _ => Double.one) [858993459] 1 = 1.
Proof.
  assert (He : ((fun _ : Double.double => Double.one) Double.zero >=? Double.alpha)%D
               = true) by reflexivity.
  assert (Hok : buffer_ok [858993459] 1).
  { split; [reflexivity | | reflexivity].
    repeat constructor; unfold word_ok; lia. }
  assert (Hlen : 1 <= 1) by lia.
  assert (Hn : 1 * 32 < 2 ^ 30) by lia.
  assert (Hq : ss_c2 (serial_counts [858993459] 1) = [8; 8; 8; 8])
    by (vm_compute; reflexivity).
  split; [exact He | split; [exact Hok | split; [exact Hlen | split;
    [exact Hn | split; [exact Hq|]]]]].
  exact (proj2 (proj2 (serial2_uniform_pairs_pass _ He [858993459] 1 8
                         Hok Hlen Hn Hq))).
Defined.

(** ** The cumulative-sums column of the driver *)

Section CusumColumn.

Variable erfc : Double.double -> Double.double.
Hypothesis erfc_range :
  forall x, x <> S754_nan -> nonneg_finite (erfc x) = true.
Hypothesis erfc_decreasing :
  forall x y, Double.leb x y = true -> Double.leb (erfc y) (erfc x) = true.

Lemma driver_sample_cusum {G : Type} (next : G -> Z * G) (inv : G -> Prop)
    sample_size buffer acc g :
  (forall h, inv h -> word_ok (fst (next h)) /\ inv (snd (next h))) ->
  inv g -> In sample_size Driver.sample_sizes ->
  Z.of_nat (length buffer) = sample_size ->
  Driver.cumulative_sums (fst (Driver.sample erfc next sample_size buffer acc g))
  = (Driver.cumulative_sums acc + Double.one)%D
  /\ inv (snd (Driver.sample erfc next sample_size buffer acc g)).
Proof.
  intros Hstep Hg Hin Hl.
  destruct (sample_sizes_range sample_size Hin) as [Hs _].
  unfold Driver.sample.
  rewrite fill_outputs by lia.
  destruct (outputs_words next inv Hstep (Z.to_nat sample_size) g Hg) as [Hw Hi].
  cbn [fst snd Driver.cumulative_sums].
  split; [|exact Hi].
  set (buf := outputs next (Z.to_nat sample_size) g) in *.
  assert (Hok : buffer_ok buf sample_size).
  { split; [| exact Hw | lia].
    subst buf. rewrite outputs_length. lia. }
  pose proof (cusum_zmax_pos buf sample_size ltac:(lia) ltac:(lia)) as Hz.
  assert (Hfit : (32 * sample_size - cusum_zmax buf sample_size)
                 / (4 * cusum_zmax buf sample_size) < INT_MAX).
  { apply Z.div_lt_upper_bound; [lia|]. unfold INT_MAX. nia. }
  destruct (cusum_passes erfc erfc_range erfc_decreasing buf sample_size Hok
              ltac:(lia) Hfit) as [_ ->].
  reflexivity.
Qed.

(** X26. Every row of the table [main] prints shows 1.00 in the
    cumulative-sums column, for every generator and every seed: each of
    the ten samples of a row passes the test, the ten verdicts add up to
    exactly 10.0 and their average is exactly 1.0. *)
Theorem driver_cusum_column_constant :
  forall (G : Type) (next : G -> Z * G) (inv : G -> Prop)
         (sample_size : Z) (junk : Z -> list Z) (g : G),
    (forall h, inv h -> word_ok (fst (next h)) /\ inv (snd (next h))) ->
    inv g -> In sample_size Driver.sample_sizes ->
    (forall i, Z.of_nat (length (junk i)) = sample_size) ->
    Driver.cumulative_sums (fst (Driver.row_sums erfc next sample_size junk g))
    = Double.of_Z 10
    /\ Driver.cumulative_sums (fst (Driver.row erfc next sample_size junk g))
       = Double.one.
Proof.
  intros G next inv n junk g Hstep Hg Hin Hj.
  assert (Hloop : forall k : nat, (k <= 10)%nat ->
            let st := for_range 0 k
                        (fun i '(acc, g) => Driver.sample erfc next n (junk i) acc g)
                        (Driver.zero_sums, g) in
            Driver.cumulative_sums (fst st) = Double.of_Z (Z.of_nat k)
            /\ inv (snd st)).
  { induction k as [|k IH]; intros Hk; cbv zeta.
    - split; [reflexivity | exact Hg].
    - rewrite for_range_snoc.
      destruct (IH ltac:(lia)) as [IHc IHi].
      destruct (for_range 0 k _ (Driver.zero_sums, g)) as [acc h].
      cbn [fst snd] in IHc, IHi.
      destruct (driver_sample_cusum next inv n (junk (0 + Z.of_nat k)) acc h
                  Hstep IHi Hin (Hj _)) as [Hc Hi].
      split; [|exact Hi].
      rewrite Hc, IHc.
      destruct k as [|k]; [reflexivity|].
      change Double.one with (Double.of_Z 1).
      rewrite of_Z_add by lia. f_equal. lia. }
  assert (Hsum : Driver.cumulative_sums
                   (fst (Driver.row_sums erfc next n junk g)) = Double.of_Z 10).
  { unfold Driver.row_sums, for_upto.
    exact (proj1 (Hloop 10%nat ltac:(lia))). }
  split; [exact Hsum|].
  unfold Driver.row.
  destruct (Driver.row_sums erfc next n junk g) as [acc h].
  cbn [fst] in *. unfold Driver.averages. cbn [Driver.cumulative_sums].
  rewrite Hsum. reflexivity.
Qed.

End CusumColumn.

Lemma driver_cusum_column_constant_witness :
  (forall x, x <> S754_nan ->
     nonneg_finite
       ((fun x => if Double.ltb x Double.zero then Double.two else Double.zero) x)
     = true)
  /\ (forall x y, Double.leb x y = true ->
        Double.leb
          ((fun x => if Double.ltb x Double.zero then Double.two else Double.zero) y)
          ((fun x => if Double.ltb x Double.zero then Double.two else Double.zero) x)
        = true)
  /\ In 1000 Driver.sample_sizes
  /\ (forall i : Z, Z.of_nat (length ((fun _ => repeat 0 1000) i)) = 1000)
  /\ Driver.cumulative_sums
       (fst (Driver.row
               (fun x => if Double.ltb x Double.zero then Double.two else Double.zero)
               LCG.next 1000 (fun _ => repeat 0 1000) (LCG.make 1234)))
     = Double.one.
Proof.
  assert (Hr : forall x, x <> S754_nan ->
     nonneg_finite
       ((fun x => if Double.ltb x Double.zero then Double.two else Double.zero) x)
     = true).
  { intros x _. cbv beta. destruct (Double.ltb x Double.zero); reflexivity. }
  assert (Hd : forall x y, Double.leb x y = true ->
        Double.leb
          ((fun x => if Double.ltb x Double.zero then Double.two else Double.zero) y)
          ((fun x => if Double.ltb x Double.zero then Double.two else Double.zero) x)
        = true).
  { intros x y. cbv beta.
    destruct x as [[|]|[|]| |[|] mx ex], y as [[|]|[|]| |[|] my ey];
      try reflexivity; try discriminate. }
  assert (Hin : In 1000 Driver.sample_sizes) by (left; reflexivity).
  assert (Hj : forall i : Z, Z.of_nat (length ((fun _ => repeat 0 1000) i)) = 1000).
  { intros i. cbv beta. rewrite repeat_length. reflexivity. }
  split; [exact Hr | split; [exact Hd | split; [exact Hin | split; [exact Hj|]]]].
  refine (proj2 (driver_cusum_column_constant _ Hr Hd LCG.t LCG.next
                   (fun _ => True) 1000 _ (LCG.make 1234) _ I Hin Hj)).
  intros h _. split; [|exact I].
  unfold LCG.next. cbn [fst]. unfold LCG.step. apply wrap_u32_range.
Defined.

(** ** The monobit test beyond the range of [int] *)



(** ** Runs: the two stages *)







(** *** A stream of two-bit runs *)





(** ** The mean and its two roundings *)

Lemma of_Z_rounds z : 0 <= z < 2 ^ 64 -> rounds_to z 1 (Double.of_Z z).
Proof.
  intros Hz. destruct (Z.eq_dec z 0) as [-> | Hnz]; [left; split; reflexivity|].
  right. pose proof (of_Z_normal z ltac:(lia)) as Nz.
  destruct (of_Z_bounds z) as [_ [Hl Hu]].
  { pose proof (pow2_le 64 1024 ltac:(lia)). lia. }
  split; [lia | split; [exact Nz|]].
  intros mb eb Hmb Heb. unfold Vfin in Hl, Hu.
  change (2 ^ (0 + 1074)) with (2 ^ 1074) in Hl, Hu. split; intros H.
  - destruct (Hl mb eb Hmb Heb) as [Hi | Hge]; [unfold Vfin in *; lia | |].
    + rewrite Hi in Nz. contradiction.
    + exact Hge.
  - apply (Hu mb eb Hmb Heb). unfold Vfin in *. lia.
Qed.

Lemma div_rounds x y :
  normal_pos x -> normal_pos y -> Vabs y <= Vabs x * 2 ^ 960 ->
  normal_pos (x / y)%D ->
  rounds_to (Vabs x) (Vabs y) (x / y)%D.
Proof.
  intros Nx Ny Hxy Nq. right.
  destruct (div_bounds x y Nx Ny Hxy) as [_ [Hl Hu]].
  assert (Hx : 0 < Vabs x).
  { destruct (normal_pos_inv x Nx) as [m [e [-> [Hm He]]]].
    cbn [Vabs]. apply Vfin_pos; lia. }
  split; [exact Hx | split; [exact Nq|]].
  intros mb eb Hmb Heb. split; intros H.
  - destruct (Hl mb eb Hmb Heb H) as [Hi | Hge]; [|exact Hge].
    rewrite Hi in Nq. contradiction.
  - apply (Hu mb eb Hmb Heb H).
Qed.

(** C8. For [1 <= n <= INT_MAX] samples ([n] is an [int]): the 64-bit
    accumulator holds the exact sum of the first [k] samples after [k]
    additions (it never wraps), and the value returned is
    [(double)sum / n]: the exact sum is rounded once by the conversion
    to double and the quotient is rounded once more.  The exact rational
    [sum / n] lies in [0, 2^32) and so does the double returned.  When the
    sum is below [2^53] the conversion is exact, so the result is the
    rational [sum / n] after a single rounding, and it is the exact mean
    whenever that is an integer. *)
Theorem mean_rounded_in_range :
  forall (data : list Z) (n : Z),
    buffer_ok data n -> 1 <= n <= INT_MAX ->
    let total := list_sum data in
    (forall k : nat, (k <= length data)%nat ->
       mean_sum data (Z.of_nat k) = list_sum (firstn k data)
       /\ 0 <= list_sum (firstn k data) < 2 ^ 64)
    /\ mean_sum data n = total
    /\ mean data n = (Double.of_Z total / Double.of_Z n)%D
    /\ (0 <= total # Z.to_pos n)%Q
    /\ (total # Z.to_pos n < inject_Z (2 ^ 32))%Q
    /\ (mean data n >=? Double.zero)%D = true
    /\ Double.ltb (mean data n) (Double.of_Z (2 ^ 32)) = true
    /\ rounds_to total 1 (Double.of_Z total)
    /\ rounds_to (Vabs (Double.of_Z total)) (n * 2 ^ 1074) (mean data n)
    /\ (total < 2 ^ 53 -> rounds_to total n (mean data n))
    /\ (total < 2 ^ 53 ->
        forall q, total = q * n -> mean data n = Double.of_Z q).
Proof.
  intros data n Hok Hn total.
  pose proof (buf_len _ _ Hok) as Hlen. pose proof (buf_words _ _ Hok) as Hw.
  destruct (mean_exact_sum data n Hok Hn) as [Hsum Hmean].
  pose proof (list_sum_data_bounds data n Hok) as Hb. fold total in Hsum, Hmean, Hb.
  assert (Hn' : 1 <= n <= 2 ^ 31 - 1) by (unfold INT_MAX in Hn; lia).
  set (K := 2 ^ 1074). assert (HK : 0 < K) by (apply pow2_pos; lia).
  destruct (small_int_normal n ltac:(lia)) as [Nn Vn]. fold K in Vn.
  assert (Hzero : total = 0 -> mean data n = S754_zero false).
  { intros E0. rewrite Hmean, E0.
    destruct (of_Z_exp n ltac:(lia)) as [mn [en [En _]]]. rewrite En. reflexivity. }
  assert (Hround : rounds_to (Vabs (Double.of_Z total)) (n * K) (mean data n)).
  { destruct (Z.eq_dec total 0) as [E0 | N0].
    - left. split; [rewrite E0; reflexivity | now apply Hzero].
    - destruct (mean_class data n Hok Hn ltac:(fold total; lia)) as [Nm _].
      pose proof (of_Z_normal total ltac:(lia)) as NS.
      rewrite <- Vn. rewrite Hmean in *.
      apply div_rounds; try assumption.
      destruct (of_Z_rounds total ltac:(lia)) as [[E _] | [_ [_ Hcl]]]; [lia|].
      destruct (Hcl (2 ^ 52) (-52) ltac:(lia) ltac:(lia)) as [Hlo _].
      change (Vfin (2 ^ 52) (-52)) with K in Hlo.
      specialize (Hlo ltac:(fold K; nia)).
      rewrite Vn.
      assert (n * K <= K * 2 ^ 960)
        by (change (2 ^ 960) with (2 ^ 31 * 2 ^ 929); nia).
      pose proof (pow2_pos 960 ltac:(lia)). nia. }
  assert (Hsingle : total < 2 ^ 53 -> rounds_to total n (mean data n)).
  { intros Hs. destruct Hround as [[E Hz] | [Hpos [Nm Hcl]]].
    - left. split; [|exact Hz].
      destruct (Z.eq_dec total 0) as [E0 | N0]; [exact E0|].
      destruct (small_int_normal total ltac:(lia)) as [_ VS].
      rewrite VS in E. fold K in E. nia.
    - assert (Ht : 0 < total).
      { destruct (Z.eq_dec total 0) as [E0 | N0]; [|lia].
        rewrite E0 in Hpos. cbn in Hpos. lia. }
      destruct (small_int_normal total ltac:(lia)) as [_ VS]. fold K in VS.
      right. split; [exact Ht | split; [exact Nm|]].
      intros mb eb Hmb Heb. destruct (Hcl mb eb Hmb Heb) as [Hl Hu].
      rewrite VS in Hl, Hu. fold K in Hl, Hu. split; intros H.
      + apply Hl. replace (Vfin mb eb * (n * K)) with (Vfin mb eb * n * K) by ring.
        apply Z.mul_le_mono_nonneg_r; [lia | exact H].
      + apply Hu. replace (Vfin mb eb * (n * K)) with (Vfin mb eb * n * K) by ring.
        apply Z.mul_le_mono_nonneg_r; [lia | exact H]. }
  split; [|split; [exact Hsum | split; [exact Hmean | split; [|split; [|split;
    [|split; [|split; [|split; [exact Hround | split; [exact Hsingle|]]]]]]]]]].
  - intros k Hk. unfold mean_sum, for_upto. rewrite Nat2Z.id.
    rewrite mean_sum_prefix by (try assumption; unfold INT_MAX; lia).
    rewrite firstn_as_map by assumption.
    split; [reflexivity|].
    pose proof (prefix_sum_bounds data k Hw) as Hp.
    rewrite firstn_as_map in Hp by assumption. nia.
  - unfold Qle. simpl. lia.
  - unfold Qlt. cbn [Qnum Qden inject_Z]. rewrite Z2Pos.id by lia. nia.
  - destruct (Z.eq_dec total 0) as [E0 | N0].
    + rewrite (Hzero E0). reflexivity.
    + destruct (mean_class data n Hok Hn ltac:(fold total; lia)) as [Nm _].
      destruct (normal_pos_inv _ Nm) as [mm [em [-> _]]]. reflexivity.
  - destruct (Z.eq_dec total 0) as [E0 | N0].
    + rewrite (Hzero E0). vm_compute. reflexivity.
    + apply mean_below_two32; try assumption. fold total. lia.
  - apply of_Z_rounds. lia.
  - intros Hs q Hq.
    destruct (Hsingle Hs) as [[E Hz] | [Hpos [Nm Hcl]]].
    + assert (q = 0) by nia. subst q. rewrite Hz. reflexivity.
    + assert (Hq0 : 0 < q) by nia.
      assert (Hq1 : q < 2 ^ 53) by nia.
      destruct (small_int_normal q ltac:(lia)) as [Nq Vq]. fold K in Vq.
      destruct (normal_pos_inv _ Nq) as [mq [eq [Eq [Hmq Heq]]]].
      assert (VQ : Vfin (Zpos mq) eq = q * K).
      { rewrite <- Vq, Eq. reflexivity. }
      destruct (Hcl (Zpos mq) eq Hmq Heq) as [Hl Hu].
      rewrite VQ in Hl, Hu. fold K in Hl, Hu.
      specialize (Hl ltac:(nia)). specialize (Hu ltac:(nia)).
      apply normal_pos_eq; try assumption. rewrite Vq. fold K. lia.
Qed.

Lemma mean_rounded_in_range_witness :
  buffer_ok [4294967295; 1; 2] 3 /\ 1 <= 3 <= INT_MAX
  /\ mean_sum [4294967295; 1; 2] 3 = 4294967298
  /\ mean [4294967295; 1; 2] 3 = Double.of_Z 1431655766.
Proof.
  assert (Hok : buffer_ok [4294967295; 1; 2] 3).
  { split; [reflexivity | | reflexivity].
    repeat constructor; unfold word_ok; lia. }
  assert (Hn : 1 <= 3 <= INT_MAX) by (unfold INT_MAX; lia).
  split; [exact Hok | split; [exact Hn|]].
  destruct (mean_rounded_in_range _ 3 Hok Hn)
    as [_ [Hs [_ [_ [_ [_ [_ [_ [_ [_ Hq]]]]]]]]]].
  split; [exact Hs|].
  apply Hq; reflexivity.
Defined.

(** The claim as first stated fails on a long buffer: with 2097153
    samples all equal to [2^32 - 1] the exact mean is [2^32 - 1], which
    is a double, but the sum exceeds [2^53] and is rounded when it is
    converted, and the value returned is the next double above,
    [4294967295.0000005]. *)
Lemma mean_constant_buffer_inexact :
  let data := repeat 4294967295 (Z.to_nat 2097153) in
  buffer_ok data 2097153
  /\ list_sum data = 4294967295 * 2097153
  /\ (mean data 2097153 =? Double.of_Z 4294967295)%D = false
  /\ Double.ltb (Double.of_Z 4294967295) (mean data 2097153) = true.
Proof.
  cbv zeta. remember (Z.to_nat 2097153) as N eqn:HN.
  assert (HNz : Z.of_nat N = 2097153) by (rewrite HN; apply Z2Nat.id; lia).
  set (data := repeat 4294967295 N).
  assert (Hok : buffer_ok data 2097153).
  { split.
    - unfold data. rewrite repeat_length. lia.
    - apply Forall_forall. intros y Hy. apply repeat_spec in Hy. subst y.
      unfold word_ok. lia.
    - lia. }
  assert (Hn : 1 <= 2097153 <= INT_MAX) by (unfold INT_MAX; lia).
  assert (Hsum : list_sum data = 4294967295 * 2097153).
  { unfold data. rewrite list_sum_repeat, HNz. reflexivity. }
  destruct (mean_exact_sum data 2097153 Hok Hn) as [_ Hmean].
  rewrite Hsum in Hmean.
  split; [exact Hok | split; [exact Hsum|]].
  rewrite Hmean. split; vm_compute; reflexivity.
Qed.
